(* ===== verification/_CoqProject ===== *)
-Q . S2P
Prelude.v
Atomic.v
CircuitBreaker.v
Text.v
Net.v
RateLimiter.v
Types.v
Router.v
Auth.v
Keys.v
Pool.v
Outlier.v
Http.v
Plan.v
Scan.v
Calendar.v
Budget.v
Proto.v
ConfigRoutes.v
Tls.v
L4.v
Udp.v
ConfigReceiver.v
LedgerKeys.v
Ledger.v
BudgetSystem.v
Resources.v
Hostnames.v
Policies.v
Objects.v
HttpRoute.v
Routes.v
AiResources.v
Caches.v
Gateways.v
PolicyKinds.v
Triggers.v
RouteCompiler.v
PolicyCompiler.v
Compiler.v
ControlPlane.v
Scope.v
Programmed.v
CompileLoop.v
EndToEnd.v
