(* ===== verification/Prelude.v ===== *)
(** * A verification of the Portus gateway

    Portus is a Kubernetes Gateway API implementation in Rust.  A controller
    ([crates/portus-controller]) compiles Gateway API resources into a
    configuration; data planes ([crates/portus-dataplane-core] for every
    decision, [crates/portus-dataplane] for the network stack) receive it,
    build a routing snapshot and proxy requests; a ledger
    ([crates/portus-ledger]) keeps API keys, usage and token budgets for AI
    routes.  This development models the decisions of the data plane, of the
    ledger and of the controller's reconcilers, store and compiler, and proves
    what makes them correct, up to the theorem that what the controller's
    store holds at rest is what a data plane runs.

    ** Files

    - [Prelude]: machine integers ([in_u], [as_u], wrapping and saturating
      arithmetic), [result] and its early-return notation, list and sorting
      lemmas, the [portus] rewrite and hint databases.
    - [Atomic]: the interface [CasObject] of an object behind one atomic word
      updated by a compare-and-swap loop, the machine that interleaves any
      number of calls access by access, and linearizability and counting
      lemmas proved once for all such objects.
    - [CircuitBreaker] ([circuit_breaker.rs]): the packed word, the breaker's
      three loops and the connection limiter as [CasObject]s.  Theorems:
      packing loses nothing; sequential runs refine an abstract breaker;
      opening exactly on a run of failures; one probe per trip and the slot
      bound in every interleaving; a half-open breaker can wedge.
    - [RateLimiter] ([rate_limiter.rs]): the token bucket and the per-client
      table.  Theorems: exactly the first [rps] calls of a second are granted
      to a caller alone; the bound does not survive contention; clients do not
      influence each other.
    - [Text], [Net]: what the code uses of Rust's strings (slices, splitting,
      trimming, integer parsing and printing, UTF-8) and of [std::net]
      (addresses, their order, parser and printer).
    - [Types] ([types.rs], [router.rs], parts of [ai/]): the data of the
      routing snapshot.  Objects the code shares through an [Arc] and mutates
      are references ([positive]) into the planner's store.
    - [Router] ([router.rs]): listener selection, wildcard hosts, route
      matching, rewriting, weighted rotation, client address, CORS
      negotiation.  Theorems: the most specific listener claims a host, the
      longest wildcard wins, prefixes match whole segments, weights are met
      exactly, forwarded addresses cannot be spoofed.
    - [Auth] ([auth.rs]): basic and API-key authentication, base64 decoding
      proved against an encoder.
    - [Keys] ([jwt.rs], [ai/jwt.rs], [ai/keys.rs]): token verification and its
      caches, API keys and allow lists.
    - [Pool] ([pool.rs]) and [Outlier] ([outlier.rs]): endpoint selection,
      health, ejection and its timers over pools shared by reference.
    - [Http] ([plan.rs], [ext_auth.rs]): replies, header mutations behind the
      interface [HeaderSink], the external authorization check.
    - [Plan] ([plan.rs], [spawn_mirror_request] of [router.rs]): the whole of
      [plan_request], one definition per phase, over a [store] of pools,
      buckets, breakers, limiters, verifiers and mirrors.  Theorems: a
      forwarded request passed every gate; a connection slot is held exactly
      by the plan that carries it; refused requests spend nothing; a full
      limiter loses the breaker's probe; credentials never go to a wildcard
      origin.

    - [Scan] ([ai/scan.rs]): the streaming scanner that takes chosen fields out
      of a JSON body that arrives in chunks, with its chunk-wise loops and the
      byte-wise machine they are proved equal to.  Theorems: on a well-formed
      object the scanner returns the first value of each wanted field; the
      result does not depend on how the body was cut, except where a number
      is malformed.
    - [Calendar], [Budget] ([ai/budget.rs]): civil dates, budget windows, the
      counters of a pod shared by reference, reservation, settlement and the
      exchange with the ledger as a step relation.  Theorems: the windows
      divide time; the verdict of a check is exact; what is reserved is what
      is outstanding; what is spent while an exchange fails can be lost.
    - [Proto] ([proto/portus/v1/config.proto]): the configuration message.
    - [ConfigRoutes] ([config_receiver.rs], [router.rs]): from the routes of a
      message to the routing snapshot, in an allocation monad over the
      planner's store.  Theorems: the rule that answers is the one the
      Gateway API's precedence names; listeners do not see each other's
      routes; rate limiters that are merged by a reload; address lists that
      filter nobody.
    - [Tls] ([tls.rs]): certificate loading, selection by server name, client
      certificate verifiers per port, the reload of watched files.
    - [L4] ([l4_proxy.rs]): which listener and route a TLS server name gets,
      the tables built from the configuration, the port manager over time.
    - [Udp] ([udp_proxy.rs]): the session table, its bound and its reaper.
    - [ConfigReceiver] ([config_receiver.rs]): pools, breakers and limiters
      reused across configurations, the whole of [apply_config], the decision
      which messages are applied, and validation.  Theorems: the running
      objects are those the last message asks for; what a message does not
      change keeps its state; validation is exact.

    - [LedgerKeys], [Ledger] ([portus-ledger], [portus.v1/ledger.proto]): the
      tables of the ledger's database as [gmap]s and its statements as
      functions on them; API keys from issue to revocation and the key stream
      to the data planes; spend, thresholds and the delivery of budget events.
      Theorems: a data plane accepts exactly the keys in force; a revocation is
      final; spend totals are exact; a threshold is reported once; an event is
      kept until it was answered.
    - [BudgetSystem]: data planes and ledger together, interleaved step by
      step.  Theorem: every token spent is accounted for once.
    - [Resources] ([store.rs], [policy_types.rs], [ai_types.rs]): the
      controller's store, its states and its events, and the interface
      [IterOrder] of the order in which a concurrent map is walked.
    - [Hostnames] ([compiler.rs], [reconcilers/http_route.rs],
      [reconcilers/mod.rs]): wildcard hostnames and their intersection,
      reference grants, the namespaces a listener admits.
    - [Policies], [PolicyKinds] ([reconcilers/*_policy.rs],
      [policy_common.rs]): the common reconcile of the policies with its
      conflicts and events, and what each kind extracts and checks.
      Theorems: the oldest policy of a target wins; once events are served
      all statuses are settled; the exchange of events terminates.
    - [Objects] ([store.rs], [reconcilers/mod.rs], [status.rs], [registry.rs]):
      the store as reconcilers write it ([World]: maps, dirty flag and events),
      the state of a route of any kind, and the status of a route.
    - [HttpRoute], [Routes] ([reconcilers/http_route.rs], [grpc_route.rs],
      [tls_route.rs], [l4_route.rs]): binding to listeners, conversion,
      backends, stored state and status of every route kind.
    - [AiResources] ([reconcilers/ai_provider.rs], [ai_route.rs]): providers
      with their endpoints, and AI routes.  Theorem: the stored providers are
      well formed whatever object is reconciled.
    - [Caches] ([reconcilers/gateway_class.rs], [namespace.rs], [configmap.rs],
      [reference_grant.rs], [service.rs], [endpointslice.rs], [secret.rs],
      [main.rs]): objects copied into the store for others, and the prune.
    - [Gateways] ([reconcilers/gateway.rs], [listener_set.rs]): listeners,
      certificates, client validation, precedence of ListenerSets, attached
      routes and status.  Theorem: conflicts between listeners are exact.
    - [Triggers] ([triggers.rs], [main.rs]): which objects an event re-runs,
      and the HTTPRoute controller as a system of objects, queue and events.
      Theorem: however the other reconcilers interleave, working off what is
      pending leaves every route stored as the store asks for; examples show
      the changes that no event tells of.
    - [RouteCompiler], [PolicyCompiler], [Compiler] ([compiler.rs]): routes,
      attached policies, listeners, TLS and layer-4 routes, backend groups,
      AI routes and the whole of [compile_config].  Theorems: a route serves
      the hostnames of the listeners it is attached to; a backend in another
      namespace is granted; authentication and external authorization
      policies reach every route they are attached to; of two layer-4 routes
      on a port the oldest wins.
    - [ControlPlane]: reconcilers against the compiler.  Theorems: a parent is
      reported accepted exactly where the compiler serves the route; every
      certificate that is sent out is local or granted.
    - [Scope] ([grpc_server.rs], [compiler.rs]): the slice of the
      configuration one Gateway's data planes receive and its fingerprint.
    - [Programmed] ([grpc_server.rs], [store.rs]): which data planes applied
      which slice and when a Gateway is reported programmed.
    - [CompileLoop] ([main.rs], [grpc_server.rs]): the compile loop, the
      stream of configurations and the reports of the data planes.
    - [EndToEnd]: composition of the compile loop, the slice, the stream and
      [ConfigReceiver].  Theorem: once the store is quiet and the last item
      was delivered, the data plane runs the compiled slice of its Gateway.

    ** Conventions

    Integers keep their width: a [u64] is a [Z] in [in_u 64], and wrapping,
    saturating and casting operations are written out.  [HashMap]s are
    [gmap]s, header maps are lists of pairs with lower-case names, strings and
    byte strings are [string].  Instants and durations are nanoseconds; clock
    readings are arguments.  Third-party crates ([http], [regex], [ipnet],
    [bcrypt], [jsonwebtoken], [sha2], the HTTP client) are class fields or
    section variables, so every theorem holds for each of their behaviours;
    the witnesses instantiate them.

    Loops over strings recurse on the string.  Three loops have fuel:
    [lookup_wildcard_loop] and [wildcard_route_loop], one unit more than the
    length of the name, where each round drops at least a byte (both are
    proved equal to a search that needs no fuel); the rounds of the scanner's
    [feed], two per byte and two more, which [feed_loop_run] proves to be
    enough for every chunk.  [drain] of [Triggers] needs none: it runs the
    events and the queue it finds once, which is proved to leave nothing.

    A reconcile, the delivery of an event and an eviction are one step each;
    two reconciles of one object do not overlap, as the runtime of the
    controllers guarantees.

    ** Not modelled

    Metrics, logging and trace spans decide nothing and are left out.  Sockets,
    TLS records, the Kubernetes watch and protobuf transport are input and
    output; so are the provisioner (its addresses are an argument of the
    Gateway reconciler), leader election, the ACME client and the reading of
    configuration files in standalone mode.  The life cycle of a request after
    its plan ([rama/proxy.rs]) is interleaved with the HTTP stack, and usage
    records and MCP federation work on JSON documents of a third-party crate;
    they are not modelled. *)
From stdpp Require Export base list option gmap strings pretty sorting.
From Stdlib Require Export ZArith Lia Ascii Bool.

#[export] Set Default Goal Selector "!".

(** ** Machine integers

    A Rust unsigned integer of [w] bits is a [Z]; [in_u w] is its range.
    The source uses three arithmetic disciplines on them, written out here:
    wrapping, saturating, and the unchecked [as] truncation. *)

Declare Scope rust_scope.
Delimit Scope rust_scope with rust.
Open Scope Z_scope.
Open Scope rust_scope.

Definition in_u (w x : Z) : Prop := 0 <= x < 2 ^ w.

(** [x as uN] *)
Definition as_u (w x : Z) : Z := x mod 2 ^ w.

(** [x as iN] *)
Definition as_i (w x : Z) : Z := (x + 2 ^ (w - 1)) mod 2 ^ w - 2 ^ (w - 1).

(** [a.wrapping_sub(b)], [a.wrapping_add(b)] at width [w] *)
Definition wrapping_sub (w a b : Z) : Z := (a - b) mod 2 ^ w.
Definition wrapping_add (w a b : Z) : Z := (a + b) mod 2 ^ w.

(** [a.saturating_add(b)] at width [w]; [a.saturating_sub(b)] at any width *)
Definition saturating_add (w a b : Z) : Z := Z.min (a + b) (2 ^ w - 1).
Definition saturating_sub (a b : Z) : Z := Z.max 0 (a - b).
Definition saturating_mul (w a b : Z) : Z := Z.min (a * b) (2 ^ w - 1).

Notation "a -w[ n ] b" := (wrapping_sub n a b)
  (at level 50, left associativity, format "a  -w[ n ]  b") : rust_scope.
Notation "a +s[ n ] b" := (saturating_add n a b)
  (at level 50, left associativity, format "a  +s[ n ]  b") : rust_scope.

(** ** Results

    [Result<A, E>] of the source. *)

Inductive result (A E : Type) : Type :=
| Ok (a : A)
| Err (e : E).
Arguments Ok {A E} a.
Arguments Err {A E} e.

Definition ok_or {A E} (o : option A) (e : E) : result A E :=
  match o with Some a => Ok a | None => Err e end.

Notation "'try!' x ':=' c 'in' k" :=
  (match c with Ok x => k | Err e => Err e end)
  (at level 10, x pattern, c at level 100, k at level 200) : rust_scope.

(** ** Tactics and hints *)

Create HintDb portus.
Create Rewrite HintDb portus.

(** Case analysis on the scrutinee of the next [match]/[if] in the goal. *)
Ltac split_match :=
  match goal with
  | |- context [match ?x with _ => _ end] =>
      lazymatch x with context [match _ with _ => _ end] => fail | _ => destruct x eqn:? end
  end.

(** Boolean comparisons of [Z] and [nat] to propositions, everywhere. *)
Ltac bool_to_prop :=
  repeat match goal with
  | H : andb _ _ = true |- _ => apply andb_true_iff in H; destruct H
  | H : andb _ _ = false |- _ => apply andb_false_iff in H
  | H : orb _ _ = false |- _ => apply orb_false_iff in H; destruct H
  | H : orb _ _ = true |- _ => apply orb_true_iff in H
  | H : negb _ = true |- _ => apply negb_true_iff in H
  | H : negb _ = false |- _ => apply negb_false_iff in H
  | H : (_ <=? _) = true |- _ => apply Z.leb_le in H
  | H : (_ <=? _) = false |- _ => apply Z.leb_gt in H
  | H : (_ <? _) = true |- _ => apply Z.ltb_lt in H
  | H : (_ <? _) = false |- _ => apply Z.ltb_ge in H
  | H : (_ =? _) = true |- _ => apply Z.eqb_eq in H
  | H : (_ =? _) = false |- _ => apply Z.eqb_neq in H
  | H : (_ >=? _) = _ |- _ => rewrite Z.geb_leb in H
  | H : (_ >? _) = _ |- _ => rewrite Z.gtb_ltb in H
  | H : bool_decide _ = true |- _ => apply bool_decide_eq_true in H
  | H : bool_decide _ = false |- _ => apply bool_decide_eq_false in H
  end.

Ltac solve_arith := bool_to_prop; unfold in_u, as_u, saturating_add, saturating_sub in *; lia.

(** ** Bit fields

    The atomics of the data plane pack several counters into one word with
    shifts and [|]; for disjoint fields that is addition. *)


Lemma land_shiftl_small a b n :
  0 <= n -> in_u n b -> Z.land (Z.shiftl a n) b = 0.
Proof.
  intros Hn Hb. apply Z.bits_inj'. intros i Hi.
  rewrite Z.land_spec, Z.bits_0, Z.shiftl_spec by done.
  destruct (Z.lt_ge_cases i n).
  - rewrite (Z.testbit_neg_r a) by lia. done.
  - replace b with (b mod 2 ^ n) by (apply Z.mod_small; exact Hb).
    rewrite Z.mod_pow2_bits_high by lia. apply andb_false_r.
Qed.

Lemma lor_shiftl_add a b n :
  0 <= n -> in_u n b -> Z.lor (Z.shiftl a n) b = a * 2 ^ n + b.
Proof.
  intros Hn Hb. rewrite <- Z.shiftl_mul_pow2 by done.
  pose proof (land_shiftl_small a b n Hn Hb) as H0.
  rewrite <- Z.lxor_lor by done. symmetry. by apply Z.add_nocarry_lxor.
Qed.

Lemma as_u_small w x : in_u w x -> as_u w x = x.
Proof. intros H. by apply Z.mod_small. Qed.

Lemma as_u_range w x : 0 <= w -> in_u w (as_u w x).
Proof. intros Hw. apply Z.mod_pos_bound. by apply Z.pow_pos_nonneg. Qed.

Lemma as_i_small w x : 0 < w -> - 2 ^ (w - 1) <= x < 2 ^ (w - 1) -> as_i w x = x.
Proof.
  intros Hw Hx. unfold as_i. assert (2 ^ w = 2 * 2 ^ (w - 1)).
  { replace w with (1 + (w - 1)) at 1 by lia. rewrite Z.pow_add_r by lia. done. }
  rewrite Z.mod_small by lia. lia.
Qed.

(** Signed truncation looks at the low bits only. *)
Lemma as_i_add_mult w x k : as_i w (x + k * 2 ^ w) = as_i w x.
Proof.
  unfold as_i. replace (x + k * 2 ^ w + 2 ^ (w - 1)) with (x + 2 ^ (w - 1) + k * 2 ^ w) by lia.
  by rewrite Z_mod_plus_full.
Qed.

Lemma as_i_sub w x y : 0 <= w -> as_i w (x - as_i w y) = as_i w (x - y).
Proof.
  intros Hw. set (k := (y + 2 ^ (w - 1)) / 2 ^ w).
  assert (as_i w y = y - k * 2 ^ w) as ->.
  { unfold as_i. pose proof (Z.pow_pos_nonneg 2 w). pose proof (Z.div_mod (y + 2 ^ (w - 1)) (2 ^ w)). lia. }
  replace (x - (y - k * 2 ^ w)) with (x - y + k * 2 ^ w) by lia. apply as_i_add_mult.
Qed.

Lemma as_i_as_u w x : 0 <= w -> as_i w (as_u w x) = as_i w x.
Proof.
  intros Hw. unfold as_u. pose proof (Z.pow_pos_nonneg 2 w). rewrite <- (as_i_add_mult w (x mod 2 ^ w) (x / 2 ^ w)).
  f_equal. pose proof (Z.div_mod x (2 ^ w)). lia.
Qed.

Lemma as_u_as_i w x : 0 <= w -> as_u w (as_i w x) = as_u w x.
Proof.
  intros Hw. unfold as_u, as_i. pose proof (Z.pow_pos_nonneg 2 w).
  rewrite Zminus_mod_idemp_l. f_equal. lia.
Qed.

#[export] Hint Resolve as_u_small as_u_range : portus.

(** ** Lists *)

(** How many elements satisfy a test. *)
Definition count {A} (f : A -> bool) (l : list A) : nat := length (List.filter f l).

Lemma count_nil {A} (f : A -> bool) : count f [] = 0%nat.
Proof. done. Qed.

Lemma count_app {A} (f : A -> bool) l1 l2 : count f (l1 ++ l2) = (count f l1 + count f l2)%nat.
Proof. unfold count. by rewrite List.filter_app, length_app. Qed.

Lemma count_cons {A} (f : A -> bool) x l :
  count f (x :: l) = (Nat.b2n (f x) + count f l)%nat.
Proof. unfold count. simpl. by destruct (f x). Qed.

(** Replacing one element changes the count by that element only. *)
Lemma count_insert {A} (f : A -> bool) (l : list A) i x y :
  l !! i = Some x ->
  (count f (<[i:=y]> l) + Nat.b2n (f x) = count f l + Nat.b2n (f y))%nat.
Proof.
  revert i. induction l as [|z l IH]; intros [|i] Hi; simplify_eq/=.
  - rewrite !count_cons. lia.
  - rewrite !count_cons. specialize (IH i Hi). lia.
Qed.

Lemma count_ext_Forall {A} (f g : A -> bool) l :
  Forall (fun x => f x = g x) l -> count f l = count g l.
Proof. induction 1 as [|x l Hx _ IH]; [done|]. by rewrite !count_cons, Hx, IH. Qed.

Lemma count_le {A} (f g : A -> bool) l : (forall x, x ∈ l -> f x = true -> g x = true) -> (count f l <= count g l)%nat.
Proof.
  induction l as [|x l IH]; [done|]. intros Hfg. rewrite !count_cons.
  assert (Hx : (Nat.b2n (f x) <= Nat.b2n (g x))%nat) by (destruct (f x) eqn:E; [rewrite (Hfg x)|]; simpl; [lia|by left|done|lia]).
  specialize (IH (fun y Hy => Hfg y (list_elem_of_further _ _ _ Hy))). lia.
Qed.

Lemma count_lt {A} (f g : A -> bool) l x :
  (forall x, x ∈ l -> f x = true -> g x = true) -> x ∈ l -> f x = false -> g x = true -> (count f l < count g l)%nat.
Proof.
  intros Hfg Hx Hf Hg. apply list_elem_of_split in Hx as (l1 & l2 & ->). rewrite !count_app, !count_cons, Hf, Hg. simpl.
  pose proof (count_le f g l1 ltac:(set_solver)). pose proof (count_le f g l2 ltac:(set_solver)). lia.
Qed.

Lemma count_pos {A} (f : A -> bool) l : (0 < count f l)%nat -> exists x, x ∈ l /\ f x = true.
Proof.
  induction l as [|x l IH]; [rewrite count_nil; lia|]. rewrite count_cons.
  destruct (f x) eqn:Hx.
  - intros _. exists x. split; [by left|done].
  - simpl. intros (y & ? & ?)%IH. exists y. split; [by right|done].
Qed.

Lemma eq_reflexivity {A} (l1 l2 : list A) : l1 = l2 -> l1 ≡ₚ l2.
Proof. by intros ->. Qed.

Lemma forallb_filter_id {A} (f : A -> bool) l : forallb f l = true -> List.filter f l = l.
Proof.
  induction l as [|x l IH]; simpl; [done|]. intros [-> Hl]%andb_true_iff. by rewrite IH.
Qed.

(** Induction in steps of three. *)
Lemma list_ind3 {A} (P : list A -> Prop) :
  P [] -> (forall a, P [a]) -> (forall a b, P [a; b]) ->
  (forall a b c l, P l -> P (a :: b :: c :: l)) -> forall l, P l.
Proof.
  intros H0 H1 H2 H3. fix IH 1. intros [|a [|b [|c l]]]; [done|apply H1|apply H2|apply H3, IH].
Qed.

(** Reading a list off at its positions gives the list back. *)
Lemma map_nth_seq {A B} (f : A -> B) (l : list A) d :
  map (fun i => f (List.nth i l d)) (seq 0 (length l)) = map f l.
Proof.
  induction l as [|x l IH]; [done|]. cbn [length seq map List.nth]. f_equal.
  rewrite <- seq_shift, List.map_map. exact IH.
Qed.

(** Residues of a window no longer than the modulus are distinct. *)
Lemma Z_mod_inj a b n : 0 < n -> Z.abs (a - b) < n -> a mod n = b mod n -> a = b.
Proof.
  intros Hn Hab Heq. pose proof (Z.div_mod a n). pose proof (Z.div_mod b n).
  assert (a / n - b / n = 0) by nia. nia.
Qed.

(** Visiting a list at positions [s, s+1, ...] modulo its length permutes it. *)
Lemma rotation_permutation {A B} (f : A -> B) (g : Z -> B) (eps : list A) (s : Z) :
  0 <= s ->
  (forall j i ep, (j < length eps)%nat -> eps !! i = Some ep ->
     (s + Z.of_nat j) mod Z.of_nat (length eps) = Z.of_nat i -> g (s + Z.of_nat j) = f ep) ->
  map (fun j => g (s + Z.of_nat j)) (seq 0 (length eps)) ≡ₚ map f eps.
Proof.
  intros Hs Hg. set (n := length eps) in *.
  set (idx j := Z.to_nat ((s + Z.of_nat j) mod Z.of_nat n)).
  assert (Hidx : map idx (seq 0 n) ≡ₚ seq 0 n).
  { apply Permutation.NoDup_Permutation_bis; [|by rewrite length_map|].
    - apply List.NoDup_map_NoDup_ForallPairs; [|apply List.seq_NoDup].
      intros a b Ha%List.in_seq Hb%List.in_seq Hab. unfold idx in Hab.
      apply Z2Nat.inj in Hab; try apply Z.mod_pos_bound; try lia.
      apply Z_mod_inj in Hab; lia.
    - intros i (j & <- & Hj%List.in_seq)%List.in_map_iff. apply List.in_seq. unfold idx.
      pose proof (Z.mod_pos_bound (s + Z.of_nat j) (Z.of_nat n)). lia. }
  destruct (decide (0 < n)%nat) as [Hpos|Hz]; [|destruct eps; [done|by destruct Hz; apply Nat.lt_0_succ]].
  destruct (lookup_lt_is_Some_2 eps 0 Hpos) as [e0 _].
  transitivity (map (fun i => f (List.nth i eps e0)) (map idx (seq 0 n))).
  - rewrite List.map_map. apply eq_reflexivity, List.map_ext_in.
    intros j Hj%List.in_seq.
    assert (Hlt : (idx j < n)%nat).
    { unfold idx. pose proof (Z.mod_pos_bound (s + Z.of_nat j) (Z.of_nat n)). lia. }
    destruct (lookup_lt_is_Some_2 eps (idx j) Hlt) as [ep Hep].
    rewrite (nth_lookup_Some _ _ e0 _ Hep). apply (Hg j (idx j)); [lia|done|].
    unfold idx. rewrite Z2Nat.id; [done|apply Z.mod_pos_bound; lia].
  - rewrite Hidx. apply eq_reflexivity. by apply map_nth_seq.
Qed.

(** Nothing below the head of a sorted list occurs in it. *)
Lemma count_lt_sorted (s x : Z) l : s < x -> Sorted Z.le (x :: l) -> count (Z.eqb s) l = 0%nat.
Proof.
  intros Hs Hl. apply Sorted_StronglySorted in Hl; [|intros ???; apply Z.le_trans].
  apply StronglySorted_inv in Hl as [_ Hl].
  induction Hl as [|y l Hy _ IH]; [done|]. rewrite count_cons, IH.
  destruct (Z.eqb_spec s y); simpl; lia.
Qed.

Lemma Sorted_extends_le (x y : Z) l : x <= y -> Sorted Z.le (y :: l) -> Sorted Z.le (x :: l).
Proof.
  intros Hxy Hl. apply Sorted_inv in Hl as [Hl Hle]. constructor; [done|].
  inversion Hle; subst; constructor. lia.
Qed.

#[export] Hint Rewrite @count_nil @count_app @count_cons : portus.

(** ** Grouping

    [map.entry(key(x)).or_default().push(x)] for every [x] of a list. *)

Section GroupBy.
Context {A K : Type} `{Countable K} (key : A -> K).

Definition group_by (l : list A) : gmap K (list A) :=
  fold_left (fun m x => <[key x := default [] (m !! key x) ++ [x]]> m) l ∅.

Lemma group_by_default l k : default [] (group_by l !! k) = List.filter (fun x => bool_decide (key x = k)) l.
Proof.
  unfold group_by.
  assert (Hgen : forall m : gmap K (list A), default [] (fold_left (fun m x => <[key x := default [] (m !! key x) ++ [x]]> m) l m !! k)
                 = default [] (m !! k) ++ List.filter (fun x => bool_decide (key x = k)) l).
  { induction l as [|x l IH]; intros m; simpl; [by rewrite app_nil_r|]. rewrite IH.
    destruct (decide (key x = k)) as [<-|Hne].
    - rewrite lookup_insert_eq, bool_decide_eq_true_2 by done. simpl. by rewrite <- app_assoc.
    - by rewrite lookup_insert_ne, bool_decide_eq_false_2 by done. }
  rewrite Hgen. by rewrite lookup_empty.
Qed.

Lemma group_by_non_empty l k : group_by l !! k <> Some [].
Proof.
  unfold group_by. assert (Hgen : forall m : gmap K (list A), m !! k <> Some [] ->
    fold_left (fun m x => <[key x := default [] (m !! key x) ++ [x]]> m) l m !! k <> Some []).
  { induction l as [|x l IH]; intros m Hm; simpl; [done|]. apply IH.
    destruct (decide (key x = k)) as [<-|Hne]; [|by rewrite lookup_insert_ne].
    rewrite lookup_insert_eq. by intros [= Hn%app_eq_nil]; destruct Hn. }
  apply Hgen. by rewrite lookup_empty.
Qed.

(** A group holds the elements of its key in order, and is there when there is one. *)
Lemma group_by_lookup l k g :
  group_by l !! k = Some g <-> g = List.filter (fun x => bool_decide (key x = k)) l /\ g <> [].
Proof.
  pose proof (group_by_default l k) as Hd. pose proof (group_by_non_empty l k) as Hn. split.
  - intros Hg. rewrite Hg in Hd, Hn. simpl in Hd. split; [done|]. congruence.
  - intros [-> Hne]. destruct (group_by l !! k) as [g|]; simpl in Hd; congruence.
Qed.
End GroupBy.

(** Collecting distinct keys into a map. *)
Lemma fold_insert_lookup `{Countable K} {A V} (P : A -> bool) (f : A -> K) (g : A -> V) l h v :
  (forall x y, x ∈ l -> y ∈ l -> f x = f y -> x = y) ->
  fold_left (fun (m : gmap K V) x => if P x then <[f x := g x]> m else m) l ∅ !! h = Some v <->
  exists x, x ∈ l /\ P x = true /\ f x = h /\ g x = v.
Proof.
  intros Hinj. induction l as [|x l IH] using rev_ind.
  - split; [done|]. intros (x & Hx & _). by apply not_elem_of_nil in Hx.
  - rewrite fold_left_app. cbn [fold_left].
    assert (IH' := IH (fun a b Ha Hb => Hinj a b (proj2 (elem_of_app _ _ _) (or_introl Ha)) (proj2 (elem_of_app _ _ _) (or_introl Hb)))).
    assert (Hx : x ∈ l ++ [x]) by (apply elem_of_app; right; by left).
    destruct (P x) eqn:EP; [destruct (decide (f x = h)) as [<-|Hne]|].
    + rewrite lookup_insert_eq. split; [intros [= <-]; by exists x|].
      intros (y & Hy & _ & Hf & <-). by rewrite (Hinj y x Hy Hx Hf).
    + rewrite lookup_insert_ne, IH' by done. split.
      * intros (y & Hy & Hrest). exists y. split; [apply elem_of_app; by left|done].
      * intros (y & Hy & HP & Hf & Hg). apply elem_of_app in Hy as [Hy|Hy]; [by exists y|].
        apply list_elem_of_singleton in Hy as ->. done.
    + rewrite IH'. split.
      * intros (y & Hy & Hrest). exists y. split; [apply elem_of_app; by left|done].
      * intros (y & Hy & HP & Hf & Hg). apply elem_of_app in Hy as [Hy|Hy]; [by exists y|].
        apply list_elem_of_singleton in Hy as ->. congruence.
Qed.

Lemma sublist_sorted {A} (R : relation A) l k : sublist l k -> StronglySorted R k -> StronglySorted R l.
Proof.
  induction 1 as [|x l k Hs IH|x l k Hs IH]; [done|..]; inversion_clear 1 as [|? ? Hk Hx].
  - constructor; [auto|]. rewrite Forall_forall in *. intros y Hy. apply Hx. by eapply elem_of_sublist.
  - auto.
Qed.

(** ** Stable sorting

    [slice::sort_by] is stable; any stable sort returns the same list, and
    insertion from the right is one.  An [Ordering] is a [comparison]. *)

Definition then_with (c d : comparison) : comparison := match c with Eq => d | _ => c end.

Section StableSort.
Context {A : Type} (cmp : A -> A -> comparison).

(** [x] may stand before [y]. *)
Definition not_after (x y : A) : bool := match cmp x y with Gt => false | _ => true end.

Fixpoint insert_by (x : A) (l : list A) : list A :=
  match l with
  | [] => [x]
  | y :: l' => if not_after x y then x :: l else y :: insert_by x l'
  end.

Definition sort_by (l : list A) : list A := foldr insert_by [] l.

Lemma insert_by_perm x l : insert_by x l ≡ₚ x :: l.
Proof.
  induction l as [|y l IH]; simpl; [done|]. destruct (not_after x y); [done|].
  rewrite IH. apply Permutation_swap.
Qed.

Lemma sort_by_perm l : sort_by l ≡ₚ l.
Proof. induction l as [|x l IH]; simpl; [done|]. by rewrite insert_by_perm, IH. Qed.

Hypothesis total : forall x y, not_after x y = false -> not_after y x = true.
Hypothesis trans : forall x y z, not_after x y = true -> not_after y z = true -> not_after x z = true.

Lemma insert_by_sorted x l :
  StronglySorted (fun a b => not_after a b = true) l -> StronglySorted (fun a b => not_after a b = true) (insert_by x l).
Proof.
  induction 1 as [|y l Hs IH Hy]; simpl; [by repeat constructor|]. destruct (not_after x y) eqn:Hxy.
  - constructor; [by constructor|]. constructor; [done|]. eapply Forall_impl; [exact Hy|]. intros z ?. by eapply trans.
  - constructor; [exact IH|]. rewrite insert_by_perm. constructor; [by apply total|done].
Qed.

Lemma sort_by_sorted l : StronglySorted (fun a b => not_after a b = true) (sort_by l).
Proof. induction l; simpl; [constructor|]. by apply insert_by_sorted. Qed.

(** The element a stable sort puts first among those that satisfy [P]: none
    after it comes before it in the order, all before it come after it. *)
Definition first_best (P : A -> bool) (l : list A) (x : A) : Prop :=
  P x = true /\ exists l1 l2, l = l1 ++ x :: l2 /\
    (forall y, y ∈ l1 -> P y = true -> not_after y x = false) /\
    (forall y, y ∈ l2 -> P y = true -> not_after x y = true).

Lemma find_insert_by P x l :
  StronglySorted (fun a b => not_after a b = true) l ->
  List.find P (insert_by x l) =
  if P x then match List.find P l with Some y => if not_after x y then Some x else Some y | None => Some x end
  else List.find P l.
Proof.
  induction 1 as [|y l Hs IH Hy]; simpl; [by destruct (P x)|].
  destruct (not_after x y) eqn:Hxy; simpl.
  - destruct (P x); [|done]. destruct (P y); [by rewrite Hxy|].
    destruct (List.find P l) as [z|] eqn:Hz; [|done]. apply List.find_some in Hz as [Hz%list_elem_of_In _].
    rewrite Forall_forall in Hy. by rewrite (trans x y z Hxy (Hy z Hz)).
  - rewrite IH. destruct (P y) eqn:HPy; [|done]. destruct (P x); [|done]. by rewrite Hxy.
Qed.

(** Searching the sorted list finds the first best of the unsorted one. *)
Lemma find_sort_by P l :
  match List.find P (sort_by l) with
  | Some x => first_best P l x
  | None => forall y, y ∈ l -> P y = false
  end.
Proof.
  induction l as [|x l IH]; [by intros y Hy%not_elem_of_nil|].
  cbn [sort_by foldr]. fold (sort_by l). rewrite find_insert_by by apply sort_by_sorted.
  destruct (P x) eqn:HP.
  - destruct (List.find P (sort_by l)) as [y|].
    + destruct IH as (HPy & l1 & l2 & -> & H1 & H2). destruct (not_after x y) eqn:Hxy.
      * split; [done|]. exists [], (l1 ++ y :: l2). split_and!; [done|by intros ? ?%not_elem_of_nil|].
        intros z [Hz|[->|Hz]%elem_of_cons]%elem_of_app HPz; [|done|by eapply trans; eauto].
        eapply trans; [exact Hxy|]. apply total. auto.
      * split; [done|]. exists (x :: l1), l2. split_and!; [done| |done].
        intros z [->|Hz]%elem_of_cons HPz; [done|auto].
    + split; [done|]. exists [], l. split_and!; [done|by intros ? ?%not_elem_of_nil|].
      intros z Hz HPz. rewrite IH in HPz; done.
  - destruct (List.find P (sort_by l)) as [y|].
    + destruct IH as (HPy & l1 & l2 & -> & H1 & H2). split; [done|]. exists (x :: l1), l2. split_and!; [done| |done].
      intros z [->|Hz]%elem_of_cons HPz; [congruence|auto].
    + intros z [->|Hz]%elem_of_cons; auto.
Qed.

Lemma first_best_unique P l x y : first_best P l x -> first_best P l y -> x = y.
Proof using Type.
  clear total trans.
  intros (HPx & l1 & l2 & Hl & H1 & H2) (HPy & k1 & k2 & Hk & J1 & J2). rewrite Hl in Hk.
  destruct (app_eq_inv _ _ _ _ Hk) as [(m & -> & Hm)|(m & -> & Hm)]; destruct m as [|z m]; simplify_eq/=; try done.
  - specialize (H1 z ltac:(set_solver) HPy). specialize (J2 x ltac:(set_solver) HPx). congruence.
  - specialize (J1 z ltac:(set_solver) HPx). specialize (H2 y ltac:(set_solver) HPy). congruence.
Qed.

End StableSort.


(** ** Searching a list *)

Lemma find_app {A} (f : A -> bool) l1 l2 :
  List.find f (l1 ++ l2) = match List.find f l1 with Some x => Some x | None => List.find f l2 end.
Proof. induction l1 as [|x l1 IH]; simpl; [done|]. by destruct (f x). Qed.

Lemma find_first_spec {A} (f : A -> bool) l :
  match List.find f l with
  | Some x => exists i, l !! i = Some x /\ f x = true /\ forall j y, (j < i)%nat -> l !! j = Some y -> f y = false
  | None => forall x, x ∈ l -> f x = false
  end.
Proof.
  induction l as [|x l IH]; simpl; [by intros x ?%elem_of_nil|]. destruct (f x) eqn:Hx.
  - exists 0%nat. split_and!; [done..|lia].
  - destruct (List.find f l) as [y|].
    + destruct IH as (i & Hi & Hy & Hbefore). exists (S i). split_and!; [done..|].
      intros [|j] z Hj; simpl; [by intros [= <-]|]. apply Hbefore. lia.
    + intros y [->|Hy]%elem_of_cons; [done|]. by apply IH.
Qed.

Lemma find_last_spec {A} (f : A -> bool) l :
  match List.find f (rev l) with
  | Some x => exists i, l !! i = Some x /\ f x = true /\ forall j y, (i < j)%nat -> l !! j = Some y -> f y = false
  | None => forall x, x ∈ l -> f x = false
  end.
Proof.
  induction l as [|x l IH] using rev_ind; simpl; [by intros x ?%elem_of_nil|].
  rewrite rev_app_distr. simpl. destruct (f x) eqn:Hx.
  - exists (length l). rewrite lookup_app_r, Nat.sub_diag by lia. split_and!; [done..|].
    intros j y Hj Hy. apply lookup_lt_Some in Hy. rewrite length_app in Hy. simpl in Hy. lia.
  - destruct (List.find f (rev l)) as [y|].
    + destruct IH as (i & Hi & Hy & Hafter). exists i. split_and!; [by apply lookup_app_l_Some|done|].
      intros j z Hj Hz. apply lookup_app_Some in Hz as [Hz|[_ Hz]]; [by eapply Hafter|].
      destruct (j - length l)%nat; simpl in Hz; [by injection Hz as <-|done].
    + intros y [Hy| ->%list_elem_of_singleton]%elem_of_app; [by apply IH|done].
Qed.

(** ** Weighted rotation

    Weighted round robin over a list: a running number modulo the total weight
    picks the element whose cumulative weight first exceeds it. *)
Section Weighted.
Context {A : Type} (weight : A -> Z).

Fixpoint cumulative_find (l : list A) (cumulative idx : Z) : option A :=
  match l with
  | [] => None
  | x :: l =>
      let cumulative := cumulative + weight x in
      if idx <? cumulative then Some x else cumulative_find l cumulative idx
  end.

(** Every element as often as its weight, and the total weight. *)
Definition expand_by (l : list A) : list A := concat (map (fun x => replicate (Z.to_nat (weight x)) x) l).
Definition total_by (l : list A) : Z := foldr (fun x acc => weight x + acc) 0 l.

Lemma cumulative_find_expand l cumulative idx :
  Forall (fun x => 0 <= weight x) l -> 0 <= cumulative <= idx ->
  cumulative_find l cumulative idx = expand_by l !! Z.to_nat (idx - cumulative).
Proof.
  intros Hw. revert cumulative. induction Hw as [|x l Hx Hw IH]; intros cum Hc; [done|].
  cbn [cumulative_find]. unfold expand_by. cbn [map concat]. fold (expand_by l).
  destruct (Z.ltb_spec idx (cum + weight x)).
  - rewrite lookup_app_l by (rewrite length_replicate; lia). symmetry. apply lookup_replicate_2. lia.
  - rewrite IH by lia. rewrite lookup_app_r by (rewrite length_replicate; lia).
    rewrite length_replicate. f_equal. lia.
Qed.

Lemma expand_by_length l : Forall (fun x => 0 <= weight x) l -> Z.of_nat (length (expand_by l)) = total_by l.
Proof.
  induction 1 as [|x l Hx _ IH]; [done|]. unfold expand_by. cbn [map concat total_by foldr].
  rewrite length_app, length_replicate. fold (expand_by l) (total_by l). lia.
Qed.

Lemma total_by_nonneg l : Forall (fun x => 0 <= weight x) l -> 0 <= total_by l.
Proof. intros Hw. rewrite <- expand_by_length by done. lia. Qed.

(** A sum at width [w] is the sum when it fits. *)
Lemma sum_by_total w l :
  Forall (fun x => 0 <= weight x) l -> total_by l < 2 ^ w ->
  fold_left (fun acc x => as_u w (acc + weight x)) l 0 = total_by l.
Proof.
  intros Hw Ht.
  assert (Hg : forall acc, 0 <= acc -> acc + total_by l < 2 ^ w ->
    fold_left (fun acc x => as_u w (acc + weight x)) l acc = acc + total_by l); [|rewrite Hg; lia].
  clear Ht. induction Hw as [|x l Hx Hw IH]; intros acc Hacc Hsum; cbn [fold_left total_by foldr] in *; [lia|].
  fold (total_by l) in *. pose proof (total_by_nonneg l Hw). rewrite as_u_small by (split; lia). rewrite IH; lia.
Qed.

(** One period picks every element as often as its weight. *)
Lemma weighted_period l (g : Z -> option A) c :
  Forall (fun x => 0 <= weight x) l -> 0 <= c ->
  (forall z, 0 <= z -> g z = expand_by l !! Z.to_nat (z mod total_by l)) ->
  map (fun j => g (c + Z.of_nat j)) (seq 0 (Z.to_nat (total_by l))) ≡ₚ map Some (expand_by l).
Proof.
  intros Hw Hc Hg. pose proof (expand_by_length l Hw) as Hlen.
  replace (Z.to_nat (total_by l)) with (length (expand_by l)) by lia.
  apply (rotation_permutation Some g (expand_by l) c Hc).
  intros j i x Hj Hi Hm. rewrite Hg, <- Hlen, Hm, Nat2Z.id by lia. exact Hi.
Qed.
End Weighted.

(** The answers of [k] calls in a row of a stateful operation. *)
Fixpoint calls {S R : Type} (op : S -> R * S) (k : nat) (s : S) : list R :=
  match k with
  | O => []
  | Datatypes.S k => let '(r, s) := op s in r :: calls op k s
  end.

(** A state that is a 64-bit counter advanced by one per call. *)
Lemma calls_counter {S R} (op : S -> R * S) (mk : Z -> S) (g : Z -> R) k c :
  (forall z, 0 <= z -> op (mk z) = (g z, mk (wrapping_add 64 z 1))) -> 0 <= c -> c + Z.of_nat k < 2 ^ 64 ->
  calls op k (mk c) = map (fun j => g (c + Z.of_nat j)) (seq 0 k).
Proof.
  intros Hop. revert c. induction k as [|k IH]; intros c Hc Hk; [done|]. cbn [calls].
  rewrite Hop by done. cbn [seq map]. rewrite Z.add_0_r. f_equal.
  unfold wrapping_add. rewrite Z.mod_small by lia. rewrite IH by lia.
  rewrite <- seq_shift, List.map_map. apply List.map_ext. intros j. f_equal. lia.
Qed.

(** ** [Vec::dedup]: neighbours that are equal are kept once. *)

Fixpoint dedup_adjacent {A} `{EqDecision A} (l : list A) : list A :=
  match l with
  | [] => []
  | a :: l =>
      match dedup_adjacent l with
      | [] => [a]
      | b :: l' => if decide (a = b) then b :: l' else a :: b :: l'
      end
  end.

Lemma dedup_adjacent_elem {A} `{EqDecision A} (l : list A) x : x ∈ dedup_adjacent l <-> x ∈ l.
Proof.
  induction l as [|a l IH]; simpl; [done|]. destruct (dedup_adjacent l) as [|b l'] eqn:Hd.
  - rewrite !elem_of_cons, <- IH. done.
  - rewrite (elem_of_cons l x a), <- IH. destruct (decide (a = b)) as [->|]; rewrite !elem_of_cons; tauto.
Qed.

(** ** Functions that agree on the elements of a list *)

Lemma fold_left_ext_in {A B} (f g : A -> B -> A) l a :
  (forall a x, x ∈ l -> f a x = g a x) -> fold_left f l a = fold_left g l a.
Proof.
  revert a. induction l as [|x l IH]; intros a H; [done|]. simpl. rewrite (H a x) by left. apply IH. intros b y Hy. apply H. by right.
Qed.

Lemma omap_ext_in {A B} (f g : A -> option B) (l : list A) : (forall x, x ∈ l -> f x = g x) -> omap f l = omap g l.
Proof.
  induction l as [|x l IH]; intros H; [done|]. assert (Hl : omap f l = omap g l) by (apply IH; intros y Hy; apply H; by right).
  simpl. rewrite (H x) by left. unfold omap in Hl. simpl in Hl. by rewrite Hl.
Qed.

Lemma existsb_ext_in {A} (f g : A -> bool) l : (forall x, x ∈ l -> f x = g x) -> existsb f l = existsb g l.
Proof.
  induction l as [|x l IH]; intros H; [done|]. simpl. rewrite (H x) by left. f_equal. apply IH. intros y Hy. apply H. by right.
Qed.
