(* ===== verification/Atomic.v ===== *)
(** * Compare-and-swap loops

    The circuit breaker, the connection limiter and the token bucket keep
    their whole state in one atomic word and update it with the same loop:
    load the word, compute either a result or a replacement word from it, and
    retry the computation when [compare_exchange_weak] fails.  This file
    models that loop once: a class for what such an object is (the code
    between the load and the exchange), its uncontended run, and a machine
    that interleaves any number of calls, one shared-memory access per step,
    spurious exchange failures included. *)
From S2P Require Import Prelude.

(** What one pass of the loop does with the loaded word: return without
    writing, or try to install [new] and return [r] if that succeeds. *)
Inductive attempt (W R : Type) : Type :=
| Ret (r : R)
| Cas (new : W) (r : R).
Arguments Ret {W R} r.
Arguments Cas {W R} new r.

(** An object updated by such loops.  [Op] names its calls with their
    arguments.  [fast] is a read before the loop that may already decide;
    [body o t1 t2 w] is one pass on the loaded word [w], with the clock read
    at [t1] and then at [t2].  [starts now o] says which calls can be made
    when the clock shows [now]. *)
Class CasObject (Op W R : Type) := {
  fast : Op -> W -> option R;
  body : Op -> Z -> Z -> W -> attempt W R;
  starts : Z -> Op -> bool;
}.

(** The call when no other thread touches the word. *)
Definition run_alone `{CasObject Op W R} (o : Op) (t1 t2 : Z) (w : W) : R * W :=
  match fast o w with
  | Some r => (r, w)
  | None =>
      match body o t1 t2 w with
      | Ret r => (r, w)
      | Cas new r => (r, new)
      end
  end.

Section Machine.
Context `{CasObject Op W R} `{EqDecision W}.

(** Where a call is in its code. *)
Inductive thread : Type :=
| Entered (o : Op)
| Looping (o : Op)
| Loaded (o : Op) (w : W)
| Trying (o : Op) (t1 t2 : Z) (w new : W) (r : R)
| Finished (o : Op) (r : R).

(** A successful exchange: the call, its clock reads, the word before and
    after, and what the call returns. *)
Record commit := Commit {
  c_op : Op; c_t1 : Z; c_t2 : Z; c_old : W; c_new : W; c_ret : R
}.

Record machine := Machine {
  clock : Z;
  word : W;
  threads : list thread;
  commits : list commit;  (** oldest first *)
}.

Definition machine_init (now : Z) (w : W) : machine := Machine now w [] [].

Inductive mstep : machine -> machine -> Prop :=
| step_tick m now :
    clock m <= now ->
    mstep m (Machine now (word m) (threads m) (commits m))
| step_call m o :
    starts (clock m) o = true ->
    mstep m (Machine (clock m) (word m) (threads m ++ [Entered o]) (commits m))
| step_fast m i o r :
    threads m !! i = Some (Entered o) ->
    fast o (word m) = Some r ->
    mstep m (Machine (clock m) (word m) (<[i := Finished o r]> (threads m)) (commits m))
| step_slow m i o :
    threads m !! i = Some (Entered o) ->
    fast o (word m) = None ->
    mstep m (Machine (clock m) (word m) (<[i := Looping o]> (threads m)) (commits m))
| step_load m i o :
    threads m !! i = Some (Looping o) ->
    mstep m (Machine (clock m) (word m) (<[i := Loaded o (word m)]> (threads m)) (commits m))
| step_return m i o w t1 t2 r :
    threads m !! i = Some (Loaded o w) ->
    clock m <= t1 -> t1 <= t2 ->
    body o t1 t2 w = Ret r ->
    mstep m (Machine t2 (word m) (<[i := Finished o r]> (threads m)) (commits m))
| step_attempt m i o w t1 t2 new r :
    threads m !! i = Some (Loaded o w) ->
    clock m <= t1 -> t1 <= t2 ->
    body o t1 t2 w = Cas new r ->
    mstep m (Machine t2 (word m) (<[i := Trying o t1 t2 w new r]> (threads m)) (commits m))
| step_commit m i o t1 t2 w new r :
    threads m !! i = Some (Trying o t1 t2 w new r) ->
    word m = w ->
    mstep m (Machine (clock m) new (<[i := Finished o r]> (threads m))
                     (commits m ++ [Commit o t1 t2 w new r]))
| step_fail m i o t1 t2 w new r :
    (** the word changed, or the weak exchange failed spuriously *)
    threads m !! i = Some (Trying o t1 t2 w new r) ->
    mstep m (Machine (clock m) (word m) (<[i := Looping o]> (threads m)) (commits m)).

Definition msteps : machine -> machine -> Prop := rtc mstep.

Lemma msteps_invariant (P : machine -> Prop) m m' :
  (forall m1 m2, mstep m1 m2 -> P m1 -> P m2) -> msteps m m' -> P m -> P m'.
Proof. intros Hstep. induction 1; eauto. Qed.

(** The sequential reading of a list of commits: each one replaces the word
    the previous one left. *)
Inductive chain : W -> list commit -> W -> Prop :=
| chain_nil w : chain w [] w
| chain_snoc w cs c :
    chain w cs (c_old c) -> chain w (cs ++ [c]) (c_new c).

Definition lawful (c : commit) : Prop :=
  c_t1 c <= c_t2 c /\ body (c_op c) (c_t1 c) (c_t2 c) (c_old c) = Cas (c_new c) (c_ret c).

(** What every pending call has established. *)
Definition thread_ok (th : thread) : Prop :=
  match th with
  | Trying o t1 t2 w new r => t1 <= t2 /\ body o t1 t2 w = Cas new r
  | _ => True
  end.

Record minv (w0 : W) (m : machine) : Prop := {
  minv_chain : chain w0 (commits m) (word m);
  minv_lawful : Forall lawful (commits m);
  minv_threads : Forall thread_ok (threads m);
}.

Lemma minv_init now w : minv w (machine_init now w).
Proof. split; repeat constructor. Qed.

Lemma minv_step w0 m m' : mstep m m' -> minv w0 m -> minv w0 m'.
Proof.
  intros Hs [Hc Hl Ht].
  destruct Hs; split; simpl; auto; try (apply Forall_insert; [done | simpl; auto]).
  - apply Forall_app; split; [done|]. repeat constructor.
  - subst w. exact (chain_snoc w0 (commits m) (Commit o t1 t2 (word m) new r) Hc).
  - apply Forall_app; split; [done|]. constructor; [|constructor].
    rewrite Forall_lookup in Ht. match goal with Hi : threads m !! i = _ |- _ => exact (Ht _ _ Hi) end.
Qed.

(** Every reachable state is the result of running the committed calls one
    after the other, in commit order, each of them exactly what the call
    computes alone. *)
Lemma linearizable now w m :
  msteps (machine_init now w) m -> minv w m.
Proof.
  intros Hs. eapply msteps_invariant; [|exact Hs|apply minv_init].
  apply minv_step.
Qed.

(** An invariant of the word is an invariant of the machine. *)
Lemma word_invariant (P : W -> Prop) now w m :
  P w ->
  (forall o t1 t2 w1 w2 r, t1 <= t2 -> P w1 -> body o t1 t2 w1 = Cas w2 r -> P w2) ->
  msteps (machine_init now w) m -> P (word m).
Proof.
  intros Hw Hstep Hs. destruct (linearizable _ _ _ Hs) as [Hc Hl _].
  remember (word m) as w'. clear Heqw' Hs.
  induction Hc as [|w cs c Hc IH]; [done|].
  apply Forall_app in Hl as [Hl Hlc]. inversion Hlc as [|? ? [Ht Hb] _]; subst.
  eapply Hstep; [exact Ht| |exact Hb]. auto.
Qed.

(** Calls that can only return [r] by committing are counted by the commits
    returning [r]. *)
Definition finished_with (P : Op -> R -> bool) (th : thread) : bool :=
  match th with Finished o r => P o r | _ => false end.

Definition committed_with (P : Op -> R -> bool) (c : commit) : bool :=
  P (c_op c) (c_ret c).

Lemma count_finished_commits (P : Op -> R -> bool) now w m :
  (forall o w r, fast o w = Some r -> P o r = false) ->
  (forall o t1 t2 w r, body o t1 t2 w = Ret r -> P o r = false) ->
  msteps (machine_init now w) m ->
  count (finished_with P) (threads m) = count (committed_with P) (commits m).
Proof.
  intros Hf Hb Hs.
  apply (msteps_invariant (fun m => count (finished_with P) (threads m)
    = count (committed_with P) (commits m)) _ _) in Hs; [done| |done].
  clear Hs m. intros m1 m2 Hstep IH. destruct Hstep; simpl in *; auto.
  all: try (match goal with
    | Hi : threads ?m !! ?i = Some _ |- context [<[?i := ?th]> _] =>
        pose proof (count_insert (finished_with P) _ _ _ th Hi) as Hc
    end).
  - rewrite count_app, IH, count_cons, count_nil. simpl. lia.
  - simpl in Hc. rewrite (Hf _ _ _ H1) in Hc. simpl in Hc. lia.
  - simpl in Hc. lia.
  - simpl in Hc. lia.
  - simpl in Hc. rewrite (Hb _ _ _ _ _ H3) in Hc. simpl in Hc. lia.
  - simpl in Hc. lia.
  - rewrite count_app, count_cons, count_nil. unfold committed_with at 2. simpl in *. lia.
  - simpl in Hc. lia.
Qed.

(** ** Executing a schedule *)

(** One scheduling decision; [Pass i t1 t2] is thread [i] reading the clock
    and computing its pass, [Exchange i ok] its exchange. *)
Inductive action :=
| Tick (now : Z)
| Call (o : Op)
| Enter (i : nat)
| Load (i : nat)
| Pass (i : nat) (t1 t2 : Z)
| Exchange (i : nat) (ok : bool).

Definition set_thread (m : machine) (now : Z) (i : nat) (th : thread) : machine :=
  Machine now (word m) (<[i := th]> (threads m)) (commits m).

Definition do_action (m : machine) (a : action) : option machine :=
  match a with
  | Tick now => if clock m <=? now then Some (Machine now (word m) (threads m) (commits m)) else None
  | Call o =>
      if starts (clock m) o
      then Some (Machine (clock m) (word m) (threads m ++ [Entered o]) (commits m)) else None
  | Enter i =>
      match threads m !! i with
      | Some (Entered o) =>
          Some (set_thread m (clock m) i
            (match fast o (word m) with Some r => Finished o r | None => Looping o end))
      | _ => None
      end
  | Load i =>
      match threads m !! i with
      | Some (Looping o) => Some (set_thread m (clock m) i (Loaded o (word m)))
      | _ => None
      end
  | Pass i t1 t2 =>
      match threads m !! i with
      | Some (Loaded o w) =>
          if (clock m <=? t1) && (t1 <=? t2)
          then Some (set_thread m t2 i
            (match body o t1 t2 w with Ret r => Finished o r | Cas new r => Trying o t1 t2 w new r end))
          else None
      | _ => None
      end
  | Exchange i ok =>
      match threads m !! i with
      | Some (Trying o t1 t2 w new r) =>
          if ok then
            if decide (word m = w)
            then Some (Machine (clock m) new (<[i := Finished o r]> (threads m))
                               (commits m ++ [Commit o t1 t2 w new r]))
            else None
          else Some (set_thread m (clock m) i (Looping o))
      | _ => None
      end
  end.

Fixpoint do_actions (m : machine) (sched : list action) : option machine :=
  match sched with
  | [] => Some m
  | a :: sched => match do_action m a with Some m' => do_actions m' sched | None => None end
  end.

Lemma do_action_step m a m' : do_action m a = Some m' -> mstep m m'.
Proof.
  destruct a; simpl; unfold set_thread; intros Ha;
    repeat (case_match; simplify_eq); bool_to_prop; subst; eauto using mstep.
Qed.

Lemma do_actions_steps m sched m' : do_actions m sched = Some m' -> msteps m m'.
Proof.
  revert m. induction sched as [|a sched IH]; simpl; intros m Ha.
  - simplify_eq. constructor.
  - destruct (do_action m a) as [m1|] eqn:Hd; [|done].
    eapply rtc_l; [by eapply do_action_step | by apply IH].
Qed.

(** A pending call that is scheduled alone to its end commits. *)
Lemma solo_commit m i o new r :
  threads m !! i = Some (Entered o) ->
  fast o (word m) = None ->
  body o (clock m) (clock m) (word m) = Cas new r ->
  msteps m (Machine (clock m) new (<[i := Finished o r]> (threads m))
    (commits m ++ [Commit o (clock m) (clock m) (word m) new r])).
Proof.
  intros Hi Hf Hb.
  assert (Hlen : (i < length (threads m))%nat) by by eapply lookup_lt_Some.
  apply (do_actions_steps _ [Enter i; Load i; Pass i (clock m) (clock m); Exchange i true]).
  simpl. rewrite Hi, Hf. unfold set_thread. simpl.
  rewrite list_lookup_insert_eq by done. simpl.
  rewrite list_insert_insert_eq, list_lookup_insert_eq by done. simpl.
  rewrite Z.leb_refl, Hb. simpl.
  rewrite list_insert_insert_eq, list_lookup_insert_eq by done. simpl.
  rewrite decide_True by done. by rewrite list_insert_insert_eq.
Qed.

End Machine.

Arguments action : clear implicits.
Arguments thread : clear implicits.
Arguments commit : clear implicits.
Arguments machine : clear implicits.
