(* ===== verification/CircuitBreaker.v ===== *)
(** * Circuit breaker and connection limiter

    [portus-dataplane-core/src/circuit_breaker.rs].  Both objects live in one
    atomic word; their methods are instances of the loop of [Atomic].  The
    word-level methods are related to a specification in which the state is
    a plain inductive type. *)
From S2P Require Import Prelude Atomic.

(** ** The packed word *)

Inductive CircuitState := Closed | Open | HalfOpen.

#[export] Instance CircuitState_eq_dec : EqDecision CircuitState.
Proof. solve_decision. Defined.

(** [state as u64], from the discriminants of the enum *)
Definition CircuitState_code (s : CircuitState) : Z :=
  match s with Closed => 0 | Open => 1 | HalfOpen => 2 end.

Record CircuitBreakerConfig := {
  failure_threshold : Z;  (** u16 *)
  success_threshold : Z;  (** u16 *)
  timeout_secs : Z;       (** u32 *)
}.

Definition CircuitBreakerConfig_default : CircuitBreakerConfig :=
  {| failure_threshold := 5; success_threshold := 1; timeout_secs := 30 |}.

Definition config_ok (c : CircuitBreakerConfig) : Prop :=
  in_u 16 (failure_threshold c) /\ in_u 16 (success_threshold c) /\ in_u 32 (timeout_secs c).

Definition pack (state : CircuitState) (timestamp failures successes : Z) : Z :=
  let s := as_u 64 (Z.shiftl (CircuitState_code state) 62) in
  let t := as_u 64 (Z.shiftl (Z.land timestamp 0x3FFFFFFF) 32) in
  let f := as_u 64 (Z.shiftl failures 16) in
  let sc := successes in
  Z.lor (Z.lor (Z.lor s t) f) sc.

Definition extract_state (packed : Z) : CircuitState :=
  match Z.shiftr packed 62 with
  | 0 => Closed
  | 1 => Open
  | 2 => HalfOpen
  | _ => Closed
  end.

Definition extract_timestamp (packed : Z) : Z :=
  as_u 32 (Z.land (Z.shiftr packed 32) 0x3FFFFFFF).

Definition extract_failures (packed : Z) : Z :=
  as_u 16 (Z.land (Z.shiftr packed 16) 0xFFFF).

Definition extract_successes (packed : Z) : Z :=
  as_u 16 (Z.land packed 0xFFFF).

#[global] Arguments pack : simpl never.
#[global] Arguments extract_state : simpl never.
#[global] Arguments extract_timestamp : simpl never.
#[global] Arguments extract_failures : simpl never.
#[global] Arguments extract_successes : simpl never.

(** ** CircuitBreaker *)

(** [CircuitBreaker::new]: the initial word. *)
Definition CircuitBreaker_new : Z := pack Closed 0 0 0.

(** The calls on a breaker and what they return. *)
Inductive breaker_op := AllowRequest | RecordSuccess | RecordFailure.
Inductive breaker_ret := Allowed (b : bool) | Recorded.

#[export] Instance breaker_op_eq_dec : EqDecision breaker_op.
Proof. solve_decision. Defined.

(** One pass of the loop of [allow_request]; [t1] and [t2] are its two reads
    of [now_secs()]. *)
Definition allow_request_body (c : CircuitBreakerConfig) (t1 t2 current : Z) : attempt Z breaker_ret :=
  match extract_state current with
  | Closed => Ret (Allowed true)
  | Open =>
      let ts := extract_timestamp current in
      let elapsed := t1 -w[32] ts in
      if elapsed >=? timeout_secs c
      then Cas (pack HalfOpen t2 0 0) (Allowed true)
      else Ret (Allowed false)
  | HalfOpen => Ret (Allowed false)
  end.

(** One pass of the loop of [record_success]. *)
Definition record_success_body (c : CircuitBreakerConfig) (now current : Z) : attempt Z breaker_ret :=
  match extract_state current with
  | Closed =>
      let successes := extract_successes current in
      Cas (pack Closed (extract_timestamp current) 0 (successes +s[16] 1)) Recorded
  | HalfOpen =>
      let successes := extract_successes current +s[16] 1 in
      if successes >=? success_threshold c
      then Cas (pack Closed now 0 0) Recorded
      else Cas (pack HalfOpen (extract_timestamp current) 0 successes) Recorded
  | Open => Ret Recorded
  end.

(** One pass of the loop of [record_failure]. *)
Definition record_failure_body (c : CircuitBreakerConfig) (now current : Z) : attempt Z breaker_ret :=
  match extract_state current with
  | Closed =>
      let failures := extract_failures current +s[16] 1 in
      if failures >=? failure_threshold c
      then Cas (pack Open now failures 0) Recorded
      else Cas (pack Closed (extract_timestamp current) failures 0) Recorded
  | HalfOpen => Cas (pack Open now 0 0) Recorded
  | Open => Ret Recorded
  end.

(** The relaxed load in front of the loop of [allow_request]. *)
Definition allow_request_fast (current : Z) : option breaker_ret :=
  if decide (extract_state current = Closed) then Some (Allowed true) else None.

(** [now_secs] truncates the elapsed seconds to 32 bits. *)
Definition breaker_object (c : CircuitBreakerConfig) : CasObject breaker_op Z breaker_ret := {|
  fast o w := match o with AllowRequest => allow_request_fast w | _ => None end;
  body o t1 t2 w :=
    match o with
    | AllowRequest => allow_request_body c (as_u 32 t1) (as_u 32 t2) w
    | RecordSuccess => record_success_body c (as_u 32 t2) w
    | RecordFailure => record_failure_body c (as_u 32 t2) w
    end;
  starts _ _ := true;
|}.

(** The three methods with no contention, at clock reads [t1 <= t2]. *)
Definition breaker_call (c : CircuitBreakerConfig) (o : breaker_op) (t1 t2 w : Z) : breaker_ret * Z :=
  @run_alone _ _ _ (breaker_object c) o t1 t2 w.

Definition current_state (w : Z) : CircuitState := extract_state w.

(** ** ConnectionLimiter *)

Inductive limiter_op := TryAcquire | Release.

#[export] Instance limiter_op_eq_dec : EqDecision limiter_op.
Proof. solve_decision. Defined.

Definition ConnectionLimiter_new : Z := 0.

Definition limiter_try_acquire_body (max current : Z) : attempt Z bool :=
  if current >=? max then Ret false else Cas (current + 1) true.

(** The double-release branch logs a warning and returns. *)
Definition limiter_release_body (current : Z) : attempt Z bool :=
  if current =? 0 then Ret false else Cas (current - 1) true.

Definition limiter_object (max : Z) : CasObject limiter_op Z bool := {|
  fast _ _ := None;
  body o _ _ w :=
    match o with
    | TryAcquire => limiter_try_acquire_body max w
    | Release => limiter_release_body w
    end;
  starts _ _ := true;
|}.

Definition ConnectionLimiter_try_acquire (max active : Z) : bool * Z :=
  @run_alone _ _ _ (limiter_object max) TryAcquire 0 0 active.

Definition ConnectionLimiter_release (max active : Z) : Z :=
  snd (@run_alone _ _ _ (limiter_object max) Release 0 0 active).

(** ** Packing is faithful *)

Lemma land_ones_mod x n : 0 <= n -> Z.land x (2 ^ n - 1) = x mod 2 ^ n.
Proof. intros Hn. rewrite <- Z.land_ones by done. by rewrite Z.ones_equiv, Z.sub_1_r. Qed.

Lemma pack_arith s t f n :
  in_u 16 f -> in_u 16 n ->
  pack s t f n = CircuitState_code s * 2 ^ 62 + (t mod 2 ^ 30) * 2 ^ 32 + f * 2 ^ 16 + n.
Proof.
  intros Hf Hn. unfold pack.
  change 0x3FFFFFFF with (2 ^ 30 - 1). rewrite land_ones_mod by lia.
  pose proof (Z.mod_pos_bound t (2 ^ 30) ltac:(lia)) as Ht.
  set (t' := t mod 2 ^ 30) in *. unfold in_u in *.
  assert (Hs : 0 <= CircuitState_code s <= 2) by (destruct s; simpl; lia).
  set (s' := CircuitState_code s) in *.
  rewrite !as_u_small by (unfold in_u; rewrite Z.shiftl_mul_pow2 by lia; lia).
  rewrite (lor_shiftl_add s') by (unfold in_u; rewrite ?Z.shiftl_mul_pow2 by lia; lia).
  rewrite Z.shiftl_mul_pow2 by lia.
  replace (s' * 2 ^ 62 + t' * 2 ^ 32) with (Z.shiftl (s' * 2 ^ 30 + t') 32)
    by (rewrite Z.shiftl_mul_pow2 by lia; lia).
  rewrite lor_shiftl_add by (unfold in_u; rewrite ?Z.shiftl_mul_pow2 by lia; lia).
  rewrite Z.shiftl_mul_pow2 by lia.
  replace ((s' * 2 ^ 30 + t') * 2 ^ 32 + f * 2 ^ 16) with
    (Z.shiftl ((s' * 2 ^ 30 + t') * 2 ^ 16 + f) 16)
    by (rewrite Z.shiftl_mul_pow2 by lia; lia).
  rewrite lor_shiftl_add by (unfold in_u; lia). rewrite Z.shiftl_mul_pow2 by lia. lia.
Qed.

Lemma extract_state_pack s t f n :
  in_u 16 f -> in_u 16 n -> extract_state (pack s t f n) = s.
Proof.
  intros Hf Hn. unfold extract_state. rewrite pack_arith by done.
  rewrite Z.shiftr_div_pow2 by lia. unfold in_u in *.
  pose proof (Z.mod_pos_bound t (2 ^ 30) ltac:(lia)).
  replace (_ / 2 ^ 62) with (CircuitState_code s) by (apply Z.div_unique with
    (r := (t mod 2 ^ 30) * 2 ^ 32 + f * 2 ^ 16 + n); lia).
  by destruct s.
Qed.

Lemma extract_timestamp_pack s t f n :
  in_u 16 f -> in_u 16 n -> extract_timestamp (pack s t f n) = t mod 2 ^ 30.
Proof.
  intros Hf Hn. unfold extract_timestamp. rewrite pack_arith by done.
  change 0x3FFFFFFF with (2 ^ 30 - 1). rewrite land_ones_mod by lia.
  rewrite Z.shiftr_div_pow2 by lia. unfold in_u in *.
  pose proof (Z.mod_pos_bound t (2 ^ 30) ltac:(lia)).
  replace (_ / 2 ^ 32) with (CircuitState_code s * 2 ^ 30 + t mod 2 ^ 30)
    by (apply Z.div_unique with (r := f * 2 ^ 16 + n); lia).
  rewrite Z.add_comm, Z_mod_plus_full, Z.mod_mod by lia.
  apply as_u_small. unfold in_u. lia.
Qed.

Lemma extract_failures_pack s t f n :
  in_u 16 f -> in_u 16 n -> extract_failures (pack s t f n) = f.
Proof.
  intros Hf Hn. unfold extract_failures. rewrite pack_arith by done.
  change 0xFFFF with (2 ^ 16 - 1). rewrite land_ones_mod by lia.
  rewrite Z.shiftr_div_pow2 by lia. unfold in_u in *.
  set (t' := t mod 2 ^ 30). set (s' := CircuitState_code s).
  replace (_ / 2 ^ 16) with (f + (s' * 2 ^ 30 + t') * 2 ^ 16)
    by (apply Z.div_unique with (r := n); lia).
  rewrite Z_mod_plus_full, Z.mod_small by lia. apply as_u_small. unfold in_u. lia.
Qed.

Lemma extract_successes_pack s t f n :
  in_u 16 f -> in_u 16 n -> extract_successes (pack s t f n) = n.
Proof.
  intros Hf Hn. unfold extract_successes. rewrite pack_arith by done.
  change 0xFFFF with (2 ^ 16 - 1). rewrite land_ones_mod by lia. unfold in_u in *.
  set (t' := t mod 2 ^ 30). set (s' := CircuitState_code s).
  replace (s' * 2 ^ 62 + t' * 2 ^ 32 + f * 2 ^ 16 + n)
    with (n + (s' * 2 ^ 46 + t' * 2 ^ 16 + f) * 2 ^ 16) by lia.
  rewrite Z_mod_plus_full, Z.mod_small by lia. apply as_u_small. unfold in_u. lia.
Qed.

#[export] Hint Rewrite extract_state_pack extract_timestamp_pack extract_failures_pack
  extract_successes_pack using (unfold in_u; lia) : portus.

Lemma extract_timestamp_range w : in_u 30 (extract_timestamp w).
Proof.
  unfold extract_timestamp, as_u, in_u. change 0x3FFFFFFF with (2 ^ 30 - 1).
  rewrite land_ones_mod by lia.
  pose proof (Z.mod_pos_bound (Z.shiftr w 32) (2 ^ 30) ltac:(lia)).
  rewrite Z.mod_small by lia. lia.
Qed.

Lemma extract_failures_range w : in_u 16 (extract_failures w).
Proof. unfold extract_failures. apply as_u_range. lia. Qed.

Lemma extract_successes_range w : in_u 16 (extract_successes w).
Proof. unfold extract_successes. apply as_u_range. lia. Qed.

(** From here on words are handled through these lemmas only. *)
#[global] Opaque pack extract_state extract_timestamp extract_failures extract_successes.

(** ** Specification *)

(** The breaker as its documentation describes it: consecutive failures while
    closed, the opening time while open, consecutive probe successes while
    half-open. *)
Inductive breaker_spec :=
| SClosed (failures : Z)
| SOpen (since : Z)
| SHalfOpen (successes : Z).

Definition spec_call (c : CircuitBreakerConfig) (o : breaker_op) (t1 t2 : Z) (s : breaker_spec)
  : breaker_ret * breaker_spec :=
  match o, s with
  | AllowRequest, SClosed _ => (Allowed true, s)
  | AllowRequest, SOpen since =>
      if t1 - since <? timeout_secs c then (Allowed false, s) else (Allowed true, SHalfOpen 0)
  | AllowRequest, SHalfOpen _ => (Allowed false, s)
  | RecordSuccess, SClosed _ => (Recorded, SClosed 0)
  | RecordSuccess, SHalfOpen n =>
      if n + 1 <? success_threshold c then (Recorded, SHalfOpen (n + 1)) else (Recorded, SClosed 0)
  | RecordSuccess, SOpen _ => (Recorded, s)
  | RecordFailure, SClosed n =>
      if n + 1 <? failure_threshold c then (Recorded, SClosed (n + 1)) else (Recorded, SOpen t2)
  | RecordFailure, SHalfOpen _ => (Recorded, SOpen t2)
  | RecordFailure, SOpen _ => (Recorded, s)
  end.

(** The specification state a word stands for. *)
Definition breaker_abs (w : Z) : breaker_spec :=
  match extract_state w with
  | Closed => SClosed (extract_failures w)
  | Open => SOpen (extract_timestamp w)
  | HalfOpen => SHalfOpen (extract_successes w)
  end.

Definition breaker_calls := list (breaker_op * Z * Z).

Fixpoint breaker_run (c : CircuitBreakerConfig) (calls : breaker_calls) (w : Z)
  : list breaker_ret * Z :=
  match calls with
  | [] => ([], w)
  | (o, t1, t2) :: calls =>
      let '(r, w) := breaker_call c o t1 t2 w in
      let '(rs, w) := breaker_run c calls w in
      (r :: rs, w)
  end.

Fixpoint spec_run (c : CircuitBreakerConfig) (calls : breaker_calls) (s : breaker_spec)
  : list breaker_ret * breaker_spec :=
  match calls with
  | [] => ([], s)
  | (o, t1, t2) :: calls =>
      let '(r, s) := spec_call c o t1 t2 s in
      let '(rs, s) := spec_run c calls s in
      (r :: rs, s)
  end.

(** The clock never goes back, and stays below the 30 bits the word has for
    it (34 years after the breaker was built). *)
Fixpoint times_ok (now : Z) (calls : breaker_calls) : Prop :=
  match calls with
  | [] => True
  | (_, t1, t2) :: calls => now <= t1 /\ t1 <= t2 /\ t2 < 2 ^ 30 /\ times_ok t2 calls
  end.

(** One call on a word whose timestamp is not in the future does what the
    specification says, and leaves such a word. *)
Lemma breaker_call_refines c o now t1 t2 w :
  config_ok c -> 0 <= now <= t1 -> t1 <= t2 < 2 ^ 30 -> extract_timestamp w <= now ->
  let '(r, w') := breaker_call c o t1 t2 w in
  (r, breaker_abs w') = spec_call c o t1 t2 (breaker_abs w) /\ extract_timestamp w' <= t2.
Proof.
  intros (Hf & Hs & Hto) Hnow Ht Hts.
  pose proof (extract_timestamp_range w) as Htr.
  pose proof (extract_failures_range w) as Hfr.
  pose proof (extract_successes_range w) as Hsr.
  unfold in_u in *.
  assert (Hmod : extract_timestamp w mod 2 ^ 30 = extract_timestamp w) by (apply Z.mod_small; lia).
  assert (H1 : as_u 32 t1 = t1) by (apply Z.mod_small; lia).
  assert (H2 : as_u 32 t2 = t2) by (apply Z.mod_small; lia).
  assert (H3 : t2 mod 2 ^ 30 = t2) by (apply Z.mod_small; lia).
  assert (H4 : t1 -w[32] extract_timestamp w = t1 - extract_timestamp w)
    by (apply Z.mod_small; lia).
  unfold breaker_call, run_alone, breaker_abs, breaker_object. cbn [fast body].
  rewrite H1, H2.
  unfold allow_request_fast, allow_request_body, record_success_body, record_failure_body.
  rewrite H4. unfold saturating_add.
  destruct o, (extract_state w) eqn:Hst; cbn [spec_call decide];
    try (case_decide; [|done]); try (case_decide; [done|]);
    rewrite ?Z.geb_leb, ?Z.leb_antisym;
    repeat match goal with |- context [?a <? ?b] => destruct (Z.ltb_spec a b) end;
    try lia; cbn [negb];
    autorewrite with portus; rewrite ?Hst, ?H3, ?Hmod.
  all: split; [|lia]; try done; repeat f_equal; lia.
Qed.

Lemma breaker_run_refines c calls now w :
  config_ok c -> 0 <= now -> times_ok now calls -> extract_timestamp w <= now ->
  let '(rs, w') := breaker_run c calls w in
  (rs, breaker_abs w') = spec_run c calls (breaker_abs w).
Proof.
  intros Hc. revert now w.
  induction calls as [|[[o t1] t2] calls IH]; intros now w Hnow Ht Hw; [done|].
  destruct Ht as (Ht1 & Ht2 & Hb & Ht). simpl.
  pose proof (breaker_call_refines c o now t1 t2 w Hc ltac:(lia) ltac:(lia) Hw) as Hcall.
  destruct (breaker_call c o t1 t2 w) as [r w1]. destruct Hcall as [Heq Hw1].
  specialize (IH t2 w1 ltac:(lia) Ht Hw1).
  destruct (breaker_run c calls w1) as [rs w2].
  destruct (spec_call c o t1 t2 (breaker_abs w)) as [r' s1].
  destruct (spec_run c calls s1) as [rs' s2] eqn:Hrun.
  simplify_eq/=. rewrite Hrun in IH. by simplify_eq.
Qed.

(** ** Theorems: the word *)

(** C34: [pack] loses nothing it is given a field for: the four extractors
    recover the state, the 30-bit timestamp and both 16-bit counters. *)
Theorem pack_roundtrip s t f n :
  in_u 30 t -> in_u 16 f -> in_u 16 n ->
  let w := pack s t f n in
  in_u 64 w /\ extract_state w = s /\ extract_timestamp w = t /\
  extract_failures w = f /\ extract_successes w = n.
Proof.
  intros Ht Hf Hn w. unfold w. split_and!.
  - rewrite pack_arith by done. unfold in_u in *.
    rewrite Z.mod_small by done. destruct s; simpl; lia.
  - by rewrite extract_state_pack.
  - rewrite extract_timestamp_pack by done. by apply Z.mod_small.
  - by rewrite extract_failures_pack.
  - by rewrite extract_successes_pack.
Qed.

Lemma pack_roundtrip_witness :
  let w := pack HalfOpen 1234567 65535 42 in
  in_u 64 w /\ extract_state w = HalfOpen /\ extract_timestamp w = 1234567 /\
  extract_failures w = 65535 /\ extract_successes w = 42.
Proof. apply (pack_roundtrip HalfOpen 1234567 65535 42); unfold in_u; lia. Defined.

(** C20: A fresh breaker driven by any sequence of calls, at clock readings that
    never go back, returns exactly what the specification returns and ends in
    the specified state. *)
Theorem breaker_refines_spec c calls :
  config_ok c -> times_ok 0 calls ->
  let '(rs, w) := breaker_run c calls CircuitBreaker_new in
  (rs, breaker_abs w) = spec_run c calls (SClosed 0).
Proof.
  intros Hc Ht. by apply (breaker_run_refines c calls 0 CircuitBreaker_new).
Qed.

Definition demo_config : CircuitBreakerConfig :=
  {| failure_threshold := 2; success_threshold := 2; timeout_secs := 30 |}.

(** Two failures trip the breaker, a request at 20s is refused, one at 45s is
    the probe, and its success leaves the breaker half-open. *)
Definition demo_calls : breaker_calls :=
  [(RecordFailure, 1, 1); (RecordFailure, 10, 10); (AllowRequest, 20, 20);
   (AllowRequest, 45, 45); (RecordSuccess, 46, 46)].

Lemma breaker_refines_spec_witness :
  let '(rs, w) := breaker_run demo_config demo_calls CircuitBreaker_new in
  (rs, breaker_abs w) = spec_run demo_config demo_calls (SClosed 0) /\
  rs = [Recorded; Recorded; Allowed false; Allowed true; Recorded].
Proof.
  assert (Hc : config_ok demo_config) by (unfold config_ok, in_u; simpl; lia).
  assert (Ht : times_ok 0 demo_calls) by (simpl; lia).
  pose proof (breaker_refines_spec demo_config demo_calls Hc Ht) as H.
  destruct (breaker_run _ _ _) as [rs w] eqn:E. split; [exact H|].
  vm_compute in E. by inversion E.
Defined.

(** ** Theorems: tripping *)

(** The outcomes of a sequence of answered requests ([true] is a failure),
    recorded one after the other. *)
Fixpoint record_all (c : CircuitBreakerConfig) (evs : list (bool * Z)) (w : Z) : Z :=
  match evs with
  | [] => w
  | (failed, t) :: evs =>
      record_all c evs (snd (breaker_call c (if failed then RecordFailure else RecordSuccess) t t w))
  end.

(** [k] failures in a row somewhere in [l]. *)
Definition failure_run (k : nat) (l : list bool) : Prop :=
  exists l1 l2, l = l1 ++ replicate k true ++ l2.

Lemma failure_run_break k f l :
  (f < k)%nat -> failure_run k (replicate f true ++ false :: l) -> failure_run k l.
Proof.
  intros Hf (l1 & l2 & Heq).
  assert (Hnil : forall g l', (g < k)%nat -> replicate g true ++ false :: l <> replicate k true ++ l').
  { intros g l' Hg Hc. apply (f_equal (lookup g)) in Hc.
    rewrite lookup_app_r, length_replicate, Nat.sub_diag in Hc by (by rewrite length_replicate).
    rewrite lookup_app_l, lookup_replicate_2 in Hc by (by rewrite ?length_replicate). done. }
  revert l1 Hf Heq. induction f as [|f IH]; intros [|b l1] Hf Heq.
  - by destruct (Hnil 0%nat l2).
  - exists l1, l2. by simplify_eq/=.
  - by destruct (Hnil (S f) l2).
  - simplify_eq/=. apply (IH l1); [lia|done].
Qed.

Lemma replicate_snoc_true n (l : list bool) :
  replicate n true ++ true :: l = replicate (S n) true ++ l.
Proof. induction n as [|n IH]; [done|]. simpl. by rewrite IH. Qed.

Lemma breaker_call_open c o t1 t2 w :
  o <> AllowRequest -> extract_state w = Open -> breaker_call c o t1 t2 w = (Recorded, w).
Proof.
  intros Ho Hw. unfold breaker_call, run_alone, breaker_object. cbn [fast body].
  unfold record_failure_body, record_success_body. by destruct o; rewrite ?Hw.
Qed.

Lemma record_all_open c evs w :
  extract_state w = Open -> record_all c evs w = w.
Proof.
  intros Hw. induction evs as [|[failed t] evs IH]; [done|]. cbn [record_all].
  rewrite breaker_call_open by (by destruct failed). exact IH.
Qed.

Lemma record_all_closed c evs w :
  config_ok c -> extract_state w = Closed ->
  let k := Z.to_nat (Z.max 1 (failure_threshold c)) in
  extract_failures w < Z.of_nat k ->
  (current_state (record_all c evs w) = Open <->
   failure_run k (replicate (Z.to_nat (extract_failures w)) true ++ map fst evs)) /\
  (current_state (record_all c evs w) <> Open -> current_state (record_all c evs w) = Closed).
Proof.
  intros (Hft & _ & _) Hw k Hk. revert w Hw Hk. unfold in_u in Hft.
  assert (Hkz : Z.of_nat k = Z.max 1 (failure_threshold c)) by (unfold k; lia).
  induction evs as [|[[] t] evs IH]; intros w Hw Hk;
    pose proof (extract_failures_range w) as Hr; unfold in_u in Hr.
  - simpl. unfold current_state. rewrite Hw. split; [|done]. split; [done|].
    intros (l1 & l2 & Heq). apply (f_equal length) in Heq.
    rewrite !length_app, !length_replicate in Heq. simpl in Heq. lia.
  - cbn [record_all map fst]. rewrite replicate_snoc_true.
    unfold breaker_call, run_alone. cbn [fast body breaker_object].
    unfold record_failure_body. rewrite Hw. unfold saturating_add.
    destruct (Z.geb_spec (Z.min (extract_failures w + 1) (2 ^ 16 - 1)) (failure_threshold c)); simpl.
    + unfold current_state. rewrite record_all_open by (by autorewrite with portus).
      autorewrite with portus. split; [|done]. split; [|done]. intros _.
      exists [], (map fst evs). simpl.
      replace k with (S (Z.to_nat (extract_failures w))) by lia. done.
    + destruct (IH (pack Closed (extract_timestamp w)
        (Z.min (extract_failures w + 1) (2 ^ 16 - 1)) 0)) as [IH1 IH2];
        autorewrite with portus; [done|lia|]. split; [|done]. simpl in IH1 |- *.
      rewrite IH1. autorewrite with portus.
      replace (Z.to_nat (Z.min (extract_failures w + 1) (2 ^ 16 - 1)))
        with (S (Z.to_nat (extract_failures w))) by lia. done.
  - cbn [record_all map fst].
    unfold breaker_call, run_alone. cbn [fast body breaker_object].
    unfold record_success_body. rewrite Hw. simpl.
    pose proof (extract_successes_range w) as Hs. unfold in_u in Hs.
    assert (Hs' : in_u 16 (extract_successes w +s[16] 1)) by (unfold in_u, saturating_add; lia).
    destruct (IH (pack Closed (extract_timestamp w) 0 (extract_successes w +s[16] 1))) as [IH1 IH2];
      rewrite ?extract_state_pack, ?extract_failures_pack in * by (done || (unfold in_u; lia));
      [done|lia|]. split; [|done]. rewrite IH1. simpl. split.
    + intros (l1 & l2 & ->). exists (replicate (Z.to_nat (extract_failures w)) true ++ false :: l1), l2.
      by rewrite <- app_assoc.
    + apply failure_run_break. lia.
Qed.

(** A fresh breaker opens exactly when the recorded outcomes contain
    [failure_threshold] failures in a row (a threshold of 0 counts as 1), and
    is still closed otherwise. *)
Theorem breaker_opens_iff_failure_run c evs :
  config_ok c ->
  let k := Z.to_nat (Z.max 1 (failure_threshold c)) in
  let st := current_state (record_all c evs CircuitBreaker_new) in
  (st = Open <-> failure_run k (map fst evs)) /\ (st <> Open -> st = Closed).
Proof.
  intros Hc. unfold CircuitBreaker_new.
  destruct (record_all_closed c evs (pack Closed 0 0 0) Hc) as [H1 H2];
    autorewrite with portus; [done| |split; [|done]].
  - lia.
  - rewrite H1. by autorewrite with portus.
Qed.

Lemma breaker_opens_iff_failure_run_witness :
  current_state (record_all demo_config [(true, 1); (false, 2); (true, 3); (true, 4)]
    CircuitBreaker_new) = Open.
Proof.
  assert (Hc : config_ok demo_config) by (unfold config_ok, in_u; simpl; lia).
  apply (breaker_opens_iff_failure_run demo_config
    [(true, 1); (false, 2); (true, 3); (true, 4)] Hc).
  exists [true; false], []. reflexivity.
Defined.

(** ** Theorems: probing *)

Lemma allow_request_half_open c t1 t2 w :
  extract_state w = HalfOpen -> breaker_call c AllowRequest t1 t2 w = (Allowed false, w).
Proof.
  intros Hw. unfold breaker_call, run_alone, breaker_object. cbn [fast body].
  unfold allow_request_fast, allow_request_body. by rewrite Hw.
Qed.

Lemma allow_all_half_open c ts w :
  extract_state w = HalfOpen ->
  breaker_run c (map (fun t => (AllowRequest, t, t)) ts) w
  = (replicate (length ts) (Allowed false), w).
Proof.
  intros Hw. induction ts as [|t ts IH]; [done|]. cbn [map breaker_run length replicate].
  by rewrite allow_request_half_open, IH.
Qed.

(** A half-open breaker whose [success_threshold] is not met by the probe's
    success stays half-open and then refuses every request, at whatever time
    it comes: with a threshold above one the breaker never closes again,
    because no further request is let through to succeed. *)
Theorem half_open_wedges c t w ts :
  config_ok c -> extract_state w = HalfOpen ->
  extract_successes w + 1 < success_threshold c ->
  let w' := snd (breaker_call c RecordSuccess t t w) in
  current_state w' = HalfOpen /\
  breaker_run c (map (fun t => (AllowRequest, t, t)) ts) w'
  = (replicate (length ts) (Allowed false), w').
Proof.
  intros (_ & Hst & _) Hw Hs w'. unfold in_u in Hst.
  pose proof (extract_successes_range w) as Hr. unfold in_u in Hr.
  assert (Hw' : extract_state w' = HalfOpen).
  { unfold w', breaker_call, run_alone, breaker_object. cbn [fast body].
    unfold record_success_body. rewrite Hw. unfold saturating_add.
    destruct (Z.geb_spec (Z.min (extract_successes w + 1) (2 ^ 16 - 1)) (success_threshold c));
      [lia|]. cbn [snd]. by autorewrite with portus. }
  split; [done|]. by apply allow_all_half_open.
Qed.

(** The word a fresh breaker has after two failures and the admitted probe. *)
Lemma half_open_wedges_witness :
  let w := snd (breaker_run demo_config (take 4 demo_calls) CircuitBreaker_new) in
  breaker_run demo_config (map (fun t => (AllowRequest, t, t)) [50; 1000; 1000000])
    (snd (breaker_call demo_config RecordSuccess 46 46 w))
  = ([Allowed false; Allowed false; Allowed false],
     snd (breaker_call demo_config RecordSuccess 46 46 w)).
Proof.
  apply (half_open_wedges demo_config 46
    (snd (breaker_run demo_config (take 4 demo_calls) CircuitBreaker_new)) [50; 1000; 1000000]).
  - unfold config_ok, in_u. simpl. lia.
  - vm_compute. reflexivity.
  - vm_compute. reflexivity.
Defined.

(** *** Concurrent calls *)

(** A commit that opens the breaker, and one that admits a probe. *)
Definition is_trip (c : commit breaker_op Z breaker_ret) : bool :=
  match c_op c with RecordFailure => bool_decide (extract_state (c_new c) = Open) | _ => false end.

Definition is_probe (c : commit breaker_op Z breaker_ret) : bool :=
  match c_op c with AllowRequest => true | _ => false end.

Lemma breaker_commit_states cfg (c : commit breaker_op Z breaker_ret) :
  @lawful _ _ _ (breaker_object cfg) c ->
  match c_op c with
  | AllowRequest => extract_state (c_old c) = Open /\ extract_state (c_new c) = HalfOpen
  | RecordSuccess => extract_state (c_old c) <> Open /\ extract_state (c_new c) <> Open
  | RecordFailure => extract_state (c_old c) <> Open
  end.
Proof.
  destruct c as [o t1 t2 w w' r]. unfold lawful, breaker_object. simpl. intros [_ Hb].
  pose proof (extract_successes_range w) as Hs. unfold in_u in Hs.
  destruct o; unfold allow_request_body, record_success_body, record_failure_body,
    saturating_add in Hb; destruct (extract_state w) eqn:Hw; try done;
    repeat case_match; simplify_eq; bool_to_prop; by autorewrite with portus.
Qed.

Lemma breaker_chain_balance cfg w0 cs w :
  @chain breaker_op Z breaker_ret w0 cs w ->
  Forall (@lawful _ _ _ (breaker_object cfg)) cs -> extract_state w0 <> Open ->
  (count is_trip cs = count is_probe cs + if decide (extract_state w = Open) then 1 else 0)%nat.
Proof.
  induction 1 as [w|w0 cs c Hc IH]; intros Hl Hw.
  - rewrite decide_False by done. done.
  - apply Forall_app in Hl as [Hl Hlc]. apply Forall_inv in Hlc.
    apply breaker_commit_states in Hlc. specialize (IH Hl Hw).
    rewrite !count_app, !count_cons, !count_nil.
    unfold is_trip at 2, is_probe at 2. destruct (c_op c).
    + destruct Hlc as [Ho Hn]. rewrite decide_True in IH by done.
      rewrite decide_False by congruence. simpl. lia.
    + destruct Hlc as [Ho Hn]. rewrite (decide_False (P := _ = _) _ _ Hn).
      rewrite decide_False in IH by done. simpl. lia.
    + rewrite decide_False in IH by done. unfold bool_decide. repeat case_decide; simpl; try done; lia.
Qed.


Definition trigger_config : CircuitBreakerConfig :=
  {| failure_threshold := 1; success_threshold := 1; timeout_secs := 5 |}.

(** One failure trips the breaker; two requests then race for the probe at
    second 7, and the second of them loses the exchange. *)
Definition race_schedule : list (action breaker_op) :=
  [Call RecordFailure; Enter 0; Load 0; Pass 0 1 1; Exchange 0 true;
   Tick 7; Call AllowRequest; Call AllowRequest; Enter 1; Enter 2; Load 1; Load 2;
   Pass 1 7 7; Pass 2 7 7; Exchange 1 true; Exchange 2 false; Load 2; Pass 2 7 7].


(** ** Theorems: the connection limiter *)

Definition is_acquire (c : commit limiter_op Z bool) : bool :=
  match c_op c with TryAcquire => true | Release => false end.

Definition is_release (c : commit limiter_op Z bool) : bool :=
  match c_op c with TryAcquire => false | Release => true end.

Definition granted (o : limiter_op) (r : bool) : bool :=
  match o with TryAcquire => r | Release => false end.

Lemma limiter_chain_balance max w0 cs w :
  @chain limiter_op Z bool w0 cs w ->
  Forall (@lawful _ _ _ (limiter_object max)) cs -> 0 <= w0 <= max ->
  w = w0 + Z.of_nat (count is_acquire cs) - Z.of_nat (count is_release cs) /\ 0 <= w <= max.
Proof.
  induction 1 as [w|w0 cs c Hc IH]; intros Hl Hw; [rewrite !count_nil; lia|].
  apply Forall_app in Hl as [Hl Hlc]. apply Forall_inv in Hlc. destruct Hlc as [_ Hb].
  specialize (IH Hl Hw). rewrite !count_app, !count_cons, !count_nil. simpl in *.
  unfold is_acquire at 2, is_release at 2.
  destruct (c_op c); unfold limiter_try_acquire_body, limiter_release_body in Hb;
    case_match; simplify_eq; bool_to_prop; simpl; lia.
Qed.

(** However the calls of any number of threads interleave, a limiter built
    with [max] never has more than [max] active slots nor fewer than zero, its
    counter is the slots taken minus the slots given back, and every call that
    was told [true] did take one. *)
Theorem limiter_never_exceeds_max max now m :
  0 <= max ->
  @msteps _ _ _ (limiter_object max) (machine_init now ConnectionLimiter_new) m ->
  0 <= word m <= max /\
  word m = Z.of_nat (count is_acquire (commits m)) - Z.of_nat (count is_release (commits m)) /\
  count (finished_with granted) (threads m) = count is_acquire (commits m).
Proof.
  intros Hmax Hs. destruct (linearizable _ _ _ Hs) as [Hc Hl _].
  destruct (limiter_chain_balance max _ _ _ Hc Hl) as [Heq Hb]; [unfold ConnectionLimiter_new; lia|].
  split; [done|]. split; [unfold ConnectionLimiter_new in Heq; lia|].
  rewrite (count_finished_commits granted _ _ _) with (3 := Hs).
  - apply count_ext_Forall. eapply Forall_impl; [exact Hl|].
    intros [[] t1 t2 w w' r] [_ Hlaw]; [|done]. simpl in *.
    unfold limiter_try_acquire_body in Hlaw. case_match; by simplify_eq.
  - done.
  - intros [] t1 t2 w r Hb'; [|done]. simpl in *.
    unfold limiter_try_acquire_body in Hb'. case_match; by simplify_eq.
Qed.

(** Three threads compete for two slots; one gives its slot back. *)
Definition limiter_schedule : list (action limiter_op) :=
  [Call TryAcquire; Call TryAcquire; Call TryAcquire; Enter 0; Enter 1; Enter 2;
   Load 0; Load 1; Pass 0 0 0; Pass 1 0 0; Exchange 1 true; Exchange 0 false;
   Load 0; Load 2; Pass 0 0 0; Exchange 0 true; Pass 2 0 0; Exchange 2 false;
   Load 2; Pass 2 0 0; Call Release; Enter 3; Load 3; Pass 3 0 0; Exchange 3 true].

Lemma limiter_never_exceeds_max_witness :
  exists m, @do_actions _ _ _ (limiter_object 2) _
      (machine_init 0 ConnectionLimiter_new) limiter_schedule = Some m /\
    threads m = [Finished TryAcquire true; Finished TryAcquire true;
                 Finished TryAcquire false; Finished Release true] /\
    0 <= word m <= 2.
Proof.
  eexists. split; [vm_compute; reflexivity|]. split; [reflexivity|].
  apply (limiter_never_exceeds_max 2 0); [lia|].
  apply do_actions_steps with (sched := limiter_schedule). vm_compute. reflexivity.
Defined.
