(* ===== verification/Text.v ===== *)
(** * Strings and bytes

    The parts of Rust's [str] and [u8] slices the sources use.  A [&str] or a
    byte slice is a [string]: a sequence of bytes.  Functions that in Rust look
    at characters are written on the UTF-8 bytes. *)
From S2P Require Import Prelude.

#[global] Arguments String.append : simpl nomatch.

(** ** Bytes *)

Definition byte_val (c : ascii) : Z := Z.of_N (N_of_ascii c).
Definition byte_of (z : Z) : ascii := ascii_of_N (Z.to_N z).
Definition in_byte_range (lo hi : Z) (c : ascii) : bool := (lo <=? byte_val c) && (byte_val c <=? hi).

Definition is_ascii_digit : ascii -> bool := in_byte_range 48 57.
Definition is_ascii_upper : ascii -> bool := in_byte_range 65 90.
Definition is_ascii_lower : ascii -> bool := in_byte_range 97 122.
Definition is_ascii_alphanumeric (c : ascii) : bool :=
  is_ascii_digit c || is_ascii_upper c || is_ascii_lower c.

(** [u8::to_ascii_lowercase] *)
Definition lower_byte (c : ascii) : ascii :=
  if is_ascii_upper c then byte_of (byte_val c + 32) else c.

(** [u8::to_ascii_uppercase] *)
Definition upper_byte (c : ascii) : ascii :=
  if is_ascii_lower c then byte_of (byte_val c - 32) else c.

(** ** Slices *)

Fixpoint smap (f : ascii -> ascii) (s : string) : string :=
  match s with EmptyString => EmptyString | String c s => String (f c) (smap f s) end.

(** [str::to_ascii_lowercase] and [str::eq_ignore_ascii_case] *)
Definition to_ascii_lowercase : string -> string := smap lower_byte.
Definition to_ascii_uppercase : string -> string := smap upper_byte.
Definition eq_ignore_ascii_case (a b : string) : bool :=
  bool_decide (to_ascii_lowercase a = to_ascii_lowercase b).

Definition is_empty (s : string) : bool := match s with EmptyString => true | _ => false end.

(** [&s[n..]] and [&s[..n]] *)
Fixpoint sdrop (n : nat) (s : string) : string :=
  match n, s with
  | O, _ => s
  | S n, String _ s => sdrop n s
  | S _, EmptyString => EmptyString
  end.

Fixpoint stake (n : nat) (s : string) : string :=
  match n, s with
  | S n, String c s => String c (stake n s)
  | _, _ => EmptyString
  end.

(** [str::strip_prefix] and [str::starts_with] *)
Fixpoint strip_prefix (p s : string) : option string :=
  match p, s with
  | EmptyString, _ => Some s
  | String a p, String b s => if decide (a = b) then strip_prefix p s else None
  | String _ _, EmptyString => None
  end.

Definition starts_with (p s : string) : bool :=
  match strip_prefix p s with Some _ => true | None => false end.

(** [str::ends_with] *)
Definition ends_with (x s : string) : bool :=
  (String.length x <=? String.length s)%nat &&
  bool_decide (sdrop (String.length s - String.length x) s = x).

(** [str::find] of an ASCII character: its byte position. *)
Fixpoint find_char (c : ascii) (s : string) : option nat :=
  match s with
  | EmptyString => None
  | String a s => if decide (a = c) then Some O
                  else match find_char c s with Some n => Some (S n) | None => None end
  end.

(** [str::split] on an ASCII character: always at least one piece. *)
Fixpoint split_char (c : ascii) (s : string) : list string :=
  match s with
  | EmptyString => [EmptyString]
  | String a s =>
      if decide (a = c) then EmptyString :: split_char c s
      else match split_char c s with
           | [] => [String a EmptyString]
           | x :: xs => String a x :: xs
           end
  end.

(** [str::split_once] *)
Fixpoint split_once (c : ascii) (s : string) : option (string * string) :=
  match s with
  | EmptyString => None
  | String a s =>
      if decide (a = c) then Some (EmptyString, s)
      else match split_once c s with Some (x, y) => Some (String a x, y) | None => None end
  end.

(** The first two pieces of [splitn(2, c)]. *)
Definition splitn2 (c : ascii) (s : string) : string * option string :=
  match split_once c s with Some (x, y) => (x, Some y) | None => (s, None) end.

(** [[String]::join] *)
Fixpoint join (sep : string) (l : list string) : string :=
  match l with
  | [] => EmptyString
  | [x] => x
  | x :: l => x +:+ sep +:+ join sep l
  end.

(** [str::replace] of one byte by nothing. *)
Fixpoint remove_bytes (f : ascii -> bool) (s : string) : string :=
  match s with
  | EmptyString => EmptyString
  | String c s => if f c then remove_bytes f s else String c (remove_bytes f s)
  end.

Fixpoint srev_app (s acc : string) : string :=
  match s with EmptyString => acc | String c s => srev_app s (String c acc) end.

Definition srev (s : string) : string := srev_app s EmptyString.

(** ** White space

    [char::is_whitespace]: the White_Space characters of Unicode as their
    UTF-8 encodings. *)

Definition b2 (x y : Z) : string := String (byte_of x) (String (byte_of y) EmptyString).
Definition b3 (x y z : Z) : string := String (byte_of x) (b2 y z).

Definition wide_spaces : list string :=
  [b2 0xC2 0x85; b2 0xC2 0xA0; b3 0xE1 0x9A 0x80; b3 0xE2 0x80 0x80; b3 0xE2 0x80 0x81;
   b3 0xE2 0x80 0x82; b3 0xE2 0x80 0x83; b3 0xE2 0x80 0x84; b3 0xE2 0x80 0x85; b3 0xE2 0x80 0x86;
   b3 0xE2 0x80 0x87; b3 0xE2 0x80 0x88; b3 0xE2 0x80 0x89; b3 0xE2 0x80 0x8A; b3 0xE2 0x80 0xA8;
   b3 0xE2 0x80 0xA9; b3 0xE2 0x80 0xAF; b3 0xE2 0x81 0x9F; b3 0xE3 0x80 0x80].

Definition is_ascii_space (c : ascii) : bool := in_byte_range 9 13 c || (byte_val c =? 32).

(** Drop one leading white-space character out of [wide] or ASCII. *)
Fixpoint strip_first (ps : list string) (s : string) : option string :=
  match ps with
  | [] => None
  | p :: ps => match strip_prefix p s with Some r => Some r | None => strip_first ps s end
  end.

Definition strip_space (wide : list string) (s : string) : option string :=
  match s with
  | EmptyString => None
  | String c r => if is_ascii_space c then Some r else strip_first wide s
  end.

(** As long as there is a leading one; the length of the string is enough
    rounds, each of them dropping at least a byte. *)
Fixpoint strip_spaces (fuel : nat) (wide : list string) (s : string) : string :=
  match fuel with
  | O => s
  | S fuel => match strip_space wide s with Some r => strip_spaces fuel wide r | None => s end
  end.

(** [str::trim_start], [str::trim_end], [str::trim] *)
Definition trim_start (s : string) : string := strip_spaces (String.length s) wide_spaces s.
Definition trim_end (s : string) : string :=
  srev (strip_spaces (String.length s) (map srev wide_spaces) (srev s)).
Definition trim (s : string) : string := trim_end (trim_start s).

(** ** Integers *)

Definition digit_val (c : ascii) : option Z :=
  if is_ascii_digit c then Some (byte_val c - 48) else None.

(** Digits in base 10, failing on overflow of [max]. *)
Fixpoint parse_digits (max acc : Z) (s : string) : option Z :=
  match s with
  | EmptyString => Some acc
  | String c s =>
      match digit_val c with
      | Some d => let acc := acc * 10 + d in if acc <=? max then parse_digits max acc s else None
      | None => None
      end
  end.

(** [str::parse::<uN>]: an optional [+], then at least one digit. *)
Definition parse_u (w : Z) (s : string) : option Z :=
  let digits := match s with String c r => if decide (c = "+"%char) then r else s | _ => s end in
  if is_empty digits then None else parse_digits (2 ^ w - 1) 0 digits.

(** [uN::to_string] *)
Definition show_u (n : Z) : string := pretty (Z.to_N n).

(** ** UTF-8

    [std::str::from_utf8], as the automaton of the well-formed byte
    sequences of the Unicode standard: no overlong forms, no surrogates,
    nothing above U+10FFFF. *)

Definition is_cont : ascii -> bool := in_byte_range 0x80 0xBF.

Fixpoint utf8_valid (s : string) : bool :=
  match s with
  | EmptyString => true
  | String a s1 =>
      if in_byte_range 0x00 0x7F a then utf8_valid s1
      else
        match s1 with
        | EmptyString => false
        | String b s2 =>
            if in_byte_range 0xC2 0xDF a then is_cont b && utf8_valid s2
            else
              match s2 with
              | EmptyString => false
              | String c s3 =>
                  if in_byte_range 0xE0 0xEF a then
                    is_cont c && utf8_valid s3 &&
                    (if byte_val a =? 0xE0 then in_byte_range 0xA0 0xBF b
                     else if byte_val a =? 0xED then in_byte_range 0x80 0x9F b
                     else is_cont b)
                  else
                    match s3 with
                    | EmptyString => false
                    | String d s4 =>
                        in_byte_range 0xF0 0xF4 a && is_cont c && is_cont d && utf8_valid s4 &&
                        (if byte_val a =? 0xF0 then in_byte_range 0x90 0xBF b
                         else if byte_val a =? 0xF4 then in_byte_range 0x80 0x8F b
                         else is_cont b)
                    end
              end
        end
  end.

Definition from_utf8 (s : string) : option string := if utf8_valid s then Some s else None.

(** ** Laws of slices *)

Lemma sapp_assoc (a b c : string) : (a +:+ b) +:+ c = a +:+ b +:+ c.
Proof. induction a as [|x a IH]; simpl; [done|]. by rewrite IH. Qed.

Lemma sapp_nil_r (a : string) : a +:+ EmptyString = a.
Proof. induction a as [|x a IH]; simpl; [done|]. by rewrite IH. Qed.

Lemma slength_app a b : String.length (a +:+ b) = (String.length a + String.length b)%nat.
Proof. induction a as [|x a IH]; simpl; [done|]. by rewrite IH. Qed.

Lemma sdrop_app a b : sdrop (String.length a) (a +:+ b) = b.
Proof. by induction a. Qed.

Lemma stake_app a b : stake (String.length a) (a +:+ b) = a.
Proof. induction a as [|x a IH]; simpl; [by destruct b|]. by rewrite IH. Qed.

Lemma stake_sdrop n s : stake n s +:+ sdrop n s = s.
Proof. revert s. induction n as [|n IH]; intros [|c s]; simpl; by rewrite ?IH. Qed.

Lemma sdrop_length n s : String.length (sdrop n s) = (String.length s - n)%nat.
Proof. revert s. induction n as [|n IH]; intros [|c s]; simpl; by rewrite ?IH. Qed.

Lemma stake_length n s : String.length (stake n s) = Nat.min n (String.length s).
Proof. revert s. induction n as [|n IH]; intros [|c s]; simpl; by rewrite ?IH. Qed.

Lemma sdrop_sdrop m n s : sdrop m (sdrop n s) = sdrop (n + m) s.
Proof. revert s. induction n as [|n IH]; intros [|c s]; simpl; first [done | apply IH | by destruct m]. Qed.

Lemma strip_prefix_Some p s r : strip_prefix p s = Some r <-> s = p +:+ r.
Proof.
  revert s. induction p as [|a p IH]; intros [|b s]; simpl.
  - split; intros; by simplify_eq.
  - split; intros; by simplify_eq.
  - done.
  - case_decide; [subst; rewrite IH|]; split; intros; simplify_eq; done.
Qed.

Lemma starts_with_spec p s : starts_with p s = true <-> exists r, s = p +:+ r.
Proof.
  unfold starts_with. destruct (strip_prefix p s) as [r|] eqn:Hs.
  - apply strip_prefix_Some in Hs. split; [by exists r|done].
  - split; [done|]. intros [r Hr]. apply strip_prefix_Some in Hr. congruence.
Qed.

Lemma ends_with_spec x s : ends_with x s = true <-> exists r, s = r +:+ x.
Proof.
  unfold ends_with. split.
  - intros Hx. apply andb_true_iff in Hx as [_ Hx%bool_decide_eq_true].
    exists (stake (String.length s - String.length x) s). rewrite <- Hx at 2.
    by rewrite stake_sdrop.
  - intros [r ->]. rewrite slength_app. apply andb_true_iff. split; [apply Nat.leb_le; lia|].
    apply bool_decide_eq_true. replace (_ - _)%nat with (String.length r) by lia. apply sdrop_app.
Qed.

Lemma find_char_Some c s n :
  find_char c s = Some n ->
  s = stake n s +:+ String c (sdrop (n + 1) s) /\ find_char c (stake n s) = None.
Proof.
  revert n. induction s as [|a s IH]; intros n; simpl; [done|].
  case_decide as Ha; [intros; simplify_eq; by destruct s|].
  destruct (find_char c s) as [m|] eqn:Hm; [|done]. intros; simplify_eq. simpl.
  rewrite decide_False by done. destruct (IH m eq_refl) as [H1 H2]. rewrite H2.
  split; [by f_equal|done].
Qed.

Lemma find_char_app c a b : find_char c a = None -> find_char c (a +:+ String c b) = Some (String.length a).
Proof.
  induction a as [|x a IH]; simpl; [by rewrite decide_True|]. case_decide; [done|].
  destruct (find_char c a); [done|]. intros _. by rewrite IH.
Qed.

Lemma find_char_None_app c a b :
  find_char c (a +:+ b) = None <-> find_char c a = None /\ find_char c b = None.
Proof.
  induction a as [|x a IH]; simpl; [tauto|]. case_decide; [split; [done|by intros []]|].
  destruct (find_char c (a +:+ b)), (find_char c a), (find_char c b); intuition congruence.
Qed.

Lemma is_empty_true s : is_empty s = true <-> s = EmptyString.
Proof. by destruct s. Qed.

(** Splitting at a separator splits both sides. *)
Lemma split_char_app c a b : split_char c (a +:+ String c b) = split_char c a ++ split_char c b.
Proof.
  induction a as [|x a IH]; simpl; [by rewrite decide_True|]. case_decide; [by rewrite IH|].
  rewrite IH. destruct (split_char c a) as [|y ys] eqn:Ha; [|done].
  exfalso. destruct a; simpl in Ha; repeat case_match; done.
Qed.

Lemma split_char_nonempty c s : split_char c s <> [].
Proof. destruct s; simpl; repeat case_match; done. Qed.

Lemma smap_app f a b : smap f (a +:+ b) = smap f a +:+ smap f b.
Proof. induction a as [|x a IH]; simpl; [done|]. by rewrite IH. Qed.

Lemma smap_length f a : String.length (smap f a) = String.length a.
Proof. induction a as [|x a IH]; simpl; [done|]. by rewrite IH. Qed.

#[export] Hint Rewrite slength_app sdrop_length stake_length smap_length sapp_assoc sapp_nil_r : portus.

(** ** Reversal *)

Lemma srev_app_spec s acc : srev_app s acc = srev s +:+ acc.
Proof.
  revert acc. unfold srev. induction s as [|c s IH]; intros acc; simpl; [done|].
  rewrite IH, (IH (String c EmptyString)), sapp_assoc. done.
Qed.

Lemma srev_cons c s : srev (String c s) = srev s +:+ String c EmptyString.
Proof. unfold srev at 1. simpl. apply srev_app_spec. Qed.

Lemma srev_append a b : srev (a +:+ b) = srev b +:+ srev a.
Proof.
  induction a as [|c a IH]; simpl; [by rewrite sapp_nil_r|]. by rewrite !srev_cons, IH, sapp_assoc.
Qed.

Lemma srev_involutive s : srev (srev s) = s.
Proof. induction s as [|c s IH]; [done|]. by rewrite srev_cons, srev_append, IH. Qed.

(** [str::trim_end_matches] of one character. *)
Fixpoint skip_char (c : ascii) (s : string) : string :=
  match s with
  | String a r => if decide (a = c) then skip_char c r else s
  | EmptyString => EmptyString
  end.

Definition trim_end_char (c : ascii) (s : string) : string := srev (skip_char c (srev s)).

(** A run of [c] behind text without [c] is all that goes. *)
Fixpoint srepeat (c : ascii) (n : nat) : string :=
  match n with O => EmptyString | S n => String c (srepeat c n) end.

Lemma srev_srepeat c n : srev (srepeat c n) = srepeat c n.
Proof.
  induction n as [|n IH]; [done|]. simpl. rewrite srev_cons, IH. clear IH.
  induction n as [|n IH]; [done|]. simpl. by rewrite IH.
Qed.

Lemma skip_srepeat c n s : skip_char c (srepeat c n +:+ s) = skip_char c s.
Proof. induction n as [|n IH]; simpl; [done|]. by rewrite decide_True. Qed.

Lemma find_char_rev c s : find_char c s = None -> find_char c (srev s) = None.
Proof.
  induction s as [|a s IH]; [done|]. rewrite srev_cons. simpl. case_decide; [done|].
  intros Hs. apply find_char_None_app. split; [apply IH; by destruct (find_char c s)|].
  simpl. by rewrite decide_False.
Qed.

Lemma trim_end_char_pad c s n : find_char c s = None -> trim_end_char c (s +:+ srepeat c n) = s.
Proof.
  intros Hs. unfold trim_end_char. rewrite srev_append, srev_srepeat, skip_srepeat.
  apply find_char_rev in Hs. rewrite <- (srev_involutive s) at 2. f_equal.
  destruct (srev s) as [|a r]; [done|]. simpl in *. case_decide; [done|done].
Qed.

(** ** Words *)

(** Up to the first white space: the word and what follows it. *)
Fixpoint take_word (fuel : nat) (s : string) : string * string :=
  match fuel, s with
  | S fuel, String c r =>
      match strip_space wide_spaces s with
      | Some _ => (EmptyString, s)
      | None => let '(w, rest) := take_word fuel r in (String c w, rest)
      end
  | _, _ => (EmptyString, s)
  end.

(** [str::split_whitespace]; every round takes at least a byte. *)
Fixpoint words_loop (fuel : nat) (s : string) : list string :=
  match fuel with
  | O => []
  | S fuel =>
      let s := strip_spaces (String.length s) wide_spaces s in
      if is_empty s then []
      else let '(w, rest) := take_word (String.length s) s in w :: words_loop fuel rest
  end.

Definition split_whitespace (s : string) : list string := words_loop (S (String.length s)) s.

(** [str::strip_suffix] *)
Definition strip_suffix (x s : string) : option string :=
  if ends_with x s then Some (stake (String.length s - String.length x) s) else None.

(** [char::is_control] somewhere in a UTF-8 string: C0, DEL and C1. *)
Fixpoint has_control (s : string) : bool :=
  match s with
  | EmptyString => false
  | String c r =>
      in_byte_range 0 31 c || (byte_val c =? 127) ||
      ((byte_val c =? 0xC2) && match r with String d _ => in_byte_range 0x80 0x9F d | EmptyString => false end)
      || has_control r
  end.

(** ** Suffixes at a dot

    Several lookups walk a host name from left to right and try the suffix
    that starts at each dot; at most one round per byte. *)
Section SuffixSearch.
Context {A : Type} (f : string -> option A).

Fixpoint suffix_search (fuel : nat) (search : string) : option A :=
  match fuel with
  | O => None
  | S fuel =>
      match find_char "." search with
      | None => None
      | Some dot =>
          match f (sdrop dot search) with
          | Some a => Some a
          | None => suffix_search fuel (sdrop (dot + 1) search)
          end
      end
  end.

Definition dot_suffix (host s : string) : Prop := exists pre rest, host = pre +:+ s /\ s = "." +:+ rest.

Lemma dot_split a r pre rest :
  find_char "." a = None -> a +:+ String "." r = pre +:+ String "." rest ->
  rest = r \/ exists pre', r = pre' +:+ String "." rest.
Proof.
  revert pre. induction a as [|c a IH]; intros [|d pre] Hn Heq; simpl in *; simplify_eq.
  - by left.
  - right. by exists pre.
  - destruct (decide (d = "."%char)); [done|]. apply (IH pre); [|done]. by destruct (find_char "." a).
Qed.

(** The dot suffixes of a name with a first dot: the one there, and those of
    the rest. *)
Lemma dot_suffix_cases a r s :
  find_char "." a = None -> dot_suffix (a +:+ String "." r) s -> s = String "." r \/ dot_suffix r s.
Proof.
  intros Hnone (pre & rest & Hs & ->). apply (dot_split a r pre rest Hnone) in Hs.
  destruct Hs as [->|[pre' ->]]; [by left|right; by exists pre', rest].
Qed.

Lemma dot_suffix_length host s : dot_suffix host s -> (String.length s <= String.length host)%nat.
Proof. intros (pre & rest & -> & _). rewrite slength_app. lia. Qed.

(** The search finds the longest suffix that has an answer. *)
Lemma suffix_search_spec fuel search :
  (String.length search < fuel)%nat ->
  match suffix_search fuel search with
  | Some a => exists s, dot_suffix search s /\ f s = Some a /\
      forall s', dot_suffix search s' -> is_Some (f s') -> (String.length s' <= String.length s)%nat
  | None => forall s, dot_suffix search s -> f s = None
  end.
Proof.
  revert search. induction fuel as [|fuel IH]; intros search Hf; [lia|]. simpl.
  destruct (find_char "." search) as [dot|] eqn:Hd.
  2: { intros s (pre & rest & -> & ->). apply find_char_None_app in Hd as [_ Hd]. done. }
  destruct (find_char_Some _ _ _ Hd) as [Heq Hnone].
  set (a := stake dot search) in *. set (r := sdrop (dot + 1) search) in *.
  assert (Ha : String.length a = dot).
  { unfold a. rewrite stake_length. apply (f_equal String.length) in Heq.
    rewrite slength_app in Heq. unfold a in Heq. rewrite stake_length in Heq. simpl in Heq. lia. }
  assert (Hsd : sdrop dot search = String "." r) by (rewrite Heq, <- Ha; apply sdrop_app).
  assert (Hcases : forall s, dot_suffix search s -> s = String "." r \/ dot_suffix r s).
  { intros s. rewrite Heq. by apply dot_suffix_cases. }
  rewrite Hsd. destruct (f (String "." r)) as [x|] eqn:Hm.
  - exists (String "." r). split_and!; [exists a, r; done|done|].
    intros s' Hs' _. destruct (Hcases s' Hs') as [->|Hr%dot_suffix_length]; [lia|]. simpl. lia.
  - specialize (IH r). rewrite Heq in Hf at 1. rewrite slength_app in Hf. simpl in Hf.
    specialize (IH ltac:(lia)). destruct (suffix_search fuel r) as [x|].
    + destruct IH as (s & (pre & rest & Hr & Hs) & Hms & Hmax). exists s. split_and!; [|done|].
      * exists (a +:+ "." +:+ pre), rest. split; [|done]. rewrite Heq, Hr. by rewrite !sapp_assoc.
      * intros s' Hs' Hsome. destruct (Hcases s' Hs') as [->|Hr']; [|by apply Hmax].
        rewrite Hm in Hsome. by destruct Hsome.
    + intros s Hs. destruct (Hcases s Hs) as [->|Hr]; [done|by apply IH].
Qed.
End SuffixSearch.

(** ** Common prefixes and suffixes *)

Lemma sapp_split a1 b1 a2 b2 :
  a1 +:+ b1 = a2 +:+ b2 -> (String.length a1 <= String.length a2)%nat ->
  exists c, a2 = a1 +:+ c /\ b1 = c +:+ b2.
Proof.
  revert a2. induction a1 as [|x a1 IH]; intros [|y a2] H Hl; simpl in *; [by exists EmptyString|by exists (String y a2)|lia|].
  injection H as <- H. destruct (IH a2 H) as (c & -> & ->); [lia|]. by exists c.
Qed.

Lemma ends_with_trans a b s : ends_with a b = true -> ends_with b s = true -> ends_with a s = true.
Proof.
  rewrite !ends_with_spec. intros [p ->] [q ->]. exists (q +:+ p). by rewrite sapp_assoc.
Qed.

Lemma ends_with_length a s : ends_with a s = true -> (String.length a <= String.length s)%nat.
Proof. rewrite ends_with_spec. intros [p ->]. rewrite slength_app. lia. Qed.

(** Two suffixes of one string are suffixes of each other. *)
Lemma ends_with_comparable a b s :
  ends_with a s = true -> ends_with b s = true -> ends_with a b = true \/ ends_with b a = true.
Proof.
  rewrite !ends_with_spec. intros [p ->] [q H].
  destruct (decide (String.length p <= String.length q)%nat) as [Hl|Hl].
  - destruct (sapp_split _ _ _ _ H Hl) as (c & -> & ->). right. by exists c.
  - symmetry in H. destruct (sapp_split _ _ _ _ H ltac:(lia)) as (c & -> & ->). left. by exists c.
Qed.

Lemma ends_with_same_length a b : ends_with a b = true -> String.length a = String.length b -> a = b.
Proof.
  rewrite ends_with_spec. intros [p ->] Hl. rewrite slength_app in Hl. destruct p; [done|]. simpl in Hl. lia.
Qed.

Lemma ends_with_both a b : ends_with a b = true -> ends_with b a = true -> a = b.
Proof.
  intros H1 H2. apply ends_with_same_length; [done|].
  apply ends_with_length in H1. apply ends_with_length in H2. lia.
Qed.

(** [strip_suffix] *)
Lemma strip_suffix_Some x s r : strip_suffix x s = Some r <-> s = r +:+ x.
Proof.
  unfold strip_suffix. destruct (ends_with x s) eqn:E.
  - apply ends_with_spec in E as [p ->]. rewrite slength_app, Nat.add_sub, stake_app. split; [by intros [= ->]|].
    intros H. f_equal. destruct (decide (String.length p <= String.length r)%nat) as [Hl|Hl].
    + destruct (sapp_split _ _ _ _ H Hl) as (c & -> & Hx). apply (f_equal String.length) in Hx.
      rewrite slength_app in Hx. destruct c; [by rewrite sapp_nil_r|simpl in Hx; lia].
    + symmetry in H. destruct (sapp_split _ _ _ _ H ltac:(lia)) as (c & -> & Hx). apply (f_equal String.length) in Hx.
      rewrite slength_app in Hx. destruct c; [by rewrite sapp_nil_r|simpl in Hx; lia].
  - split; [done|]. intros ->. assert (ends_with x (r +:+ x) = true) by (apply ends_with_spec; by exists r). congruence.
Qed.

(** Lower case *)
Lemma lower_byte_idem c : lower_byte (lower_byte c) = lower_byte c.
Proof. destruct c as [[] [] [] [] [] [] [] []]; reflexivity. Qed.

Lemma to_ascii_lowercase_idem s : to_ascii_lowercase (to_ascii_lowercase s) = to_ascii_lowercase s.
Proof. induction s as [|c s IH]; [done|]. cbn. unfold to_ascii_lowercase in *. by rewrite lower_byte_idem, IH. Qed.

Lemma lowercase_length s : String.length (to_ascii_lowercase s) = String.length s.
Proof. apply smap_length. Qed.

Lemma lowercase_empty s : is_empty (to_ascii_lowercase s) = is_empty s.
Proof. by destruct s. Qed.

Lemma lower_byte_star c : lower_byte c = "*"%char <-> c = "*"%char.
Proof. destruct c as [[] [] [] [] [] [] [] []]; by vm_compute. Qed.
Lemma lower_byte_dot c : lower_byte c = "."%char <-> c = "."%char.
Proof. destruct c as [[] [] [] [] [] [] [] []]; by vm_compute. Qed.

(** The case of a name does not decide whether it is a wildcard. *)
Lemma strip_wildcard_lowercase s :
  strip_prefix "*." (to_ascii_lowercase s) = to_ascii_lowercase <$> strip_prefix "*." s.
Proof.
  destruct s as [|a [|b s]]; cbn; [done| |].
  - pose proof (lower_byte_star a). repeat case_decide; try done; naive_solver.
  - pose proof (lower_byte_star a). pose proof (lower_byte_dot b). repeat case_decide; try done; naive_solver.
Qed.

(** ** The order of strings *)

Lemma scompare_refl s : String.compare s s = Eq.
Proof. pose proof (String.compare_antisym s s) as H. by destruct (String.compare s s). Qed.

Lemma scompare_lt_trans a b c : String.compare a b = Lt -> String.compare b c = Lt -> String.compare a c = Lt.
Proof.
  revert b c. induction a as [|x a IH]; intros [|y b] [|z c]; cbn; try done.
  unfold Ascii.compare. destruct (N.compare_spec (N_of_ascii x) (N_of_ascii y)) as [Hxy|Hxy|Hxy]; try done.
  - rewrite Hxy. destruct (N.compare_spec (N_of_ascii y) (N_of_ascii z)) as [Hyz|Hyz|Hyz]; try done. apply IH.
  - intros _. destruct (N.compare_spec (N_of_ascii y) (N_of_ascii z)) as [Hyz|Hyz|Hyz]; try done; intros _.
    + rewrite <- Hyz. by apply N.compare_lt_iff in Hxy as ->.
    + assert (Hxz : (N_of_ascii x < N_of_ascii z)%N) by lia. by apply N.compare_lt_iff in Hxz as ->.
Qed.

(** Whether a string has a character of [char::is_whitespace]. *)
Fixpoint has_whitespace (s : string) : bool :=
  match s with
  | EmptyString => false
  | String _ s' => match strip_space wide_spaces s with Some _ => true | None => has_whitespace s' end
  end.

(** [{:?}] of a string; a byte outside ASCII is kept. *)
Definition hex_digit (n : Z) : ascii := byte_of (if n <? 10 then 48 + n else 87 + n).

Definition debug_byte (c : ascii) : string :=
  let b := byte_val c in
  if (b =? 34) || (b =? 92) then String "\"%char (String c EmptyString)
  else if b =? 10 then "\n" else if b =? 13 then "\r" else if b =? 9 then "\t" else if b =? 0 then "\0"
  else if (b <? 32) || (b =? 127)
  then "\u{" +:+ (if b <? 16 then String (hex_digit b) EmptyString
                  else String (hex_digit (b / 16)) (String (hex_digit (b mod 16)) EmptyString)) +:+ "}"
  else String c EmptyString.

Fixpoint debug_bytes (s : string) : string :=
  match s with EmptyString => EmptyString | String c s => debug_byte c +:+ debug_bytes s end.

Definition debug_str (s : string) : string :=
  let quote := String (byte_of 34) EmptyString in quote +:+ debug_bytes s +:+ quote.

(** Comparisons that order: what [Ord] asks of [cmp]. *)
Record Lawful {A} (cmp : A -> A -> comparison) : Prop := {
  lawful_antisym x y : cmp y x = CompOpp (cmp x y);
  lawful_trans x y z : cmp x y = Lt -> cmp y z = Lt -> cmp x z = Lt;
  lawful_eq x y z : cmp x y = Eq -> cmp x z = cmp y z;
}.

Lemma lawful_string : Lawful String.compare.
Proof.
  split; [intros x y; apply String.compare_antisym|apply scompare_lt_trans|by intros x y z ->%String.compare_eq_iff].
Qed.

Lemma lawful_Z : Lawful Z.compare.
Proof.
  split; [intros; apply Z.compare_antisym| |by intros x y z ->%Z.compare_eq].
  intros x y z. rewrite !Z.compare_lt_iff. lia.
Qed.

Lemma lawful_on {A B} (f : A -> B) cmp : Lawful cmp -> Lawful (fun x y => cmp (f x) (f y)).
Proof. intros [H1 H2 H3]. split; eauto. Qed.

Lemma lawful_then {A} (f g : A -> A -> comparison) : Lawful f -> Lawful g -> Lawful (fun x y => then_with (f x y) (g x y)).
Proof.
  intros [F1 F2 F3] [G1 G2 G3]. split.
  - intros x y. rewrite F1, G1. by destruct (f x y).
  - intros x y z. destruct (f x y) eqn:E1; simpl; [|intros _|done].
    + rewrite (F3 _ _ z E1). destruct (f y z); simpl; eauto.
    + destruct (f y z) eqn:E2; simpl; [|by rewrite (F2 x y z)|done]. intros _.
      assert (E3 : f z x = f y x) by (symmetry; apply F3, E2). rewrite (F1 z x), E3, (F1 x y), E1. done.
  - intros x y z. destruct (f x y) eqn:E1; simpl; [|done|done]. intros E2. rewrite (F3 _ _ z E1). destruct (f y z); simpl; eauto.
Qed.

Lemma lawful_total {A} (cmp : A -> A -> comparison) : Lawful cmp -> forall x y, not_after cmp x y = false -> not_after cmp y x = true.
Proof. intros L x y. unfold not_after. rewrite (lawful_antisym _ L x y). by destruct (cmp x y). Qed.

Lemma lawful_sort {A} (cmp : A -> A -> comparison) :
  Lawful cmp -> forall x y z, not_after cmp x y = true -> not_after cmp y z = true -> not_after cmp x z = true.
Proof.
  intros L x y z. unfold not_after. destruct (cmp x y) eqn:E1; [|intros _|done].
  - by rewrite (lawful_eq _ L x y z E1).
  - destruct (cmp y z) eqn:E2; [|by rewrite (lawful_trans _ L x y z)|done]. intros _.
    assert (E3 : cmp z x = cmp y x) by (symmetry; by apply (lawful_eq _ L)).
    by rewrite (lawful_antisym _ L z x), E3, (lawful_antisym _ L x y), E1.
Qed.
