(* ===== verification/Net.v ===== *)
(** * Addresses

    [std::net::IpAddr] and [std::net::SocketAddr] as the data plane uses them:
    map keys, equality, the derived ordering by which a pool sorts its
    endpoints, the standard library's parser of their text forms, and their
    [Display]. *)
From S2P Require Import Prelude Text.

Inductive IpAddr :=
| V4 (bits : Z)
| V6 (bits : Z).

#[export] Instance IpAddr_eq_dec : EqDecision IpAddr.
Proof. solve_decision. Defined.

#[export] Instance IpAddr_countable : Countable IpAddr.
Proof.
  apply (inj_countable' (fun a => match a with V4 b => inl b | V6 b => inr b end)
    (fun s => match s with inl b => V4 b | inr b => V6 b end)).
  by intros [].
Defined.

(** An IPv6 socket address also carries flow information and a scope id. *)
Inductive SocketAddr :=
| SocketV4 (ip port : Z)
| SocketV6 (ip port flowinfo scope_id : Z).

#[export] Instance SocketAddr_eq_dec : EqDecision SocketAddr.
Proof. solve_decision. Defined.

#[export] Instance SocketAddr_countable : Countable SocketAddr.
Proof.
  apply (inj_countable'
    (fun a => match a with SocketV4 i p => inl (i, p) | SocketV6 i p f s => inr (i, p, f, s) end)
    (fun s => match s with inl (i, p) => SocketV4 i p | inr (i, p, f, s) => SocketV6 i p f s end)).
  by intros [].
Defined.

(** The derived [Ord]: every v4 address before every v6 address, then field by
    field.  A socket address as the tuple it is compared by. *)
Definition socket_key (a : SocketAddr) : list Z :=
  match a with
  | SocketV4 ip port => [0; ip; port]
  | SocketV6 ip port flow scope => [1; ip; port; flow; scope]
  end.

Fixpoint key_leb (k1 k2 : list Z) : bool :=
  match k1, k2 with
  | [], _ => true
  | _ :: _, [] => false
  | x :: k1, y :: k2 => (x <? y) || ((x =? y) && key_leb k1 k2)
  end.

Definition socket_le (a b : SocketAddr) : Prop := key_leb (socket_key a) (socket_key b) = true.

#[export] Instance socket_le_dec a b : Decision (socket_le a b).
Proof. unfold socket_le. apply _. Defined.

Lemma key_leb_total k1 k2 : key_leb k1 k2 = true \/ key_leb k2 k1 = true.
Proof.
  revert k2. induction k1 as [|x k1 IH]; intros [|y k2]; simpl; auto.
  destruct (Z.ltb_spec x y), (Z.ltb_spec y x), (Z.eqb_spec x y), (Z.eqb_spec y x);
    simpl; auto; try lia.
Qed.

Lemma key_leb_trans k1 k2 k3 :
  key_leb k1 k2 = true -> key_leb k2 k3 = true -> key_leb k1 k3 = true.
Proof.
  revert k2 k3. induction k1 as [|x k1 IH]; intros [|y k2] [|z k3]; simpl; auto; try done.
  destruct (Z.ltb_spec x y), (Z.eqb_spec x y), (Z.ltb_spec y z), (Z.eqb_spec y z),
    (Z.ltb_spec x z), (Z.eqb_spec x z); simpl; try done; try lia. intros. by eapply IH.
Qed.

Lemma key_leb_antisym k1 k2 :
  key_leb k1 k2 = true -> key_leb k2 k1 = true -> k1 = k2.
Proof.
  revert k2. induction k1 as [|x k1 IH]; intros [|y k2]; simpl; auto; try done.
  destruct (Z.ltb_spec x y), (Z.eqb_spec x y), (Z.ltb_spec y x), (Z.eqb_spec y x);
    simpl; try done; try lia. intros. subst. by rewrite (IH k2).
Qed.

Lemma socket_key_inj a b : socket_key a = socket_key b -> a = b.
Proof. destruct a, b; simpl; intros; by simplify_eq. Qed.

#[export] Instance socket_le_total : Total socket_le.
Proof. intros a b. apply key_leb_total. Qed.

#[export] Instance socket_le_trans : Transitive socket_le.
Proof. intros a b c. apply key_leb_trans. Qed.

#[export] Instance socket_le_antisym : AntiSymm (=) socket_le.
Proof. intros a b H1 H2. apply socket_key_inj. by apply key_leb_antisym. Qed.

(** ** Parsing

    The recursive-descent parser of [core::net::parser].  A parser returns
    what it read and the rest of the input, or fails having consumed
    nothing. *)

Definition parser (A : Type) : Type := string -> option (A * string).

Definition read_given_char (c : ascii) : parser unit := fun s =>
  match s with String a r => if decide (a = c) then Some (tt, r) else None | EmptyString => None end.

Definition digit_radix (radix : Z) (c : ascii) : option Z :=
  let d := if is_ascii_digit c then byte_val c - 48
           else if in_byte_range 97 102 c then byte_val c - 87
           else if in_byte_range 65 70 c then byte_val c - 55 else 99 in
  if d <? radix then Some d else None.

(** The digit loop: value and number of digits so far; [None] past [max] or
    past [max_digits]. *)
Fixpoint read_digits (radix max : Z) (max_digits : option nat) (acc : Z) (n : nat) (s : string)
  : option (Z * nat * string) :=
  match s with
  | EmptyString => Some (acc, n, s)
  | String c r =>
      match digit_radix radix c with
      | None => Some (acc, n, s)
      | Some d =>
          let acc := acc * radix + d in
          if max <? acc then None
          else if match max_digits with Some k => (k <? S n)%nat | None => false end then None
          else read_digits radix max max_digits acc (S n) r
      end
  end.

Definition read_number (radix max : Z) (max_digits : option nat) (allow_zero_prefix : bool)
  : parser Z := fun s =>
  match read_digits radix max max_digits 0 0 s with
  | None => None
  | Some (v, n, r) =>
      if (n =? 0)%nat then None
      else if negb allow_zero_prefix && starts_with "0" s && (1 <? n)%nat then None
      else Some (v, r)
  end.

Definition read_separator {A} (sep : ascii) (index : nat) (inner : parser A) : parser A := fun s =>
  if (index =? 0)%nat then inner s
  else match read_given_char sep s with Some (_, r) => inner r | None => None end.

Definition read_octet (i : nat) : parser Z :=
  read_separator "." i (read_number 10 255 (Some 3%nat) false).

Definition read_ipv4_addr : parser Z := fun s =>
  match read_octet 0 s with
  | Some (a, s) =>
      match read_octet 1 s with
      | Some (b, s) =>
          match read_octet 2 s with
          | Some (c, s) =>
              match read_octet 3 s with
              | Some (d, s) => Some (((a * 256 + b) * 256 + c) * 256 + d, s)
              | None => None
              end
          | None => None
          end
      | None => None
      end
  | None => None
  end.

(** [read_groups]: up to [limit] more 16-bit groups, from group [i]; whether
    the last two came from an embedded IPv4 address. *)
Fixpoint read_groups (limit i : nat) (s : string) : list Z * bool * string :=
  match limit with
  | O => ([], false, s)
  | S limit' =>
      let ipv4 := if (0 <? limit')%nat then read_separator ":" i read_ipv4_addr s else None in
      match ipv4 with
      | Some (v4, r) => ([v4 / 65536; v4 mod 65536], true, r)
      | None =>
          match read_separator ":" i (read_number 16 65535 (Some 4%nat) true) s with
          | None => ([], false, s)
          | Some (g, r) => let '(gs, b, r) := read_groups limit' (S i) r in (g :: gs, b, r)
          end
      end
  end.

Definition groups_value (gs : list Z) : Z := fold_left (fun acc g => acc * 65536 + g) gs 0.

Definition read_ipv6_addr : parser Z := fun s =>
  let '(head, head_ipv4, r) := read_groups 8 0 s in
  if (length head =? 8)%nat then Some (groups_value head, r)
  else if head_ipv4 then None
  else
    match read_given_char ":" r with
    | None => None
    | Some (_, r) =>
        match read_given_char ":" r with
        | None => None
        | Some (_, r) =>
            let limit := (8 - (length head + 1))%nat in
            let '(tail, _, r) := read_groups limit 0 r in
            Some (groups_value (head ++ replicate (8 - length head - length tail) 0 ++ tail), r)
        end
    end.

Definition read_ip_addr : parser IpAddr := fun s =>
  match read_ipv4_addr s with
  | Some (v, r) => Some (V4 v, r)
  | None => match read_ipv6_addr s with Some (v, r) => Some (V6 v, r) | None => None end
  end.

(** The whole input must be read. *)
Definition parse_with {A} (p : parser A) (s : string) : option A :=
  match p s with Some (a, EmptyString) => Some a | _ => None end.

(** [str::parse::<IpAddr>] *)
Definition parse_ip : string -> option IpAddr := parse_with read_ip_addr.

Definition read_port : parser Z := fun s =>
  match read_given_char ":" s with
  | Some (_, r) => read_number 10 65535 None true r
  | None => None
  end.

Definition read_scope_id : parser Z := fun s =>
  match read_given_char "%" s with
  | Some (_, r) => read_number 10 4294967295 None true r
  | None => None
  end.

Definition read_socket_addr_v4 : parser SocketAddr := fun s =>
  match read_ipv4_addr s with
  | Some (ip, r) => match read_port r with Some (p, r) => Some (SocketV4 ip p, r) | None => None end
  | None => None
  end.

Definition read_socket_addr_v6 : parser SocketAddr := fun s =>
  match read_given_char "[" s with
  | None => None
  | Some (_, r) =>
      match read_ipv6_addr r with
      | None => None
      | Some (ip, r) =>
          let '(scope, r) := match read_scope_id r with Some (n, r') => (n, r') | None => (0, r) end in
          match read_given_char "]" r with
          | None => None
          | Some (_, r) =>
              match read_port r with
              | Some (p, r) => Some (SocketV6 ip p 0 scope, r)
              | None => None
              end
          end
      end
  end.

(** [str::parse::<SocketAddr>] *)
Definition parse_socket_addr : string -> option SocketAddr := parse_with (fun s =>
  match read_socket_addr_v4 s with Some x => Some x | None => read_socket_addr_v6 s end).

(** ** Printing *)

Definition octet (v : Z) (i : Z) : Z := Z.land (Z.shiftr v (8 * i)) 255.

Definition show_ipv4 (v : Z) : string :=
  join "." (map (fun i => show_u (octet v i)) [3; 2; 1; 0]).

Definition hex_digit (d : Z) : ascii := byte_of (if d <? 10 then 48 + d else 87 + d).

(** [{:x}] of a 16-bit group *)
Fixpoint show_hex (fuel : nat) (v : Z) (acc : string) : string :=
  match fuel with
  | O => acc
  | S fuel =>
      let acc := String (hex_digit (v mod 16)) acc in
      if v / 16 =? 0 then acc else show_hex fuel (v / 16) acc
  end.

Definition segments (v : Z) : list Z :=
  map (fun i => Z.land (Z.shiftr v (16 * i)) 65535) [7; 6; 5; 4; 3; 2; 1; 0].

(** The longest run of zero groups (the first of them): start and length. *)
Fixpoint zero_run (segs : list Z) : nat :=
  match segs with s :: segs => if s =? 0 then S (zero_run segs) else O | [] => O end.

Fixpoint longest_zeros (i : nat) (segs : list Z) : nat * nat :=
  match segs with
  | [] => (O, O)
  | _ :: rest =>
      let n := zero_run segs in
      let '(j, m) := longest_zeros (S i) rest in
      if (m <=? n)%nat then (i, n) else (j, m)
  end.

Definition show_groups (segs : list Z) : string := join ":" (map (fun g => show_hex 4 g EmptyString) segs).

Definition show_ipv6 (v : Z) : string :=
  let segs := segments v in
  match segs with
  | [0; 0; 0; 0; 0; 65535; hi; lo] => "::ffff:" +:+ show_ipv4 (hi * 65536 + lo)
  | _ =>
      let '(start, len) := longest_zeros 0 segs in
      if (1 <? len)%nat
      then show_groups (take start segs) +:+ "::" +:+ show_groups (drop (start + len) segs)
      else show_groups segs
  end.

(** [IpAddr::to_string] and [SocketAddr::to_string] *)
Definition show_ip (a : IpAddr) : string :=
  match a with V4 v => show_ipv4 v | V6 v => show_ipv6 v end.

Definition show_socket_addr (a : SocketAddr) : string :=
  match a with
  | SocketV4 ip port => show_ipv4 ip +:+ ":" +:+ show_u port
  | SocketV6 ip port _ scope =>
      "[" +:+ show_ipv6 ip +:+ (if scope =? 0 then EmptyString else "%" +:+ show_u scope) +:+ "]:" +:+ show_u port
  end.
