(* ===== verification/RateLimiter.v ===== *)
(** * Token-bucket rate limiter

    [portus-dataplane-core/src/rate_limiter.rs]: the lock-free bucket shared by
    a route, and the per-client-IP table of buckets.  The bucket's word holds
    the second of the last refill in its upper half and the remaining tokens
    in its lower half. *)
From S2P Require Import Prelude Atomic Net.

(** ** AtomicTokenBucket *)

Definition bucket_word (secs tokens : Z) : Z := Z.lor (as_u 64 (Z.shiftl secs 32)) tokens.

(** [AtomicTokenBucket::new]: [state: rps as u64]. *)
Definition AtomicTokenBucket_new (rps : Z) : Z := as_u 64 rps.

(** A call, with the [now_secs] it read before entering its loop. *)
Inductive bucket_op := BucketTryAcquire (now_secs : Z).

#[export] Instance bucket_op_eq_dec : EqDecision bucket_op.
Proof. solve_decision. Defined.

(** One pass of the loop of [AtomicTokenBucket::try_acquire]. *)
Definition bucket_try_acquire_body (rps now_secs current : Z) : attempt Z bool :=
  let old_secs := as_u 32 (Z.shiftr current 32) in
  let old_tokens := as_u 32 (Z.land current 0xFFFFFFFF) in
  let elapsed_secs := now_secs -w[32] old_secs in
  let refill :=
    if elapsed_secs >=? 1 then as_u 32 (Z.min (elapsed_secs * rps) rps) else 0 in
  let new_secs := if refill >? 0 then now_secs else old_secs in
  let available := Z.min (old_tokens +s[32] refill) rps in
  if available =? 0 then Ret false
  else
    let new_tokens := available - 1 in
    Cas (bucket_word new_secs new_tokens) true.

(** [now_secs] is [epoch.elapsed().as_secs() as u32], read once per call. *)
Definition bucket_object (rps : Z) : CasObject bucket_op Z bool := {|
  fast _ _ := None;
  body '(BucketTryAcquire now_secs) _ _ w := bucket_try_acquire_body rps now_secs w;
  starts now '(BucketTryAcquire now_secs) := now_secs =? as_u 32 now;
|}.

(** [try_acquire] with no contention, [now] seconds after the bucket's epoch. *)
Definition AtomicTokenBucket_try_acquire (rps now w : Z) : bool * Z :=
  @run_alone _ _ _ (bucket_object rps) (BucketTryAcquire (as_u 32 now)) now now w.

(** ** PerIpRateLimiter *)

(** One entry of the table: the bucket (its own epoch and word) and the time
    of the last access in milliseconds since the limiter's epoch.  Instants are
    nanoseconds since the limiter's epoch. *)
Record ip_bucket := { ib_epoch : Z; ib_word : Z; ib_last_access : Z }.

Record PerIpRateLimiter := { pir_rps : Z; pir_buckets : gmap IpAddr ip_bucket }.

Definition PerIpRateLimiter_new (rps : Z) : PerIpRateLimiter :=
  {| pir_rps := rps; pir_buckets := ∅ |}.

Definition as_millis (ns : Z) : Z := ns / 1000000.
Definition as_secs (ns : Z) : Z := ns / 1000000000.

(** The access recorded on an entry and the bucket's answer at instant [t]. *)
Definition ip_bucket_access (rps now_ms t : Z) (b : ip_bucket) : bool * ip_bucket :=
  let '(r, w) := AtomicTokenBucket_try_acquire rps (as_secs (t - ib_epoch b)) (ib_word b) in
  (r, {| ib_epoch := ib_epoch b; ib_word := w; ib_last_access := now_ms |}).

(** [PerIpRateLimiter::try_acquire], with its clock reads: [t0] for [now_ms],
    [t1] for the epoch of a bucket it inserts, [t2] inside the bucket. *)
Definition PerIpRateLimiter_try_acquire (ip : IpAddr) (t0 t1 t2 : Z) (l : PerIpRateLimiter)
  : bool * PerIpRateLimiter :=
  let now_ms := as_u 64 (as_millis t0) in
  let entry :=
    match pir_buckets l !! ip with
    | Some b => b
    | None => {| ib_epoch := t1; ib_word := AtomicTokenBucket_new (pir_rps l);
                 ib_last_access := now_ms |}
    end in
  let '(r, b) := ip_bucket_access (pir_rps l) now_ms t2 entry in
  (r, {| pir_rps := pir_rps l; pir_buckets := <[ip := b]> (pir_buckets l) |}).

(** [PerIpRateLimiter::evict_idle] at instant [t0]. *)
Definition PerIpRateLimiter_evict_idle (max_idle t0 : Z) (l : PerIpRateLimiter) : PerIpRateLimiter :=
  let now_ms := as_u 64 (as_millis t0) in
  let max_idle_ms := as_u 64 (as_millis max_idle) in
  {| pir_rps := pir_rps l;
     pir_buckets := filter (fun '(_, b) => saturating_sub now_ms (ib_last_access b) < max_idle_ms)
                           (pir_buckets l) |}.

(** ** RateLimiterMode *)

(** The two modes of a route; the shared bucket is behind an [Arc], so a route
    holds a reference and the word lives in the store. *)
Inductive RateLimiterMode :=
| Shared (rps : Z) (loc : positive)
| PerIp (rps : Z) (loc : positive).

Definition RateLimiterMode_rps (m : RateLimiterMode) : Z :=
  match m with Shared rps _ => rps | PerIp rps _ => rps end.

Definition RateLimiterMode_is_per_ip (m : RateLimiterMode) : bool :=
  match m with Shared _ _ => false | PerIp _ _ => true end.

(** ** The bucket's word *)

Lemma bucket_word_add secs tokens :
  in_u 32 secs -> in_u 32 tokens -> bucket_word secs tokens = secs * 2 ^ 32 + tokens.
Proof.
  intros Hs Ht. unfold bucket_word. rewrite as_u_small.
  - by apply lor_shiftl_add.
  - rewrite Z.shiftl_mul_pow2 by lia. unfold in_u in *. lia.
Qed.

Lemma bucket_word_secs secs tokens :
  in_u 32 secs -> in_u 32 tokens -> as_u 32 (Z.shiftr (bucket_word secs tokens) 32) = secs.
Proof.
  intros Hs Ht. rewrite bucket_word_add, Z.shiftr_div_pow2 by done || lia.
  rewrite Z.div_add_l, (Z.div_small tokens) by (unfold in_u in *; lia).
  rewrite Z.add_0_r. by apply as_u_small.
Qed.

Lemma bucket_word_tokens secs tokens :
  in_u 32 secs -> in_u 32 tokens ->
  as_u 32 (Z.land (bucket_word secs tokens) 0xFFFFFFFF) = tokens.
Proof.
  intros Hs Ht. rewrite bucket_word_add by done.
  change 0xFFFFFFFF with (Z.ones 32). rewrite Z.land_ones by lia.
  rewrite Z.add_comm, Z.mod_add, (Z.mod_small tokens) by (unfold in_u in *; lia).
  by apply as_u_small.
Qed.

Lemma AtomicTokenBucket_new_word rps : in_u 32 rps -> AtomicTokenBucket_new rps = bucket_word 0 rps.
Proof.
  intros Hr. rewrite bucket_word_add by (done || split; lia).
  unfold AtomicTokenBucket_new. rewrite as_u_small; unfold in_u in *; lia.
Qed.

#[global] Opaque bucket_word.

(** A pass on a word of the invariant: a call in another second than the
    stored one finds a full bucket. *)
Lemma bucket_body_word rps now secs tokens :
  in_u 32 rps -> in_u 32 now -> in_u 32 secs -> 0 <= tokens <= rps ->
  bucket_try_acquire_body rps now (bucket_word secs tokens) =
    let available := if now =? secs then tokens else rps in
    if available =? 0 then Ret false else Cas (bucket_word now (available - 1)) true.
Proof.
  intros Hr Hn Hs Ht. assert (in_u 32 tokens) by (unfold in_u in *; lia).
  unfold bucket_try_acquire_body. rewrite bucket_word_secs, bucket_word_tokens by done.
  destruct (Z.eqb_spec now secs) as [->|Hne].
  - replace (secs -w[32] secs) with 0 by (unfold wrapping_sub; rewrite Z.sub_diag; done).
    simpl. replace (Z.min (tokens +s[32] 0) rps) with tokens by (unfold in_u, saturating_add in *; lia).
    done.
  - assert (He : 1 <= now -w[32] secs).
    { unfold wrapping_sub. destruct (Z.mod_pos_bound (now - secs) (2 ^ 32)) as [H0 _]; [lia|].
      destruct (Z.eq_dec ((now - secs) mod 2 ^ 32) 0) as [E|]; [|lia].
      apply Z.mod_divide in E as [k E]; [|lia]. unfold in_u in *.
      assert (k = 0) by nia. lia. }
    generalize dependent (now -w[32] secs). intros e He.
    assert ((e >=? 1) = true) as -> by (rewrite Z.geb_leb; by apply Z.leb_le).
    rewrite (Z.min_r (e * rps) rps) by (unfold in_u in *; nia). rewrite as_u_small by done.
    replace (Z.min (tokens +s[32] rps) rps) with rps by (unfold in_u, saturating_add in *; lia).
    destruct (Z.eqb_spec rps 0) as [->|Hr0]; simpl; [done|].
    assert ((rps >? 0) = true) as -> by (rewrite Z.gtb_ltb; apply Z.ltb_lt; unfold in_u in *; lia).
    done.
Qed.

(** ** Sequential calls *)

(** The answers to calls made at the given seconds, one after the other. *)
Fixpoint bucket_run (rps : Z) (nows : list Z) (w : Z) : list bool :=
  match nows with
  | [] => []
  | now :: nows =>
      let '(r, w) := AtomicTokenBucket_try_acquire rps now w in
      r :: bucket_run rps nows w
  end.

(** The calls of second [s] that were answered [true]. *)
Definition granted_in (s : Z) (c : Z * bool) : bool := (c.1 =? s) && c.2.

Lemma bucket_call_word rps now secs tokens :
  in_u 32 rps -> in_u 32 now -> in_u 32 secs -> 0 <= tokens <= rps ->
  AtomicTokenBucket_try_acquire rps now (bucket_word secs tokens) =
    let available := if now =? secs then tokens else rps in
    if available =? 0 then (false, bucket_word secs tokens)
    else (true, bucket_word now (available - 1)).
Proof.
  intros. unfold AtomicTokenBucket_try_acquire, run_alone. cbn [fast body bucket_object].
  rewrite as_u_small, bucket_body_word by done. cbv zeta.
  by destruct (_ =? 0).
Qed.

Lemma bucket_run_count rps nows s secs tokens :
  in_u 32 rps -> Forall (in_u 32) nows -> Sorted Z.le (secs :: nows) ->
  in_u 32 secs -> 0 <= tokens <= rps ->
  count (granted_in s) (zip nows (bucket_run rps nows (bucket_word secs tokens))) =
    Nat.min (count (Z.eqb s) nows) (Z.to_nat (if s =? secs then tokens else rps)).
Proof.
  intros Hr Hn Hsort. revert secs tokens Hsort.
  induction Hn as [|now nows Hnow Hn IH]; intros secs tokens Hsort Hs Ht; [by destruct (s =? secs)|].
  apply Sorted_inv in Hsort as [Hsort Hle]. inversion Hle as [|? ? Hle']; subst.
  cbn [bucket_run]. rewrite bucket_call_word by done. cbv zeta.
  destruct (Z.eqb_spec (if now =? secs then tokens else rps) 0) as [Ha|Ha]; cbn [zip_with].
  - rewrite !count_cons, IH; [|by eapply Sorted_extends_le|done|done].
    unfold granted_in. cbn [fst snd]. rewrite andb_false_r. cbn [Nat.b2n].
    destruct (Z.eqb_spec s secs), (Z.eqb_spec s now), (Z.eqb_spec now secs); cbn [Nat.b2n]; subst; lia.
  - rewrite !count_cons, IH; [|done|done|destruct (now =? secs); lia].
    unfold granted_in. cbn [fst snd]. rewrite andb_true_r, (Z.eqb_sym now s).
    destruct (Z.eqb_spec s now) as [->|Hsn]; cbn [Nat.b2n].
    + revert Ha. destruct (now =? secs); lia.
    + destruct (Z.eqb_spec s secs) as [->|]; [|lia].
      rewrite (count_lt_sorted secs now nows) by (done || lia). done.
Qed.

(** C38: a fresh bucket of rate [rps], called at any non-decreasing sequence
    of whole seconds below 2^32, answers [true] in every second [s] to exactly
    the first [rps] of the calls made in that second: neither more than the
    rate nor fewer than the calls that fit in it. *)
Theorem bucket_admits_rate_per_second (rps : Z) (nows : list Z) (s : Z)
  (Hrps : in_u 32 rps) (Hnows : Forall (in_u 32) nows) (Hsorted : Sorted Z.le nows) :
  count (granted_in s) (zip nows (bucket_run rps nows (AtomicTokenBucket_new rps))) =
    Nat.min (count (Z.eqb s) nows) (Z.to_nat rps).
Proof.
  rewrite AtomicTokenBucket_new_word by done. rewrite (bucket_run_count rps nows s 0 rps); try done.
  - by destruct (s =? 0).
  - constructor; [done|]. destruct Hnows as [|now nows [Hn _] _]; by constructor.
  - unfold in_u in *. lia.
Qed.

Lemma bucket_admits_rate_per_second_witness :
  let nows := [0; 0; 0; 4; 4; 5; 5; 5; 5] in
  bucket_run 2 nows (AtomicTokenBucket_new 2)
    = [true; true; false; true; true; true; true; false; false] /\
  count (granted_in 5) (zip nows (bucket_run 2 nows (AtomicTokenBucket_new 2))) = 2%nat.
Proof.
  split; [vm_compute; reflexivity|].
  rewrite (bucket_admits_rate_per_second 2 [0; 0; 0; 4; 4; 5; 5; 5; 5] 5).
  - vm_compute; reflexivity.
  - split; lia.
  - repeat constructor; lia.
  - repeat constructor; lia.
Defined.

(** ** Concurrent calls *)

(** A call scheduled alone in a second other than the word's is granted. *)
Lemma bucket_solo rps (m : machine bucket_op Z bool) i now secs tokens :
  in_u 32 rps -> 0 < rps -> in_u 32 now -> in_u 32 secs -> 0 <= tokens <= rps -> now <> secs ->
  word m = bucket_word secs tokens ->
  threads m !! i = Some (Entered (BucketTryAcquire now)) ->
  exists cs, @msteps _ _ _ (bucket_object rps) m
    (Machine (clock m) (bucket_word now (rps - 1))
       (<[i := Finished (BucketTryAcquire now) true]> (threads m)) cs).
Proof.
  intros Hr Hpos Hn Hs Ht Hne Hw Hi. eexists.
  apply solo_commit; [exact Hi|done|]. cbn [body bucket_object].
  rewrite Hw, bucket_body_word by done. cbv zeta.
  by rewrite (proj2 (Z.eqb_neq now secs)), (proj2 (Z.eqb_neq rps 0)) by lia.
Qed.

Definition answered_true (o : bucket_op) (r : bool) : bool := r.

(** [n] calls that read second 0 and have not run yet, at second 1, with [k]
    pairs of grants already made. *)
Definition stale_state (rps : Z) (n k : nat) (m : machine bucket_op Z bool) : Prop :=
  clock m = 1 /\
  (exists tokens, 0 <= tokens <= rps /\ word m = bucket_word 0 tokens) /\
  (forall i, (i < n)%nat -> threads m !! i = Some (Entered (BucketTryAcquire 0))) /\
  count (finished_with answered_true) (threads m) = (2 * k)%nat.

(** A call of second 1 and then a stale call of second 0: both are granted. *)
Lemma stale_pair rps n k m :
  in_u 32 rps -> 0 < rps -> stale_state rps (S n) k m ->
  exists m', @msteps _ _ _ (bucket_object rps) m m' /\ stale_state rps n (S k) m'.
Proof.
  intros Hr Hpos (Hc & (tk & Htk & Hw) & Hst & Hcount).
  assert (H01 : in_u 32 0 /\ in_u 32 1) by (split; split; lia). destruct H01 as [H0 H1].
  set (m1 := Machine (clock m) (word m) (threads m ++ [Entered (BucketTryAcquire 1)]) (commits m)).
  assert (Hcall : @mstep _ _ _ (bucket_object rps) m m1).
  { constructor. by rewrite Hc. }
  assert (Hm1 : threads m1 !! length (threads m) = Some (Entered (BucketTryAcquire 1))).
  { simpl. by apply list_lookup_middle. }
  destruct (bucket_solo rps m1 (length (threads m)) 1 0 tk) as [cs2 H2]; try done.
  set (m2 := Machine _ _ _ cs2) in H2.
  assert (Hlt : (n < length (threads m))%nat) by (eapply lookup_lt_Some, Hst; lia).
  assert (Hkeep : forall i, (i < S n)%nat -> threads m2 !! i = Some (Entered (BucketTryAcquire 0))).
  { intros i Hi. simpl. rewrite list_lookup_insert_ne, lookup_app_l by lia. by apply Hst. }
  destruct (bucket_solo rps m2 n 0 1 (rps - 1)) as [cs3 H3]; try done; try lia.
  { apply Hkeep. lia. }
  eexists. split; [eapply rtc_l; [exact Hcall|]; etrans; [exact H2|exact H3]|].
  split; [done|]. split; [exists (rps - 1); split; [lia|done]|]. split.
  - intros i Hi. cbn [threads]. rewrite list_lookup_insert_ne by lia. apply Hkeep. lia.
  - cbn [threads].
    pose proof (count_insert (finished_with answered_true) _ _ _
      (Finished (BucketTryAcquire 1) true) Hm1) as C1.
    pose proof (count_insert (finished_with answered_true) _ _ _
      (Finished (BucketTryAcquire 0) true) (Hkeep n ltac:(lia))) as C2.
    cbn [threads m1 m2] in C1, C2 |- *. rewrite count_app, count_cons, count_nil in C1.
    cbn in C1, C2. lia.
Qed.

Lemma stale_start rps n :
  in_u 32 rps ->
  exists m, @msteps _ _ _ (bucket_object rps) (machine_init 0 (AtomicTokenBucket_new rps)) m /\
    stale_state rps n 0 m.
Proof.
  intros Hr.
  set (at_ c k := Machine c (AtomicTokenBucket_new rps)
                    (replicate k (Entered (BucketTryAcquire 0))) [] : machine bucket_op Z bool).
  assert (Hk : @msteps _ _ _ (bucket_object rps) (at_ 0 0%nat) (at_ 0 n)).
  { induction n as [|n IH]; [constructor|]. eapply rtc_r; [exact IH|].
    unfold at_ at 2. rewrite replicate_S_end. by apply (step_call (at_ 0 n)). }
  exists (at_ 1 n). split.
  - eapply rtc_r; [exact Hk|]. by apply (step_tick (at_ 0 n)).
  - split; [done|]. split; [exists rps; split; [unfold in_u in *; lia|by apply AtomicTokenBucket_new_word]|].
    split; [intros i Hi; by apply lookup_replicate_2|].
    simpl. clear Hk. induction n as [|n IH]; [done|]. simpl. rewrite count_cons, IH. done.
Qed.

(** under contention the rate is not kept.  [now_secs] is read once,
    before the loop; a call delayed past a second boundary computes
    [now_secs.wrapping_sub(old_secs)] with an older [now_secs], sees a huge
    elapsed time, refills the whole bucket and moves the refill second
    backwards.  For every positive rate and every [n] there is an execution
    within the first second and a bit (clock 0 to 1) that admits [2 n]
    requests, whatever [2 * rps] is. *)
Theorem bucket_overadmits_under_contention (rps : Z) (n : nat)
  (Hrps : in_u 32 rps) (Hpos : 0 < rps) :
  exists m, @msteps _ _ _ (bucket_object rps) (machine_init 0 (AtomicTokenBucket_new rps)) m /\
    clock m = 1 /\ count (finished_with answered_true) (threads m) = (2 * n)%nat.
Proof.
  assert (Hall : forall k j, exists m,
    @msteps _ _ _ (bucket_object rps) (machine_init 0 (AtomicTokenBucket_new rps)) m /\
    stale_state rps j k m).
  { induction k as [|k IH]; intros j; [by apply stale_start|].
    destruct (IH (S j)) as (m & Hm & Hst).
    destruct (stale_pair rps j k m Hrps Hpos Hst) as (m' & Hm' & Hst').
    exists m'. split; [by etrans|done]. }
  destruct (Hall n 0%nat) as (m & Hm & Hc & _ & _ & Hcount). by exists m.
Qed.

Lemma bucket_overadmits_under_contention_witness :
  exists m, @msteps _ _ _ (bucket_object 1) (machine_init 0 (AtomicTokenBucket_new 1)) m /\
    clock m = 1 /\ count (finished_with answered_true) (threads m) = 20%nat.
Proof. apply (bucket_overadmits_under_contention 1 10); [split|]; lia. Defined.

(** ** Clients of the per-IP table *)

Inductive ip_event :=
| IpAcquire (ip : IpAddr) (t0 t1 t2 : Z)
| IpEvict (max_idle t0 : Z).

Definition concerns (ip : IpAddr) (e : ip_event) : bool :=
  match e with IpAcquire a _ _ _ => bool_decide (a = ip) | IpEvict _ _ => true end.

(** The answers, in order, each with the client it went to. *)
Fixpoint ip_run (evs : list ip_event) (l : PerIpRateLimiter) : list (IpAddr * bool) :=
  match evs with
  | [] => []
  | IpAcquire ip t0 t1 t2 :: evs =>
      let '(r, l) := PerIpRateLimiter_try_acquire ip t0 t1 t2 l in (ip, r) :: ip_run evs l
  | IpEvict max_idle t0 :: evs => ip_run evs (PerIpRateLimiter_evict_idle max_idle t0 l)
  end.

Lemma evict_lookup max_idle t0 l ip :
  pir_buckets (PerIpRateLimiter_evict_idle max_idle t0 l) !! ip =
    pir_buckets l !! ip ≫= fun b =>
      if decide (saturating_sub (as_u 64 (as_millis t0)) (ib_last_access b) < as_u 64 (as_millis max_idle))
      then Some b else None.
Proof.
  unfold PerIpRateLimiter_evict_idle. cbn [pir_buckets]. rewrite map_lookup_filter.
  destruct (pir_buckets l !! ip) as [b|]; [|done]. simpl.
  by repeat case_decide || case_guard.
Qed.

Definition same_for (ip : IpAddr) (l l' : PerIpRateLimiter) : Prop :=
  pir_rps l = pir_rps l' /\ pir_buckets l !! ip = pir_buckets l' !! ip.

Lemma acquire_same ip t0 t1 t2 l l' :
  same_for ip l l' ->
  fst (PerIpRateLimiter_try_acquire ip t0 t1 t2 l) = fst (PerIpRateLimiter_try_acquire ip t0 t1 t2 l') /\
  same_for ip (snd (PerIpRateLimiter_try_acquire ip t0 t1 t2 l))
              (snd (PerIpRateLimiter_try_acquire ip t0 t1 t2 l')).
Proof.
  intros [Hr Hb]. unfold PerIpRateLimiter_try_acquire. rewrite Hr, Hb.
  destruct (ip_bucket_access _ _ _ _) as [r b]. simpl. split; [done|].
  split; [done|]. simpl. by rewrite !lookup_insert_eq.
Qed.

Lemma acquire_other a ip t0 t1 t2 l l' :
  a <> ip -> same_for ip l l' -> same_for ip (snd (PerIpRateLimiter_try_acquire a t0 t1 t2 l)) l'.
Proof.
  intros Hne [Hr Hb]. unfold PerIpRateLimiter_try_acquire.
  destruct (ip_bucket_access _ _ _ _) as [r b]. split; [done|]. simpl. by rewrite lookup_insert_ne.
Qed.

Lemma ip_run_same ip evs l l' :
  same_for ip l l' ->
  List.filter (fun a => bool_decide (a.1 = ip)) (ip_run evs l) =
    ip_run (List.filter (concerns ip) evs) l'.
Proof.
  revert l l'. induction evs as [|[a t0 t1 t2|mi t0] evs IH]; intros l l' Hs; [done| |]; simpl.
  - case_bool_decide as Ha; simpl.
    + subst a. destruct (acquire_same ip t0 t1 t2 l l' Hs) as [Hf Hs'].
      destruct (PerIpRateLimiter_try_acquire ip t0 t1 t2 l), (PerIpRateLimiter_try_acquire ip t0 t1 t2 l').
      simpl in *. subst. rewrite bool_decide_true by done. f_equal. by apply IH.
    + pose proof (acquire_other a ip t0 t1 t2 l l' Ha Hs) as Hs'.
      destruct (PerIpRateLimiter_try_acquire a t0 t1 t2 l). simpl in *.
      rewrite bool_decide_false by done. by apply IH.
  - apply IH. destruct Hs as [Hr Hb]. split; [done|]. by rewrite !evict_lookup, Hb.
Qed.

(** clients of the per-IP limiter do not affect each other: in any
    sequence of acquisitions and evictions, one client's answers are those it
    would get if no other client existed. *)
Theorem per_ip_isolated (rps : Z) (ip : IpAddr) (evs : list ip_event) :
  List.filter (fun a => bool_decide (a.1 = ip)) (ip_run evs (PerIpRateLimiter_new rps)) =
    ip_run (List.filter (concerns ip) evs) (PerIpRateLimiter_new rps).
Proof. by apply ip_run_same. Qed.
