(* ===== verification/Types.v ===== *)
(** * Data of the routing snapshot

    The types of [portus-dataplane-core/src/types.rs], [router.rs] and the AI
    types a route refers to.  Objects that the code shares through an [Arc]
    and mutates in place (pools, breakers, limiters, JWT verifiers) are
    references into the store of the planner; header names and values are
    strings, names in lower case as [http::HeaderName] keeps them; durations
    are nanoseconds. *)
From S2P Require Import Prelude Text Net RateLimiter.

(** ** Matching *)

(** A compiled [regex::Regex] is known by its pattern text. *)
Definition Regex : Type := string.

Inductive PathMatchType :=
| PathExact
| PathPrefix
| PathRegularExpression (re : Regex).

#[export] Instance PathMatchType_eq_dec : EqDecision PathMatchType.
Proof. solve_decision. Defined.

Inductive HeaderMatchType :=
| HeaderExact
| HeaderRegularExpression (re : Regex).

Record HeaderMatchEntry := {
  hm_name : string;
  hm_value : string;
  hm_match_type : HeaderMatchType;
}.

Inductive QueryParamMatchType :=
| QueryExact
| QueryRegularExpression (re : Regex).

Record QueryParamMatchEntry := {
  qm_name : string;
  qm_value : string;
  qm_match_type : QueryParamMatchType;
}.

Inductive BackendProtocol := Http | Grpc | H2c | WebSocket.

#[export] Instance BackendProtocol_eq_dec : EqDecision BackendProtocol.
Proof. solve_decision. Defined.

(** ** Filters and policies *)

Notation header_list := (list (string * string)).

Record WeightedBackendEntry := {
  wb_service_name : string;
  wb_port : Z;
  wb_weight : Z;
  wb_request_headers_add : header_list;
  wb_request_headers_set : header_list;
  wb_request_headers_remove : list string;
}.

Record RedirectConfig := {
  rd_scheme : option string;
  rd_hostname : option string;
  rd_port : option Z;
  rd_path : option string;
  rd_path_type : string;
  rd_status_code : Z;
}.

Record UrlRewriteConfig := {
  rw_hostname : option string;
  rw_path : option string;
  rw_path_type : string;
}.

Record CorsConfig := {
  cors_allow_origins : list string;
  cors_allow_methods : list string;
  cors_allow_headers : list string;
  cors_expose_headers : list string;
  cors_allow_credentials : bool;
  cors_max_age : Z;
  cors_max_age_str : string;
  cors_allow_methods_joined : string;
  cors_allow_headers_joined : string;
  cors_expose_headers_joined : string;
}.

(** [AuthConfig]; a JWT verifier is a reference, it caches verified tokens. *)
Inductive AuthConfig :=
| BasicAuth (credentials : gmap string string) (realm : string)
| ApiKey (valid_keys : gset string) (header_name : string)
| Jwt (verifier : positive).

Record ExtAuth := {
  ea_service_name : string;
  ea_port : Z;
  ea_path : string;
  ea_timeout : Z;
  ea_fail_open : bool;
  ea_request_headers : option (list string);
  ea_response_headers : list string;
}.

(** ** AI backends *)

Inductive Dialect := Anthropic | OpenAi | Mcp.

#[export] Instance Dialect_eq_dec : EqDecision Dialect.
Proof. solve_decision. Defined.

Inductive Window := Hourly | Daily | Monthly.

#[export] Instance Window_eq_dec : EqDecision Window.
Proof. solve_decision. Defined.

Inductive Scope := ScopeKey | ScopeTenant | ScopeRoute | ScopeSubject.

#[export] Instance Scope_eq_dec : EqDecision Scope.
Proof. solve_decision. Defined.

Inductive BudgetUnit := UnitTokens | UnitCalls.

#[export] Instance BudgetUnit_eq_dec : EqDecision BudgetUnit.
Proof. solve_decision. Defined.

Record Fallback := {
  fb_model : string;
  fb_overflow_limit : Z;
}.

Record BudgetPolicy := {
  bp_id : string;
  bp_limit : Z;
  bp_route_limit : Z;
  bp_unit : BudgetUnit;
  bp_window : Window;
  bp_per : Scope;
  bp_fail_open : bool;
  bp_fallback : option Fallback;
}.

Record JwtPolicy := {
  jp_issuer : string;
  jp_audience : option string;
  jp_tenant_claim : string;
  jp_tools_claim : string;
  jp_scopes : string;
  jp_groups_claim : string;
  jp_tools_by_group : list (string * list string);
}.

Record OnBehalfOf := {
  obo_header : string;
  obo_trusted_keys : list string;
}.

Record AiBackend := {
  ai_dialect : Dialect;
  ai_provider : string;
  ai_key_required : bool;
  ai_budget : option BudgetPolicy;
  ai_session_affinity : bool;
  ai_jwt : option JwtPolicy;
  ai_on_behalf_of : option OnBehalfOf;
  ai_federation : option string;
}.

(** ** Routes *)

(** An [ipnet::IpNet]: a network address and its prefix length. *)
Record IpNet := { net_addr : IpAddr; net_prefix_len : Z }.

Record PathRoute := {
  pr_path : string;
  pr_match_type : PathMatchType;
  pr_service_name : string;
  pr_port : Z;
  pr_connect_timeout : option Z;
  pr_read_timeout : option Z;
  pr_write_timeout : option Z;
  pr_rate_limiter : option RateLimiterMode;
  pr_max_retries : Z;
  pr_upstream_tls : bool;
  pr_upstream_sni : string;
  pr_upstream_verify : bool;
  pr_protocol : BackendProtocol;
  pr_request_headers_add : header_list;
  pr_request_headers_set : header_list;
  pr_request_headers_remove : list string;
  pr_response_headers_add : header_list;
  pr_response_headers_set : header_list;
  pr_response_headers_remove : list string;
  pr_header_matches : list HeaderMatchEntry;
  pr_method_match : option string;
  pr_query_param_matches : list QueryParamMatchEntry;
  pr_redirect : option RedirectConfig;
  pr_url_rewrite : option UrlRewriteConfig;
  pr_listener_name : string;
  pr_mirror_backends : list (string * Z * Z);
  pr_weighted_backends : list WeightedBackendEntry;
  pr_request_timeout : option Z;
  pr_backend_request_timeout : option Z;
  pr_auth_config : option AuthConfig;
  pr_ext_auth : option ExtAuth;
  pr_cors : option CorsConfig;
  pr_ip_allow_cidrs : list IpNet;
  pr_ip_deny_cidrs : list IpNet;
  pr_ip_trusted_proxy_cidrs : list IpNet;
  pr_max_request_body_bytes : Z;
  pr_retry_on : list string;
  pr_retry_codes : list Z;
  pr_circuit_breaker : option positive;
  pr_connection_limiter : option positive;
  pr_total_weight : Z;
  pr_ai : option AiBackend;
}.

(** A route with no policy at all. *)
Definition plain_route (path : string) (match_type : PathMatchType) (service : string) (port : Z)
  : PathRoute :=
  {| pr_path := path; pr_match_type := match_type; pr_service_name := service; pr_port := port;
     pr_connect_timeout := None; pr_read_timeout := None; pr_write_timeout := None;
     pr_rate_limiter := None; pr_max_retries := 0; pr_upstream_tls := false;
     pr_upstream_sni := service; pr_upstream_verify := true; pr_protocol := Http;
     pr_request_headers_add := []; pr_request_headers_set := []; pr_request_headers_remove := [];
     pr_response_headers_add := []; pr_response_headers_set := []; pr_response_headers_remove := [];
     pr_header_matches := []; pr_method_match := None; pr_query_param_matches := [];
     pr_redirect := None; pr_url_rewrite := None; pr_listener_name := EmptyString;
     pr_mirror_backends := []; pr_weighted_backends := []; pr_request_timeout := None;
     pr_backend_request_timeout := None; pr_auth_config := None; pr_ext_auth := None;
     pr_cors := None; pr_ip_allow_cidrs := []; pr_ip_deny_cidrs := [];
     pr_ip_trusted_proxy_cidrs := []; pr_max_request_body_bytes := 0; pr_retry_on := [];
     pr_retry_codes := []; pr_circuit_breaker := None; pr_connection_limiter := None;
     pr_total_weight := 0; pr_ai := None |}.

Record HostRoutes := {
  hr_exact_map : gmap string (list PathRoute);
  hr_rules : list PathRoute;
  hr_catch_all : option PathRoute;
  hr_needs_body : bool;
  hr_oauth : option JwtPolicy;
}.

Record ListenerBucket := {
  lb_listener_hostname : string;
  lb_exact : gmap string HostRoutes;
  lb_domain_wildcards : gmap string HostRoutes;
  lb_catch_all : option HostRoutes;
}.

(** The maps of [ProxySnapshot] a request reads; pools are references. *)
Record ProxySnapshot := {
  ps_listeners_by_port : gmap Z (list ListenerBucket);
  ps_any_port_listeners : list ListenerBucket;
  ps_lbs : gmap (string * Z) positive;
  ps_backend_tls : gmap (string * Z) positive;
  ps_backend_client_cert : option positive;
}.

Definition ProxySnapshot_default : ProxySnapshot :=
  {| ps_listeners_by_port := ∅; ps_any_port_listeners := []; ps_lbs := ∅;
     ps_backend_tls := ∅; ps_backend_client_cert := None |}.

(** Fields the body scanner extracted. *)
Notation BodyFields := (list (string * string)).

(** ** Request headers *)

(** Read access to a request's headers: the first value of a name (whatever
    its case), and every pair in order. *)
Class RequestHeaders (H : Type) := {
  header_get : H -> string -> option string;
  header_pairs : H -> list (string * string);
}.

(** A header map as the list of its pairs in order. *)
Notation HeaderMap := (list (string * string)).

#[export] Instance HeaderMap_headers : RequestHeaders HeaderMap := {|
  header_get h name := snd <$> List.find (fun p => bool_decide (p.1 = to_ascii_lowercase name)) h;
  header_pairs h := h;
|}.

Definition header_contains `{RequestHeaders H} (h : H) (name : string) : bool :=
  match header_get h name with Some _ => true | None => false end.

(** [header_str]: the first value when it is UTF-8. *)
Definition header_str `{RequestHeaders H} (h : H) (name : string) : option string :=
  match header_get h name with Some v => from_utf8 v | None => None end.
