(* ===== verification/Router.v ===== *)
(** * Request routing

    [portus-dataplane-core/src/router.rs]: which listener claims a request,
    which host's routes apply, which route matches, which weighted backend it
    goes to, URL rewriting, the client address behind trusted proxies, and the
    CORS decisions. *)
From S2P Require Import Prelude Text Net RateLimiter Types.

Definition HTTPS_DEFAULT_PORT : Z := 443.
Definition DEFAULT_MAX_REQUEST_BODY_BYTES : Z := 10 * 1024 * 1024.
Definition BODY_FIELD_HEADER_PREFIX : string := "portus-body-".

(** [listener_scheme_and_port] *)
Definition listener_scheme_and_port (local_port : Z) (is_tls : bool) : string * Z :=
  if is_tls || (local_port =? HTTPS_DEFAULT_PORT) then ("https", local_port) else ("http", local_port).

(** [access_log_from_env_value] *)
Definition access_log_from_env_value (value : option string) : bool :=
  match value with
  | Some v => bool_decide (to_ascii_lowercase (trim v) ∈ ["true"; "1"; "yes"; "on"])
  | None => false
  end.

(** ** Rewriting *)

(** A replacement put in front of what follows the matched prefix, with one
    slash between them.  Shared by the rewrite filter and redirects. *)
Definition replace_prefix (new_path suffix : string) : string :=
  let result :=
    if negb (ends_with "/" new_path) && negb (starts_with "/" suffix) && negb (is_empty suffix)
    then new_path +:+ "/" else new_path in
  if ends_with "/" result && starts_with "/" suffix
  then result +:+ sdrop 1 suffix
  else result +:+ suffix.

(** [PathRoute::rewrite_path] *)
Definition rewrite_path (pr : PathRoute) (original_path : string) : option string :=
  match pr_url_rewrite pr with
  | None => None
  | Some rewrite =>
      match rw_path rewrite with
      | None => None
      | Some new_path =>
          if decide (rw_path_type rewrite = "ReplaceFullPath") then Some new_path
          else if decide (rw_path_type rewrite = "ReplacePrefixMatch") then
            match strip_prefix (pr_path pr) original_path with
            | Some suffix => Some (replace_prefix new_path suffix)
            | None => Some new_path
            end
          else None
      end
  end.

(** [PathRoute::rewrite_hostname] *)
Definition rewrite_hostname (pr : PathRoute) : option string :=
  match pr_url_rewrite pr with Some rewrite => rw_hostname rewrite | None => None end.

(** ** Matching a request to a route *)

(** [oauth_of] *)
Fixpoint oauth_of (routes : list PathRoute) : option JwtPolicy :=
  match routes with
  | [] => None
  | r :: routes =>
      match pr_ai r with
      | Some ai => match ai_jwt ai with Some jwt => Some jwt | None => oauth_of routes end
      | None => oauth_of routes
      end
  end.

Definition needs_body_fields (matches : list HeaderMatchEntry) : bool :=
  existsb (fun hm => starts_with BODY_FIELD_HEADER_PREFIX (hm_name hm)) matches.

Definition route_needs_body (route : PathRoute) : bool :=
  match pr_ai route with Some _ => true | None => needs_body_fields (pr_header_matches route) end.

Definition body_field (body : option BodyFields) (header_name : string) : option string :=
  match strip_prefix BODY_FIELD_HEADER_PREFIX header_name with
  | None => None
  | Some key =>
      match body with
      | None => None
      | Some fields => snd <$> List.find (fun kv => bool_decide (kv.1 = key)) fields
      end
  end.

Section Matching.
Context `{RequestHeaders H}.
(** [regex::Regex::is_match] *)
Context (regex_is_match : Regex -> string -> bool).

(** [HostRoutes::path_matches] *)
Definition path_matches (rule : PathRoute) (request_path : string) : bool :=
  match pr_match_type rule with
  | PathExact => bool_decide (request_path = pr_path rule)
  | PathPrefix =>
      let prefix := pr_path rule in
      if starts_with prefix request_path then
        let plen := String.length prefix in
        (String.length request_path =? plen)%nat
        || bool_decide (String.get plen request_path = Some "/"%char)
        || ends_with "/" prefix
      else false
  | PathRegularExpression re => regex_is_match re request_path
  end.

(** One header requirement of [extra_dimensions_match]. *)
Definition header_matches (headers : H) (body : option BodyFields) (hm : HeaderMatchEntry) : bool :=
  let actual :=
    if starts_with BODY_FIELD_HEADER_PREFIX (hm_name hm)
    then body_field body (hm_name hm)
    else header_get headers (hm_name hm) in
  match actual with
  | Some v =>
      let val_str := default EmptyString (from_utf8 v) in
      match hm_match_type hm with
      | HeaderExact => bool_decide (val_str = hm_value hm)
      | HeaderRegularExpression re => regex_is_match re val_str
      end
  | None => false
  end.

(** One query requirement: some [name=value] pair of the query satisfies it. *)
Definition query_matches (query : option string) (qm : QueryParamMatchEntry) : bool :=
  let query_str := default EmptyString query in
  existsb (fun pair =>
    let '(name, v) := splitn2 "=" pair in
    let value := default EmptyString v in
    if negb (bool_decide (name = qm_name qm)) then false
    else match qm_match_type qm with
         | QueryRegularExpression re => regex_is_match re value
         | QueryExact => bool_decide (value = qm_value qm)
         end) (split_char "&" query_str).

(** [HostRoutes::extra_dimensions_match] *)
Definition extra_dimensions_match (rule : PathRoute) (method : string) (headers : H)
  (query : option string) (body : option BodyFields) : bool :=
  if match pr_method_match rule with
     | Some required => negb (bool_decide (method = required)) | None => false end then false
  else if negb (forallb (header_matches headers body) (pr_header_matches rule)) then false
  else if negb (forallb (query_matches query) (pr_query_param_matches rule)) then false
  else true.

(** [HostRoutes::match_request_with_body] *)
Definition match_request_with_body (hr : HostRoutes) (request_path method : string) (headers : H)
  (query : option string) (body : option BodyFields) : option PathRoute :=
  let extra rule := extra_dimensions_match rule method headers query body in
  let exact :=
    match hr_exact_map hr !! request_path with
    | Some exact_routes => List.find extra exact_routes
    | None => None
    end in
  match exact with
  | Some rule => Some rule
  | None =>
      match List.find (fun rule => path_matches rule request_path && extra rule) (hr_rules hr) with
      | Some rule => Some rule
      | None =>
          match hr_catch_all hr with
          | Some ca => if extra ca then Some ca else None
          | None => None
          end
      end
  end.

(** [HostRoutes::match_request] *)
Definition match_request (hr : HostRoutes) (request_path method : string) (headers : H)
  (query : option string) : option PathRoute :=
  match_request_with_body hr request_path method headers query None.
End Matching.

(** [HostRoutes::find_rate_limiter]; the exact map's lists are visited in
    the order of its iterator. *)
Definition find_rate_limiter (hr : HostRoutes) (path : string) (match_type : PathMatchType)
  (rps : Z) (per_client : bool) : option RateLimiterMode :=
  let check pr :=
    bool_decide (pr_path pr = path) && bool_decide (pr_match_type pr = match_type) &&
    match pr_rate_limiter pr with
    | Some rl => (RateLimiterMode_rps rl =? rps) && Bool.eqb (RateLimiterMode_is_per_ip rl) per_client
    | None => false
    end in
  let candidates :=
    option_list (hr_catch_all hr) ++ concat (map snd (map_to_list (hr_exact_map hr))) ++ hr_rules hr in
  match List.find check candidates with Some pr => pr_rate_limiter pr | None => None end.

(** ** Weighted backends *)

(** The backend whose cumulative weight first exceeds [idx]. *)
Fixpoint weighted_at (backends : list WeightedBackendEntry) (cumulative idx : Z)
  : option WeightedBackendEntry :=
  match backends with
  | [] => None
  | b :: backends =>
      let cumulative := cumulative + wb_weight b in
      if idx <? cumulative then Some b else weighted_at backends cumulative idx
  end.

Definition sum_weights (backends : list WeightedBackendEntry) : Z :=
  fold_left (fun acc b => as_u 32 (acc + wb_weight b)) backends 0.

(** [select_weighted_backend], over the thread's [WEIGHT_COUNTER]. *)
Definition select_weighted_backend (backends : list WeightedBackendEntry) (precomputed_total : Z)
  (counter : Z) : option WeightedBackendEntry * Z :=
  match backends with
  | [] => (None, counter)
  | first :: _ =>
      let total := if precomputed_total >? 0 then precomputed_total else sum_weights backends in
      if total =? 0 then (Some first, counter)
      else
        let idx := counter mod total in
        (match weighted_at backends 0 idx with
         | Some b => Some b
         | None => last backends
         end, wrapping_add 64 counter 1)
  end.

(** ** Client address *)

Section ClientIp.
(** [ipnet::IpNet::contains] *)
Context (net_contains : IpNet -> IpAddr -> bool).

Definition trusted (trusted_cidrs : list IpNet) (ip : IpAddr) : bool :=
  existsb (fun c => net_contains c ip) trusted_cidrs.

(** The walk over the hops, from the right: the first untrusted one, the
    peer at the first that is not an address. *)
Fixpoint walk_hops (trusted_cidrs : list IpNet) (peer_ip : IpAddr) (hops : list string)
  : option IpAddr :=
  match hops with
  | [] => None
  | ip_str :: hops =>
      match parse_ip ip_str with
      | Some ip => if negb (trusted trusted_cidrs ip) then Some ip else walk_hops trusted_cidrs peer_ip hops
      | None => Some peer_ip
      end
  end.

(** [extract_client_ip] *)
Definition extract_client_ip (xff : string) (peer_ip : IpAddr) (trusted_cidrs : list IpNet) : IpAddr :=
  if negb (trusted trusted_cidrs peer_ip) then peer_ip
  else if is_empty xff then peer_ip
  else
    let ips := map trim (split_char "," xff) in
    match walk_hops trusted_cidrs peer_ip (rev ips) with
    | Some ip => ip
    | None =>
        match ips with
        | first :: _ => default peer_ip (parse_ip first)
        | [] => peer_ip
        end
    end.
End ClientIp.

(** ** Listeners and hosts *)

(** [listener_hostname_claims] *)
Definition listener_hostname_claims (listener_hostname host : string) : bool :=
  if is_empty listener_hostname then true
  else
    match strip_prefix "*." listener_hostname with
    | Some suffix =>
        let host_lc := to_ascii_lowercase host in
        let dot_suffix := "." +:+ to_ascii_lowercase suffix in
        ends_with dot_suffix host_lc && (String.length dot_suffix <? String.length host_lc)%nat
    | None => eq_ignore_ascii_case host listener_hostname
    end.

(** [listener_specificity]; lengths are cast to [u32]. *)
Definition listener_specificity (listener_hostname : string) : Z :=
  if is_empty listener_hostname then 1
  else
    match strip_prefix "*." listener_hostname with
    | Some suffix => as_u 32 (1000 + as_u 32 (Z.of_nat (String.length suffix)))
    | None => as_u 32 (10000 + as_u 32 (Z.of_nat (String.length listener_hostname)))
    end.

(** [lookup_domain_wildcard_bucket]: the loop over the dots of the host, at
    most one round per byte. *)
Fixpoint lookup_wildcard_loop (fuel : nat) (search : string) (map : gmap string HostRoutes)
  : option HostRoutes :=
  match fuel with
  | O => None
  | S fuel =>
      match find_char "." search with
      | None => None
      | Some dot =>
          let suffix := sdrop dot search in
          match map !! suffix with
          | Some routes => Some routes
          | None => lookup_wildcard_loop fuel (sdrop (dot + 1) search) map
          end
      end
  end.

Definition lookup_domain_wildcard_bucket (host : string) (map : gmap string HostRoutes)
  : option HostRoutes :=
  lookup_wildcard_loop (S (String.length host)) host map.

(** [select_listener_bucket] *)
Definition select_listener_bucket (host : string) (buckets : list ListenerBucket)
  : option ListenerBucket :=
  List.find (fun b => listener_hostname_claims (lb_listener_hostname b) host) buckets.

(** [detect_misdirected_request] *)
Definition detect_misdirected_request (sni : option string) (host : string)
  (buckets : list ListenerBucket) : bool :=
  match sni with
  | None => false
  | Some sni =>
      match select_listener_bucket sni buckets, select_listener_bucket host buckets with
      | Some s, Some h => negb (bool_decide (lb_listener_hostname s = lb_listener_hostname h))
      | Some _, None => true
      | None, _ => false
      end
  end.

(** [should_retry_status] *)
Definition should_retry_status (status : Z) (retry_codes : list Z) (retries_left : Z) : bool :=
  (retries_left >? 0) && bool_decide (status ∈ retry_codes).

(** ** CORS *)

(** One pattern of [cors_origin_matches]. *)
Definition cors_pattern_matches (allowed origin : string) : bool :=
  if bool_decide (allowed = "*") then true
  else if bool_decide (allowed = origin) then true
  else
    match find_char "*" allowed with
    | None => false
    | Some star_pos =>
        let prefix := stake star_pos allowed in
        let suffix := sdrop (star_pos + 1) allowed in
        if starts_with prefix origin && ends_with suffix (sdrop (String.length prefix) origin) then
          let middle :=
            stake (String.length origin - String.length suffix - String.length prefix)
                  (sdrop (String.length prefix) origin) in
          negb (is_empty middle)
        else false
    end.

(** [cors_origin_matches] *)
Definition cors_origin_matches (allow_origins : list string) (origin : string) : bool :=
  existsb (fun allowed => cors_pattern_matches allowed origin) allow_origins.

(** [cors_allow_origin_value] *)
Definition cors_allow_origin_value (cors : CorsConfig) (origin : string) (has_credentials : bool) : string :=
  if cors_allow_credentials cors || has_credentials then origin
  else if existsb (fun o => bool_decide (o = "*")) (cors_allow_origins cors) then "*"
  else origin.

(** [cors_methods_value] and [cors_headers_value] *)
Definition cors_methods_value (allow_methods : list string) (pre_joined requested_method : string) : string :=
  match allow_methods with
  | [] => EmptyString
  | _ => if existsb (fun m => bool_decide (m = "*")) allow_methods then requested_method else pre_joined
  end.

Definition cors_headers_value (allow_headers : list string) (pre_joined requested_headers : string) : string :=
  match allow_headers with
  | [] => EmptyString
  | _ => if existsb (fun h => bool_decide (h = "*")) allow_headers then requested_headers else pre_joined
  end.

(** ** Path prefixes *)

Lemma get_app a r : String.get (String.length a) (a +:+ r) = String.get 0 r.
Proof. by induction a. Qed.

(** a prefix rule matches whole path segments.  [/foo] matches [/foo]
    and everything below [/foo/], never [/foobar]; a prefix that ends in a
    slash matches everything that starts with it. *)
Theorem prefix_matches_segments (regex_is_match : Regex -> string -> bool) (rule : PathRoute)
  (path : string) (Hprefix : pr_match_type rule = PathPrefix) :
  path_matches regex_is_match rule path = true <->
  path = pr_path rule \/
  (exists rest, path = pr_path rule +:+ "/" +:+ rest) \/
  (exists dir rest, pr_path rule = dir +:+ "/" /\ path = pr_path rule +:+ rest).
Proof.
  unfold path_matches. rewrite Hprefix. set (p := pr_path rule).
  destruct (starts_with p path) eqn:Hs.
  - apply starts_with_spec in Hs as [r ->].
    rewrite get_app, slength_app, !orb_true_iff, Nat.eqb_eq, bool_decide_eq_true, ends_with_spec.
    split.
    + intros [[Hl|Hg]|[d Hd]].
      * left. destruct r; [apply sapp_nil_r|simpl in Hl; lia].
      * right. left. destruct r as [|c r]; simpl in Hg; simplify_eq. by exists r.
      * right. right. by exists d, r.
    + intros [Hp|[[rest Hr]|(d & rest & Hd & _)]].
      * left. left. rewrite <- slength_app, Hp. lia.
      * left. right. apply (inj (String.append p)) in Hr. by subst r.
      * right. by exists d.
  - split; [done|]. intros Hc. exfalso. rewrite <- not_true_iff_false, starts_with_spec in Hs. apply Hs.
    destruct Hc as [->|[[rest ->]|(d & rest & _ & ->)]]; [exists EmptyString; by rewrite sapp_nil_r|eauto|eauto].
Qed.

Lemma prefix_matches_segments_witness :
  let rule := plain_route "/api" PathPrefix "svc" 80 in
  path_matches (fun _ _ => false) rule "/api/users" = true /\
  path_matches (fun _ _ => false) rule "/apix" = false.
Proof.
  cbv zeta. split; [|reflexivity].
  apply prefix_matches_segments; [reflexivity|]. right. left. by exists "users".
Defined.

(** ** Rewriting *)

(** A path without its final slash, a suffix without its first one. *)
Definition chop_slash (p : string) : string :=
  if ends_with "/" p then stake (String.length p - 1) p else p.
Definition skip_slash (s : string) : string := if starts_with "/" s then sdrop 1 s else s.

Lemma ends_with_slash p : ends_with "/" p = true -> p = chop_slash p +:+ "/".
Proof.
  intros He. unfold chop_slash. rewrite He. apply ends_with_spec in He as [r ->].
  rewrite slength_app. simpl. replace (_ - 1)%nat with (String.length r) by lia. by rewrite stake_app.
Qed.

Lemma starts_with_slash s : starts_with "/" s = true -> s = "/" +:+ skip_slash s.
Proof. intros Hs. unfold skip_slash. rewrite Hs. by apply starts_with_spec in Hs as [r ->]. Qed.

Lemma replace_prefix_joins new_path suffix :
  replace_prefix new_path suffix =
    if is_empty suffix then new_path else chop_slash new_path +:+ "/" +:+ skip_slash suffix.
Proof.
  unfold replace_prefix. destruct (is_empty suffix) eqn:Hempty.
  { apply is_empty_true in Hempty as ->. rewrite !andb_false_r. apply sapp_nil_r. }
  destruct (ends_with "/" new_path) eqn:He, (starts_with "/" suffix) eqn:Hs; simpl.
  - rewrite He. simpl. rewrite (ends_with_slash _ He) at 1. rewrite sapp_assoc. f_equal.
    unfold skip_slash. by rewrite Hs.
  - rewrite He. simpl. rewrite (ends_with_slash _ He) at 1. rewrite sapp_assoc.
    unfold skip_slash. by rewrite Hs.
  - rewrite He. simpl. unfold chop_slash. rewrite He. f_equal. by apply starts_with_slash.
  - unfold chop_slash, skip_slash. rewrite He, Hs, andb_false_r. by rewrite sapp_assoc.
Qed.

(** a prefix rewrite puts the replacement in front of what follows the
    matched prefix with exactly one slash between them, whichever of the two
    carries it; a request for the prefix itself becomes the replacement. *)
Theorem rewrite_prefix_joins_with_one_slash (pr : PathRoute) (rewrite : UrlRewriteConfig)
  (new_path suffix : string)
  (Hrewrite : pr_url_rewrite pr = Some rewrite) (Hpath : rw_path rewrite = Some new_path)
  (Htype : rw_path_type rewrite = "ReplacePrefixMatch") :
  rewrite_path pr (pr_path pr +:+ suffix) =
    Some (if is_empty suffix then new_path else chop_slash new_path +:+ "/" +:+ skip_slash suffix).
Proof.
  unfold rewrite_path. rewrite Hrewrite, Hpath, Htype. simpl.
  rewrite (proj2 (strip_prefix_Some _ _ suffix) eq_refl). by rewrite replace_prefix_joins.
Qed.

(** ** Wildcard hosts *)

(** [s] is a suffix of [host] that starts at a dot. *)
Lemma lookup_wildcard_loop_search fuel search (m : gmap string HostRoutes) :
  lookup_wildcard_loop fuel search m = suffix_search (fun s => m !! s) fuel search.
Proof.
  revert search. induction fuel as [|fuel IH]; intros search; simpl; [done|].
  destruct (find_char "." search) as [dot|]; [|done]. by rewrite IH.
Qed.

(** the wildcard lookup finds the most specific wildcard: among the
    dot-suffixes of the host that have routes it returns the longest one's,
    and it fails only when none has. *)
Theorem wildcard_lookup_longest_suffix (host : string) (m : gmap string HostRoutes) :
  match lookup_domain_wildcard_bucket host m with
  | Some routes => exists s, dot_suffix host s /\ m !! s = Some routes /\
      forall s', dot_suffix host s' -> is_Some (m !! s') -> (String.length s' <= String.length s)%nat
  | None => forall s, dot_suffix host s -> m !! s = None
  end.
Proof.
  unfold lookup_domain_wildcard_bucket. rewrite lookup_wildcard_loop_search.
  apply (suffix_search_spec (fun s => m !! s)). lia.
Qed.

(** ** Listeners *)

Lemma claims_wildcard suffix host :
  listener_hostname_claims ("*." +:+ suffix) host = true <->
  exists label, label <> EmptyString /\
    to_ascii_lowercase host = label +:+ "." +:+ to_ascii_lowercase suffix.
Proof.
  unfold listener_hostname_claims. cbn [is_empty String.append strip_prefix decide].
  rewrite !decide_True by done. rewrite andb_true_iff, Nat.ltb_lt, ends_with_spec. split.
  - intros [[r Hr] Hl]. exists r. split; [|done]. intros ->. rewrite Hr in Hl. simpl in Hl. lia.
  - intros (l & Hl & Hh). split; [by exists l|]. rewrite Hh, slength_app.
    destruct l; [done|]. simpl. lia.
Qed.

(** A wildcard listener, and the ones that name a host. *)
Definition wildcard_of (l : string) : option string := strip_prefix "*." l.
Definition names_host (l : string) : Prop := l <> EmptyString /\ wildcard_of l = None.

Lemma specificity_any : listener_specificity EmptyString = 1.
Proof. done. Qed.

Lemma specificity_wildcard l s :
  wildcard_of l = Some s -> (String.length s <= 253)%nat ->
  listener_specificity l = 1000 + Z.of_nat (String.length s).
Proof.
  unfold wildcard_of, listener_specificity. intros Hw Hlen. rewrite Hw.
  destruct l as [|c l]; [done|]. cbn [is_empty].
  rewrite (as_u_small 32 (Z.of_nat _)), as_u_small; [done|split; lia..].
Qed.

Lemma specificity_exact l :
  names_host l -> (String.length l <= 253)%nat ->
  listener_specificity l = 10000 + Z.of_nat (String.length l).
Proof.
  unfold listener_specificity. intros [Hne Hw] Hlen. unfold wildcard_of in Hw. rewrite Hw.
  destruct l as [|c l]; [done|]. cbn [is_empty].
  rewrite (as_u_small 32 (Z.of_nat _)), as_u_small; [done|split; lia..].
Qed.

(** Whatever claims a host is no longer than it. *)
Lemma claims_length l host :
  listener_hostname_claims l host = true ->
  match wildcard_of l with
  | Some s => (String.length s <= String.length host)%nat
  | None => l = EmptyString \/ String.length l = String.length host
  end.
Proof.
  unfold listener_hostname_claims, wildcard_of. destruct l as [|c l]; [by left|]. cbn [is_empty].
  destruct (strip_prefix "*." (String c l)) as [s|].
  - rewrite andb_true_iff, Nat.ltb_lt. intros [_ Hl]. simpl in Hl.
    unfold to_ascii_lowercase in Hl. rewrite !smap_length in Hl. lia.
  - intros Heq%bool_decide_eq_true. right. apply (f_equal String.length) in Heq.
    unfold to_ascii_lowercase in Heq. by rewrite !smap_length in Heq.
Qed.

(** The first element satisfying a test, in a list sorted by a key. *)
Lemma find_sorted {A} (key : A -> Z) (f : A -> bool) l x :
  StronglySorted (fun a b => key b <= key a) l -> List.find f l = Some x ->
  x ∈ l /\ f x = true /\ forall y, y ∈ l -> f y = true -> key y <= key x.
Proof.
  intros Hs Hf. destruct (List.find_some _ _ Hf) as [Hin Hfx]. rewrite <- list_elem_of_In in Hin.
  split_and!; [done|done|]. clear Hin Hfx. revert Hf.
  induction Hs as [|a l Hs IH Hall]; simpl; [done|]. intros Hf y Hy Hfy.
  apply elem_of_cons in Hy. destruct (f a) eqn:Hfa; simplify_eq.
  - destruct Hy as [->|Hy]; [lia|]. by apply (proj1 (Forall_forall _ _) Hall).
  - destruct Hy as [->|Hy]; [congruence|]. by apply IH.
Qed.

(** with the buckets of a port sorted by specificity, the listener a
    request host goes to is the most specific one that claims it: a listener
    naming the host whenever there is one, else a wildcard with the longest
    suffix, else the one without a hostname.  Hosts are at most 253 bytes, as
    DNS has it. *)
Theorem most_specific_listener_claims (host : string) (buckets : list ListenerBucket) (b : ListenerBucket)
  (Hsorted : StronglySorted (fun a b => listener_specificity (lb_listener_hostname b)
                                        <= listener_specificity (lb_listener_hostname a)) buckets)
  (Hlen : (String.length host <= 253)%nat)
  (Hsel : select_listener_bucket host buckets = Some b) :
  listener_hostname_claims (lb_listener_hostname b) host = true /\
  (forall b', b' ∈ buckets -> listener_hostname_claims (lb_listener_hostname b') host = true ->
     names_host (lb_listener_hostname b') -> names_host (lb_listener_hostname b)) /\
  (forall b' s', b' ∈ buckets -> listener_hostname_claims (lb_listener_hostname b') host = true ->
     wildcard_of (lb_listener_hostname b') = Some s' ->
     names_host (lb_listener_hostname b) \/
     exists s, wildcard_of (lb_listener_hostname b) = Some s /\
       (String.length s' <= String.length s)%nat).
Proof.
  apply (find_sorted (fun b => listener_specificity (lb_listener_hostname b))) in Hsel
    as (Hin & Hclaim & Hmax); [|done].
  split; [done|]. pose proof (claims_length _ _ Hclaim) as Hl.
  assert (Hb : lb_listener_hostname b = EmptyString \/ names_host (lb_listener_hostname b) \/
    exists s, wildcard_of (lb_listener_hostname b) = Some s /\ (String.length s <= 253)%nat /\
      listener_specificity (lb_listener_hostname b) = 1000 + Z.of_nat (String.length s)).
  { destruct (wildcard_of (lb_listener_hostname b)) as [s|] eqn:Hw.
    - right. right. exists s. split_and!; [done|lia|]. apply specificity_wildcard; [done|lia].
    - destruct (decide (lb_listener_hostname b = EmptyString)); [by left|right; left; by split]. }
  split.
  - intros b' Hb' Hc' Hn'. specialize (Hmax b' Hb' Hc'). pose proof (claims_length _ _ Hc') as Hl'.
    rewrite (proj2 Hn') in Hl'. destruct Hl' as [Hl'|Hl']; [by destruct Hn'|].
    rewrite (specificity_exact _ Hn') in Hmax by lia.
    destruct Hb as [Hb0|[?|(s & _ & Hs & Hsp)]]; [rewrite Hb0, specificity_any in Hmax; lia|done|lia].
  - intros b' s' Hb' Hc' Hw'. specialize (Hmax b' Hb' Hc'). pose proof (claims_length _ _ Hc') as Hl'.
    rewrite Hw' in Hl'. rewrite (specificity_wildcard _ s') in Hmax by (done || lia).
    destruct Hb as [Hb0|[?|(s & Hs1 & Hs2 & Hsp)]]; [rewrite Hb0, specificity_any in Hmax; lia|by left|].
    right. exists s. split; [done|lia].
Qed.

Definition empty_bucket (hostname : string) : ListenerBucket :=
  {| lb_listener_hostname := hostname; lb_exact := ∅; lb_domain_wildcards := ∅; lb_catch_all := None |}.

Lemma most_specific_listener_claims_witness :
  let buckets := map empty_bucket ["a.example.com"; "*.b.example.com"; "*.example.com"; EmptyString] in
  select_listener_bucket "x.b.example.com" buckets = Some (empty_bucket "*.b.example.com") /\
  (names_host "*.b.example.com" \/
   exists s, wildcard_of "*.b.example.com" = Some s /\ (String.length "example.com" <= String.length s)%nat).
Proof.
  cbv zeta. split; [vm_compute; reflexivity|].
  apply (proj2 (proj2 (most_specific_listener_claims "x.b.example.com"
    (map empty_bucket ["a.example.com"; "*.b.example.com"; "*.example.com"; EmptyString])
    (empty_bucket "*.b.example.com") ltac:(repeat constructor; vm_compute; congruence)
    ltac:(vm_compute; lia) ltac:(vm_compute; reflexivity)))
    (empty_bucket "*.example.com") "example.com").
  - simpl. rewrite !elem_of_cons. auto.
  - vm_compute. reflexivity.
  - vm_compute. reflexivity.
Defined.

Definition sample_rewrite : PathRoute :=
  let r := plain_route "/v1" PathPrefix "svc" 80 in
  {| pr_path := pr_path r; pr_match_type := pr_match_type r; pr_service_name := pr_service_name r;
     pr_port := pr_port r; pr_connect_timeout := None; pr_read_timeout := None;
     pr_write_timeout := None; pr_rate_limiter := None; pr_max_retries := 0;
     pr_upstream_tls := false; pr_upstream_sni := pr_upstream_sni r; pr_upstream_verify := true;
     pr_protocol := Http; pr_request_headers_add := []; pr_request_headers_set := [];
     pr_request_headers_remove := []; pr_response_headers_add := []; pr_response_headers_set := [];
     pr_response_headers_remove := []; pr_header_matches := []; pr_method_match := None;
     pr_query_param_matches := []; pr_redirect := None;
     pr_url_rewrite := Some {| rw_hostname := None; rw_path := Some "/v2/"; rw_path_type := "ReplacePrefixMatch" |};
     pr_listener_name := EmptyString; pr_mirror_backends := []; pr_weighted_backends := [];
     pr_request_timeout := None; pr_backend_request_timeout := None; pr_auth_config := None;
     pr_ext_auth := None; pr_cors := None; pr_ip_allow_cidrs := []; pr_ip_deny_cidrs := [];
     pr_ip_trusted_proxy_cidrs := []; pr_max_request_body_bytes := 0; pr_retry_on := [];
     pr_retry_codes := []; pr_circuit_breaker := None; pr_connection_limiter := None;
     pr_total_weight := 0; pr_ai := None |}.

Lemma rewrite_prefix_joins_with_one_slash_witness :
  rewrite_path sample_rewrite "/v1/users" = Some "/v2/users" /\
  rewrite_path sample_rewrite "/v1" = Some "/v2/".
Proof.
  split.
  - exact (rewrite_prefix_joins_with_one_slash sample_rewrite _ "/v2/" "/users" eq_refl eq_refl eq_refl).
  - exact (rewrite_prefix_joins_with_one_slash sample_rewrite _ "/v2/" EmptyString eq_refl eq_refl eq_refl).
Defined.

(** ** Weighted backends *)

(** Every backend as often as its weight, and the total weight. *)
Definition expand : list WeightedBackendEntry -> list WeightedBackendEntry := expand_by wb_weight.
Definition total_of : list WeightedBackendEntry -> Z := total_by wb_weight.

Lemma weighted_at_expand backends cumulative idx :
  Forall (fun b => 0 <= wb_weight b) backends -> 0 <= cumulative <= idx ->
  weighted_at backends cumulative idx = expand backends !! Z.to_nat (idx - cumulative).
Proof. intros Hw Hc. rewrite <- (cumulative_find_expand wb_weight) by done. reflexivity. Qed.

(** [k] selections in a row by one worker thread. *)
Definition weighted_run (backends : list WeightedBackendEntry) (precomputed : Z) : nat -> Z -> list (option WeightedBackendEntry) :=
  calls (select_weighted_backend backends precomputed).

Lemma select_weighted_at backends pre counter :
  Forall (fun b => 0 <= wb_weight b) backends -> 0 < total_of backends < 2 ^ 32 ->
  pre = 0 \/ pre = total_of backends -> 0 <= counter ->
  select_weighted_backend backends pre counter =
    (expand backends !! Z.to_nat (counter mod total_of backends), wrapping_add 64 counter 1).
Proof.
  intros Hw Ht Hpre Hc. unfold select_weighted_backend.
  destruct backends as [|b0 bs]; [simpl in Ht; lia|]. set (bs' := b0 :: bs) in *.
  assert (Htot : (if pre >? 0 then pre else sum_weights bs') = total_of bs').
  { unfold sum_weights. rewrite sum_by_total by (done || unfold total_of in *; lia). fold (total_of bs'). destruct Hpre as [->| ->]; [done|]. by destruct (_ >? 0). }
  rewrite Htot, (proj2 (Z.eqb_neq _ 0)) by lia.
  pose proof (Z.mod_pos_bound counter (total_of bs')) as Hm.
  rewrite weighted_at_expand by (done || lia). rewrite Z.sub_0_r.
  destruct (lookup_lt_is_Some_2 (expand bs') (Z.to_nat (counter mod total_of bs'))) as [x Hx].
  { pose proof (expand_by_length wb_weight bs' Hw). unfold expand, total_of in *. lia. }
  by rewrite Hx.
Qed.

(** weighted round robin is exactly proportional.  Over one period (as
    many consecutive selections as the weights sum to), starting anywhere,
    a worker picks every backend exactly as often as its weight. *)
Theorem weighted_round_robin_exact (backends : list WeightedBackendEntry) (precomputed counter : Z)
  (Hweights : Forall (fun b => 0 <= wb_weight b) backends)
  (Htotal : 0 < total_of backends < 2 ^ 32)
  (Hpre : precomputed = 0 \/ precomputed = total_of backends)
  (Hcounter : 0 <= counter) (Hwrap : counter + total_of backends < 2 ^ 64) :
  weighted_run backends precomputed (Z.to_nat (total_of backends)) counter
    ≡ₚ map Some (expand backends).
Proof.
  unfold weighted_run.
  rewrite (calls_counter _ id (fun z => expand backends !! Z.to_nat (z mod total_of backends)) _ counter);
    [|intros z Hz; by apply select_weighted_at|done|lia].
  by apply (weighted_period wb_weight backends (fun z => expand backends !! Z.to_nat (z mod total_of backends))).
Qed.

Definition weighted (service : string) (weight : Z) : WeightedBackendEntry :=
  {| wb_service_name := service; wb_port := 80; wb_weight := weight;
     wb_request_headers_add := []; wb_request_headers_set := []; wb_request_headers_remove := [] |}.

Lemma weighted_round_robin_exact_witness :
  weighted_run [weighted "a" 3; weighted "b" 0; weighted "c" 2] 5 5 7 ≡ₚ
    map Some [weighted "a" 3; weighted "a" 3; weighted "a" 3; weighted "c" 2; weighted "c" 2].
Proof.
  apply (weighted_round_robin_exact [weighted "a" 3; weighted "b" 0; weighted "c" 2] 5 7).
  - repeat constructor; vm_compute; congruence.
  - vm_compute. split; reflexivity.
  - by right.
  - lia.
  - vm_compute. reflexivity.
Defined.

(** ** Client address behind proxies *)

(** A hop at which the walk from the right stops. *)
Definition stops_walk (net_contains : IpNet -> IpAddr -> bool) (cidrs : list IpNet) (hop : string) : bool :=
  match parse_ip hop with
  | Some ip => negb (trusted net_contains cidrs ip)
  | None => true
  end.

Lemma walk_hops_app net_contains cidrs peer hops rest :
  existsb (stops_walk net_contains cidrs) hops = true ->
  exists ip, walk_hops net_contains cidrs peer hops = Some ip /\
    walk_hops net_contains cidrs peer (hops ++ rest) = Some ip.
Proof.
  induction hops as [|h hops IH]; simpl; [done|]. unfold stops_walk at 1.
  destruct (parse_ip h) as [ip|]; [|eauto].
  destruct (trusted net_contains cidrs ip); simpl; eauto.
Qed.

(** a client cannot choose its own address.  An untrusted peer is the
    client whatever X-Forwarded-For says.  Behind trusted proxies, whatever a
    client put in the header ends up to the left of what the proxies append,
    and as soon as the appended part has a hop that is not a trusted proxy
    (the client's real address), everything to its left is irrelevant. *)
Theorem forwarded_for_not_spoofable (net_contains : IpNet -> IpAddr -> bool)
  (cidrs : list IpNet) (peer : IpAddr) (forged appended : string)
  (Hhop : existsb (stops_walk net_contains cidrs) (map trim (split_char "," appended)) = true) :
  (trusted net_contains cidrs peer = false ->
     extract_client_ip net_contains forged peer cidrs = peer) /\
  extract_client_ip net_contains (forged +:+ "," +:+ appended) peer cidrs =
    extract_client_ip net_contains appended peer cidrs.
Proof.
  unfold extract_client_ip. split; [by intros ->|].
  destruct (trusted net_contains cidrs peer); simpl; [|done].
  replace (is_empty (forged +:+ String "," appended)) with false by (by destruct forged).
  rewrite split_char_app, map_app, rev_app_distr.
  assert (Hrev : existsb (stops_walk net_contains cidrs) (rev (map trim (split_char "," appended))) = true).
  { apply existsb_exists in Hhop as (h & Hin & Hh). apply existsb_exists. exists h. by rewrite <- in_rev. }
  destruct (walk_hops_app net_contains cidrs peer _ (rev (map trim (split_char "," forged))) Hrev)
    as (ip & H1 & H2). rewrite H1, H2. destruct appended as [|c a]; [|done].
  simpl in H1. by simplify_eq.
Qed.

(** Containment of a network with a prefix length, for the examples. *)
Definition sample_contains (n : IpNet) (ip : IpAddr) : bool :=
  match net_addr n, ip with
  | V4 a, V4 b => Z.shiftr a (32 - net_prefix_len n) =? Z.shiftr b (32 - net_prefix_len n)
  | V6 a, V6 b => Z.shiftr a (128 - net_prefix_len n) =? Z.shiftr b (128 - net_prefix_len n)
  | _, _ => false
  end.

Definition ten_net : IpNet := {| net_addr := V4 167772160; net_prefix_len := 8 |}.

Lemma forwarded_for_not_spoofable_witness :
  extract_client_ip sample_contains "1.2.3.4,203.0.113.9, 10.0.0.7" (V4 167772161) [ten_net]
    = V4 3405803785.
Proof.
  transitivity (extract_client_ip sample_contains "203.0.113.9, 10.0.0.7" (V4 167772161) [ten_net]).
  - apply (forwarded_for_not_spoofable sample_contains [ten_net] (V4 167772161) "1.2.3.4"
      "203.0.113.9, 10.0.0.7"). vm_compute. reflexivity.
  - vm_compute. reflexivity.
Defined.

(** ** CORS *)

Lemma cors_split_iff prefix suffix origin :
  (if starts_with prefix origin && ends_with suffix (sdrop (String.length prefix) origin) then
     negb (is_empty (stake (String.length origin - String.length suffix - String.length prefix)
                           (sdrop (String.length prefix) origin)))
   else false) = true <->
  exists middle, middle <> EmptyString /\ origin = prefix +:+ middle +:+ suffix.
Proof.
  split.
  - destruct (starts_with prefix origin) eqn:Hs; simpl; [|done].
    apply starts_with_spec in Hs as [r ->]. rewrite sdrop_app.
    destruct (ends_with suffix r) eqn:He; [|done]. apply ends_with_spec in He as [mid ->].
    rewrite !slength_app. replace (_ - _ - _)%nat with (String.length mid) by lia.
    rewrite stake_app. intros Hm. exists mid. split; [by destruct mid|done].
  - intros (mid & Hm & ->). rewrite (proj2 (starts_with_spec _ _)) by eauto.
    rewrite sdrop_app, (proj2 (ends_with_spec _ _)) by eauto. simpl.
    rewrite !slength_app. replace (_ - _ - _)%nat with (String.length mid) by lia.
    rewrite stake_app. by destruct mid.
Qed.

Lemma cors_pattern_iff allowed origin :
  cors_pattern_matches allowed origin = true <->
  allowed = "*" \/ allowed = origin \/
  exists prefix middle suffix, find_char "*" prefix = None /\ middle <> EmptyString /\
    allowed = prefix +:+ "*" +:+ suffix /\ origin = prefix +:+ middle +:+ suffix.
Proof.
  unfold cors_pattern_matches. case_bool_decide as Hstar; [tauto|].
  case_bool_decide as Heq; [tauto|].
  destruct (find_char "*" allowed) as [n|] eqn:Hf.
  - destruct (find_char_Some _ _ _ Hf) as [Ha Hn]. cbv zeta. rewrite cors_split_iff. split.
    + intros (mid & Hm & Ho). right. right. exists (stake n allowed), mid, (sdrop (n + 1) allowed). done.
    + intros [?|[?|(p & mid & s & Hp & Hm & Hal & Ho)]]; [done|done|].
      change ("*" +:+ s) with (String "*" s) in Hal.
      assert (Hl : n = String.length p) by (rewrite Hal, (find_char_app _ _ _ Hp) in Hf; congruence).
      exists mid. split; [done|]. rewrite Hal, Hl, stake_app.
      by rewrite <- sdrop_sdrop, sdrop_app.
  - split; [done|]. intros [?|[?|(p & mid & s & Hp & Hm & Hal & Ho)]]; [done|done|].
    change ("*" +:+ s) with (String "*" s) in Hal.
    rewrite Hal, (find_char_app _ _ _ Hp) in Hf. done.
Qed.

(** an origin is allowed exactly when some pattern allows it: a bare
    star, the origin itself, or a pattern with a star standing for at least
    one byte between what precedes and what follows it. *)
Theorem cors_origin_matches_iff (allow_origins : list string) (origin : string) :
  cors_origin_matches allow_origins origin = true <->
  exists allowed, allowed ∈ allow_origins /\
    (allowed = "*" \/ allowed = origin \/
     exists prefix middle suffix, find_char "*" prefix = None /\ middle <> EmptyString /\
       allowed = prefix +:+ "*" +:+ suffix /\ origin = prefix +:+ middle +:+ suffix).
Proof.
  unfold cors_origin_matches. rewrite existsb_exists. setoid_rewrite <- list_elem_of_In.
  split; intros (a & Ha & Hm); exists a; (split; [done|]); by apply cors_pattern_iff.
Qed.
