(* ===== verification/Auth.v ===== *)
(** * Basic and API-key authentication

    [portus-dataplane-core/src/auth.rs].  [bcrypt::verify] and the header
    text check of the [http] crate are arguments; the base64 decoder, the
    order of the checks and the padded key comparison are the source's. *)
From S2P Require Import Prelude Text.

(** What the data plane uses of the [http] crate's header values: which byte
    strings [HeaderValue::from_bytes] and [HeaderValue::from_str] accept, and
    which values [HeaderValue::to_str] reads as text. *)
Class HttpCrate := {
  value_from_bytes_ok : string -> bool;
  value_from_str_ok : string -> bool;
  value_text_ok : string -> bool;
}.

(** Visible ASCII and tabs are text; only control bytes are refused. *)
Definition sample_http : HttpCrate := {|
  value_from_bytes_ok s := forallb (fun c => (in_byte_range 32 255 c && negb (byte_val c =? 127))
                                             || (byte_val c =? 9)) (String.list_ascii_of_string s);
  value_from_str_ok s := forallb (fun c => in_byte_range 32 126 c || (byte_val c =? 9)) (String.list_ascii_of_string s);
  value_text_ok s := forallb (fun c => in_byte_range 32 126 c || (byte_val c =? 9)) (String.list_ascii_of_string s);
|}.

Definition MIN_BCRYPT_COST : Z := 10.

(** [extract_bcrypt_cost]: the third [$]-separated field as a [u32]. *)
Definition extract_bcrypt_cost (hash : string) : option Z :=
  match split_char "$" hash !! 2%nat with
  | Some field => parse_u 32 field
  | None => None
  end.

(** ** base64_decode *)

Definition base64_alphabet : string := "ABCDEFGHIJKLMNOPQRSTUVWXYZabcdefghijklmnopqrstuvwxyz0123456789+/".

(** [DECODE_TABLE]: the position of a byte in the alphabet, 255 elsewhere. *)
Definition decode_table (c : ascii) : Z :=
  match find_char c base64_alphabet with Some i => Z.of_nat i | None => 255 end.

(** The loop over the input: [buf] and [bits] as the code keeps them, output
    reversed. *)
Fixpoint base64_loop (input : string) (buf bits : Z) (output : list Z) : option (list Z) :=
  match input with
  | EmptyString => Some (rev output)
  | String byte input =>
      let val := decode_table byte in
      if val =? 255 then None
      else
        let buf := Z.lor (as_u 32 (Z.shiftl buf 6)) val in
        let bits := bits + 6 in
        if bits >=? 8 then
          let bits := bits - 8 in
          let output := as_u 8 (Z.shiftr buf bits) :: output in
          base64_loop input (Z.land buf (Z.shiftl 1 bits - 1)) bits output
        else base64_loop input buf bits output
  end.

Definition base64_decode (input : string) : option string :=
  match base64_loop (trim_end_char "=" input) 0 0 [] with
  | Some bytes => Some (String.string_of_list_ascii (map byte_of bytes))
  | None => None
  end.

(** ** validate_basic_auth *)

Section Basic.
Context `{HttpCrate}.
(** [bcrypt::verify password hash]: [None] is its error. *)
Context (bcrypt_verify : string -> string -> option bool).

(** [permit] and [joined] say whether the semaphore gave a permit and the
    blocking task ran to its end. *)
Definition validate_basic_auth (permit joined : bool) (auth_header : option string)
  (credentials : gmap string string) : result unit Z :=
  try! header := ok_or auth_header 401 in
  try! header_str := (if value_text_ok header then Ok header else Err 401) in
  match strip_prefix "Basic " header_str with
  | None => Err 401
  | Some encoded =>
      try! decoded := ok_or (base64_decode encoded) 401 in
      try! decoded_str := ok_or (from_utf8 decoded) 401 in
      try! credential := ok_or (split_once ":" decoded_str) 401 in
      let '(username, password) := credential in
      match credentials !! username with
      | None => if negb permit then Err 503 else if negb joined then Err 503 else Err 401
      | Some hash =>
          let cost := default 0 (extract_bcrypt_cost hash) in
          if cost <? MIN_BCRYPT_COST then Err 401
          else if negb permit then Err 503
          else if negb joined then Err 503
          else match bcrypt_verify password hash with
               | Some true => Ok tt
               | _ => Err 401
               end
      end
  end.
End Basic.

(** ** validate_api_key *)

Definition PAD_LEN : nat := 256.

(** A key in a buffer of [PAD_LEN] zero bytes. *)
Definition padded (key : string) : list ascii :=
  let bytes := take PAD_LEN (String.list_ascii_of_string key) in
  bytes ++ replicate (PAD_LEN - length bytes) zero.

(** The loop over all valid keys, accumulating [found]. *)
Definition validate_api_key `{HttpCrate} (key_header : option string) (valid_keys : gset string)
  : result unit Z :=
  try! header := ok_or key_header 401 in
  try! key := (if value_text_ok header then Ok header else Err 401) in
  let found := fold_left (fun found k =>
      let len_eq := (String.length key =? String.length k)%nat in
      let bytes_eq := bool_decide (padded k = padded key) in
      found || (len_eq && bytes_eq)) (elements valid_keys) false in
  if found then Ok tt else Err 401.

(** ** API keys *)

Lemma padded_inj a b :
  String.length a = String.length b -> (String.length a <= PAD_LEN)%nat -> padded a = padded b -> a = b.
Proof.
  intros Hl Hp Heq.
  assert (Hla : forall s, length (String.list_ascii_of_string s) = String.length s).
  { induction s; simpl; congruence. }
  unfold padded in Heq. rewrite !take_ge in Heq by (rewrite Hla; lia).
  apply app_inj_1 in Heq as [Heq _]; [|by rewrite !Hla].
  rewrite <- (String.string_of_list_ascii_of_string a), <- (String.string_of_list_ascii_of_string b). by rewrite Heq.
Qed.

Lemma found_iff key keys :
  (String.length key <= PAD_LEN)%nat \/ Forall (fun k => String.length k <= PAD_LEN)%nat keys ->
  forall acc, fold_left (fun found k => found || ((String.length key =? String.length k)%nat &&
      bool_decide (padded k = padded key))) keys acc = true <-> acc = true \/ key ∈ keys.
Proof.
  induction keys as [|k keys IH]; intros Hb acc; simpl.
  - rewrite elem_of_nil. tauto.
  - rewrite IH by (destruct Hb as [?|Hb]; [by left|right; by inversion Hb]).
    rewrite orb_true_iff, andb_true_iff, Nat.eqb_eq, bool_decide_eq_true, elem_of_cons.
    assert (Hk : (String.length key = String.length k /\ padded k = padded key) <-> key = k).
    { split; [|by intros ->]. intros [Hl Hp]. symmetry. apply padded_inj; [done| |done].
      destruct Hb as [?|Hb]; [lia|]. inversion Hb; subst. lia. }
    tauto.
Qed.

(** the constant-time comparison accepts exactly the valid keys.  With
    every configured key within the padding (longer ones are refused when the
    configuration is loaded), a header is accepted iff it is text and one of
    the keys; a longer or shorter key, or one that only shares a prefix, is
    refused with 401. *)
Theorem api_key_accepts_exactly_valid (H : HttpCrate) (key_header : option string) (valid_keys : gset string)
  (Hlen : forall k, k ∈ valid_keys -> (String.length k <= PAD_LEN)%nat) :
  validate_api_key key_header valid_keys =
    match key_header with
    | Some key => if bool_decide (value_text_ok key = true /\ key ∈ valid_keys) then Ok tt else Err 401
    | None => Err 401
    end.
Proof.
  unfold validate_api_key. destruct key_header as [key|]; [|done]. simpl.
  destruct (value_text_ok key) eqn:Ht; [|by rewrite bool_decide_false by (intros [? _]; congruence)].
  destruct (fold_left _ _ false) eqn:Hf.
  - apply found_iff in Hf as [?|Hin]; [done|by rewrite bool_decide_true by set_solver|].
    right. apply Forall_forall. intros k Hk. apply Hlen. set_solver.
  - rewrite bool_decide_false; [done|]. intros [_ Hin]. apply not_true_iff_false in Hf. apply Hf.
    apply found_iff; [|right; set_solver]. right. apply Forall_forall. intros k Hk. apply Hlen. set_solver.
Qed.

Lemma api_key_accepts_exactly_valid_witness :
  @validate_api_key sample_http (Some "key-1") {["key-1"; "key-22"]} = Ok tt /\
  @validate_api_key sample_http (Some "key-2") {["key-1"; "key-22"]} = Err 401.
Proof.
  split; rewrite (api_key_accepts_exactly_valid sample_http);
    try (vm_compute; reflexivity); intros k Hk; unfold PAD_LEN;
    apply elem_of_union in Hk as [->%elem_of_singleton| ->%elem_of_singleton]; simpl; lia.
Defined.

(** ** Base64 *)

(** The standard encoding (RFC 4648) without padding, and how much padding it
    takes. *)
Definition enc6 (v : Z) : ascii := default zero (String.get (Z.to_nat v) base64_alphabet).

Fixpoint base64_encode (bytes : list Z) : string :=
  match bytes with
  | a :: b :: c :: rest =>
      String (enc6 (a / 4)) (String (enc6 (a mod 4 * 16 + b / 16))
        (String (enc6 (b mod 16 * 4 + c / 64)) (String (enc6 (c mod 64)) (base64_encode rest))))
  | [a; b] => String (enc6 (a / 4)) (String (enc6 (a mod 4 * 16 + b / 16))
                (String (enc6 (b mod 16 * 4)) EmptyString))
  | [a] => String (enc6 (a / 4)) (String (enc6 (a mod 4 * 16)) EmptyString)
  | [] => EmptyString
  end.

Lemma enc6_ok v : in_u 6 v -> decode_table (enc6 v) = v /\ enc6 v <> "="%char.
Proof.
  intros Hv.
  assert (Hall : forallb (fun n => (decode_table (enc6 (Z.of_nat n)) =? Z.of_nat n) &&
    negb (bool_decide (enc6 (Z.of_nat n) = "="%char))) (seq 0 64) = true) by (vm_compute; reflexivity).
  rewrite forallb_forall in Hall. specialize (Hall (Z.to_nat v)).
  rewrite Z2Nat.id in Hall by (unfold in_u in Hv; lia).
  assert (Hin : In (Z.to_nat v) (seq 0 64)) by (apply in_seq; unfold in_u in Hv; lia).
  specialize (Hall Hin). bool_to_prop. done.
Qed.

#[local] Opaque decode_table enc6.

Lemma push6 buf v : 0 <= buf < 2 ^ 20 -> in_u 6 v -> Z.lor (as_u 32 (Z.shiftl buf 6)) v = buf * 64 + v.
Proof.
  intros Hb Hv. rewrite as_u_small; [by rewrite lor_shiftl_add|].
  rewrite Z.shiftl_mul_pow2 by lia. split; lia.
Qed.

Lemma low_bits buf k : 0 <= k -> Z.land buf (Z.shiftl 1 k - 1) = buf mod 2 ^ k.
Proof.
  intros Hk. rewrite Z.shiftl_1_l, Z.sub_1_r, <- Z.ones_equiv. by apply Z.land_ones.
Qed.

(** One character of the loop, on the value it encodes. *)
Lemma base64_loop_step v rest buf bits out :
  in_u 6 v -> 0 <= buf < 2 ^ 20 -> 0 <= bits ->
  base64_loop (String (enc6 v) rest) buf bits out =
    let buf := buf * 64 + v in
    if bits + 6 >=? 8
    then base64_loop rest (buf mod 2 ^ (bits - 2)) (bits - 2) (as_u 8 (buf / 2 ^ (bits - 2)) :: out)
    else base64_loop rest buf (bits + 6) out.
Proof.
  intros Hv Hb Hbits. cbn [base64_loop]. rewrite (proj1 (enc6_ok v Hv)).
  rewrite (proj2 (Z.eqb_neq v 255)) by (unfold in_u in Hv; lia). cbv zeta. rewrite push6 by done.
  destruct (Z.geb_spec (bits + 6) 8); [|done].
  replace (bits + 6 - 8) with (bits - 2) by lia.
  by rewrite low_bits, Z.shiftr_div_pow2 by lia.
Qed.

(** The loop at each of the four phases of a group. *)
Lemma base64_phase0 v rest out :
  in_u 6 v -> base64_loop (String (enc6 v) rest) 0 0 out = base64_loop rest v 6 out.
Proof. intros Hv. by rewrite base64_loop_step by (done || lia). Qed.

Lemma base64_phase u v bits rest out :
  in_u 6 v -> 2 <= bits <= 6 -> 0 <= u < 2 ^ bits ->
  base64_loop (String (enc6 v) rest) u bits out =
    base64_loop rest ((u * 64 + v) mod 2 ^ (bits - 2)) (bits - 2) ((u * 64 + v) / 2 ^ (bits - 2) :: out).
Proof.
  intros Hv Hbits Hu.
  assert (Hpow : 2 ^ bits = 4 * 2 ^ (bits - 2)).
  { replace bits with (2 + (bits - 2)) at 1 by lia. by rewrite Z.pow_add_r by lia. }
  assert (H64 : 2 ^ bits <= 2 ^ 6) by (apply Z.pow_le_mono_r; lia).
  rewrite base64_loop_step by (done || lia). cbv zeta.
  destruct (Z.geb_spec (bits + 6) 8); [|lia]. do 2 f_equal. rewrite as_u_small; [done|].
  unfold in_u in *. split; [apply Z.div_pos; lia|]. apply Z.div_lt_upper_bound; lia.
Qed.

Ltac byte_arith := unfold in_u in *; Z.to_euclidean_division_equations; lia.

Lemma base64_encode_decode bytes : forall out,
  Forall (in_u 8) bytes -> base64_loop (base64_encode bytes) 0 0 out = Some (rev out ++ bytes).
Proof.
  induction bytes as [|a|a b|a b c l IH] using list_ind3; intros out Hb; cbn [base64_encode].
  - by rewrite app_nil_r.
  - apply Forall_cons in Hb as [Ha _].
    rewrite base64_phase0, base64_phase by byte_arith. cbn [base64_loop rev].
    replace ((a / 4 * 64 + a mod 4 * 16) / 2 ^ (6 - 2)) with a by byte_arith. done.
  - apply Forall_cons in Hb as [Ha Hb]. apply Forall_cons in Hb as [Hb _].
    rewrite base64_phase0 by byte_arith. rewrite base64_phase by byte_arith.
    change (6 - 2) with 4. rewrite base64_phase by byte_arith. cbn [base64_loop rev].
    rewrite <- app_assoc. do 2 f_equal. change (4 - 2) with 2. simpl. f_equal; [byte_arith|].
    f_equal. byte_arith.
  - apply Forall_cons in Hb as [Ha Hb]. apply Forall_cons in Hb as [Hb Hl].
    apply Forall_cons in Hl as [Hc Hl].
    rewrite base64_phase0 by byte_arith. rewrite base64_phase by byte_arith.
    change (6 - 2) with 4. rewrite base64_phase by byte_arith.
    change (4 - 2) with 2. rewrite base64_phase by byte_arith. change (2 - 2) with 0.
    rewrite Z.mod_1_r. rewrite IH by done. f_equal. cbn [rev]. rewrite <- !app_assoc.
    f_equal. simpl. f_equal; [byte_arith|]. f_equal; [byte_arith|]. f_equal. byte_arith.
Qed.

Definition bytes_of (s : string) : list Z := map byte_val (String.list_ascii_of_string s).

Lemma byte_of_val c : byte_of (byte_val c) = c.
Proof. unfold byte_of, byte_val. by rewrite N2Z.id, ascii_N_embedding. Qed.

Lemma bytes_of_range s : Forall (in_u 8) (bytes_of s).
Proof.
  unfold bytes_of. induction s as [|c s IH]; simpl; constructor; [|done].
  unfold byte_val. pose proof (N_ascii_bounded c). split; lia.
Qed.

Lemma base64_encode_no_pad bytes : Forall (in_u 8) bytes -> find_char "=" (base64_encode bytes) = None.
Proof.
  assert (Hskip : forall v s, in_u 6 v -> find_char "=" s = None -> find_char "=" (String (enc6 v) s) = None).
  { intros v s Hv Hs. simpl. rewrite decide_False by apply (enc6_ok v Hv). by rewrite Hs. }
  induction bytes as [|a|a b|a b c l IH] using list_ind3; intros Hb; cbn [base64_encode];
    repeat (apply Forall_cons in Hb as [? Hb]); repeat (apply Hskip; [byte_arith|]); auto.
Qed.

(** The decoder undoes the standard encoding, padded or not. *)
Lemma base64_decode_encode s pad :
  base64_decode (base64_encode (bytes_of s) +:+ srepeat "=" pad) = Some s.
Proof.
  unfold base64_decode.
  rewrite trim_end_char_pad by apply base64_encode_no_pad, bytes_of_range.
  rewrite base64_encode_decode by apply bytes_of_range. simpl. f_equal.
  unfold bytes_of. rewrite List.map_map. erewrite List.map_ext; [|intros; apply byte_of_val].
  rewrite List.map_id. apply String.string_of_list_ascii_of_string.
Qed.

Lemma split_once_app c a b : find_char c a = None -> split_once c (a +:+ String c b) = Some (a, b).
Proof.
  induction a as [|x a IH]; simpl; [by rewrite decide_True|]. case_decide; [done|].
  destruct (find_char c a); [done|]. intros _. by rewrite IH.
Qed.

(** a client that sends [user:password] in the standard base64 encoding,
    with or without padding, is let in exactly when the user is known, the
    stored hash costs at least 10 and bcrypt verifies the password against
    it; otherwise the answer is 401. *)
Theorem basic_auth_decides (H : HttpCrate) (bcrypt_verify : string -> string -> option bool)
  (credentials : gmap string string) (user password : string) (pad : nat)
  (Huser : find_char ":" user = None)
  (Hutf8 : utf8_valid (user +:+ ":" +:+ password) = true)
  (Htext : value_text_ok ("Basic " +:+ base64_encode (bytes_of (user +:+ ":" +:+ password)) +:+ srepeat "=" pad) = true) :
  validate_basic_auth bcrypt_verify true true
    (Some ("Basic " +:+ base64_encode (bytes_of (user +:+ ":" +:+ password)) +:+ srepeat "=" pad))
    credentials =
  match credentials !! user with
  | Some hash => if bool_decide (MIN_BCRYPT_COST <= default 0 (extract_bcrypt_cost hash) /\
                                 bcrypt_verify password hash = Some true) then Ok tt else Err 401
  | None => Err 401
  end.
Proof.
  unfold validate_basic_auth. cbn [ok_or]. rewrite Htext.
  rewrite (proj2 (strip_prefix_Some _ _ _) eq_refl). rewrite base64_decode_encode. cbn [ok_or].
  unfold from_utf8. rewrite Hutf8. cbn [ok_or].
  change (":" +:+ password) with (String ":" password). rewrite split_once_app by done. cbn [ok_or].
  destruct (credentials !! user) as [hash|]; [|done]. simpl.
  destruct (Z.ltb_spec (default 0 (extract_bcrypt_cost hash)) MIN_BCRYPT_COST) as [Hlt|Hge].
  - by rewrite bool_decide_false by (intros [? _]; lia).
  - destruct (bcrypt_verify password hash) as [[|]|]; case_bool_decide; naive_solver.
Qed.

(** A stand-in for bcrypt in the examples: the password is the hash's tail. *)
Definition sample_verify (password hash : string) : option bool :=
  Some (ends_with ("$" +:+ password) hash).

Lemma basic_auth_decides_witness :
  @validate_basic_auth sample_http sample_verify true true (Some "Basic YWxpY2U6czNjcmV0")
    {["alice" := "$2b$10$s3cret"; "bob" := "$2b$04$pw"]} = Ok tt.
Proof.
  rewrite (basic_auth_decides sample_http sample_verify
    {["alice" := "$2b$10$s3cret"; "bob" := "$2b$04$pw"]} "alice" "s3cret" 0 eq_refl eq_refl eq_refl).
  vm_compute. reflexivity.
Defined.
