(* ===== verification/Keys.v ===== *)
(** * API keys and bearer tokens

    [portus-dataplane-core/src/jwt.rs], [ai/jwt.rs] and [ai/keys.rs]: the keys
    and tokens a request presents, what they may do, and the caches of
    verified tokens.  SHA-256 and the [jsonwebtoken] crate are arguments. *)
From S2P Require Import Prelude Text Types.

(** ** JSON values, as [serde_json] reads them *)

Inductive json :=
| JNull
| JBool (b : bool)
| JNumber (text : string) (as_u64 : option Z)
| JString (s : string)
| JArray (items : list json)
| JObject (fields : list (string * json)).

Definition Claims : Type := list (string * json).

Definition claim (claims : Claims) (name : string) : option json :=
  snd <$> List.find (fun kv => bool_decide (kv.1 = name)) claims.

Definition as_str (v : json) : option string := match v with JString s => Some s | _ => None end.
Definition as_u64 (v : json) : option Z := match v with JNumber _ u => u | _ => None end.

(** ** Verification *)

(** The check [jsonwebtoken::decode] is configured for. *)
Record Validation := {
  va_alg : string;
  va_issuer : string;
  va_audience : option (list string);
}.

(** The [jsonwebtoken] crate: a token's header (algorithm and key id), and
    the claims of a token whose signature and registered claims check out
    against a key. *)
Class JwtCrate (Key : Type) := {
  decode_header : string -> option (string * option string);
  jwt_decode : string -> Key -> Validation -> option Claims;
}.

(** [Jwks]: per issuer its keys as (key id, algorithm, key). *)
Definition Jwks (Key : Type) : Type := gmap string (list (option string * string * Key)).

Section Verify.
Context `{JwtCrate Key}.

(** The keys of an issuer that may have signed a token with this header. *)
Definition key_candidate (alg : string) (kid : option string) (k : option string * string * Key) : bool :=
  let '(key_id, key_alg, _) := k in
  bool_decide (key_alg = alg) &&
  match kid, key_id with
  | Some h, Some k => bool_decide (h = k)
  | _, _ => true
  end.

Fixpoint find_map {A B} (f : A -> option B) (l : list A) : option B :=
  match l with
  | [] => None
  | a :: l => match f a with Some b => Some b | None => find_map f l end
  end.

(** [verify_claims] *)
Definition verify_claims (token issuer : string) (audiences : list string) (jwks : Jwks Key)
  (now_unix_secs : Z) : option (Claims * Z) :=
  match decode_header token with
  | None => None
  | Some (alg, kid) =>
      match jwks !! issuer with
      | None => None
      | Some keys =>
          let validation := {| va_alg := alg; va_issuer := issuer;
                               va_audience := if audiences is [] then None else Some audiences |} in
          let candidates := List.filter (key_candidate alg kid) keys in
          match find_map (fun k => jwt_decode token (snd k) validation) candidates with
          | None => None
          | Some claims =>
              match claim claims "exp" with
              | None => None
              | Some v =>
                  match as_u64 v with
                  | None => None
                  | Some exp => if exp <=? now_unix_secs then None else Some (claims, exp)
                  end
              end
          end
      end
  end.
End Verify.

(** [bearer_token] *)
Definition bearer_token (authorization : string) : option string :=
  match from_utf8 authorization with
  | None => None
  | Some value =>
      match split_once " " value with
      | None => None
      | Some (scheme, token) =>
          let token := trim token in
          if eq_ignore_ascii_case scheme "bearer" && negb (is_empty token) then Some token else None
      end
  end.

(** ** JWTAuthPolicy: a route's verifier with its cache *)

Record Provider := {
  pv_issuer : string;
  pv_audiences : list string;
  pv_claim_headers : list (string * string);
}.

Inductive JwtRefusal := JwtMissing | JwtInvalid.

Definition TOKEN_CACHE_CAPACITY : Z := 10000.

Record JwtAuth := {
  ja_providers : list Provider;
  ja_owned_headers : list string;
  ja_cache : gmap string (header_list * Z);
}.

(** [JwtAuth::new] *)
Definition JwtAuth_new (providers : list Provider) : JwtAuth :=
  {| ja_providers := providers;
     ja_owned_headers := fold_left (fun owned h => if decide (h ∈ owned) then owned else owned ++ [h])
       (map snd (concat (map pv_claim_headers providers))) [];
     ja_cache := ∅ |}.

Section Authenticate.
Context `{JwtCrate Key}.
(** SHA-256, and [HeaderValue::from_str]. *)
Context (sha256 : string -> string) (value_from_str_ok : string -> bool).

(** [claim_value] *)
Definition claim_scalar (v : json) : option string :=
  match v with
  | JString s => Some s
  | JNumber text _ => Some text
  | JBool b => Some (if b then "true" else "false")
  | _ => None
  end.

Fixpoint collect_opt {A} (l : list (option A)) : option (list A) :=
  match l with
  | [] => Some []
  | Some a :: l => match collect_opt l with Some r => Some (a :: r) | None => None end
  | None :: _ => None
  end.

Definition claim_value (v : json) : option string :=
  let text :=
    match v with
    | JArray items => match collect_opt (map claim_scalar items) with
                      | Some l => Some (join "," l) | None => None end
    | other => claim_scalar other
    end in
  match text with Some t => if value_from_str_ok t then Some t else None | None => None end.

(** The headers a provider sets from the claims. *)
Definition provider_headers (p : Provider) (claims : Claims) : header_list :=
  omap (fun '(c, header) =>
    match claim claims c with
    | Some v => match claim_value v with Some text => Some (header, text) | None => None end
    | None => None
    end) (pv_claim_headers p).

Definition with_cache (ja : JwtAuth) (c : gmap string (header_list * Z)) : JwtAuth :=
  {| ja_providers := ja_providers ja; ja_owned_headers := ja_owned_headers ja; ja_cache := c |}.

(** The part of [JwtAuth::authenticate] behind a cache miss, on what is left
    of the cache: verify with the first provider that accepts the token, and
    remember it. *)
Definition authenticate_miss (token : string) (jwks : Jwks Key) (now : Z) (ja : JwtAuth)
  (cache : gmap string (header_list * Z)) : result header_list JwtRefusal * JwtAuth :=
  match find_map (fun p =>
          match verify_claims token (pv_issuer p) (pv_audiences p) jwks now with
          | Some (c, exp) => Some (p, c, exp) | None => None end) (ja_providers ja) with
  | None => (Err JwtInvalid, with_cache ja cache)
  | Some (provider, claims, exp) =>
      let headers := provider_headers provider claims in
      let cache := if TOKEN_CACHE_CAPACITY <=? Z.of_nat (size cache) then ∅ else cache in
      (Ok headers, with_cache ja (<[sha256 token := (headers, exp)]> cache))
  end.

(** [JwtAuth::authenticate] *)
Definition JwtAuth_authenticate (authorization : option string) (jwks : Jwks Key) (now : Z) (ja : JwtAuth)
  : result header_list JwtRefusal * JwtAuth :=
  match match authorization with Some a => bearer_token a | None => None end with
  | None => (Err JwtMissing, ja)
  | Some token =>
      let hash := sha256 token in
      match ja_cache ja !! hash with
      | Some (headers, exp) =>
          if now <? exp then (Ok headers, ja)
          else authenticate_miss token jwks now ja (delete hash (ja_cache ja))
      | None => authenticate_miss token jwks now ja (ja_cache ja)
      end
  end.
End Authenticate.

(** ** AI routes: keys and OAuth subjects *)

Record KeyInfo := {
  ki_id : Z;
  ki_tenant : string;
  ki_name : string;
  ki_allowed_models : list string;
  ki_allowed_tools : list string;
  ki_expires_unix_secs : Z;
  ki_token_limit : Z;
  ki_call_limit : Z;
  ki_labels : list (string * string);
}.

(** [KeyInfo::live_at] *)
Definition live_at (info : KeyInfo) (now_unix_secs : Z) : bool :=
  (ki_expires_unix_secs info =? 0) || (now_unix_secs <? ki_expires_unix_secs info).

(** One entry of [OnBehalfOf::trusts]. *)
Definition trusts_entry (info : KeyInfo) (k : string) : bool :=
  match strip_prefix "label:" k with
  | Some label =>
      match split_once "=" label with
      | None => false
      | Some (key, value) =>
          existsb (fun kv => bool_decide (kv.1 = key) && bool_decide (kv.2 = value)) (ki_labels info)
      end
  | None =>
      match split_once "/" k with
      | Some (tenant, name) =>
          if bool_decide (name = "*") then negb (is_empty tenant) && bool_decide (tenant = ki_tenant info)
          else bool_decide (tenant = ki_tenant info) && bool_decide (name = ki_name info)
      | None => bool_decide (k = ki_name info)
      end
  end.

(** [OnBehalfOf::trusts] *)
Definition trusts (o : OnBehalfOf) (info : KeyInfo) : bool :=
  existsb (trusts_entry info) (obo_trusted_keys o).

(** [OnBehalfOf::user] *)
Definition on_behalf_of_user `{RequestHeaders H} (o : OnBehalfOf) (headers : H) (info : KeyInfo)
  : option string :=
  if negb (trusts o info) then None
  else
    match header_str headers (obo_header o) with
    | None => None
    | Some v =>
        let v := trim v in
        if negb (is_empty v) && (String.length v <=? 64)%nat && negb (has_control v) then Some v else None
    end.

(** [presented_key] *)
Definition presented_key `{RequestHeaders H} (headers : H) : option string :=
  match header_get headers "x-api-key" with
  | Some v =>
      match from_utf8 v with
      | Some s => let s := trim s in if is_empty s then None else Some s
      | None => None
      end
  | None =>
      match header_str headers "authorization" with
      | None => None
      | Some auth =>
          match split_once " " (trim auth) with
          | None => None
          | Some (scheme, token) =>
              if eq_ignore_ascii_case scheme "bearer"
              then let t := trim token in if is_empty t then None else Some t
              else None
          end
      end
  end.

Inductive Refusal := Unauthenticated | ModelNotAllowed | ToolNotAllowed.

Inductive Access :=
| AccessModel (model : option string)
| AccessToolCall (tool : option string)
| AccessOther.

(** [tool_allowed] *)
Definition tool_allowed (allowed : list string) (tool : string) : bool :=
  existsb (fun a => bool_decide (a = tool) ||
    match strip_suffix "*" a with
    | Some p => (String.length p <? String.length tool)%nat && starts_with p tool
    | None => false
    end) allowed.

(** [check_access] *)
Definition check_access (info : KeyInfo) (access : Access) : result unit Refusal :=
  match access with
  | AccessModel model =>
      match ki_allowed_models info with
      | [] => Ok tt
      | allowed =>
          match model with
          | None => Err ModelNotAllowed
          | Some m => if bool_decide (m ∈ allowed) then Ok tt else Err ModelNotAllowed
          end
      end
  | AccessToolCall tool =>
      match ki_allowed_tools info with
      | [] => Ok tt
      | allowed =>
          match tool with
          | None => Err ToolNotAllowed
          | Some t => if tool_allowed allowed t then Ok tt else Err ToolNotAllowed
          end
      end
  | AccessOther => Ok tt
  end.

(** [KeySet]: keys by the hash of their text, and the issuers' keys. *)
Record KeySet (Key : Type) := {
  ks_version : Z;
  ks_keys : gmap string KeyInfo;
  ks_jwks : Jwks Key;
}.
Arguments ks_version {Key}.
Arguments ks_keys {Key}.
Arguments ks_jwks {Key}.

Section Authorize.
Context {Key : Type} `{Hdrs : RequestHeaders H}.
Context (sha256 : string -> string).

(** [KeySet::lookup] *)
Definition KeySet_lookup (keys : KeySet Key) (key : string) : option KeyInfo :=
  ks_keys keys !! sha256 key.

(** [authorize] *)
Definition authorize (keys : KeySet Key) (headers : H) (access : Access) (now_unix_secs : Z)
  : result KeyInfo Refusal :=
  try! presented := ok_or (presented_key headers) Unauthenticated in
  try! info := ok_or (match KeySet_lookup keys presented with
                      | Some k => if live_at k now_unix_secs then Some k else None
                      | None => None
                      end) Unauthenticated in
  try! _ := check_access info access in
  Ok info.
End Authorize.

(** ** ai/jwt.rs *)

Definition NO_TOOLS : string := "(none)".

(** [looks_like_jwt] *)
Definition looks_like_jwt (token : string) : bool :=
  (20 <? String.length token)%nat &&
  (length (split_char "." token) =? 3)%nat &&
  bool_decide (find_char " " token = None).

Definition json_strings (l : list json) : list string := omap as_str l.

(** The tools a token's claims grant under the policy. *)
Definition claim_tools (policy : JwtPolicy) (claims : Claims) : list string :=
  let tools :=
    match claim claims (jp_tools_claim policy) with
    | Some (JArray a) => json_strings a
    | Some (JString s) => split_whitespace s
    | _ => []
    end in
  match jp_tools_by_group policy with
  | [] => tools
  | by_group =>
      let groups :=
        match claim claims (jp_groups_claim policy) with
        | Some (JArray a) => json_strings a
        | Some (JString s) => [s]
        | _ => []
        end in
      let tools := fold_left (fun tools '(group, granted) =>
          if bool_decide (group ∈ groups)
          then fold_left (fun tools t => if bool_decide (t ∈ tools) then tools else tools ++ [t]) granted tools
          else tools) by_group tools in
      match tools with [] => [NO_TOOLS] | _ => tools end
  end.

Section OAuth.
Context `{JwtCrate Key}.
Context (sha256 : string -> string).

(** [subject_id]: 63 bits of the digest of issuer, a zero byte and subject. *)
Definition subject_id (issuer sub : string) : Z :=
  let d := stake 8 (sha256 (issuer +:+ String zero sub)) in
  Z.shiftr (fold_left (fun acc c => acc * 256 + byte_val c) (String.list_ascii_of_string d) 0) 1.

(** [ai::jwt::verify] *)
Definition verify (token : string) (policy : JwtPolicy) (jwks : Jwks Key) (now_unix_secs : Z)
  : option (KeyInfo * Z) :=
  let audiences := match jp_audience policy with Some aud => [aud] | None => [] end in
  match verify_claims token (jp_issuer policy) audiences jwks now_unix_secs with
  | None => None
  | Some (claims, exp) =>
      match match claim claims "sub" with Some v => as_str v | None => None end with
      | None => None
      | Some sub =>
          let tenant :=
            match claim claims (jp_tenant_claim policy) with
            | Some (JString s) => s
            | Some (JArray (v :: _)) => default EmptyString (as_str v)
            | _ => EmptyString
            end in
          let name := default sub (find_map (fun c =>
              match claim claims c with
              | Some v => match as_str v with
                          | Some s => if is_empty s then None else Some s | None => None end
              | None => None
              end) ["email"; "preferred_username"; "name"]) in
          Some ({| ki_id := subject_id (jp_issuer policy) sub; ki_tenant := tenant; ki_name := name;
                   ki_allowed_models := []; ki_allowed_tools := claim_tools policy claims;
                   ki_expires_unix_secs := exp; ki_token_limit := 0; ki_call_limit := 0;
                   ki_labels := [] |}, exp)
      end
  end.

(** [TokenCache] *)
Record TokenCache := { tc_entries : gmap string (KeyInfo * Z); tc_cap : Z }.

Definition TokenCache_new (cap : Z) : TokenCache := {| tc_entries := ∅; tc_cap := cap |}.

(** [TokenCache::get_or_verify] *)
Definition get_or_verify (token : string) (policy : JwtPolicy) (jwks : Jwks Key) (now_unix_secs : Z)
  (tc : TokenCache) : option KeyInfo * TokenCache :=
  let hash := sha256 token in
  let miss entries :=
    match verify token policy jwks now_unix_secs with
    | None => (None, {| tc_entries := entries; tc_cap := tc_cap tc |})
    | Some (info, exp) =>
        let entries := if tc_cap tc <=? Z.of_nat (size entries) then ∅ else entries in
        (Some info, {| tc_entries := <[hash := (info, exp)]> entries; tc_cap := tc_cap tc |})
    end in
  match tc_entries tc !! hash with
  | Some (info, exp) =>
      if now_unix_secs <? exp then (Some info, tc) else miss (delete hash (tc_entries tc))
  | None => miss (tc_entries tc)
  end.
End OAuth.

(** ** Allow lists *)

Lemma tool_allowed_iff allowed tool :
  tool_allowed allowed tool = true <->
  tool ∈ allowed \/ exists p r, p +:+ "*" ∈ allowed /\ r <> EmptyString /\ tool = p +:+ r.
Proof.
  unfold tool_allowed. rewrite existsb_exists. split.
  - intros (a & Ha%list_elem_of_In & Hm). apply orb_true_iff in Hm as [->%bool_decide_eq_true|Hm]; [by left|].
    right. unfold strip_suffix in Hm. destruct (ends_with "*" a) eqn:He; [|done].
    apply ends_with_spec in He as [p ->]. rewrite slength_app in Hm. simpl in Hm.
    replace (String.length p + 1 - 1)%nat with (String.length p) in Hm by lia. rewrite stake_app in Hm.
    apply andb_true_iff in Hm as [Hl%Nat.ltb_lt [r ->]%starts_with_spec].
    exists p, r. split_and!; [done| |done]. intros ->. rewrite sapp_nil_r in Hl. lia.
  - intros [Hin|(p & r & Hin & Hr & ->)].
    + exists tool. rewrite <- list_elem_of_In. split; [done|]. by rewrite bool_decide_true.
    + exists (p +:+ "*"). rewrite <- list_elem_of_In. split; [done|]. apply orb_true_iff. right.
      unfold strip_suffix. rewrite (proj2 (ends_with_spec _ _)) by eauto.
      rewrite slength_app. simpl. replace (String.length p + 1 - 1)%nat with (String.length p) by lia.
      rewrite stake_app, slength_app. apply andb_true_iff. split; [|by apply starts_with_spec; eauto].
      apply Nat.ltb_lt. destruct r; [done|]. simpl. lia.
Qed.

(** a key's allow lists decide exactly what they list.  A key with a tool
    list may make a [tools/call] only for a tool it lists by name or by a
    [prefix*] entry with something after the prefix, never for a call whose
    tool could not be read; a key with a model list may use only those
    models, never an unnamed one; an empty list allows everything. *)
Theorem allow_lists_enforced (info : KeyInfo) :
  (forall tool, check_access info (AccessToolCall tool) = Ok tt <->
     ki_allowed_tools info = [] \/
     exists t, tool = Some t /\ (t ∈ ki_allowed_tools info \/
       exists p r, p +:+ "*" ∈ ki_allowed_tools info /\ r <> EmptyString /\ t = p +:+ r)) /\
  (forall model, check_access info (AccessModel model) = Ok tt <->
     ki_allowed_models info = [] \/ exists m, model = Some m /\ m ∈ ki_allowed_models info).
Proof.
  split.
  - intros tool. unfold check_access. setoid_rewrite <- tool_allowed_iff.
    destruct (ki_allowed_tools info) as [|a l]; [by split; auto|].
    destruct tool as [t|].
    + destruct (tool_allowed (a :: l) t) eqn:Ht; split; intros Hx; try done.
      * right. by exists t.
      * destruct Hx as [?|(t' & [= <-] & Ht')]; congruence.
    + split; [done|]. by intros [?|(t & ? & _)].
  - intros model. simpl. destruct (ki_allowed_models info) as [|a l]; [by split; auto|].
    destruct model as [m|].
    + case_bool_decide; split; intros Hx; try done.
      * right. by exists m.
      * destruct Hx as [?|(m' & [= <-] & ?)]; done.
    + split; [done|]. by intros [?|(t & ? & _)].
Qed.

(** ** The token cache of AI routes *)

(** the cache of verified OAuth tokens is keyed by the token alone.  Once
    a token has been verified under one route's policy, every other route
    answers it from the cache until it expires, whatever issuer, audience or
    group map that route's policy demands and whatever keys are current. *)
Theorem token_cache_ignores_policy {Key : Type} (J : JwtCrate Key) (sha256 : string -> string)
  (token : string) (policy_a policy_b : JwtPolicy) (jwks jwks' : Jwks Key) (now now' : Z)
  (tc : TokenCache) (info : KeyInfo) (exp : Z)
  (Hfresh : tc_entries tc !! sha256 token = None)
  (Hverified : verify sha256 token policy_a jwks now = Some (info, exp))
  (Hlive : now' < exp) :
  fst (get_or_verify sha256 token policy_b jwks' now'
         (snd (get_or_verify sha256 token policy_a jwks now tc))) = Some info.
Proof.
  unfold get_or_verify at 2. rewrite Hfresh, Hverified. simpl.
  unfold get_or_verify. simpl. rewrite lookup_insert_eq.
  by rewrite (proj2 (Z.ltb_lt now' exp)).
Qed.

(** A token crate for the examples: one signing key, tokens for audience
    [api-a] only. *)
Definition sample_claims : Claims :=
  [("sub", JString "alice"); ("aud", JString "api-a"); ("exp", JNumber "2000" (Some 2000))].

Definition sample_jwt : JwtCrate unit := {|
  decode_header _ := Some ("ES256", None);
  jwt_decode _ _ v :=
    match va_audience v with
    | None => Some sample_claims
    | Some auds => if bool_decide ("api-a" ∈ auds) then Some sample_claims else None
    end;
|}.

Definition sample_policy (audience : string) : JwtPolicy :=
  {| jp_issuer := "https://idp"; jp_audience := Some audience; jp_tenant_claim := "tenant";
     jp_tools_claim := "scope"; jp_scopes := EmptyString; jp_groups_claim := "groups";
     jp_tools_by_group := [] |}.

Definition sample_jwks : Jwks unit := {["https://idp" := [(None, "ES256", tt)]]}.

Lemma token_cache_ignores_policy_witness :
  @verify unit sample_jwt id "tok" (sample_policy "api-b") sample_jwks 1000 = None /\
  exists info, fst (@get_or_verify unit sample_jwt id "tok" (sample_policy "api-b") sample_jwks 1000
    (snd (@get_or_verify unit sample_jwt id "tok" (sample_policy "api-a") sample_jwks 900
      (TokenCache_new 65536)))) = Some info.
Proof.
  split; [vm_compute; reflexivity|]. eexists.
  apply (token_cache_ignores_policy sample_jwt id "tok" (sample_policy "api-a") (sample_policy "api-b")
    sample_jwks sample_jwks 900 1000 (TokenCache_new 65536) _ 2000).
  - reflexivity.
  - vm_compute. reflexivity.
  - lia.
Defined.

(** ** The token cache of JWTAuthPolicy routes *)

Section JwtRuns.
Context {Key : Type} {J : JwtCrate Key}.
Context (sha256 : string -> string) (value_from_str_ok : string -> bool).
Context (jwks : Jwks Key) (providers : list Provider).

Definition token_of (authorization : option string) : option string :=
  match authorization with Some a => bearer_token a | None => None end.

(** The answers of one verifier to requests at the given times. *)
Fixpoint jwt_run (calls : list (option string * Z)) (ja : JwtAuth) : list (result header_list JwtRefusal) :=
  match calls with
  | [] => []
  | (auth, now) :: calls =>
      let '(r, ja) := JwtAuth_authenticate sha256 value_from_str_ok auth jwks now ja in r :: jwt_run calls ja
  end.

(** [token] was verified at [now] by a provider of the route, is valid until
    [exp] and sets [headers]. *)
Definition verified_at (token : string) (now : Z) (headers : header_list) (exp : Z) : Prop :=
  exists p claims, p ∈ providers /\
    verify_claims token (pv_issuer p) (pv_audiences p) jwks now = Some (claims, exp) /\
    headers = provider_headers value_from_str_ok p claims.

(** Every cache entry was verified for a token of an earlier call. *)
Record cache_ok (past : list (string * Z)) (ja : JwtAuth) : Prop := {
  cok_providers : ja_providers ja = providers;
  cok_entries : forall hash headers exp, ja_cache ja !! hash = Some (headers, exp) ->
    exists token now, (token, now) ∈ past /\ hash = sha256 token /\ verified_at token now headers exp;
}.

Lemma find_map_Some {A B} (f : A -> option B) l b :
  find_map f l = Some b -> exists a, a ∈ l /\ f a = Some b.
Proof.
  induction l as [|a l IH]; simpl; [done|]. destruct (f a) as [b'|] eqn:Ha.
  - intros. simplify_eq. exists a. split; [by left|done].
  - intros (a' & ? & ?)%IH. exists a'. split; [by right|done].
Qed.

Lemma verify_claims_live token issuer auds now claims exp :
  verify_claims token issuer auds jwks now = Some (claims, exp) -> now < exp.
Proof. unfold verify_claims. intros Hv. repeat case_match; simplify_eq; bool_to_prop; lia. Qed.

Definition collision_free (tokens : list string) : Prop :=
  forall a b, a ∈ tokens -> b ∈ tokens -> sha256 a = sha256 b -> a = b.

(** What a call with [token] at [now] has to establish. *)
Definition answer_ok (past : list (string * Z)) (token : string) (now : Z)
  (out : result header_list JwtRefusal * JwtAuth) : Prop :=
  cache_ok (past ++ [(token, now)]) (snd out) /\
  (forall headers, fst out = Ok headers -> exists now' exp,
     (token, now') ∈ past ++ [(token, now)] /\ verified_at token now' headers exp /\ now < exp).

Lemma cache_ok_grow past ja c tok now :
  cache_ok past ja -> (forall h x, c !! h = Some x -> ja_cache ja !! h = Some x) ->
  cache_ok (past ++ [(tok, now)]) (with_cache ja c).
Proof.
  intros [Hp He] Hc. split; [done|]. intros hash headers exp Hh.
  apply Hc, He in Hh as (t & n & Hin & ? & ?). exists t, n. split; [set_solver|done].
Qed.

Lemma authenticate_miss_ok past now ja token c :
  cache_ok past ja -> (forall h x, c !! h = Some x -> ja_cache ja !! h = Some x) ->
  answer_ok past token now (authenticate_miss sha256 value_from_str_ok token jwks now ja c).
Proof.
  intros Hok Hc. unfold authenticate_miss, answer_ok.
  destruct (find_map _ _) as [[[p claims] exp]|] eqn:Hf; simpl; [|split; [by apply cache_ok_grow|done]].
  apply find_map_Some in Hf as (p' & Hin & Hv). rewrite (cok_providers _ _ Hok) in Hin.
  destruct (verify_claims token _ _ jwks now) as [[c0 e0]|] eqn:Hvc; [|done]. simplify_eq.
  assert (Hver : verified_at token now (provider_headers value_from_str_ok p claims) exp) by by exists p, claims.
  split.
  - pose proof (cache_ok_grow past ja c token now Hok Hc) as [Hp' He']. split; [done|].
    intros hash headers exp' Hh. cbn [ja_cache with_cache] in Hh.
    apply lookup_insert_Some in Hh as [[<- ?]|[_ Hh]]; simplify_eq.
    + exists token, now. split; [set_solver|done].
    + destruct (_ <=? _); [by rewrite lookup_empty in Hh|]. by eapply He'.
  - intros headers [= <-]. exists now, exp. split_and!; [set_solver|done|by eapply verify_claims_live].
Qed.

(** One call: what it answers and the cache it leaves. *)
Lemma authenticate_ok past auth now ja token :
  cache_ok past ja -> token_of auth = Some token -> collision_free (token :: map fst past) ->
  answer_ok past token now (JwtAuth_authenticate sha256 value_from_str_ok auth jwks now ja).
Proof.
  intros Hok Htok Hcf. unfold JwtAuth_authenticate. fold (token_of auth). rewrite Htok.
  destruct (ja_cache ja !! sha256 token) as [[headers exp]|] eqn:Hhit; [|by apply authenticate_miss_ok].
  destruct (Z.ltb_spec now exp) as [Hlt|Hge].
  - split.
    + simpl. destruct ja. by apply (cache_ok_grow _ _ _ _ _ Hok).
    + intros h [= <-]. destruct (cok_entries _ _ Hok _ _ _ Hhit) as (t & n & Hin & Hsha & Hver).
      assert (t = token) as ->.
      { apply Hcf; [|set_solver|done]. right. apply list_elem_of_In, in_map_iff. exists (t, n).
        by rewrite <- list_elem_of_In. }
      exists n, exp. split; [set_solver|done].
  - apply authenticate_miss_ok; [done|]. intros h x Hx. by apply lookup_delete_Some in Hx as [_ Hx].
Qed.

(** The tokens of a list of calls, with their times. *)
Definition presented (calls : list (option string * Z)) : list (string * Z) :=
  omap (fun '(auth, now) => match token_of auth with Some t => Some (t, now) | None => None end) calls.

Lemma jwt_run_ok calls : forall past ja,
  cache_ok past ja -> collision_free (map fst (past ++ presented calls)) ->
  forall i auth now headers, calls !! i = Some (auth, now) ->
    jwt_run calls ja !! i = Some (Ok headers) ->
  exists token now' exp, token_of auth = Some token /\
    (token, now') ∈ past ++ presented (take (S i) calls) /\
    verified_at token now' headers exp /\ now < exp.
Proof.
  induction calls as [|[auth0 now0] calls IH]; intros past ja Hok Hcf i auth now headers Hi Hr; [done|].
  cbn [jwt_run] in Hr.
  destruct (token_of auth0) as [tok|] eqn:Htok.
  - assert (Hp : presented ((auth0, now0) :: calls) = (tok, now0) :: presented calls).
    { unfold presented. simpl. by rewrite Htok. }
    rewrite Hp in Hcf.
    pose proof (authenticate_ok past auth0 now0 ja tok Hok Htok) as Hstep.
    assert (Hcf0 : collision_free (tok :: map fst past)).
    { intros a b Ha Hb. apply Hcf; rewrite map_app; simpl; set_solver. }
    specialize (Hstep Hcf0).
    destruct (JwtAuth_authenticate sha256 value_from_str_ok auth0 jwks now0 ja) as [r ja'] eqn:Ha.
    destruct Hstep as [Hok' Hres]. simpl in Hok', Hres. destruct i as [|i]; simpl in Hi, Hr; simplify_eq.
    + destruct (Hres headers eq_refl) as (n & e & Hin & Hv & Hl). exists tok, n, e.
      split_and!; try done. cbn [take]. unfold presented. simpl. by rewrite Htok.
    + destruct (IH (past ++ [(tok, now0)]) ja' Hok') with (i := i) (auth := auth) (now := now) (headers := headers)
        as (t & n & e & ? & Hin & ? & ?); try done.
      { by rewrite <- app_assoc. }
      exists t, n, e. split_and!; try done. cbn [take]. unfold presented in *. simpl. rewrite Htok.
      rewrite <- app_assoc in Hin. exact Hin.
  - assert (Hp : forall l, presented ((auth0, now0) :: l) = presented l).
    { intros l. unfold presented. simpl. by rewrite Htok. }
    rewrite Hp in Hcf. unfold JwtAuth_authenticate in Hr. fold (token_of auth0) in Hr. rewrite Htok in Hr.
    destruct i as [|i]; simpl in Hi, Hr; simplify_eq.
    cbn [take]. rewrite Hp. by eapply IH.
Qed.

(** C30: a JWTAuthPolicy route lets a request in only on a verified, unexpired
    token.  In any sequence of requests to a fresh verifier whose tokens do
    not collide under the hash, a request is answered with headers only if
    its own token was verified by one of the route's providers, in this or an
    earlier request, with an expiry after the present request, and the
    headers are the ones that provider sets from the token's claims. *)
Theorem jwt_answers_are_verified (calls : list (option string * Z)) (i : nat)
  (auth : option string) (now : Z) (headers : header_list)
  (Hcf : collision_free (map fst (presented calls)))
  (Hcall : calls !! i = Some (auth, now))
  (Hanswer : jwt_run calls (JwtAuth_new providers) !! i = Some (Ok headers)) :
  exists token now' exp, token_of auth = Some token /\
    (token, now') ∈ presented (take (S i) calls) /\
    verified_at token now' headers exp /\ now < exp.
Proof.
  eapply (jwt_run_ok calls [] (JwtAuth_new providers)); [|done|exact Hcall|exact Hanswer].
  split; [done|]. intros h hd e. simpl. by rewrite lookup_empty.
Qed.
End JwtRuns.

Definition sample_provider : Provider :=
  {| pv_issuer := "https://idp"; pv_audiences := ["api-a"]; pv_claim_headers := [("sub", "x-user")] |}.

Lemma jwt_answers_are_verified_witness :
  exists token now' exp, token_of (Some "Bearer tok") = Some token /\
    (token, now') ∈ presented [(Some "Bearer tok", 900); (Some "Bearer tok", 1000)] /\
    @verified_at unit sample_jwt (fun _ => true) sample_jwks [sample_provider] token now' [("x-user", "alice")] exp /\
    1000 < exp.
Proof.
  apply (@jwt_answers_are_verified unit sample_jwt id (fun _ => true) sample_jwks [sample_provider]
    [(Some "Bearer tok", 900); (Some "Bearer tok", 1000)] 1 (Some "Bearer tok") 1000 [("x-user", "alice")]).
  - intros a b _ _. done.
  - reflexivity.
  - vm_compute. reflexivity.
Defined.
