(* ===== verification/Pool.v ===== *)
(** * Endpoint pools

    [portus-dataplane-core/src/pool.rs]: the endpoints of one Service port,
    their health and enable flags, round-robin and rendezvous selection. *)
From S2P Require Import Prelude Net.

(** ** Endpoints *)

Record HealthCheck := {
  hc_host : string;
  hc_path : string;
  hc_timeout : Z;
  hc_consecutive_success : Z;
  hc_consecutive_failure : Z;
}.

Record Endpoint := {
  ep_addr : SocketAddr;
  ep_healthy : bool;
  ep_enabled : bool;
  ep_consecutive : Z;
}.

Definition Endpoint_new (addr : SocketAddr) : Endpoint :=
  {| ep_addr := addr; ep_healthy := true; ep_enabled := true; ep_consecutive := 0 |}.

Definition Endpoint_ready (ep : Endpoint) : bool := ep_healthy ep && ep_enabled ep.

(** [Endpoint::observe]: whether [healthy] flipped, and the endpoint after. *)
Definition observe (healthy : bool) (flip_threshold : Z) (ep : Endpoint) : bool * Endpoint :=
  if eqb (ep_healthy ep) healthy then
    (false, {| ep_addr := ep_addr ep; ep_healthy := ep_healthy ep;
               ep_enabled := ep_enabled ep; ep_consecutive := 0 |})
  else
    let run := as_u 64 (ep_consecutive ep + 1) in
    if run >=? Z.max flip_threshold 1 then
      (true, {| ep_addr := ep_addr ep; ep_healthy := healthy;
                ep_enabled := ep_enabled ep; ep_consecutive := 0 |})
    else
      (false, {| ep_addr := ep_addr ep; ep_healthy := ep_healthy ep;
                 ep_enabled := ep_enabled ep; ep_consecutive := run |}).

(** ** Pool *)

(** [Vec::dedup]: drop an element equal to the one before it. *)
Fixpoint dedup (l : list SocketAddr) : list SocketAddr :=
  match l with
  | [] => []
  | a :: l =>
      match dedup l with
      | [] => [a]
      | b :: l' => if decide (a = b) then b :: l' else a :: b :: l'
      end
  end.

Record Pool := {
  endpoints : list Endpoint;
  next : Z;
  health_check : option HealthCheck;
}.

Definition Pool_new (addrs : list SocketAddr) (hc : option HealthCheck) : Pool :=
  {| endpoints := map Endpoint_new (dedup (merge_sort socket_le addrs));
     next := 0; health_check := hc |}.

(** The positions [Pool::select] looks at, in order. *)
Definition select_order (start : Z) (n : nat) : list nat :=
  map (fun i => Z.to_nat (as_u 64 (start + Z.of_nat i) mod Z.of_nat n)) (seq 0 n).

Fixpoint find_ready (eps : list Endpoint) (order : list nat) : option SocketAddr :=
  match order with
  | [] => None
  | i :: order =>
      match eps !! i with
      | Some ep => if Endpoint_ready ep then Some (ep_addr ep) else find_ready eps order
      | None => None
      end
  end.

(** [Pool::select]; [fetch_add] wraps the counter at 64 bits. *)
Definition Pool_select (p : Pool) : option SocketAddr * Pool :=
  let n := length (endpoints p) in
  if (n =? 0)%nat then (None, p)
  else
    let start := next p in
    (find_ready (endpoints p) (select_order start n),
     {| endpoints := endpoints p; next := as_u 64 (start + 1); health_check := health_check p |}).

(** [Iterator::max_by_key]: the last of the elements with the greatest key. *)
Fixpoint max_by_key {A} (key : A -> Z) (l : list A) : option A :=
  match l with
  | [] => None
  | a :: l =>
      match max_by_key key l with
      | None => Some a
      | Some b => if key b <? key a then Some a else Some b
      end
  end.

(** [Pool::select_by_key].  [hash key addr] is the 64-bit [DefaultHasher]
    digest of the key bytes followed by the address. *)
Definition Pool_select_by_key (hash : string -> SocketAddr -> Z) (key : string) (p : Pool)
  : option SocketAddr :=
  match max_by_key (fun ep => hash key (ep_addr ep)) (List.filter Endpoint_ready (endpoints p)) with
  | Some ep => Some (ep_addr ep)
  | None => None
  end.

(** [Pool::endpoint_by_tag], over the tag function. *)
Definition Pool_endpoint_by_tag (endpoint_tag : SocketAddr -> string) (tag : string) (p : Pool)
  : option SocketAddr :=
  match List.find (fun ep => Endpoint_ready ep && bool_decide (endpoint_tag (ep_addr ep) = tag))
                  (endpoints p) with
  | Some ep => Some (ep_addr ep)
  | None => None
  end.

Definition Pool_endpoint (addr : SocketAddr) (p : Pool) : option Endpoint :=
  List.find (fun ep => bool_decide (ep_addr ep = addr)) (endpoints p).

Definition Pool_ready (addr : SocketAddr) (p : Pool) : bool :=
  match Pool_endpoint addr p with Some ep => Endpoint_ready ep | None => false end.

Definition ready_count (p : Pool) : nat := count Endpoint_ready (endpoints p).

Definition Pool_contains (addr : SocketAddr) (p : Pool) : bool :=
  match Pool_endpoint addr p with Some _ => true | None => false end.

Definition Endpoint_set_enabled (enabled : bool) (ep : Endpoint) : Endpoint :=
  {| ep_addr := ep_addr ep; ep_healthy := ep_healthy ep;
     ep_enabled := enabled; ep_consecutive := ep_consecutive ep |}.

(** Update the first endpoint with address [addr]. *)
Fixpoint update_endpoint (addr : SocketAddr) (f : Endpoint -> Endpoint) (eps : list Endpoint)
  : list Endpoint :=
  match eps with
  | [] => []
  | ep :: eps =>
      if decide (ep_addr ep = addr) then f ep :: eps else ep :: update_endpoint addr f eps
  end.

(** [Pool::set_enabled] *)
Definition Pool_set_enabled (addr : SocketAddr) (enabled : bool) (p : Pool) : bool * Pool :=
  match Pool_endpoint addr p with
  | Some _ =>
      (true, {| endpoints := update_endpoint addr (Endpoint_set_enabled enabled) (endpoints p);
                next := next p; health_check := health_check p |})
  | None => (false, p)
  end.

(** [Pool::run_health_check]; [probe_ok] is the outcome of the probe of each
    address under the pool's check. *)
Definition run_health_check (probe_ok : SocketAddr -> HealthCheck -> bool) (p : Pool) : Pool :=
  match health_check p with
  | None => p
  | Some check =>
      {| endpoints := map (fun ep =>
           let healthy := probe_ok (ep_addr ep) check in
           let threshold := if healthy then hc_consecutive_success check
                            else hc_consecutive_failure check in
           snd (observe healthy threshold ep)) (endpoints p);
         next := next p; health_check := health_check p |}
  end.

(** ** The order of a pool *)

Lemma dedup_elem a l : a ∈ dedup l <-> a ∈ l.
Proof.
  induction l as [|b l IH]; simpl; [done|]. rewrite elem_of_cons, <- IH.
  destruct (dedup l) as [|c l'].
  - rewrite elem_of_cons. done.
  - case_decide; subst; rewrite !elem_of_cons; tauto.
Qed.

Lemma dedup_sorted l : StronglySorted socket_le l -> StronglySorted socket_le (dedup l).
Proof.
  induction 1 as [|a l Hs IH Hall]; simpl; [constructor|].
  assert (Hd : Forall (socket_le a) (dedup l)).
  { apply Forall_forall. intros b Hb. rewrite dedup_elem in Hb.
    by apply (proj1 (Forall_forall _ _) Hall). }
  destruct (dedup l) as [|c l']; [by repeat constructor|].
  case_decide; subst; [done|]. by constructor.
Qed.

Lemma dedup_nodup l : StronglySorted socket_le l -> NoDup (dedup l).
Proof.
  induction 1 as [|a l Hs IH Hall]; simpl; [constructor|].
  pose proof (dedup_sorted l Hs) as Hds.
  assert (Hd : forall b, b ∈ dedup l -> socket_le a b).
  { intros b Hb. rewrite dedup_elem in Hb. by apply (proj1 (Forall_forall _ _) Hall). }
  destruct (dedup l) as [|c l']; [apply NoDup_singleton|].
  case_decide as Hac; subst; [done|]. constructor; [|done].
  rewrite elem_of_cons. intros [->|Ha]; [done|]. apply Hac.
  apply StronglySorted_inv in Hds as [_ Hc]. apply (anti_symm socket_le).
  - apply Hd, elem_of_cons. by left.
  - by apply (proj1 (Forall_forall _ _) Hc).
Qed.

(** The addresses of a pool built from [addrs]. *)
Definition pool_addrs (addrs : list SocketAddr) : list SocketAddr := dedup (merge_sort socket_le addrs).

Lemma pool_addrs_sorted addrs : StronglySorted socket_le (pool_addrs addrs).
Proof. apply dedup_sorted, (StronglySorted_merge_sort socket_le). Qed.

Lemma pool_addrs_nodup addrs : NoDup (pool_addrs addrs).
Proof. apply dedup_nodup, (StronglySorted_merge_sort socket_le). Qed.

Lemma pool_addrs_elem a addrs : a ∈ pool_addrs addrs <-> a ∈ addrs.
Proof. unfold pool_addrs. by rewrite dedup_elem, merge_sort_Permutation. Qed.

(** A strictly sorted list is determined by its elements. *)
Lemma sorted_nodup_unique l1 l2 :
  StronglySorted socket_le l1 -> StronglySorted socket_le l2 -> NoDup l1 -> NoDup l2 ->
  (forall a, a ∈ l1 <-> a ∈ l2) -> l1 = l2.
Proof.
  intros Hs1 Hs2 Hn1 Hn2 He. apply (StronglySorted_unique socket_le); [done|done|].
  by apply NoDup_Permutation.
Qed.

Lemma pool_addrs_ext l1 l2 : (forall a, a ∈ l1 <-> a ∈ l2) -> pool_addrs l1 = pool_addrs l2.
Proof.
  intros He. apply sorted_nodup_unique;
    auto using pool_addrs_sorted, pool_addrs_nodup. intros a. by rewrite !pool_addrs_elem.
Qed.

Lemma StronglySorted_filter (P : SocketAddr -> Prop) `{!forall a, Decision (P a)} l :
  StronglySorted socket_le l -> StronglySorted socket_le (filter P l).
Proof.
  induction 1 as [|a l _ IH Hall]; [constructor|]. rewrite filter_cons. case_decide; [|done].
  constructor; [done|]. apply Forall_forall. intros b [_ Hb]%list_elem_of_filter.
  by apply (proj1 (Forall_forall _ _) Hall).
Qed.

Lemma pool_addrs_filter (P : SocketAddr -> Prop) `{!forall a, Decision (P a)} l :
  pool_addrs (filter P l) = filter P (pool_addrs l).
Proof.
  apply sorted_nodup_unique;
    auto using pool_addrs_sorted, pool_addrs_nodup, StronglySorted_filter, NoDup_filter.
  intros a. by rewrite pool_addrs_elem, !list_elem_of_filter, pool_addrs_elem.
Qed.

(** ** Round robin *)

(** [k] selections in a row. *)
Fixpoint select_many (k : nat) (p : Pool) : list (option SocketAddr) :=
  match k with
  | O => []
  | S k => let '(r, p) := Pool_select p in r :: select_many k p
  end.

Definition pick (eps : list Endpoint) (start : Z) : option SocketAddr :=
  find_ready eps (select_order start (length eps)).

Lemma select_many_picks k p :
  endpoints p <> [] -> 0 <= next p -> next p + Z.of_nat k <= 2 ^ 64 ->
  select_many k p = map (fun j => pick (endpoints p) (next p + Z.of_nat j)) (seq 0 k).
Proof.
  revert p. induction k as [|k IH]; intros p Hne H0 Hk; [done|].
  cbn [select_many]. unfold Pool_select.
  destruct (Nat.eqb_spec (length (endpoints p)) 0) as [Hl|_];
    [by apply nil_length_inv in Hl|].
  cbn [seq map]. rewrite Z.add_0_r. f_equal. rewrite <- seq_shift, List.map_map.
  destruct k as [|k]; [done|].
  rewrite IH; cbn [endpoints next]; rewrite ?as_u_small by (split; lia); [|done|lia|lia].
  apply List.map_ext. intros j. f_equal. lia.
Qed.

Lemma select_order_lt start n i : (0 < n)%nat -> i ∈ select_order start n -> (i < n)%nat.
Proof.
  intros Hn Hi. apply list_elem_of_In, List.in_map_iff in Hi as (j & <- & _).
  pose proof (Z.mod_pos_bound (as_u 64 (start + Z.of_nat j)) (Z.of_nat n)). lia.
Qed.

(** A rotation of the positions starting anywhere visits all of them. *)
Lemma select_order_all start n i :
  0 <= start -> start + Z.of_nat n <= 2 ^ 64 -> (i < n)%nat -> i ∈ select_order start n.
Proof.
  intros H0 Hw Hi. apply list_elem_of_In, List.in_map_iff.
  pose proof (Z.mod_pos_bound (Z.of_nat i - start) (Z.of_nat n)) as Hb.
  exists (Z.to_nat ((Z.of_nat i - start) mod Z.of_nat n)). split; [|apply List.in_seq; lia].
  rewrite Z2Nat.id by lia. rewrite as_u_small by (split; lia).
  rewrite Zplus_mod_idemp_r, Zplus_minus, Z.mod_small by lia. lia.
Qed.

Lemma find_ready_Some eps order a :
  (forall i, i ∈ order -> (i < length eps)%nat) -> find_ready eps order = Some a ->
  exists ep, ep ∈ eps /\ Endpoint_ready ep = true /\ ep_addr ep = a.
Proof.
  induction order as [|i order IH]; simpl; intros Hlt Ha; [done|].
  destruct (eps !! i) as [ep|] eqn:Hi; [|done].
  destruct (Endpoint_ready ep) eqn:Hr.
  - simplify_eq. exists ep. eauto using list_elem_of_lookup_2.
  - apply IH; [|done]. intros j Hj. apply Hlt. by right.
Qed.

Lemma find_ready_None eps order :
  (forall i, i ∈ order -> (i < length eps)%nat) -> find_ready eps order = None ->
  forall i ep, i ∈ order -> eps !! i = Some ep -> Endpoint_ready ep = false.
Proof.
  induction order as [|i order IH]; simpl; intros Hlt Hn j ep Hj Hep; [by apply elem_of_nil in Hj|].
  destruct (lookup_lt_is_Some_2 eps i) as [ep' Hi]; [apply Hlt; by left|]. rewrite Hi in Hn.
  destruct (Endpoint_ready ep') eqn:Hr; [done|].
  apply elem_of_cons in Hj as [->|Hj]; [by simplify_eq|].
  eapply IH; [|done|exact Hj|exact Hep]. intros k Hk. apply Hlt. by right.
Qed.

(** Selection answers a ready endpoint whenever there is one. *)
Lemma pick_ready eps start ep :
  0 <= start -> start + Z.of_nat (length eps) <= 2 ^ 64 ->
  ep ∈ eps -> Endpoint_ready ep = true ->
  exists ep', ep' ∈ eps /\ Endpoint_ready ep' = true /\ pick eps start = Some (ep_addr ep').
Proof.
  intros H0 Hw Hep Hr. apply list_elem_of_lookup in Hep as [i Hi].
  pose proof (lookup_lt_Some _ _ _ Hi) as Hlen.
  assert (Hlt : forall j, j ∈ select_order start (length eps) -> (j < length eps)%nat).
  { intros j. apply select_order_lt. lia. }
  unfold pick. destruct (find_ready eps _) as [a|] eqn:Hf.
  - destruct (find_ready_Some _ _ _ Hlt Hf) as (ep' & ? & ? & <-). by exists ep'.
  - rewrite (find_ready_None _ _ Hlt Hf i ep) in Hr; [done| |done]. by apply select_order_all.
Qed.

(** It is the endpoint at the counter's position when that one is ready. *)
Lemma pick_at eps start i ep :
  0 <= start < 2 ^ 64 -> eps !! i = Some ep -> Endpoint_ready ep = true ->
  start mod Z.of_nat (length eps) = Z.of_nat i -> pick eps start = Some (ep_addr ep).
Proof.
  intros Hs Hi Hr Hm. unfold pick, select_order.
  destruct eps as [|e eps]; [done|]. cbn [length seq map find_ready].
  rewrite Z.add_0_r, as_u_small by done. cbn [length] in Hm. by rewrite Hm, Nat2Z.id, Hi, Hr.
Qed.

(** round robin starves nobody and answers only ready endpoints.  While
    the flags do not change, [n] selections in a row on a pool of [n]
    endpoints return every ready endpoint at least once and, when there is a
    ready endpoint, only ready endpoints; when all are ready each is
    returned exactly once. *)
Theorem round_robin_fair (p : Pool)
  (Hnext : 0 <= next p) (Hwrap : next p + 2 * Z.of_nat (length (endpoints p)) <= 2 ^ 64) :
  let rs := select_many (length (endpoints p)) p in
  (forall ep, ep ∈ endpoints p -> Endpoint_ready ep = true -> Some (ep_addr ep) ∈ rs) /\
  (forall r, r ∈ rs -> (0 < ready_count p)%nat ->
     exists ep, ep ∈ endpoints p /\ Endpoint_ready ep = true /\ r = Some (ep_addr ep)) /\
  (Forall (fun ep => Endpoint_ready ep = true) (endpoints p) ->
     rs ≡ₚ map (fun ep => Some (ep_addr ep)) (endpoints p)).
Proof.
  cbv zeta. destruct (decide (endpoints p = [])) as [He|He].
  { rewrite He. simpl. split_and!; [intros ep []%elem_of_nil|intros r []%elem_of_nil|done]. }
  rewrite select_many_picks by (done || lia).
  set (eps := endpoints p) in *. set (n := length eps) in *.
  assert (Hn : (0 < n)%nat) by (destruct eps; [done|unfold n; simpl; lia]).
  split_and!.
  - intros ep Hep Hr. apply list_elem_of_lookup in Hep as [i Hi].
    pose proof (lookup_lt_Some _ _ _ Hi) as Hlt. fold n in Hlt.
    apply list_elem_of_In, List.in_map_iff.
    pose proof (Z.mod_pos_bound (Z.of_nat i - next p) (Z.of_nat n)) as Hb.
    exists (Z.to_nat ((Z.of_nat i - next p) mod Z.of_nat n)). split; [|apply List.in_seq; lia].
    apply (pick_at _ _ i); [lia|done|done|]. fold n.
    rewrite Z2Nat.id, Zplus_mod_idemp_r, Zplus_minus, Z.mod_small; lia.
  - intros r Hr Hc. apply list_elem_of_In, List.in_map_iff in Hr as (j & <- & Hj%List.in_seq).
    destruct (count_pos _ _ Hc) as (ep & Hep & Hr).
    destruct (pick_ready eps (next p + Z.of_nat j) ep) as (ep' & ? & ? & ->); try done; [lia|lia|].
    by exists ep'.
  - intros Hall. apply rotation_permutation; fold n; [lia|].
    intros j i ep Hj Hi Hm. apply (pick_at _ _ i); [lia|done| |by fold n].
    rewrite Forall_forall in Hall. eapply Hall, list_elem_of_lookup_2, Hi.
Qed.

Definition addr_n (i : Z) : SocketAddr := SocketV4 (167772160 + i) 8080.

Lemma round_robin_fair_witness :
  let p := snd (Pool_set_enabled (addr_n 2) false (Pool_new (map addr_n [3; 1; 2; 1]) None)) in
  Some (addr_n 1) ∈ select_many 3 p /\ Some (addr_n 3) ∈ select_many 3 p.
Proof.
  cbv zeta.
  destruct (round_robin_fair (snd (Pool_set_enabled (addr_n 2) false
    (Pool_new (map addr_n [3; 1; 2; 1]) None)))) as (H & _ & _); [vm_compute; done..|].
  split; [apply (H (Endpoint_new (addr_n 1)))|apply (H (Endpoint_new (addr_n 3)))];
    vm_compute; try reflexivity; repeat constructor.
Defined.

(** the address order and duplicates of the list a pool is built from do
    not matter: lists with the same addresses give the same pool, sorted,
    free of duplicates, with exactly those addresses. *)
Theorem pool_new_canonical (l1 l2 : list SocketAddr) (hc : option HealthCheck)
  (Hsame : forall a, a ∈ l1 <-> a ∈ l2) :
  Pool_new l1 hc = Pool_new l2 hc /\
  Sorted socket_le (map ep_addr (endpoints (Pool_new l1 hc))) /\
  NoDup (map ep_addr (endpoints (Pool_new l1 hc))) /\
  (forall a, Pool_contains a (Pool_new l1 hc) = true <-> a ∈ l1).
Proof.
  unfold Pool_new. fold (pool_addrs l1) (pool_addrs l2). rewrite (pool_addrs_ext l1 l2 Hsame).
  cbn [endpoints]. rewrite List.map_map, List.map_id. split_and!; [done| | |].
  - apply StronglySorted_Sorted, pool_addrs_sorted.
  - apply pool_addrs_nodup.
  - intros a. rewrite Hsame, <- pool_addrs_elem. unfold Pool_contains, Pool_endpoint.
    cbn [endpoints]. induction (pool_addrs l2) as [|b l IH]; [by rewrite elem_of_nil|].
    simpl. rewrite elem_of_cons. case_bool_decide; [by split; auto|]. rewrite IH.
    split; [by right|]. by intros [->|?].
Qed.

Lemma pool_new_canonical_witness :
  Pool_new (map addr_n [3; 1; 2; 1]) None = Pool_new (map addr_n [1; 2; 3]) None.
Proof.
  apply (pool_new_canonical (map addr_n [3; 1; 2; 1]) (map addr_n [1; 2; 3]) None).
  intros a. simpl. set_solver.
Defined.

(** ** Rendezvous hashing *)

Lemma max_by_key_elem {A} (key : A -> Z) l a : max_by_key key l = Some a -> a ∈ l.
Proof.
  revert a. induction l as [|b l IH]; simpl; intros a Ha; [done|].
  destruct (max_by_key key l) as [c|]; [|simplify_eq; by left].
  destruct (key c <? key b); simplify_eq; [by left|right; by apply IH].
Qed.

Lemma max_by_key_None {A} (key : A -> Z) l : max_by_key key l = None -> l = [].
Proof. destruct l; simpl; [done|]. by repeat case_match. Qed.

Lemma max_by_key_max {A} (key : A -> Z) l a b : max_by_key key l = Some a -> b ∈ l -> key b <= key a.
Proof.
  revert a. induction l as [|c l IH]; simpl; intros a Ha Hb; [done|].
  apply elem_of_cons in Hb. destruct (max_by_key key l) as [d|] eqn:Hd.
  - destruct (Z.ltb_spec (key d) (key c)); simplify_eq; destruct Hb as [->|Hb]; try lia.
    + specialize (IH d eq_refl Hb). lia.
    + auto.
  - apply max_by_key_None in Hd. subst l. simplify_eq. destruct Hb as [->|Hb]; [lia|].
    by apply elem_of_nil in Hb.
Qed.

(** The winner stays the winner when losers leave. *)
Lemma max_by_key_filter {A} (key : A -> Z) (f : A -> bool) l a :
  max_by_key key l = Some a -> f a = true -> max_by_key key (List.filter f l) = Some a.
Proof.
  revert a. induction l as [|b l IH]; simpl; intros a Ha Hf; [done|].
  destruct (max_by_key key l) as [c|] eqn:Hc.
  - destruct (Z.ltb_spec (key c) (key b)); simplify_eq.
    + rewrite Hf. simpl. destruct (max_by_key key (List.filter f l)) as [d|] eqn:Hd; [|done].
      assert (Hle : key d <= key c).
      { eapply max_by_key_max; [exact Hc|]. apply max_by_key_elem in Hd.
        apply list_elem_of_In, List.filter_In in Hd as [Hd _]. by apply list_elem_of_In. }
      by rewrite (proj2 (Z.ltb_lt _ _)) by lia.
    + specialize (IH a eq_refl Hf). destruct (f b); simpl; rewrite ?IH; [|done].
      by rewrite (proj2 (Z.ltb_ge _ _)) by lia.
  - apply max_by_key_None in Hc. subst l. simplify_eq. simpl. by rewrite Hf.
Qed.

Lemma filter_ready_fresh l : List.filter Endpoint_ready (map Endpoint_new l) = map Endpoint_new l.
Proof. induction l as [|a l IH]; simpl; [done|]. by rewrite IH. Qed.

Lemma Pool_endpoint_Some addr p ep :
  Pool_endpoint addr p = Some ep -> ep ∈ endpoints p /\ ep_addr ep = addr.
Proof.
  intros [Hin Ha]%List.find_some. rewrite <- list_elem_of_In in Hin.
  simpl in Ha. by bool_to_prop.
Qed.

Lemma Pool_endpoint_None addr p :
  Pool_endpoint addr p = None -> forall ep, ep ∈ endpoints p -> ep_addr ep <> addr.
Proof.
  intros Hn ep Hep. apply list_elem_of_In in Hep.
  pose proof (List.find_none _ _ Hn ep Hep) as Ha. simpl in Ha. by bool_to_prop.
Qed.

(** Disabling an endpoint takes it, and nothing else, out of the ready ones. *)
Lemma filter_ready_disabled addr eps :
  NoDup (map ep_addr eps) ->
  List.filter Endpoint_ready (update_endpoint addr (Endpoint_set_enabled false) eps) =
    List.filter (fun ep => negb (bool_decide (ep_addr ep = addr))) (List.filter Endpoint_ready eps).
Proof.
  induction eps as [|ep eps IH]; simpl; intros Hnd; [done|].
  apply NoDup_cons in Hnd as [Hni Hnd]. case_decide as Ha; simpl.
  - unfold Endpoint_ready at 1. simpl. rewrite andb_false_r.
    assert (Hid : List.filter (fun ep => negb (bool_decide (ep_addr ep = addr))) (List.filter Endpoint_ready eps)
                  = List.filter Endpoint_ready eps).
    { apply forallb_filter_id, List.forallb_forall. intros ep' [Hin _]%List.filter_In.
      apply negb_true_iff, bool_decide_eq_false. intros Ha'. apply Hni.
      apply list_elem_of_In, List.in_map_iff. exists ep'. split; [congruence|done]. }
    destruct (Endpoint_ready ep); simpl; [|done]. rewrite bool_decide_true by done. done.
  - destruct (Endpoint_ready ep); simpl; [|by apply IH].
    rewrite bool_decide_false by done. simpl. f_equal. by apply IH.
Qed.

Lemma filter_map_fresh a l :
  List.filter (fun ep => bool_decide (ep_addr ep <> a)) (map Endpoint_new l) =
    map Endpoint_new (filter (fun b => b <> a) l).
Proof.
  induction l as [|b l IH]; simpl; [done|]. rewrite filter_cons, IH.
  case_bool_decide; case_decide; done.
Qed.

(** rendezvous selection disturbs only the keys it has to.  Adding an
    address to a pool moves a key to that address or nowhere; disabling an
    endpoint leaves every key that mapped elsewhere where it was.  This holds
    for every hash function, ties included. *)
Theorem rendezvous_minimal_disruption (hash : string -> SocketAddr -> Z) (key : string)
  (a : SocketAddr) (addrs : list SocketAddr) (hc : option HealthCheck) (p : Pool)
  (Hnodup : NoDup (map ep_addr (endpoints p))) :
  (Pool_select_by_key hash key (Pool_new (a :: addrs) hc) = Some a \/
   Pool_select_by_key hash key (Pool_new (a :: addrs) hc) =
     Pool_select_by_key hash key (Pool_new addrs hc)) /\
  (forall b, Pool_select_by_key hash key p = Some b -> b <> a ->
     Pool_select_by_key hash key (snd (Pool_set_enabled a false p)) = Some b).
Proof.
  split.
  - unfold Pool_select_by_key, Pool_new. cbn [endpoints].
    fold (pool_addrs (a :: addrs)) (pool_addrs addrs). rewrite !filter_ready_fresh.
    set (k := fun ep => hash key (ep_addr ep)).
    destruct (max_by_key k (map Endpoint_new (pool_addrs (a :: addrs)))) as [ep|] eqn:Hm.
    + destruct (decide (ep_addr ep = a)) as [->|Hne]; [by left|right].
      destruct (decide (a ∈ addrs)) as [Hin|Hni].
      { rewrite (pool_addrs_ext addrs (a :: addrs)), Hm; [done|]. set_solver. }
      apply (max_by_key_filter k (fun ep => bool_decide (ep_addr ep <> a))) in Hm;
        [|by apply bool_decide_eq_true].
      rewrite filter_map_fresh, <- pool_addrs_filter in Hm.
      rewrite (pool_addrs_ext addrs (filter (fun b => b <> a) (a :: addrs))), Hm; [done|].
      intros b. rewrite list_elem_of_filter. set_solver.
    + exfalso. apply max_by_key_None, map_eq_nil in Hm.
      assert (Ha : a ∈ pool_addrs (a :: addrs)) by (apply pool_addrs_elem; by left).
      rewrite Hm in Ha. by apply elem_of_nil in Ha.
  - intros b Hb Hne. unfold Pool_set_enabled.
    destruct (Pool_endpoint a p) as [e|]; [|done]. unfold Pool_select_by_key in *. simpl.
    rewrite filter_ready_disabled by done.
    destruct (max_by_key _ (List.filter Endpoint_ready (endpoints p))) as [ep|] eqn:Hm; [|done].
    simplify_eq. erewrite max_by_key_filter; [done|exact Hm|].
    by rewrite bool_decide_false.
Qed.

(** A hash for the examples: any function will do. *)
Definition sample_hash (key : string) (a : SocketAddr) : Z :=
  match a with
  | SocketV4 ip port => (ip * 7919 + port + Z.of_nat (String.length key) * 104729) mod 101
  | SocketV6 ip port _ _ => (ip + port) mod 101
  end.

Lemma rendezvous_minimal_disruption_witness :
  let p := Pool_new (map addr_n [1; 2; 3]) None in
  exists b, Pool_select_by_key sample_hash "user-7" p = Some b /\
    b <> addr_n 1 /\
    Pool_select_by_key sample_hash "user-7" (snd (Pool_set_enabled (addr_n 1) false p)) = Some b.
Proof.
  cbv zeta. eexists. split; [vm_compute; reflexivity|]. split; [done|].
  apply (rendezvous_minimal_disruption sample_hash "user-7" (addr_n 1) [] None).
  - apply (bool_decide_unpack _). vm_compute. exact I.
  - vm_compute. reflexivity.
  - done.
Defined.

(** ** Active health *)

(** An endpoint after a history of probe outcomes, the latest first, under
    the thresholds of a check. *)
Definition flip_threshold (check : HealthCheck) (healthy : bool) : Z :=
  if healthy then hc_consecutive_success check else hc_consecutive_failure check.

Fixpoint health_after (check : HealthCheck) (addr : SocketAddr) (outcomes : list bool) : Endpoint :=
  match outcomes with
  | [] => Endpoint_new addr
  | o :: earlier => snd (observe o (flip_threshold check o) (health_after check addr earlier))
  end.

(** How many of the latest outcomes in a row contradict [h]. *)
Fixpoint contrary_run (h : bool) (outcomes : list bool) : Z :=
  match outcomes with
  | [] => 0
  | o :: earlier => if eqb o h then 0 else 1 + contrary_run h earlier
  end.

Lemma health_counter check addr outcomes :
  in_u 64 (hc_consecutive_success check) -> in_u 64 (hc_consecutive_failure check) ->
  let ep := health_after check addr outcomes in
  ep_consecutive ep = contrary_run (ep_healthy ep) outcomes /\
  0 <= ep_consecutive ep < Z.max (flip_threshold check (negb (ep_healthy ep))) 1.
Proof.
  intros Hs Hf. induction outcomes as [|o outcomes [IH1 IH2]]; simpl.
  - split; [done|]. lia.
  - set (ep := health_after check addr outcomes) in *. unfold observe.
    destruct (eqb_spec (ep_healthy ep) o) as [<-|Hne]; simpl.
    + rewrite eqb_reflx. split; [done|]. lia.
    + replace (negb (ep_healthy ep)) with o in IH2 by (destruct o, (ep_healthy ep); done).
      rewrite as_u_small by (split; [lia|]; destruct o; simpl in *; unfold in_u in *; lia).
      destruct (Z.geb_spec (ep_consecutive ep + 1) (Z.max (flip_threshold check o) 1)); simpl.
      * rewrite eqb_reflx. split; [done|]. lia.
      * rewrite (proj2 (eqb_false_iff o (ep_healthy ep))) by congruence.
        replace (negb (ep_healthy ep)) with o by (destruct o, (ep_healthy ep); done). lia.
Qed.

(** an endpoint's health flips exactly when the outcomes contradicting it
    in a row reach the policy's threshold (a threshold of 0 counting as 1),
    and an agreeing outcome starts the count over: no shorter run ever flips
    it, and the run is never left pending at the threshold. *)
Theorem health_flips_exactly_at_threshold (check : HealthCheck) (addr : SocketAddr)
  (o : bool) (earlier : list bool)
  (Hs : in_u 64 (hc_consecutive_success check)) (Hf : in_u 64 (hc_consecutive_failure check)) :
  let h := ep_healthy (health_after check addr earlier) in
  ep_healthy (health_after check addr (o :: earlier)) =
    (if contrary_run h (o :: earlier) >=? Z.max (flip_threshold check o) 1 then o else h) /\
  contrary_run h earlier < Z.max (flip_threshold check (negb h)) 1.
Proof.
  cbv zeta. destruct (health_counter check addr earlier Hs Hf) as [H1 H2].
  cbn [health_after contrary_run]. set (ep := health_after check addr earlier) in *.
  rewrite <- H1. split; [|lia]. unfold observe.
  destruct (eqb_spec (ep_healthy ep) o) as [<-|Hne].
  - rewrite eqb_reflx. simpl. by destruct (_ >=? _).
  - rewrite (proj2 (eqb_false_iff o (ep_healthy ep))) by congruence.
    replace (negb (ep_healthy ep)) with o in H2 by (destruct o, (ep_healthy ep); done).
    rewrite as_u_small by (split; [lia|]; destruct o; simpl in *; unfold in_u in *; lia).
    rewrite (Z.add_comm 1). by destruct (_ >=? _).
Qed.

Lemma health_flips_exactly_at_threshold_witness :
  let check := {| hc_host := "svc"; hc_path := "/"; hc_timeout := 1;
                  hc_consecutive_success := 2; hc_consecutive_failure := 3 |} in
  ep_healthy (health_after check (addr_n 1) [false; false; true; false; false]) = true /\
  ep_healthy (health_after check (addr_n 1) [false; false; false; true; false; false]) = false.
Proof.
  cbv zeta. split.
  - reflexivity.
  - rewrite (proj1 (health_flips_exactly_at_threshold
      {| hc_host := "svc"; hc_path := "/"; hc_timeout := 1;
         hc_consecutive_success := 2; hc_consecutive_failure := 3 |} (addr_n 1)
      false [false; false; true; false; false] ltac:(split; simpl; lia) ltac:(split; simpl; lia))).
    vm_compute. reflexivity.
Defined.

(** ** Effects of [set_enabled] *)

Lemma update_endpoint_addrs addr enabled eps :
  map ep_addr (update_endpoint addr (Endpoint_set_enabled enabled) eps) = map ep_addr eps.
Proof. induction eps as [|ep eps IH]; simpl; [done|]. case_decide; simpl; [done|]. by rewrite IH. Qed.

Lemma update_endpoint_elem addr f eps ep :
  ep ∈ update_endpoint addr f eps ->
  ep ∈ eps \/ exists ep0, ep0 ∈ eps /\ ep_addr ep0 = addr /\ ep = f ep0.
Proof.
  induction eps as [|e eps IH]; simpl; [by intros ?%elem_of_nil|].
  case_decide; rewrite !elem_of_cons; intros [->|Hin].
  - right. exists e. rewrite elem_of_cons. auto.
  - auto.
  - auto.
  - destruct (IH Hin) as [?|(e0 & ? & ? & ->)]; [auto|].
    right. exists e0. rewrite elem_of_cons. auto.
Qed.

Lemma disable_ready_count addr p :
  (ready_count p <= S (ready_count (snd (Pool_set_enabled addr false p))))%nat.
Proof.
  unfold Pool_set_enabled. destruct (Pool_endpoint addr p) as [_e|]; simpl; [clear _e|lia].
  unfold ready_count. simpl. induction (endpoints p) as [|e eps IH]; simpl; [lia|].
  case_decide; rewrite !count_cons; [|lia].
  destruct (Endpoint_ready e), (Endpoint_ready (Endpoint_set_enabled false e)); simpl; lia.
Qed.

Lemma enable_ready_count addr p :
  (ready_count p <= ready_count (snd (Pool_set_enabled addr true p)))%nat.
Proof.
  unfold Pool_set_enabled. destruct (Pool_endpoint addr p) as [_e|]; simpl; [clear _e|lia].
  unfold ready_count. simpl. induction (endpoints p) as [|e eps IH]; simpl; [lia|].
  case_decide; rewrite !count_cons; [|lia].
  unfold Endpoint_ready at 1 3. simpl. destruct (ep_healthy e), (ep_enabled e); simpl; lia.
Qed.

(** After [set_enabled] every endpoint of that address has the flag, and an
    endpoint of another address is one of the pool before. *)
Lemma set_enabled_elem addr enabled p ep :
  NoDup (map ep_addr (endpoints p)) ->
  ep ∈ endpoints (snd (Pool_set_enabled addr enabled p)) ->
  (ep_addr ep = addr /\ ep_enabled ep = enabled) \/ (ep_addr ep <> addr /\ ep ∈ endpoints p).
Proof.
  unfold Pool_set_enabled. destruct (Pool_endpoint addr p) as [e0|] eqn:He; simpl; intros Hnd Hep.
  - clear He e0. induction (endpoints p) as [|e eps IH]; simpl in *; [by apply elem_of_nil in Hep|].
    apply NoDup_cons in Hnd as [Hni Hnd]. case_decide as Ha; apply elem_of_cons in Hep as [->|Hep].
    + by left.
    + right. split; [|by right]. intros Heq. apply Hni. rewrite Ha, <- Heq.
      apply list_elem_of_In, List.in_map, list_elem_of_In, Hep.
    + right. split; [done|by left].
    + destruct (IH Hnd Hep) as [|[? ?]]; [by left|right]. split; [done|by right].
  - right. split; [|done]. by eapply Pool_endpoint_None.
Qed.

Lemma set_enabled_addrs addr enabled p :
  map ep_addr (endpoints (snd (Pool_set_enabled addr enabled p))) = map ep_addr (endpoints p).
Proof.
  unfold Pool_set_enabled. destruct (Pool_endpoint addr p); simpl; [|done].
  apply update_endpoint_addrs.
Qed.

(** A health check touches neither addresses nor enable flags. *)
Lemma health_check_flags probe_ok p :
  exists g, endpoints (run_health_check probe_ok p) = map g (endpoints p) /\
    forall ep, ep_addr (g ep) = ep_addr ep /\ ep_enabled (g ep) = ep_enabled ep.
Proof.
  unfold run_health_check. destruct (health_check p) as [c|].
  - eexists. split; [reflexivity|]. intros ep. unfold observe. by repeat case_match.
  - exists id. by rewrite List.map_id.
Qed.

#[export] Hint Rewrite set_enabled_addrs : portus.
