(* ===== verification/Outlier.v ===== *)
(** * Passive outlier ejection

    [portus-dataplane-core/src/outlier.rs].  Pools are shared objects: the
    routing snapshots, requests in flight and the re-enable tasks hold
    references to the same pool, so the world keeps a store of pools and
    everything else names them by identifier.  Instants and durations are
    nanoseconds. *)
From S2P Require Import Prelude Net Pool.

Record OutlierConfig := {
  oc_consecutive_5xx : Z;
  oc_base_ejection : Z;
  oc_max_ejection : Z;
}.

Definition OutlierConfig_default : OutlierConfig :=
  {| oc_consecutive_5xx := 5; oc_base_ejection := 10 * 1000000000;
     oc_max_ejection := 300 * 1000000000 |}.

Record EndpointRecord := {
  er_consecutive_5xx : Z;
  er_ejections : Z;
  er_ejected_until : option Z;
  er_last_seen : Z;
}.

Definition EndpointRecord_default (now : Z) : EndpointRecord :=
  {| er_consecutive_5xx := 0; er_ejections := 0; er_ejected_until := None; er_last_seen := now |}.

Definition PRUNE_ABOVE : nat := 4096.
Definition STALE_AFTER : Z := 3600 * 1000000000.

(** A re-enable task: its deadline, the pool it holds and the address. *)
Record timer := Timer { tm_deadline : Z; tm_pool : positive; tm_addr : SocketAddr }.

Record world := World {
  w_now : Z;
  w_records : gmap SocketAddr EndpointRecord;
  w_pools : gmap positive Pool;
  w_timers : list timer;
}.

(** [Duration::saturating_mul] by a [u32]. *)
Definition duration_saturating_mul (d k : Z) : Z := Z.min (d * k) (2 ^ 64 * 1000000000 - 1).

(** ** eject, in the order of its shared accesses *)

(** The two guards of [Outliers::eject]. *)
Definition eject_check (lb : positive) (addr : SocketAddr) (w : world) : bool :=
  match w_pools w !! lb with
  | None => false
  | Some pool => if negb (Pool_contains addr pool) then false
                 else if (ready_count pool <=? 1)%nat then false else true
  end.

(** The update of the endpoint's record, under its map lock, at [now]. *)
Definition eject_record (cfg : OutlierConfig) (addr : SocketAddr) (now : Z) (w : world)
  : option Z * world :=
  let r := default (EndpointRecord_default now) (w_records w !! addr) in
  let store r' := World now (<[addr := r']> (w_records w)) (w_pools w) (w_timers w) in
  if match er_ejected_until r with Some until => now <? until | None => false end then
    (None, store {| er_consecutive_5xx := er_consecutive_5xx r; er_ejections := er_ejections r;
                    er_ejected_until := er_ejected_until r; er_last_seen := now |})
  else
    let ejections := as_u 32 (er_ejections r + 1) in
    let duration := Z.min (duration_saturating_mul (oc_base_ejection cfg) ejections)
                          (oc_max_ejection cfg) in
    (Some duration, store {| er_consecutive_5xx := 0; er_ejections := ejections;
                             er_ejected_until := Some (now + duration); er_last_seen := now |}).

(** [lb.set_enabled] on the shared pool. *)
Definition world_set_enabled (lb : positive) (addr : SocketAddr) (enabled : bool) (w : world) : world :=
  match w_pools w !! lb with
  | None => w
  | Some pool =>
      World (w_now w) (w_records w) (<[lb := snd (Pool_set_enabled addr enabled pool)]> (w_pools w))
            (w_timers w)
  end.

(** Disable the endpoint and spawn the task that enables it again
    [duration] later; [spawned] is the instant the task's sleep starts. *)
Definition eject_disable (lb : positive) (addr : SocketAddr) (spawned duration : Z) (w : world) : world :=
  let w := world_set_enabled lb addr false w in
  World spawned (w_records w) (w_pools w) (w_timers w ++ [Timer (spawned + duration) lb addr]).

(** [Outliers::prune] *)
Definition Outliers_prune (now : Z) (w : world) : world :=
  if (PRUNE_ABOVE <? size (w_records w))%nat then
    World (w_now w)
      (filter (fun '(_, r) => saturating_sub now (er_last_seen r) < STALE_AFTER) (w_records w))
      (w_pools w) (w_timers w)
  else w.

(** [Outliers::eject], reading the clock at [now] and spawning at [spawned]. *)
Definition Outliers_eject (cfg : OutlierConfig) (lb : positive) (addr : SocketAddr)
  (now spawned : Z) (w : world) : option Z * world :=
  if negb (eject_check lb addr w) then (None, w)
  else
    match eject_record cfg addr now w with
    | (None, w) => (None, w)
    | (Some duration, w) =>
        (Some duration, Outliers_prune now (eject_disable lb addr spawned duration w))
    end.

Definition connect_failed := Outliers_eject.

(** [Outliers::responded]: its own clock read [now], then [eject]'s. *)
Definition responded (cfg : OutlierConfig) (lb : positive) (addr : SocketAddr) (status : Z)
  (now eject_now spawned : Z) (w : world) : option Z * world :=
  let r := default (EndpointRecord_default now) (w_records w !! addr) in
  let store r' := World now (<[addr := r']> (w_records w)) (w_pools w) (w_timers w) in
  if status >=? 500 then
    let consecutive := as_u 32 (er_consecutive_5xx r + 1) in
    let w := store {| er_consecutive_5xx := consecutive; er_ejections := er_ejections r;
                      er_ejected_until := er_ejected_until r; er_last_seen := now |} in
    if consecutive >=? oc_consecutive_5xx cfg
    then Outliers_eject cfg lb addr eject_now spawned w else (None, w)
  else
    let quiet := (0 <? er_ejections r) &&
      match er_ejected_until r with
      | Some until => oc_max_ejection cfg <=? saturating_sub now until
      | None => false
      end in
    (None, store {| er_consecutive_5xx := 0;
                    er_ejections := if quiet then 0 else er_ejections r;
                    er_ejected_until := if quiet then None else er_ejected_until r;
                    er_last_seen := now |}).

(** The body of a re-enable task whose sleep is over. *)
Definition fire_timer (i : nat) (now : Z) (w : world) : world :=
  match w_timers w !! i with
  | None => w
  | Some t =>
      let w := world_set_enabled (tm_pool t) (tm_addr t) true w in
      World now (w_records w) (w_pools w) (take i (w_timers w) ++ drop (S i) (w_timers w))
  end.

(** ** Runs of the data plane *)

(** What ejection code does: a failed connect, a response, a re-enable task
    that wakes up; and a new pool replacing one whose endpoints changed. *)
Inductive estep (cfg : OutlierConfig) : world -> world -> Prop :=
| es_connect_failed w lb addr now spawned :
    w_now w <= now -> now <= spawned ->
    estep cfg w (snd (connect_failed cfg lb addr now spawned w))
| es_responded w lb addr status now eject_now spawned :
    w_now w <= now -> now <= eject_now -> eject_now <= spawned ->
    estep cfg w (snd (responded cfg lb addr status now eject_now spawned w))
| es_timer w i t now :
    w_timers w !! i = Some t -> w_now w <= now -> tm_deadline t <= now ->
    estep cfg w (fire_timer i now w)
| es_install w lb addrs hc :
    w_pools w !! lb = None ->
    estep cfg w (World (w_now w) (w_records w) (<[lb := Pool_new addrs hc]> (w_pools w)) (w_timers w)).

(** What the rest of the data plane does to pools: selection and health
    checks. *)
Inductive pstep : world -> world -> Prop :=
| ps_select w lb p :
    w_pools w !! lb = Some p ->
    pstep w (World (w_now w) (w_records w) (<[lb := snd (Pool_select p)]> (w_pools w)) (w_timers w))
| ps_health w lb p probe_ok :
    w_pools w !! lb = Some p ->
    pstep w (World (w_now w) (w_records w) (<[lb := run_health_check probe_ok p]> (w_pools w)) (w_timers w)).

(** What one call of the ejection code can do to pools and tasks. *)
Inductive eject_effect (cfg : OutlierConfig) (w w' : world) : Prop :=
| eff_none :
    w_pools w' = w_pools w -> w_timers w' = w_timers w -> w_now w <= w_now w' ->
    eject_effect cfg w w'
| eff_eject lb p addr d :
    w_pools w !! lb = Some p -> (1 < ready_count p)%nat -> d <= oc_max_ejection cfg ->
    w_pools w' = <[lb := snd (Pool_set_enabled addr false p)]> (w_pools w) ->
    w_timers w' = w_timers w ++ [Timer (w_now w' + d) lb addr] ->
    w_now w <= w_now w' ->
    eject_effect cfg w w'.

Lemma Outliers_prune_frame now w :
  w_pools (Outliers_prune now w) = w_pools w /\ w_timers (Outliers_prune now w) = w_timers w /\
  w_now (Outliers_prune now w) = w_now w.
Proof. unfold Outliers_prune. by destruct (_ <? _)%nat. Qed.

Lemma Outliers_eject_effect cfg lb addr now spawned w :
  w_now w <= now -> now <= spawned ->
  eject_effect cfg w (snd (Outliers_eject cfg lb addr now spawned w)).
Proof.
  intros Hn Hs. unfold Outliers_eject.
  destruct (eject_check lb addr w) eqn:Hc; simpl; [|constructor 1; done || lia].
  unfold eject_check in Hc. destruct (w_pools w !! lb) as [p|] eqn:Hp; [|done].
  destruct (Pool_contains addr p); [|done]. simpl in Hc.
  destruct (Nat.leb_spec (ready_count p) 1) as [|Hr]; [done|].
  unfold eject_record. destruct (match er_ejected_until _ with Some _ => _ | None => _ end); simpl.
  - constructor 1; simpl; done || lia.
  - match goal with |- context [Outliers_prune ?n ?w1] =>
      destruct (Outliers_prune_frame n w1) as (Hf1 & Hf2 & Hf3) end.
    unfold eject_disable, world_set_enabled in *. simpl in *. rewrite Hp in *. simpl in *.
    eapply (eff_eject _ _ _ lb p addr); [done|done| |exact Hf1|by rewrite Hf2, Hf3|by rewrite Hf3; lia].
    apply Z.le_min_r.
Qed.

Lemma responded_effect cfg lb addr status now en sp w :
  w_now w <= now -> now <= en -> en <= sp ->
  eject_effect cfg w (snd (responded cfg lb addr status now en sp w)).
Proof.
  intros Hn He Hs. unfold responded. destruct (status >=? 500); simpl.
  - destruct (_ >=? oc_consecutive_5xx cfg); simpl; [|constructor 1; simpl; done || lia].
    match goal with |- eject_effect _ _ (snd (Outliers_eject _ _ _ _ _ ?w1)) =>
      destruct (Outliers_eject_effect cfg lb addr en sp w1) end; simpl in *; try lia.
    + constructor 1; done || lia.
    + econstructor 2; eauto. lia.
  - constructor 1; simpl; done || lia.
Qed.

Lemma fire_timer_frame i t now w :
  w_timers w !! i = Some t ->
  fire_timer i now w = World now (w_records w)
    (match w_pools w !! tm_pool t with
     | Some p => <[tm_pool t := snd (Pool_set_enabled (tm_addr t) true p)]> (w_pools w)
     | None => w_pools w end)
    (take i (w_timers w) ++ drop (S i) (w_timers w)).
Proof.
  intros Ht. unfold fire_timer, world_set_enabled. rewrite Ht.
  by destruct (w_pools w !! tm_pool t).
Qed.

(** ** Sequential guarantees *)

Definition has_ready (lb : positive) (w : world) : Prop :=
  exists p, w_pools w !! lb = Some p /\ (1 <= ready_count p)%nat.

Lemma has_ready_insert (lb lb' : positive) p (pools : gmap positive Pool) :
  (lb = lb' -> (1 <= ready_count p)%nat) ->
  (exists q, pools !! lb = Some q /\ (1 <= ready_count q)%nat) ->
  exists q, <[lb' := p]> pools !! lb = Some q /\ (1 <= ready_count q)%nat.
Proof.
  intros Hp (q & Hq & Hr). destruct (decide (lb = lb')) as [->|Hne].
  - exists p. rewrite lookup_insert_eq. auto.
  - exists q. rewrite lookup_insert_ne by done. auto.
Qed.

Lemma effect_has_ready cfg lb w w' : eject_effect cfg w w' -> has_ready lb w -> has_ready lb w'.
Proof.
  intros [Hp _ _|lb' p addr d Hlb Hr _ Hp _ _] Hw; unfold has_ready; rewrite Hp; [done|].
  apply has_ready_insert; [|done]. intros _.
  pose proof (disable_ready_count addr p). lia.
Qed.

(** as long as ejections run one at a time, a pool that has a ready
    endpoint keeps one through any sequence of failed connects, responses,
    re-enable tasks and pool replacements. *)
Theorem last_ready_endpoint_stays (cfg : OutlierConfig) (w w' : world) (lb : positive)
  (Hruns : rtc (estep cfg) w w') (Hready : has_ready lb w) : has_ready lb w'.
Proof.
  induction Hruns as [|w w1 w2 Hstep _ IH]; [done|]. apply IH. clear IH.
  destruct Hstep as [w lb' addr now sp ? ?|w lb' addr st now en sp ? ? ?|w i t now Ht ? ?|w lb' addrs hc Hn].
  - eapply effect_has_ready; [by apply Outliers_eject_effect|done].
  - eapply effect_has_ready; [by apply responded_effect|done].
  - rewrite (fire_timer_frame i t) by done. unfold has_ready. simpl.
    destruct (w_pools w !! tm_pool t) as [p|] eqn:Hp; [|done].
    apply has_ready_insert; [|done]. intros ->. destruct Hready as (q & Hq & Hr).
    assert (p = q) as -> by congruence. pose proof (enable_ready_count (tm_addr t) q). lia.
  - unfold has_ready. simpl. apply has_ready_insert; [|done]. intros ->.
    destruct Hready as (q & Hq & _). congruence.
Qed.

(** Two endpoints, with failures on both one after the other. *)
Definition two_pool : Pool := Pool_new [addr_n 1; addr_n 2] None.
Definition two_world : world := World 0 ∅ {[1%positive := two_pool]} [].
Definition after_two_failures : world :=
  snd (connect_failed OutlierConfig_default 1 (addr_n 2) 7 8
    (snd (connect_failed OutlierConfig_default 1 (addr_n 1) 5 6 two_world))).

Lemma last_ready_endpoint_stays_witness : has_ready 1 after_two_failures.
Proof.
  apply (last_ready_endpoint_stays OutlierConfig_default two_world after_two_failures 1).
  - eapply rtc_l; [apply (es_connect_failed _ _ 1 (addr_n 1) 5 6); vm_compute; done|].
    eapply rtc_l; [apply (es_connect_failed _ _ 1 (addr_n 2) 7 8); vm_compute; done|].
    apply rtc_refl.
  - exists two_pool. split; [reflexivity|vm_compute; lia].
Defined.

(** Every pool's addresses are distinct; every disabled endpoint has a
    pending task; no task is due later than the longest ejection from now. *)
Record winv (cfg : OutlierConfig) (w : world) : Prop := {
  winv_nodup : forall lb p, w_pools w !! lb = Some p -> NoDup (map ep_addr (endpoints p));
  winv_timer : forall lb p ep, w_pools w !! lb = Some p -> ep ∈ endpoints p -> ep_enabled ep = false ->
    exists t, t ∈ w_timers w /\ tm_pool t = lb /\ tm_addr t = ep_addr ep;
  winv_deadline : forall t, t ∈ w_timers w -> tm_deadline t <= w_now w + oc_max_ejection cfg;
}.

Lemma effect_winv cfg w w' : eject_effect cfg w w' -> winv cfg w -> winv cfg w'.
Proof.
  intros [Hp Ht Hn|lb p addr d Hlb Hr Hd Hp Ht Hn] [H1 H2 H3].
  - split; rewrite ?Hp, ?Ht; [done|done|]. intros t Hin. specialize (H3 t Hin). lia.
  - split; rewrite ?Hp, ?Ht.
    + intros lb' q [[<- <-]|[Hne Hq]]%lookup_insert_Some; [|by eapply H1].
      rewrite set_enabled_addrs. by eapply H1.
    + intros lb' q ep [[<- <-]|[Hne Hq]]%lookup_insert_Some Hep He.
      * apply set_enabled_elem in Hep as [[Ha _]|[Hna Hep]]; [| |by eapply H1].
        -- exists (Timer (w_now w' + d) lb addr). split; [set_solver|done].
        -- destruct (H2 _ _ _ Hlb Hep He) as (t & Hin & ? & ?). exists t. split; [set_solver|done].
      * destruct (H2 _ _ _ Hq Hep He) as (t & Hin & ? & ?). exists t. split; [set_solver|done].
    + intros t [Hin| ->%list_elem_of_singleton]%elem_of_app; simpl; [|lia].
      specialize (H3 t Hin). lia.
Qed.

Lemma elem_of_delete_index {A} (l : list A) i x y :
  l !! i = Some x -> y ∈ l -> y = x \/ y ∈ take i l ++ drop (S i) l.
Proof.
  intros Hi Hy. rewrite <- (take_drop_middle l i x Hi) in Hy. rewrite elem_of_app, elem_of_cons in Hy.
  rewrite elem_of_app. tauto.
Qed.

Lemma timer_winv cfg i t now w :
  w_timers w !! i = Some t -> w_now w <= now -> winv cfg w -> winv cfg (fire_timer i now w).
Proof.
  intros Ht Hnow [H1 H2 H3]. rewrite (fire_timer_frame i t) by done.
  assert (Hsub : forall s, s ∈ take i (w_timers w) ++ drop (S i) (w_timers w) -> s ∈ w_timers w).
  { intros s. rewrite <- (take_drop_middle _ i t Ht) at 3. set_solver. }
  split; simpl.
  - intros lb q Hq. destruct (w_pools w !! tm_pool t) as [p|] eqn:Hp; [|by eapply H1].
    apply lookup_insert_Some in Hq as [[<- <-]|[Hne Hq]]; [|by eapply H1].
    rewrite set_enabled_addrs. by eapply H1.
  - intros lb q ep Hq Hep He.
    assert (Hold : exists q0, w_pools w !! lb = Some q0 /\ ep ∈ endpoints q0 /\
                     ~ (tm_pool t = lb /\ tm_addr t = ep_addr ep)).
    { destruct (w_pools w !! tm_pool t) as [p|] eqn:Hp.
      - apply lookup_insert_Some in Hq as [[<- <-]|[Hne Hq]].
        + apply set_enabled_elem in Hep as [[_ Hen]|[Hna Hep]]; [congruence| |by eapply H1].
          exists p. split; [done|]. split; [done|]. intros [_ ?]. congruence.
        + exists q. split; [done|]. split; [done|]. intros [? _]. congruence.
      - exists q. split; [done|]. split; [done|]. intros [? _]. congruence. }
    destruct Hold as (q0 & Hq0 & Hep0 & Hnt). destruct (H2 _ _ _ Hq0 Hep0 He) as (s & Hs & Hs1 & Hs2).
    destruct (elem_of_delete_index _ _ _ _ Ht Hs) as [->|]; [by destruct Hnt|by exists s].
  - intros s Hs. specialize (H3 s (Hsub s Hs)). lia.
Qed.

Lemma pstep_winv cfg w w' : pstep w w' -> winv cfg w -> winv cfg w'.
Proof.
  intros Hs [H1 H2 H3]. 
  assert (Hg : exists lb p p' g, w_pools w !! lb = Some p /\ w_timers w' = w_timers w /\
    w_now w' = w_now w /\ w_pools w' = <[lb := p']> (w_pools w) /\
    endpoints p' = map g (endpoints p) /\
    forall ep, ep_addr (g ep) = ep_addr ep /\ ep_enabled (g ep) = ep_enabled ep).
  { destruct Hs as [w lb p Hp|w lb p probe_ok Hp].
    - exists lb, p, (snd (Pool_select p)), id. split_and!; try done.
      unfold Pool_select. rewrite List.map_id. by destruct (_ =? 0)%nat.
    - destruct (health_check_flags probe_ok p) as (g & Hg1 & Hg2).
      by exists lb, p, (run_health_check probe_ok p), g. }
  destruct Hg as (lb & p & p' & g & Hp & Ht & Hn & Hps & Hg & Hflags).
  split; rewrite ?Hps, ?Ht, ?Hn; [| |done].
  - intros lb' q [[<- <-]|[Hne Hq]]%lookup_insert_Some; [|by eapply H1].
    rewrite Hg, List.map_map. erewrite List.map_ext; [by eapply H1|]. intros ep. apply Hflags.
  - intros lb' q ep [[<- <-]|[Hne Hq]]%lookup_insert_Some Hep He; [|by eapply H2].
    rewrite Hg in Hep. apply list_elem_of_In, List.in_map_iff in Hep as (ep0 & <- & Hep0).
    rewrite <- list_elem_of_In in Hep0. destruct (Hflags ep0) as [Ha Hen].
    rewrite Ha. eapply H2; [exact Hp|exact Hep0|congruence].
Qed.

Lemma install_winv cfg w lb addrs hc :
  winv cfg w ->
  winv cfg (World (w_now w) (w_records w) (<[lb := Pool_new addrs hc]> (w_pools w)) (w_timers w)).
Proof.
  intros [H1 H2 H3]. split; simpl; [| |done].
  - intros lb' q [[<- <-]|[Hne Hq]]%lookup_insert_Some; [|by eapply H1].
    simpl. rewrite List.map_map, List.map_id. apply pool_addrs_nodup.
  - intros lb' q ep [[<- <-]|[Hne Hq]]%lookup_insert_Some Hep He; [|by eapply H2].
    apply list_elem_of_In, List.in_map_iff in Hep as (a & <- & _). done.
Qed.

Lemma estep_winv cfg w w' : estep cfg w w' -> winv cfg w -> winv cfg w'.
Proof.
  intros [] Hw.
  - eapply effect_winv; [by apply Outliers_eject_effect|done].
  - eapply effect_winv; [by apply responded_effect|done].
  - by eapply timer_winv.
  - by apply install_winv.
Qed.

(** A data plane that has just started. *)
Definition world_init (now : Z) : world := World now ∅ ∅ [].

Definition run_steps (cfg : OutlierConfig) : relation world :=
  rtc (fun w w' => estep cfg w w' \/ pstep w w').

Lemma run_winv cfg now w : run_steps cfg (world_init now) w -> winv cfg w.
Proof.
  intros Hr. assert (H0 : winv cfg (world_init now)).
  { split; simpl; [intros lb p; by rewrite lookup_empty|intros lb p ep; by rewrite lookup_empty|].
    intros t Ht. by apply elem_of_nil in Ht. }
  induction Hr as [|w1 w2 w3 [Hs|Hs] _ IH]; eauto using estep_winv, pstep_winv.
Qed.

(** no ejection is forever.  In every run of the data plane from its
    start, selection and health checks included, a disabled endpoint of any
    pool has a pending re-enable task, due no later than the longest ejection
    from now, and that task enables it. *)
Theorem ejection_always_ends (cfg : OutlierConfig) (now : Z) (w : world)
  (lb : positive) (p : Pool) (ep : Endpoint)
  (Hruns : run_steps cfg (world_init now) w)
  (Hp : w_pools w !! lb = Some p) (Hep : ep ∈ endpoints p) (Hout : ep_enabled ep = false) :
  exists i t, w_timers w !! i = Some t /\ tm_deadline t <= w_now w + oc_max_ejection cfg /\
    exists p', w_pools (fire_timer i (tm_deadline t) w) !! lb = Some p' /\
      forall ep', ep' ∈ endpoints p' -> ep_addr ep' = ep_addr ep -> ep_enabled ep' = true.
Proof.
  destruct (run_winv cfg now w Hruns) as [H1 H2 H3].
  destruct (H2 lb p ep Hp Hep Hout) as (t & Hin & Hlb & Ha).
  pose proof Hin as [i Hi]%list_elem_of_lookup. exists i, t. split; [done|]. split; [by apply H3|].
  rewrite (fire_timer_frame i t) by done. simpl. rewrite Hlb, Hp.
  eexists. split; [apply lookup_insert_eq|]. intros ep' Hep' Ha'.
  apply set_enabled_elem in Hep' as [[_ He]|[Hne _]]; [done|congruence|by eapply H1].
Qed.

Definition ejected_world : world :=
  snd (connect_failed OutlierConfig_default 1 (addr_n 1) 5 6
    (World 0 ∅ (<[1%positive := two_pool]> ∅) [])).

Lemma ejection_always_ends_witness :
  exists i t, w_timers ejected_world !! i = Some t /\ tm_deadline t <= 6 + 300 * 1000000000.
Proof.
  destruct (ejection_always_ends OutlierConfig_default 0 ejected_world 1
    (snd (Pool_set_enabled (addr_n 1) false two_pool))
    (Endpoint_set_enabled false (Endpoint_new (addr_n 1)))) as (i & t & Hi & Hd & _).
  - eapply rtc_l; [left; by apply (es_install _ (world_init 0) 1 [addr_n 1; addr_n 2] None)|].
    eapply rtc_l; [left; apply (es_connect_failed _ _ 1 (addr_n 1) 5 6); vm_compute; done|].
    apply rtc_refl.
  - vm_compute. reflexivity.
  - vm_compute. constructor.
  - reflexivity.
  - exists i, t. split; [exact Hi|exact Hd].
Defined.

(** ** A pool rebuilt during an ejection *)

Lemma eject_disable_records lb addr sp d w : w_records (eject_disable lb addr sp d w) = w_records w.
Proof. unfold eject_disable, world_set_enabled. by destruct (w_pools w !! lb). Qed.

Lemma eject_records cfg lb addr now sp w d w' :
  Outliers_eject cfg lb addr now sp w = (Some d, w') ->
  exists r, w_records w' !! addr = Some r /\ er_ejected_until r = Some (now + d).
Proof.
  unfold Outliers_eject. destruct (eject_check lb addr w); simpl; [|done].
  unfold eject_record. destruct (match er_ejected_until _ with Some _ => _ | None => _ end); [done|].
  intros Heq. simplify_eq. set (r := {| er_consecutive_5xx := 0; er_last_seen := now |}).
  exists r. split; [|done]. unfold Outliers_prune.
  destruct (_ <? _)%nat; cbn [w_records]; rewrite eject_disable_records; cbn [w_records]; [|by rewrite lookup_insert_eq].
  apply map_lookup_filter_Some. rewrite lookup_insert_eq. split; [done|]. simpl.
  unfold saturating_sub, STALE_AFTER. lia.
Qed.

(** the ejection record is keyed by address alone, so it also applies to
    the pool that replaces the one the endpoint was ejected from.  While the
    ejection lasts, a failed connect through the new pool, in which the
    endpoint is enabled, ejects nothing: no pool changes. *)
Theorem rebuilt_pool_not_ejected_again (cfg : OutlierConfig) (lb lb' : positive)
  (addr : SocketAddr) (now sp now' sp' : Z) (addrs : list SocketAddr) (hc : option HealthCheck)
  (w w1 : world) (d : Z)
  (Heject : connect_failed cfg lb addr now sp w = (Some d, w1))
  (Hduring : now' < now + d) :
  let w2 := World (w_now w1) (w_records w1) (<[lb' := Pool_new addrs hc]> (w_pools w1)) (w_timers w1) in
  fst (connect_failed cfg lb' addr now' sp' w2) = None /\
  w_pools (snd (connect_failed cfg lb' addr now' sp' w2)) = w_pools w2.
Proof.
  destruct (eject_records _ _ _ _ _ _ _ _ Heject) as (r & Hr & Hu). cbv zeta.
  unfold connect_failed, Outliers_eject. destruct (eject_check _ _ _); simpl; [|done].
  unfold eject_record. simpl. rewrite Hr. simpl. rewrite Hu.
  by rewrite (proj2 (Z.ltb_lt now' (now + d))).
Qed.

Lemma rebuilt_pool_not_ejected_again_witness :
  let w2 := World (w_now ejected_world) (w_records ejected_world)
              (<[2%positive := Pool_new (map addr_n [1; 2; 3]) None]> (w_pools ejected_world))
              (w_timers ejected_world) in
  fst (connect_failed OutlierConfig_default 2 (addr_n 1) 1000 1001 w2) = None.
Proof.
  cbv zeta.
  apply (rebuilt_pool_not_ejected_again OutlierConfig_default 1 2 (addr_n 1) 5 6 1000 1001
    (map addr_n [1; 2; 3]) None (World 0 ∅ (<[1%positive := two_pool]> ∅) []) ejected_world
    (10 * 1000000000)).
  - vm_compute. reflexivity.
  - lia.
Defined.

(** ** Concurrent ejections *)

(** Where a call of [eject] is. *)
Inductive ejector :=
| EjEntered (lb : positive) (addr : SocketAddr)
| EjChecked (lb : positive) (addr : SocketAddr)
| EjRecorded (lb : positive) (addr : SocketAddr) (now duration : Z)
| EjDone (r : option Z).

(** One shared access of one call; the clock may move before it. *)
Inductive istep (cfg : OutlierConfig) : world * list ejector -> world * list ejector -> Prop :=
| is_refused w es i lb addr :
    es !! i = Some (EjEntered lb addr) -> eject_check lb addr w = false ->
    istep cfg (w, es) (w, <[i := EjDone None]> es)
| is_checked w es i lb addr :
    es !! i = Some (EjEntered lb addr) -> eject_check lb addr w = true ->
    istep cfg (w, es) (w, <[i := EjChecked lb addr]> es)
| is_recorded w es i lb addr now w' r :
    es !! i = Some (EjChecked lb addr) -> w_now w <= now ->
    eject_record cfg addr now w = (r, w') ->
    istep cfg (w, es)
      (w', <[i := match r with Some d => EjRecorded lb addr now d | None => EjDone None end]> es)
| is_disabled w es i lb addr now d spawned :
    es !! i = Some (EjRecorded lb addr now d) -> w_now w <= spawned ->
    istep cfg (w, es) (Outliers_prune now (eject_disable lb addr spawned d w),
                       <[i := EjDone (Some d)]> es).

(** Both calls pass the guard, then both update their records, then both
    disable. *)
Definition race_cfg : OutlierConfig := OutlierConfig_default.
Definition race_recorded1 : world := snd (eject_record race_cfg (addr_n 1) 1 two_world).
Definition race_recorded2 : world := snd (eject_record race_cfg (addr_n 2) 1 race_recorded1).
Definition race_disabled1 : world :=
  Outliers_prune 1 (eject_disable 1 (addr_n 1) 2 (10 * 1000000000) race_recorded2).
Definition race_disabled2 : world :=
  Outliers_prune 1 (eject_disable 1 (addr_n 2) 2 (10 * 1000000000) race_disabled1).

(** the guard that keeps the last ready endpoint reads [ready_count]
    before the endpoint is disabled, and nothing holds the pool in between:
    two connect failures handled at the same time take both endpoints of a
    two-endpoint pool out, and selection then finds none. *)
Theorem concurrent_ejections_empty_pool :
  exists w p, rtc (istep OutlierConfig_default)
      (two_world, [EjEntered 1 (addr_n 1); EjEntered 1 (addr_n 2)])
      (w, [EjDone (Some (10 * 1000000000)); EjDone (Some (10 * 1000000000))]) /\
    w_pools w !! 1%positive = Some p /\ ready_count p = 0%nat /\ fst (Pool_select p) = None.
Proof.
  exists race_disabled2, (default two_pool (w_pools race_disabled2 !! 1%positive)).
  split; [|split_and!; vm_compute; reflexivity].
  eapply rtc_l; [apply (is_checked _ two_world _ 0 1 (addr_n 1)); vm_compute; reflexivity|].
  eapply rtc_l; [apply (is_checked _ two_world _ 1 1 (addr_n 2)); vm_compute; reflexivity|].
  eapply rtc_l; [apply (is_recorded _ two_world _ 0 1 (addr_n 1) 1 race_recorded1 (Some (10 * 1000000000)));
    vm_compute; done|].
  eapply rtc_l; [apply (is_recorded _ race_recorded1 _ 1 1 (addr_n 2) 1 race_recorded2 (Some (10 * 1000000000)));
    vm_compute; done|].
  eapply rtc_l; [apply (is_disabled _ race_recorded2 _ 0 1 (addr_n 1) 1 (10 * 1000000000) 2); vm_compute; done|].
  eapply rtc_l; [apply (is_disabled _ race_disabled1 _ 1 1 (addr_n 2) 1 (10 * 1000000000) 2); vm_compute; done|].
  apply rtc_refl.
Qed.
