(* ===== verification/Http.v ===== *)
(** * Replies and header mutations

    The parts of [portus-dataplane-core/src/plan.rs] that build responses and
    rewrite headers, and [ext_auth.rs], which asks an authorization service
    about a request.  A header container is anything with the operations of
    the [HeaderSink] trait and their documented laws. *)
From S2P Require Import Prelude Text Net Types Pool Auth.

(** ** Reply *)

Record Reply := {
  reply_status : Z;
  reply_headers : header_list;
  reply_body : string;
  reply_keepalive : bool;
}.

Definition Reply_empty (status : Z) : Reply :=
  {| reply_status := status; reply_headers := [("content-length", "0")];
     reply_body := EmptyString; reply_keepalive := true |}.

Definition Reply_json (status : Z) (body : string) : Reply :=
  {| reply_status := status;
     reply_headers := [("content-length", show_u (Z.of_nat (String.length body)));
                       ("content-type", "application/json")];
     reply_body := body; reply_keepalive := true |}.

Definition Reply_text (status : Z) (body : string) : Reply :=
  {| reply_status := status;
     reply_headers := [("content-length", show_u (Z.of_nat (String.length body)))];
     reply_body := body; reply_keepalive := true |}.

Definition with_header (r : Reply) (name value : string) : Reply :=
  {| reply_status := reply_status r; reply_headers := reply_headers r ++ [(name, value)];
     reply_body := reply_body r; reply_keepalive := reply_keepalive r |}.

(** ** Header containers *)

(** [HeaderSink]: every value of a name in order, replace, add, remove. *)
Class HeaderSink (H : Type) := {
  sink_values : H -> string -> list string;
  sink_insert : string -> string -> H -> H;
  sink_append : string -> string -> H -> H;
  sink_remove : string -> H -> H;
  sink_values_insert h n v m :
    sink_values (sink_insert n v h) m = if decide (m = n) then [v] else sink_values h m;
  sink_values_append h n v m :
    sink_values (sink_append n v h) m = if decide (m = n) then sink_values h m ++ [v] else sink_values h m;
  sink_values_remove h n m :
    sink_values (sink_remove n h) m = if decide (m = n) then [] else sink_values h m;
}.

Definition sink_get `{HeaderSink H} (h : H) (name : string) : option string := head (sink_values h name).

(** The list of pairs is such a container. *)
Definition map_values (h : HeaderMap) (name : string) : list string :=
  map snd (filter (fun p => p.1 = name) h).
Definition map_remove (name : string) (h : HeaderMap) : HeaderMap := filter (fun p => p.1 <> name) h.
Definition map_append (name value : string) (h : HeaderMap) : HeaderMap := h ++ [(name, value)].

Lemma map_values_append h n v m :
  map_values (map_append n v h) m = if decide (m = n) then map_values h m ++ [v] else map_values h m.
Proof.
  unfold map_values, map_append. rewrite filter_app, filter_cons, filter_nil, map_app. simpl.
  destruct (decide (m = n)) as [->|]; [by rewrite decide_True|].
  rewrite decide_False by done. apply app_nil_r.
Qed.

Lemma map_values_remove h n m :
  map_values (map_remove n h) m = if decide (m = n) then [] else map_values h m.
Proof.
  unfold map_values, map_remove. induction h as [|[a b] h IH]; [by case_decide|].
  rewrite !filter_cons. cbn [fst]. destruct (decide (a <> n)) as [Hn|Hn].
  - rewrite filter_cons. cbn [fst]. destruct (decide (a = m)) as [->|]; [|exact IH].
    rewrite decide_False in IH |- * by done. simpl. by rewrite IH.
  - apply dec_stable in Hn. subst. destruct (decide (m = n)) as [->|]; [exact IH|].
    rewrite decide_False by done. exact IH.
Qed.

Definition map_insert (name value : string) (h : HeaderMap) : HeaderMap :=
  map_append name value (map_remove name h).

Lemma map_values_insert h n v m :
  map_values (map_insert n v h) m = if decide (m = n) then [v] else map_values h m.
Proof. unfold map_insert. rewrite map_values_append, map_values_remove. by case_decide. Qed.

#[export] Instance HeaderMap_sink : HeaderSink HeaderMap := {|
  sink_values := map_values;
  sink_insert := map_insert;
  sink_append := map_append;
  sink_remove := map_remove;
  sink_values_insert := map_values_insert;
  sink_values_append := map_values_append;
  sink_values_remove := map_values_remove;
|}.

(** ** HeaderMutations *)

Record HeaderMutations := {
  mut_add : header_list;
  mut_set : header_list;
  mut_remove : list string;
}.

(** [appended_value] *)
Definition appended_value {HC : HttpCrate} (existing value : string) : string :=
  let merged := existing +:+ "," +:+ value in
  if value_from_bytes_ok merged then merged else value.

(** [HeaderMutations::apply] *)
Definition HeaderMutations_apply {HC : HttpCrate} `{HeaderSink H} (m : HeaderMutations) (headers : H) : H :=
  let headers := fold_left (fun h name => sink_remove name h) (mut_remove m) headers in
  let headers := fold_left (fun h '(name, value) => sink_insert name value h) (mut_set m) headers in
  fold_left (fun h '(name, value) =>
    let merged := match sink_get h name with
                  | Some existing => appended_value existing value
                  | None => value
                  end in
    sink_insert name merged h) (mut_add m) headers.

(** ** ExtAuth *)

Definition MAX_DENIAL_BODY : Z := 64 * 1024.

(** [is_hop_header] *)
Definition is_hop_header (name : string) : bool :=
  bool_decide (name ∈ ["connection"; "keep-alive"; "proxy-connection"; "transfer-encoding"; "te";
                       "trailer"; "upgrade"; "content-length"; "host"]).

Inductive Decision :=
| Allow (set : header_list)
| Deny (reply : Reply).

(** The original request as the authorization service sees it. *)
Record Original (H : Type) := {
  or_method : string;
  or_scheme : string;
  or_host : string;
  or_path_and_query : string;
  or_client_ip : option IpAddr;
  or_headers : H;
}.
Arguments or_method {H}.
Arguments or_scheme {H}.
Arguments or_host {H}.
Arguments or_path_and_query {H}.
Arguments or_client_ip {H}.
Arguments or_headers {H}.

(** The check request: where it goes and its headers. *)
Record CheckRequest := { ck_uri : string; ck_headers : HeaderMap }.

(** What the service answered: status, headers and (if it could be read in
    time and size) body. *)
Record ServiceAnswer := { sa_status : Z; sa_headers : HeaderMap; sa_body : option string }.

(** [ExtAuth::unavailable] *)
Definition ext_unavailable (ext : ExtAuth) : Decision :=
  if ea_fail_open ext then Allow [] else Deny (Reply_text 503 "authorization service unavailable").

Section Check.
Context {HC : HttpCrate} `{RequestHeaders H}.
(** Whether [name] is a header name the [http] crate accepts. *)
Context (name_ok : string -> bool).
(** Whether the crate can build a request for the URI, and the exchange with
    the service: [None] when it fails or times out. *)
Context (uri_ok : string -> bool) (send : SocketAddr -> CheckRequest -> option ServiceAnswer).

(** [ExtAuth::request] *)
Definition ext_request (ext : ExtAuth) (endpoint : SocketAddr) (original : Original H)
  : option CheckRequest :=
  let uri := "http://" +:+ show_socket_addr endpoint +:+ ea_path ext in
  let headers := fold_left (fun (h : HeaderMap) '(name, value) =>
      let wanted := match ea_request_headers ext with
                    | Some list => existsb (fun h => eq_ignore_ascii_case h name) list
                    | None => negb (is_hop_header name)
                    end in
      if wanted && name_ok name && value_from_bytes_ok value
      then sink_append (to_ascii_lowercase name) value h else h) (header_pairs (or_headers original)) [] in
  let set (name value : string) (h : HeaderMap) :=
    if value_from_str_ok value then sink_insert name value h else h in
  let headers := set "x-forwarded-method" (or_method original) headers in
  let headers := set "x-forwarded-proto" (or_scheme original) headers in
  let headers := set "x-forwarded-host" (or_host original) headers in
  let headers := set "x-forwarded-uri" (or_path_and_query original) headers in
  let headers := match or_client_ip original with
                 | Some ip => set "x-forwarded-for" (show_ip ip) headers
                 | None => headers
                 end in
  if uri_ok uri then Some {| ck_uri := uri; ck_headers := headers |} else None.

(** [StatusCode::is_success] *)
Definition is_success (status : Z) : bool := (200 <=? status) && (status <? 300).

(** [ExtAuth::check]; selecting an endpoint advances the pool's rotation. *)
Definition ext_check (ext : ExtAuth) (pool : option Pool) (original : Original H) : Decision * option Pool :=
  if is_empty (ea_service_name ext) then
    (Deny (Reply_text 500 "authorization service not permitted"), pool)
  else
    let '(endpoint, pool) :=
      match pool with
      | Some p => let '(e, p) := Pool_select p in (e, Some p)
      | None => (None, None)
      end in
    match endpoint with
    | None => (ext_unavailable ext, pool)
    | Some endpoint =>
        match ext_request ext endpoint original with
        | None => (ext_unavailable ext, pool)
        | Some request =>
            match send endpoint request with
            | None => (ext_unavailable ext, pool)
            | Some answer =>
                if is_success (sa_status answer) then
                  let set := concat (map (fun name => map (pair name) (sink_values (sa_headers answer) name))
                                         (ea_response_headers ext)) in
                  (Allow set, pool)
                else
                  let body := default EmptyString (sa_body answer) in
                  let headers := ("content-length", show_u (Z.of_nat (String.length body))) ::
                    List.filter (fun p => negb (is_hop_header p.1)) (sa_headers answer) in
                  (Deny {| reply_status := sa_status answer; reply_headers := headers;
                           reply_body := body; reply_keepalive := true |}, pool)
            end
        end
    end.
End Check.

(** ** What mutations do *)

Section MutationLaws.
Context {HC : HttpCrate} `{HeaderSink H}.

Lemma values_fold_remove names (h : H) m :
  sink_values (fold_left (fun h name => sink_remove name h) names h) m =
    if decide (m ∈ names) then [] else sink_values h m.
Proof.
  revert h. induction names as [|n names IH]; intros h; simpl.
  - done.
  - rewrite IH, sink_values_remove. repeat case_decide; set_solver.
Qed.

(** The value the last pair of a list gives a name. *)
Definition last_value (pairs : header_list) (m : string) : option string :=
  snd <$> last (filter (fun p => p.1 = m) pairs).

Lemma values_fold_insert pairs (h : H) m :
  sink_values (fold_left (fun h '(name, value) => sink_insert name value h) pairs h) m =
    match last_value pairs m with Some v => [v] | None => sink_values h m end.
Proof.
  revert h. induction pairs as [|[n v] pairs IH]; intros h; simpl; [done|].
  rewrite IH, sink_values_insert. unfold last_value. rewrite filter_cons. cbn [fst].
  destruct (decide (n = m)) as [->|Hne].
  - rewrite decide_True by done. rewrite last_cons. by destruct (last (filter _ pairs)).
  - by rewrite decide_False.
Qed.

Lemma apply_no_add m (h : H) name :
  mut_add m = [] ->
  sink_values (HeaderMutations_apply m h) name =
    match last_value (mut_set m) name with
    | Some v => [v]
    | None => if decide (name ∈ mut_remove m) then [] else sink_values h name
    end.
Proof.
  intros Ha. unfold HeaderMutations_apply. rewrite Ha. simpl.
  by rewrite values_fold_insert, values_fold_remove.
Qed.
End MutationLaws.

(** the headers authentication owns cannot be forged.  When the
    mutations of a verified identity are applied to a request, every header
    they own has the value set from the identity or none at all, whatever
    the client sent; and it has one value at most, so of several values the
    authorization service returned for a header only the last one reaches
    the backend. *)
Theorem auth_headers_not_forgeable (HC : HttpCrate) (Hd : Type) (HS : HeaderSink Hd)
  (m : HeaderMutations) (client : Hd) (name : string)
  (Hadd : mut_add m = []) (Howned : name ∈ mut_remove m) :
  sink_values (HeaderMutations_apply m client) name = option_list (last_value (mut_set m) name).
Proof. rewrite apply_no_add, decide_True by done. by destruct (last_value _ _). Qed.

Lemma auth_headers_not_forgeable_witness :
  let m := {| mut_add := []; mut_set := [("x-groups", "eng"); ("x-groups", "ops")];
              mut_remove := ["x-groups"; "x-user"] |} in
  let client : HeaderMap := [("x-user", "root"); ("x-groups", "admin"); ("accept", "any")] in
  sink_values (@HeaderMutations_apply sample_http _ _ m client) "x-groups" = ["ops"] /\
  sink_values (@HeaderMutations_apply sample_http _ _ m client) "x-user" = [].
Proof.
  cbv zeta. split; rewrite (auth_headers_not_forgeable sample_http HeaderMap _ _ _ _);
    try reflexivity; set_solver.
Defined.
