(* ===== verification/Plan.v ===== *)
(** * Planning a request

    [plan_request] of [portus-dataplane-core/src/plan.rs] with everything it
    calls: the whole decision, early returns included, over a store of the
    objects requests share (pools, token buckets, breakers, connection
    limiters, JWT verifiers, the worker's weight counter, mirror permits).
    The clock, random rolls and the outside world are arguments.  Metrics and
    trace spans are left out; nothing is decided by them. *)
From S2P Require Import Prelude Text Net Types Atomic CircuitBreaker RateLimiter Router Auth Keys Pool Http.

(** ** The store *)

Record token_bucket := { tb_epoch : Z; tb_word : Z }.
Record per_ip_object := { po_epoch : Z; po_limiter : PerIpRateLimiter }.
Record breaker := { cb_config : CircuitBreakerConfig; cb_epoch : Z; cb_word : Z }.
Record limiter := { cl_max : Z; cl_active : Z }.

(** A mirror task: the endpoint and the request it writes. *)
Record mirror_task := { mt_addr : SocketAddr; mt_request : string }.

Record store := {
  st_pools : gmap positive Pool;
  st_buckets : gmap positive token_bucket;
  st_per_ip : gmap positive per_ip_object;
  st_breakers : gmap positive breaker;
  st_limiters : gmap positive limiter;
  st_jwt : gmap positive JwtAuth;
  st_weight_counter : Z;
  st_mirror_permits : Z;
  st_mirrors : list mirror_task;
}.

Definition set_pools (s : store) (p : gmap positive Pool) : store :=
  {| st_pools := p; st_buckets := st_buckets s; st_per_ip := st_per_ip s; st_breakers := st_breakers s;
     st_limiters := st_limiters s; st_jwt := st_jwt s; st_weight_counter := st_weight_counter s;
     st_mirror_permits := st_mirror_permits s; st_mirrors := st_mirrors s |}.
Definition set_buckets (s : store) (b : gmap positive token_bucket) : store :=
  {| st_pools := st_pools s; st_buckets := b; st_per_ip := st_per_ip s; st_breakers := st_breakers s;
     st_limiters := st_limiters s; st_jwt := st_jwt s; st_weight_counter := st_weight_counter s;
     st_mirror_permits := st_mirror_permits s; st_mirrors := st_mirrors s |}.
Definition set_per_ip (s : store) (p : gmap positive per_ip_object) : store :=
  {| st_pools := st_pools s; st_buckets := st_buckets s; st_per_ip := p; st_breakers := st_breakers s;
     st_limiters := st_limiters s; st_jwt := st_jwt s; st_weight_counter := st_weight_counter s;
     st_mirror_permits := st_mirror_permits s; st_mirrors := st_mirrors s |}.
Definition set_breakers (s : store) (b : gmap positive breaker) : store :=
  {| st_pools := st_pools s; st_buckets := st_buckets s; st_per_ip := st_per_ip s; st_breakers := b;
     st_limiters := st_limiters s; st_jwt := st_jwt s; st_weight_counter := st_weight_counter s;
     st_mirror_permits := st_mirror_permits s; st_mirrors := st_mirrors s |}.
Definition set_limiters (s : store) (l : gmap positive limiter) : store :=
  {| st_pools := st_pools s; st_buckets := st_buckets s; st_per_ip := st_per_ip s; st_breakers := st_breakers s;
     st_limiters := l; st_jwt := st_jwt s; st_weight_counter := st_weight_counter s;
     st_mirror_permits := st_mirror_permits s; st_mirrors := st_mirrors s |}.
Definition set_jwt (s : store) (j : gmap positive JwtAuth) : store :=
  {| st_pools := st_pools s; st_buckets := st_buckets s; st_per_ip := st_per_ip s; st_breakers := st_breakers s;
     st_limiters := st_limiters s; st_jwt := j; st_weight_counter := st_weight_counter s;
     st_mirror_permits := st_mirror_permits s; st_mirrors := st_mirrors s |}.
Definition set_weight_counter (s : store) (c : Z) : store :=
  {| st_pools := st_pools s; st_buckets := st_buckets s; st_per_ip := st_per_ip s; st_breakers := st_breakers s;
     st_limiters := st_limiters s; st_jwt := st_jwt s; st_weight_counter := c;
     st_mirror_permits := st_mirror_permits s; st_mirrors := st_mirrors s |}.
Definition set_mirrors (s : store) (permits : Z) (m : list mirror_task) : store :=
  {| st_pools := st_pools s; st_buckets := st_buckets s; st_per_ip := st_per_ip s; st_breakers := st_breakers s;
     st_limiters := st_limiters s; st_jwt := st_jwt s; st_weight_counter := st_weight_counter s;
     st_mirror_permits := permits; st_mirrors := m |}.

(** ** Requests and plans *)

Record RequestFacts (H : Type) := {
  rf_host : string;
  rf_path : string;
  rf_path_and_query : string;
  rf_query : option string;
  rf_method : string;
  rf_headers : H;
  rf_local_port : Z;
  rf_socket_is_tls : bool;
  rf_sni : option string;
  rf_peer_ip : option IpAddr;
  rf_body_fields : option BodyFields;
}.
Arguments rf_host {H} _.
Arguments rf_path {H} _.
Arguments rf_path_and_query {H} _.
Arguments rf_query {H} _.
Arguments rf_method {H} _.
Arguments rf_headers {H} _.
Arguments rf_local_port {H} _.
Arguments rf_socket_is_tls {H} _.
Arguments rf_sni {H} _.
Arguments rf_peer_ip {H} _.
Arguments rf_body_fields {H} _.

Record BodyNeed := { bn_keys : list string; bn_max_bytes : Z }.

Definition OAUTH_METADATA_PATH : string := "/.well-known/oauth-protected-resource".
Definition HTTP01_PATH_PREFIX : string := "/.well-known/acme-challenge/".
Definition AI_BODY_KEYS : list string := ["model"; "stream"; "max_tokens"; "method"; "id"; "params"].
Definition AI_BODY_SCAN_LIMIT : Z := 8 * 1024 * 1024.

(** [Forward], without its metrics and span. *)
Record Forward := {
  fw_service_name : string;
  fw_port : Z;
  fw_pool : option positive;
  fw_backend_tls : option positive;
  fw_client_identity : option positive;
  fw_upstream_tls : bool;
  fw_upstream_sni : string;
  fw_upstream_verify : bool;
  fw_protocol : BackendProtocol;
  fw_connect_timeout : option Z;
  fw_read_timeout : option Z;
  fw_write_timeout : option Z;
  fw_request_timeout : option Z;
  fw_has_timeout : bool;
  fw_max_retries : Z;
  fw_retry_on : list string;
  fw_retry_codes : list Z;
  fw_max_request_body_bytes : Z;
  fw_request_headers : HeaderMutations;
  fw_auth_headers : option HeaderMutations;
  fw_response_headers : HeaderMutations;
  fw_rewrite_path : option string;
  fw_rewrite_hostname : option string;
  fw_cors : option (string * CorsConfig * bool);
  fw_circuit_breaker : option positive;
  fw_connection_limiter : option positive;
  fw_ai : option AiBackend;
}.

Inductive Plan :=
| Respond (reply : Reply)
| PlanForward (forward : Forward)
| NeedsBody (need : BodyNeed).

(** ** A step of the planner: go on with a value, or return early *)

(** What the early returns of [plan_request] produce. *)
Inductive EarlyReturn :=
| EarlyRespond (reply : Reply)
| EarlyNeedsBody (need : BodyNeed).

Definition early_plan (e : EarlyReturn) : Plan :=
  match e with EarlyRespond reply => Respond reply | EarlyNeedsBody need => NeedsBody need end.

Definition M (A : Type) : Type := store -> result A EarlyReturn * store.

Definition ret {A} (a : A) : M A := fun s => (Ok a, s).
Definition stop {A} (p : EarlyReturn) : M A := fun s => (Err p, s).
Definition bind {A B} (m : M A) (f : A -> M B) : M B := fun s =>
  match m s with
  | (Ok a, s) => f a s
  | (Err p, s) => (Err p, s)
  end.
Definition respond {A} (r : Reply) : M A := stop (EarlyRespond r).

Notation "'let*' x ':=' c 'in' k" := (bind c (fun x => k))
  (at level 10, x pattern, c at level 100, k at level 200) : rust_scope.

(** What a request reads from outside the store: pending ACME challenges, the
    clocks, whether each sampled mirror was rolled in, and how the blocking
    pool treated a password check. *)
Record Env := {
  e_http01 : gmap string string;
  e_unix_now : Z;
  e_rate_reads : Z * Z * Z;
  e_breaker_reads : Z * Z;
  e_mirror_sampled : nat -> bool;
  e_bcrypt_permit : bool;
  e_bcrypt_joined : bool;
}.

(** The third-party functions planning calls. *)
Class Libs (Key : Type) := {
  lib_http :: HttpCrate;
  lib_jwt :: JwtCrate Key;
  lib_regex : Regex -> string -> bool;
  lib_net_contains : IpNet -> IpAddr -> bool;
  lib_bcrypt : string -> string -> option bool;
  lib_sha256 : string -> string;
  lib_name_ok : string -> bool;
  lib_uri_ok : string -> bool;
  lib_send : SocketAddr -> CheckRequest -> option ServiceAnswer;
  lib_json_string : string -> string;
}.

(** [header_value] *)
Definition header_value {HC : HttpCrate} (s : string) : string := if value_from_str_ok s then s else EmptyString.

(** [has_request_body] *)
Definition has_request_body `{RequestHeaders H} (headers : H) : bool :=
  header_contains headers "transfer-encoding" ||
  match header_str headers "content-length" with
  | Some cl => negb (bool_decide (trim cl = "0"))
  | None => false
  end.

(** [http01_key_authorization] *)
Definition http01_key_authorization (table : gmap string string) (token : string) : option string :=
  if decide (table = ∅) then None else table !! token.

(** [redirect_location] *)
Definition redirect_location (pr : PathRoute) (redirect : RedirectConfig) (host path original_scheme : string)
  (original_port : Z) : string :=
  let effective_scheme := default original_scheme (rd_scheme redirect) in
  let location := effective_scheme +:+ "://" +:+ default host (rd_hostname redirect) in
  let effective_port :=
    match rd_port redirect, rd_scheme redirect with
    | Some p, _ => Some p
    | None, Some _ => None
    | None, None => Some original_port
    end in
  let location :=
    match effective_port with
    | Some port =>
        let is_default_port :=
          (bool_decide (effective_scheme = "http") && (port =? 80)) ||
          (bool_decide (effective_scheme = "https") && (port =? 443)) in
        if is_default_port then location else location +:+ ":" +:+ show_u port
    | None => location
    end in
  match rd_path redirect with
  | Some redir_path =>
      if decide (rd_path_type redirect = "ReplaceFullPath") then location +:+ redir_path
      else if decide (rd_path_type redirect = "ReplacePrefixMatch") then
        match strip_prefix (pr_path pr) path with
        | Some suffix =>
            let location := location +:+ redir_path in
            let location := if negb (ends_with "/" redir_path) && negb (starts_with "/" suffix) &&
                               negb (is_empty suffix) then location +:+ "/" else location in
            if ends_with "/" redir_path && starts_with "/" suffix
            then location +:+ sdrop 1 suffix else location +:+ suffix
        | None => location +:+ redir_path
        end
      else location +:+ path
  | None => location +:+ path
  end.

(** [preflight_reply] *)
Definition preflight_reply {HC : HttpCrate} `{RequestHeaders H} (cors : CorsConfig) (origin : string)
  (has_credentials : bool) (request : H) : Reply :=
  let reply := Reply_empty 200 in
  let acao := cors_allow_origin_value cors origin has_credentials in
  let reply := with_header reply "access-control-allow-origin" (header_value acao) in
  let reply := if bool_decide (acao = "*") then reply else with_header reply "vary" "Origin" in
  let requested_method := default EmptyString (header_str request "access-control-request-method") in
  let methods := cors_methods_value (cors_allow_methods cors) (cors_allow_methods_joined cors) requested_method in
  let reply := if is_empty methods then reply
               else with_header reply "access-control-allow-methods" (header_value methods) in
  let requested_headers := default EmptyString (header_str request "access-control-request-headers") in
  let headers := cors_headers_value (cors_allow_headers cors) (cors_allow_headers_joined cors) requested_headers in
  let reply := if is_empty headers then reply
               else with_header reply "access-control-allow-headers" (header_value headers) in
  let reply := match cors_expose_headers cors with
               | [] => reply
               | _ => with_header reply "access-control-expose-headers" (header_value (cors_expose_headers_joined cors))
               end in
  let reply := if cors_max_age cors >? 0
               then with_header reply "access-control-max-age" (header_value (cors_max_age_str cors)) else reply in
  if cors_allow_credentials cors && negb (bool_decide (acao = "*"))
  then with_header reply "access-control-allow-credentials" "true" else reply.

(** [apply_cors_response_headers] *)
Definition apply_cors_response_headers {HC : HttpCrate} `{HeaderSink H} (headers : H) (origin : string)
  (cors : CorsConfig) (has_credentials : bool) : H :=
  let acao := cors_allow_origin_value cors origin has_credentials in
  let headers := sink_insert "access-control-allow-origin" (header_value acao) headers in
  let headers := if bool_decide (acao = "*") then headers else sink_append "vary" "Origin" headers in
  let headers := if cors_allow_credentials cors && negb (bool_decide (acao = "*"))
                 then sink_insert "access-control-allow-credentials" "true" headers else headers in
  match cors_expose_headers cors with
  | [] => headers
  | _ => sink_insert "access-control-expose-headers" (header_value (cors_expose_headers_joined cors)) headers
  end.

(** [should_retry_connect] *)
Definition should_retry_connect (retry_on : list string) (retries_left : Z) : bool :=
  (retries_left >? 0) &&
  match retry_on with
  | [] => true
  | _ => existsb (fun c => bool_decide (c = "connect-failure") || bool_decide (c = "gateway-error")) retry_on
  end.

(** [route_request_headers] *)
Definition route_request_headers (pr : PathRoute) : HeaderMutations :=
  {| mut_add := pr_request_headers_add pr; mut_set := pr_request_headers_set pr;
     mut_remove := pr_request_headers_remove pr |}.

Section PlanRequest.
Context {Key : Type} {L : Libs Key} `{Hdrs : RequestHeaders H}.
Context (jwks : Jwks Key) (snap : ProxySnapshot) (facts : RequestFacts H) (env : Env).

(** *** Routing *)

(** A pending ACME HTTP-01 challenge is answered before anything else. *)
Definition plan_acme : M unit :=
  match (if rf_socket_is_tls facts then None else strip_prefix HTTP01_PATH_PREFIX (rf_path facts)) with
  | Some token =>
      match http01_key_authorization (e_http01 env) token with
      | Some ka =>
          respond {| reply_status := 200;
                     reply_headers := [("content-length", show_u (Z.of_nat (String.length ka)));
                                       ("content-type", "application/octet-stream")];
                     reply_body := ka; reply_keepalive := true |}
      | None => ret tt
      end
  | None => ret tt
  end.

(** 421 when the SNI and the Host belong to different listeners. *)
Definition plan_misdirected (local_port : Z) : M unit :=
  if rf_socket_is_tls facts then
    let port_buckets := default [] (ps_listeners_by_port snap !! local_port) in
    let sni := trim_end_char "." <$> rf_sni facts in
    if detect_misdirected_request sni (rf_host facts) port_buckets
    then respond (Reply_empty 421) else ret tt
  else ret tt.

(** The listener that claims the host, and the host's routes within it. *)
Definition plan_bucket (local_port : Z) : option ListenerBucket :=
  match match ps_listeners_by_port snap !! local_port with
        | Some bs => select_listener_bucket (rf_host facts) bs
        | None => None
        end with
  | Some b => Some b
  | None => select_listener_bucket (rf_host facts) (ps_any_port_listeners snap)
  end.

Definition bucket_routes (b : ListenerBucket) : option HostRoutes :=
  match lb_exact b !! rf_host facts with
  | Some hr => Some hr
  | None =>
      match lookup_domain_wildcard_bucket (rf_host facts) (lb_domain_wildcards b) with
      | Some hr => Some hr
      | None => lb_catch_all b
      end
  end.

Definition plan_host_routes (local_port : Z) : option HostRoutes :=
  match plan_bucket local_port with Some b => bucket_routes b | None => None end.

(** [ai::jwt::metadata_document] *)
Definition metadata_document (resource issuer scopes : string) : string :=
  let q := String (byte_of 34) EmptyString in
  let quoted s := q +:+ s +:+ q in
  "{" +:+ quoted "resource" +:+ ":" +:+ lib_json_string resource +:+ "," +:+
  quoted "authorization_servers" +:+ ":[" +:+ lib_json_string issuer +:+ "]," +:+
  quoted "bearer_methods_supported" +:+ ":[" +:+ quoted "header" +:+ "]," +:+
  quoted "scopes_supported" +:+ ":[" +:+ join "," (map lib_json_string (split_whitespace scopes)) +:+ "]," +:+
  quoted "resource_name" +:+ ":" +:+ quoted "Portus" +:+ "}".

(** OAuth protected-resource metadata. *)
Definition plan_metadata (original_scheme : string) (host_routes : option HostRoutes) : M unit :=
  match strip_prefix OAUTH_METADATA_PATH (rf_path facts) with
  | Some suffix =>
      if is_empty suffix || starts_with "/" suffix then
        match match host_routes with Some hr => hr_oauth hr | None => None end with
        | Some oauth =>
            let resource := original_scheme +:+ "://" +:+ rf_host facts +:+ trim_end_char "/" suffix in
            respond (Reply_json 200 (metadata_document resource (jp_issuer oauth) (jp_scopes oauth)))
        | None => ret tt
        end
      else ret tt
  | None => ret tt
  end.

(** Ask for the body when the host's routes need it. *)
Definition plan_body (host_routes : option HostRoutes) : M unit :=
  if bool_decide (rf_body_fields facts = None) &&
     match host_routes with Some hr => hr_needs_body hr | None => false end &&
     has_request_body (rf_headers facts)
  then stop (EarlyNeedsBody {| bn_keys := AI_BODY_KEYS; bn_max_bytes := AI_BODY_SCAN_LIMIT |})
  else ret tt.

(** The matching route, or 404. *)
Definition plan_route (host_routes : option HostRoutes) : M PathRoute :=
  match match host_routes with
        | Some hr => match_request_with_body lib_regex hr (rf_path facts) (rf_method facts)
                       (rf_headers facts) (rf_query facts) (rf_body_fields facts)
        | None => None
        end with
  | Some pr => ret pr
  | None =>
      let reply := Reply_text 404 "no route" in
      respond {| reply_status := reply_status reply; reply_headers := reply_headers reply;
                 reply_body := reply_body reply; reply_keepalive := false |}
  end.

(** The redirect filter answers at once. *)
Definition plan_redirect (pr : PathRoute) (original_scheme : string) (local_port : Z) : M unit :=
  match pr_redirect pr with
  | Some redirect =>
      let location := redirect_location pr redirect (rf_host facts) (rf_path facts) original_scheme local_port in
      respond (with_header (Reply_empty (rd_status_code redirect)) "location" (header_value location))
  | None => ret tt
  end.

(** CORS: preflights are answered here, an actual request carries on with
    what its response will need. *)
Definition plan_cors (pr : PathRoute) : M (option (string * CorsConfig * bool)) :=
  match pr_cors pr, header_str (rf_headers facts) "origin" with
  | Some cors_cfg, Some origin =>
      let origin_matched := cors_origin_matches (cors_allow_origins cors_cfg) origin in
      let is_preflight := bool_decide (rf_method facts = "OPTIONS") &&
                          header_contains (rf_headers facts) "access-control-request-method" in
      if negb origin_matched && is_preflight then respond (Reply_empty 403)
      else if origin_matched then
        let has_credentials := header_contains (rf_headers facts) "cookie" ||
                               header_contains (rf_headers facts) "authorization" in
        if is_preflight then respond (preflight_reply cors_cfg origin has_credentials (rf_headers facts))
        else ret (Some (origin, cors_cfg, has_credentials))
      else ret None
  | _, _ => ret None
  end.

(** *** Admission by address and size *)

Definition plan_client_ip (pr : PathRoute) : option IpAddr :=
  (fun peer =>
     match pr_ip_trusted_proxy_cidrs pr with
     | [] => peer
     | cidrs => extract_client_ip lib_net_contains
                  (default EmptyString (header_str (rf_headers facts) "x-forwarded-for")) peer cidrs
     end) <$> rf_peer_ip facts.

Definition ip_denied (pr : PathRoute) (client_ip : option IpAddr) : bool :=
  let allow := pr_ip_allow_cidrs pr in
  match client_ip with
  | Some ip =>
      existsb (fun c => lib_net_contains c ip) (pr_ip_deny_cidrs pr) ||
      (negb (bool_decide (allow = [])) && negb (existsb (fun c => lib_net_contains c ip) allow))
  | None => negb (bool_decide (allow = []))
  end.

Definition plan_ip_filter (pr : PathRoute) (client_ip : option IpAddr) : M unit :=
  if negb (bool_decide (pr_ip_allow_cidrs pr = [])) || negb (bool_decide (pr_ip_deny_cidrs pr = [])) then
    if ip_denied pr client_ip then respond (Reply_text 403 "Forbidden") else ret tt
  else ret tt.

Definition plan_body_limit (pr : PathRoute) : M Z :=
  let max_request_body_bytes :=
    if pr_max_request_body_bytes pr >? 0 then pr_max_request_body_bytes pr
    else DEFAULT_MAX_REQUEST_BODY_BYTES in
  match match header_str (rf_headers facts) "content-length" with Some v => parse_u 64 v | None => None end with
  | Some len => if len >? max_request_body_bytes then respond (Reply_text 413 "Request Entity Too Large")
                else ret max_request_body_bytes
  | None => ret max_request_body_bytes
  end.

(** *** Authentication *)

Definition basic_challenge (realm : string) : string :=
  let q := String (byte_of 34) EmptyString in
  let safe_realm := remove_bytes (fun c => (byte_val c =? 34) || (byte_val c =? 13) || (byte_val c =? 10)) realm in
  "Basic realm=" +:+ q +:+ safe_realm +:+ q.

Definition jwt_challenge (refusal : JwtRefusal) : string :=
  let q := String (byte_of 34) EmptyString in
  let realm := "Bearer realm=" +:+ q +:+ "portus" +:+ q in
  match refusal with
  | JwtMissing => realm
  | JwtInvalid => realm +:+ ", error=" +:+ q +:+ "invalid_token" +:+ q
  end.

(** A header of the request that [HeaderValue::from_bytes] accepts. *)
Definition request_value (name : string) : option string :=
  match header_get (rf_headers facts) name with
  | Some v => if value_from_bytes_ok v then Some v else None
  | None => None
  end.

(** An [Arc] always points at a live object, so the planner never gets here;
    the model needs an answer for a reference the store does not hold. *)
Definition dangling {A} : M A := respond (Reply_empty 500).

Definition plan_jwt (loc : positive) : M (option HeaderMutations) := fun s =>
  match st_jwt s !! loc with
  | None => dangling s
  | Some ja =>
      let '(answer, ja) := JwtAuth_authenticate lib_sha256 value_from_str_ok
                             (header_get (rf_headers facts) "authorization") jwks (e_unix_now env) ja in
      let s := set_jwt s (<[loc := ja]> (st_jwt s)) in
      match answer with
      | Ok set => ret (Some {| mut_add := []; mut_set := set; mut_remove := ja_owned_headers ja |}) s
      | Err refusal => respond (with_header (Reply_empty 401) "www-authenticate" (jwt_challenge refusal)) s
      end
  end.

Definition plan_auth (pr : PathRoute) : M (option HeaderMutations) :=
  match pr_auth_config pr with
  | None => ret None
  | Some (BasicAuth credentials realm) =>
      match validate_basic_auth lib_bcrypt (e_bcrypt_permit env) (e_bcrypt_joined env)
              (request_value "authorization") credentials with
      | Err status =>
          respond (with_header (Reply_empty status) "www-authenticate" (header_value (basic_challenge realm)))
      | Ok _ => ret None
      end
  | Some (ApiKey valid_keys header_name) =>
      match validate_api_key (request_value header_name) valid_keys with
      | Err status => respond (Reply_empty status)
      | Ok _ => ret None
      end
  | Some (Jwt loc) => plan_jwt loc
  end.

(** The external authorization service, asked after the built-in checks; the
    headers it sets are added to those of the verified token. *)
Definition merge_auth (ext : ExtAuth) (auth_headers : option HeaderMutations) (set : header_list)
  : HeaderMutations :=
  match auth_headers with
  | None => {| mut_add := []; mut_set := set; mut_remove := ea_response_headers ext |}
  | Some jwt => {| mut_add := []; mut_set := mut_set jwt ++ set;
                   mut_remove := mut_remove jwt ++ ea_response_headers ext |}
  end.

(** The pool of a backend: its reference, and the object it points at. *)
Definition pool_ref (service : string) (port : Z) : option positive := ps_lbs snap !! (service, port).

Definition pool_at (s : store) (ref : option positive) : option Pool :=
  match ref with Some loc => st_pools s !! loc | None => None end.

Definition put_pool (s : store) (ref : option positive) (p : option Pool) : store :=
  match ref, p with
  | Some loc, Some p => set_pools s (<[loc := p]> (st_pools s))
  | _, _ => s
  end.

Definition plan_ext_auth (pr : PathRoute) (original_scheme : string) (client_ip : option IpAddr)
  (auth_headers : option HeaderMutations) : M (option HeaderMutations) := fun s =>
  match pr_ext_auth pr with
  | None => ret auth_headers s
  | Some ext =>
      let ref := pool_ref (ea_service_name ext) (ea_port ext) in
      let original := {| or_method := rf_method facts; or_scheme := original_scheme; or_host := rf_host facts;
                         or_path_and_query := rf_path_and_query facts; or_client_ip := client_ip;
                         or_headers := rf_headers facts |} in
      let '(decision, pool) := ext_check lib_name_ok lib_uri_ok lib_send ext (pool_at s ref) original in
      let s := put_pool s ref pool in
      match decision with
      | Allow set => ret (Some (merge_auth ext auth_headers set)) s
      | Deny reply => respond reply s
      end
  end.

(** *** The backend *)

Definition backend_headers (pr : PathRoute) (selected : WeightedBackendEntry) : HeaderMutations :=
  let own_headers := negb (bool_decide (wb_request_headers_add selected = [])) ||
                     negb (bool_decide (wb_request_headers_set selected = [])) ||
                     negb (bool_decide (wb_request_headers_remove selected = [])) in
  if own_headers then
    {| mut_add := wb_request_headers_add selected; mut_set := wb_request_headers_set selected;
       mut_remove := wb_request_headers_remove selected |}
  else route_request_headers pr.

Definition plan_backend (pr : PathRoute) : M (string * Z * HeaderMutations) := fun s =>
  let '(selected, counter) :=
    select_weighted_backend (pr_weighted_backends pr) (pr_total_weight pr) (st_weight_counter s) in
  let s := set_weight_counter s counter in
  let '(service_name, port, headers) :=
    match selected with
    | Some b => (wb_service_name b, wb_port b, backend_headers pr b)
    | None => (pr_service_name pr, pr_port pr, route_request_headers pr)
    end in
  if is_empty service_name then respond (Reply_empty 500) s else ret (service_name, port, headers) s.

(** The read timeout after the route's timeouts are folded in, and whether
    there is a route timeout. *)
Definition fold_timeouts (pr : PathRoute) : option Z * bool :=
  let '(read_timeout, has_timeout) :=
    match pr_backend_request_timeout pr with
    | Some t => (Some t, true)
    | None => (pr_read_timeout pr, false)
    end in
  match pr_request_timeout pr with
  | Some t =>
      (match read_timeout with
       | Some existing => if existing <=? t then read_timeout else Some t
       | None => Some t
       end, true)
  | None => (read_timeout, has_timeout)
  end.

(** *** Mirrors *)

Definition strip_crlf (s : string) : string :=
  remove_bytes (fun c => (byte_val c =? 13) || (byte_val c =? 10)) s.

Definition CRLF : string := String (byte_of 13) (String (byte_of 10) EmptyString).

(** The text the mirror task writes. *)
Definition mirror_text (method path host : string) (extra_headers : header_list) : string :=
  method +:+ " " +:+ strip_crlf path +:+ " HTTP/1.1" +:+ CRLF +:+ "Host: " +:+ strip_crlf host +:+ CRLF +:+
  String.concat EmptyString
    (map (fun '(k, v) => strip_crlf k +:+ ": " +:+ strip_crlf v +:+ CRLF) extra_headers) +:+
  "Connection: close" +:+ CRLF +:+ CRLF.

(** [spawn_mirror_request]: the permit goes to the task, or back at once. *)
Definition spawn_mirror_request (service : string) (port : Z) (method path host : string)
  (extra_headers : header_list) (s : store) : store :=
  if st_mirror_permits s <=? 0 then s
  else
    let ref := pool_ref service port in
    match pool_at s ref with
    | None => s
    | Some lb =>
        let '(backend, lb) := Pool_select lb in
        let s := put_pool s ref (Some lb) in
        match backend with
        | None => s
        | Some addr =>
            set_mirrors s (st_mirror_permits s - 1)
              (st_mirrors s ++ [{| mt_addr := addr; mt_request := mirror_text method path host extra_headers |}])
        end
    end.

(** The [i]th mirror task ends and gives its permit back. *)
Definition mirror_done (i : nat) (s : store) : store :=
  match st_mirrors s !! i with
  | None => s
  | Some _ => set_mirrors s (st_mirror_permits s + 1) (delete i (st_mirrors s))
  end.

Definition mirror_headers : header_list :=
  map (fun p => (p.1, default EmptyString (from_utf8 p.2)))
    (List.filter (fun p => starts_with "content-" p.1 || starts_with "x-" p.1 ||
                           bool_decide (p.1 = "accept") || bool_decide (p.1 = "user-agent"))
                 (header_pairs (rf_headers facts))).

Fixpoint plan_mirrors_from (i : nat) (backends : list (string * Z * Z)) (s : store) : store :=
  match backends with
  | [] => s
  | (service, port, percent) :: backends =>
      let skipped := (percent >? 0) && (percent <? 100) && negb (e_mirror_sampled env i) in
      let s := if skipped then s
               else spawn_mirror_request service port (rf_method facts) (rf_path_and_query facts)
                      (rf_host facts) mirror_headers s in
      plan_mirrors_from (S i) backends s
  end.

Definition plan_mirrors (pr : PathRoute) : M unit := fun s =>
  ret tt (plan_mirrors_from 0 (pr_mirror_backends pr) s).

(** *** Limits *)

Definition plan_rate_limit (pr : PathRoute) (client_ip : option IpAddr) : M unit := fun s =>
  let '(t0, t1, t2) := e_rate_reads env in
  let refused := respond (Reply_text 429 "rate limit exceeded") in
  match pr_rate_limiter pr with
  | None => ret tt s
  | Some (Shared rps loc) =>
      match st_buckets s !! loc with
      | None => dangling s
      | Some b =>
          let '(allowed, w) := AtomicTokenBucket_try_acquire rps (as_secs (t0 - tb_epoch b)) (tb_word b) in
          let s := set_buckets s (<[loc := {| tb_epoch := tb_epoch b; tb_word := w |}]> (st_buckets s)) in
          if allowed then ret tt s else refused s
      end
  | Some (PerIp _ loc) =>
      match client_ip with
      | None => refused s
      | Some ip =>
          match st_per_ip s !! loc with
          | None => dangling s
          | Some o =>
              let at_epoch t := t - po_epoch o in
              let '(allowed, l) :=
                PerIpRateLimiter_try_acquire ip (at_epoch t0) (at_epoch t1) (at_epoch t2) (po_limiter o) in
              let s := set_per_ip s (<[loc := {| po_epoch := po_epoch o; po_limiter := l |}]> (st_per_ip s)) in
              if allowed then ret tt s else refused s
          end
      end
  end.

Definition plan_breaker (pr : PathRoute) : M unit := fun s =>
  match pr_circuit_breaker pr with
  | None => ret tt s
  | Some loc =>
      match st_breakers s !! loc with
      | None => dangling s
      | Some b =>
          let '(t1, t2) := e_breaker_reads env in
          let now t := as_secs (t - cb_epoch b) in
          let '(answer, w) := breaker_call (cb_config b) AllowRequest (now t1) (now t2) (cb_word b) in
          let s := set_breakers s (<[loc := {| cb_config := cb_config b; cb_epoch := cb_epoch b; cb_word := w |}]>
                                     (st_breakers s)) in
          match answer with
          | Allowed false => respond (Reply_text 503 "circuit is open") s
          | _ => ret tt s
          end
      end
  end.

Definition plan_limiter (pr : PathRoute) : M unit := fun s =>
  match pr_connection_limiter pr with
  | None => ret tt s
  | Some loc =>
      match st_limiters s !! loc with
      | None => dangling s
      | Some l =>
          let '(ok, active) := ConnectionLimiter_try_acquire (cl_max l) (cl_active l) in
          let s := set_limiters s (<[loc := {| cl_max := cl_max l; cl_active := active |}]> (st_limiters s)) in
          if ok then ret tt s else respond (Reply_text 503 "connection limit reached") s
      end
  end.

(** *** The whole plan *)

Definition build_forward (pr : PathRoute) (max_request_body_bytes : Z)
  (cors : option (string * CorsConfig * bool)) (auth_headers : option HeaderMutations)
  (backend : string * Z * HeaderMutations) : Forward :=
  let '(service_name, port, request_headers) := backend in
  let '(read_timeout, has_timeout) := fold_timeouts pr in
  {| fw_service_name := service_name; fw_port := port;
     fw_pool := pool_ref service_name port;
     fw_backend_tls := ps_backend_tls snap !! (service_name, port);
     fw_client_identity := ps_backend_client_cert snap;
     fw_upstream_tls := pr_upstream_tls pr; fw_upstream_sni := pr_upstream_sni pr;
     fw_upstream_verify := pr_upstream_verify pr; fw_protocol := pr_protocol pr;
     fw_connect_timeout := pr_connect_timeout pr; fw_read_timeout := read_timeout;
     fw_write_timeout := pr_write_timeout pr; fw_request_timeout := pr_request_timeout pr;
     fw_has_timeout := has_timeout; fw_max_retries := pr_max_retries pr;
     fw_retry_on := pr_retry_on pr; fw_retry_codes := pr_retry_codes pr;
     fw_max_request_body_bytes := max_request_body_bytes;
     fw_request_headers := request_headers; fw_auth_headers := auth_headers;
     fw_response_headers := {| mut_add := pr_response_headers_add pr; mut_set := pr_response_headers_set pr;
                               mut_remove := pr_response_headers_remove pr |};
     fw_rewrite_path := rewrite_path pr (rf_path facts); fw_rewrite_hostname := rewrite_hostname pr;
     fw_cors := cors; fw_circuit_breaker := pr_circuit_breaker pr;
     fw_connection_limiter := pr_connection_limiter pr; fw_ai := pr_ai pr |}.

(** Up to the route. *)
Definition plan_routing : M (string * PathRoute) :=
  let* _ := plan_acme in
  let '(original_scheme, local_port) := listener_scheme_and_port (rf_local_port facts) (rf_socket_is_tls facts) in
  let* _ := plan_misdirected local_port in
  let host_routes := plan_host_routes local_port in
  let* _ := plan_metadata original_scheme host_routes in
  let* _ := plan_body host_routes in
  let* pr := plan_route host_routes in
  let* _ := plan_redirect pr original_scheme local_port in
  ret (original_scheme, pr).

(** From the route to an admitted, authenticated request. *)
Definition plan_admission (original_scheme : string) (pr : PathRoute)
  : M (option (string * CorsConfig * bool) * option IpAddr * Z * option HeaderMutations) :=
  let* cors := plan_cors pr in
  let client_ip := plan_client_ip pr in
  let* _ := plan_ip_filter pr client_ip in
  let* max_request_body_bytes := plan_body_limit pr in
  let* auth_headers := plan_auth pr in
  let* auth_headers := plan_ext_auth pr original_scheme client_ip auth_headers in
  ret (cors, client_ip, max_request_body_bytes, auth_headers).

(** The shared limits of a route. *)
Definition plan_limits (pr : PathRoute) (client_ip : option IpAddr) : M unit :=
  let* _ := plan_rate_limit pr client_ip in
  let* _ := plan_breaker pr in
  plan_limiter pr.

(** [plan_request] *)
Definition plan_request_steps : M Forward :=
  let* routed := plan_routing in
  let '(original_scheme, pr) := routed in
  let* admitted := plan_admission original_scheme pr in
  let '(cors, client_ip, max_request_body_bytes, auth_headers) := admitted in
  let* backend := plan_backend pr in
  let* _ := plan_mirrors pr in
  let* _ := plan_limits pr client_ip in
  ret (build_forward pr max_request_body_bytes cors auth_headers backend).

Definition plan_request (s : store) : Plan * store :=
  match plan_request_steps s with
  | (Ok forward, s) => (PlanForward forward, s)
  | (Err early, s) => (early_plan early, s)
  end.

End PlanRequest.

(** ** Reasoning about planner steps *)

(** A step that leaves a view of the store as it was. *)
Definition keeps {A B} (view : store -> B) (m : M A) : Prop := forall s, view (m s).2 = view s.

Section Keeps.
Context {B : Type} (view : store -> B).

Lemma keeps_ret {A} (a : A) : keeps view (ret a).
Proof. done. Qed.

Lemma keeps_stop {A} (p : EarlyReturn) : keeps view (stop (A := A) p).
Proof. done. Qed.

Lemma keeps_respond {A} (r : Reply) : keeps view (respond (A := A) r).
Proof. done. Qed.

Lemma keeps_bind {A C} (m : M A) (k : A -> M C) :
  keeps view m -> (forall a, keeps view (k a)) -> keeps view (bind m k).
Proof.
  intros Hm Hk s. unfold bind. specialize (Hm s). destruct (m s) as [[a|p] s1]; simpl in *; [|done].
  by rewrite Hk.
Qed.

End Keeps.

Create HintDb plan.
#[export] Hint Resolve keeps_ret keeps_stop keeps_respond : plan.

(** Follow the branches of a step that never writes. *)
Ltac keeps_branches :=
  repeat first
    [ progress auto with plan
    | apply keeps_bind; [|intros ?]
    | match goal with
      | |- keeps _ (match ?x with _ => _ end) => destruct x
      | |- keeps _ (if ?x then _ else _) => destruct x
      end ].

(** A run that ended well passed every step. *)
Lemma bind_ok {A C} (m : M A) (k : A -> M C) s c s' :
  bind m k s = (Ok c, s') -> exists a s1, m s = (Ok a, s1) /\ k a s1 = (Ok c, s').
Proof. unfold bind. destruct (m s) as [[a|p] s1]; [eauto|done]. Qed.

Lemma bind_run {A C} (m : M A) (k : A -> M C) s a s1 : m s = (Ok a, s1) -> bind m k s = k a s1.
Proof. unfold bind. by intros ->. Qed.

Lemma bind_stop {A C} (m : M A) (k : A -> M C) s p s1 : m s = (Err p, s1) -> bind m k s = (Err p, s1).
Proof. unfold bind. by intros ->. Qed.

(** What requests compete for: tokens, breakers, slots, the backend rotation
    and mirrors. *)
Definition shared_limits (s : store) :=
  (st_buckets s, st_per_ip s, st_breakers s, st_limiters s, st_weight_counter s, st_mirror_permits s, st_mirrors s).

Section PlanFacts.
Context {Key : Type} {L : Libs Key} `{Hdrs : RequestHeaders H}.
Context (jwks : Jwks Key) (snap : ProxySnapshot) (facts : RequestFacts H) (env : Env).

Lemma plan_routing_keeps {B} (view : store -> B) : keeps view (plan_routing snap facts env).
Proof.
  unfold plan_routing, plan_acme, plan_misdirected, plan_metadata, plan_body, plan_route, plan_redirect.
  keeps_branches.
Qed.

Lemma plan_jwt_keeps {B} (view : store -> B) loc :
  (forall s j, view (set_jwt s j) = view s) -> keeps view (plan_jwt jwks facts env loc).
Proof.
  intros Hv s. unfold plan_jwt. destruct (st_jwt s !! loc); [|done].
  destruct (JwtAuth_authenticate _ _ _ _ _ _) as [[set|refusal] ja]; apply Hv.
Qed.

Lemma plan_auth_keeps {B} (view : store -> B) pr :
  (forall s j, view (set_jwt s j) = view s) -> keeps view (plan_auth jwks facts env pr).
Proof.
  intros Hv. unfold plan_auth.
  destruct (pr_auth_config pr) as [[creds realm|keys name|loc]|]; keeps_branches.
  by apply plan_jwt_keeps.
Qed.

Lemma put_pool_view {B} (view : store -> B) s ref p :
  (forall s ps, view (set_pools s ps) = view s) -> view (put_pool s ref p) = view s.
Proof. intros Hv. unfold put_pool. destruct ref, p; auto. Qed.

Lemma plan_ext_auth_keeps {B} (view : store -> B) pr sch ip auth :
  (forall s ps, view (set_pools s ps) = view s) -> keeps view (plan_ext_auth snap facts pr sch ip auth).
Proof.
  intros Hv s. unfold plan_ext_auth. destruct (pr_ext_auth pr) as [ext|]; [|done].
  destruct (ext_check _ _ _ _ _ _) as [[set|reply] pool]; simpl; by apply put_pool_view.
Qed.

Lemma plan_admission_keeps {B} (view : store -> B) sch pr :
  (forall s j, view (set_jwt s j) = view s) -> (forall s ps, view (set_pools s ps) = view s) ->
  keeps view (plan_admission jwks snap facts env sch pr).
Proof.
  intros Hj Hp. unfold plan_admission, plan_cors, plan_ip_filter, plan_body_limit.
  keeps_branches; auto using plan_auth_keeps, plan_ext_auth_keeps.
Qed.

Local Abbreviation plan := (plan_request jwks snap facts env).
Local Abbreviation routing := (plan_routing snap facts env).
Local Abbreviation admission := (plan_admission jwks snap facts env).

Lemma plan_request_unfold s :
  plan s = match plan_request_steps jwks snap facts env s with
           | (Ok forward, s) => (PlanForward forward, s)
           | (Err early, s) => (early_plan early, s)
           end.
Proof. done. Qed.

Lemma routing_store s r s1 : routing s = (r, s1) -> s1 = s.
Proof. intros Hr. pose proof (plan_routing_keeps id s) as Hk. by rewrite Hr in Hk. Qed.

(** *** Limits are the last thing touched *)

Lemma plan_backend_keeps {B} (view : store -> B) pr :
  (forall s c, view (set_weight_counter s c) = view s) -> keeps view (plan_backend pr).
Proof.
  intros Hv s. unfold plan_backend. destruct (select_weighted_backend _ _ _) as [sel c].
  destruct sel as [b|]; case_match; simpl; apply Hv.
Qed.

Lemma plan_mirrors_keeps {B} (view : store -> B) pr :
  (forall s ps, view (set_pools s ps) = view s) -> (forall s n m, view (set_mirrors s n m) = view s) ->
  keeps view (plan_mirrors snap facts env pr).
Proof.
  intros Hp Hm s. unfold plan_mirrors. cbn [ret snd]. generalize 0%nat as i. revert s.
  induction (pr_mirror_backends pr) as [|[[svc port] pct] l IH]; intros s i; [done|].
  cbn [plan_mirrors_from]. rewrite IH. case_match; [done|].
  unfold spawn_mirror_request. destruct (st_mirror_permits s <=? 0); [done|].
  destruct (pool_at s _) as [lb|]; [|done]. destruct (Pool_select lb) as [[addr|] lb'].
  - by rewrite Hm, put_pool_view.
  - by rewrite put_pool_view.
Qed.

Lemma plan_rate_limit_keeps {B} (view : store -> B) pr ip :
  (forall s b, view (set_buckets s b) = view s) -> (forall s b, view (set_per_ip s b) = view s) ->
  keeps view (plan_rate_limit env pr ip).
Proof.
  intros Hb Hp s. unfold plan_rate_limit. destruct (e_rate_reads env) as [[t0 t1] t2].
  destruct (pr_rate_limiter pr) as [[rps loc|rps loc]|]; [| |done].
  - destruct (st_buckets s !! loc); [|done]. destruct (AtomicTokenBucket_try_acquire _ _ _) as [[] w]; apply Hb.
  - destruct ip as [ip|]; [|done]. destruct (st_per_ip s !! loc); [|done].
    destruct (PerIpRateLimiter_try_acquire _ _ _ _ _) as [[] w]; apply Hp.
Qed.

Lemma plan_breaker_keeps {B} (view : store -> B) pr :
  (forall s b, view (set_breakers s b) = view s) -> keeps view (plan_breaker env pr).
Proof.
  intros Hv s. unfold plan_breaker. destruct (pr_circuit_breaker pr) as [loc|]; [|done].
  destruct (st_breakers s !! loc); [|done]. destruct (e_breaker_reads env) as [t1 t2].
  destruct (breaker_call _ _ _ _ _) as [[[]|] w]; apply Hv.
Qed.

Lemma try_acquire_cases max active :
  ConnectionLimiter_try_acquire max active = if active <? max then (true, active + 1) else (false, active).
Proof.
  unfold ConnectionLimiter_try_acquire, run_alone, limiter_object. cbn [fast body].
  unfold limiter_try_acquire_body. destruct (Z.geb_spec active max), (Z.ltb_spec active max); (done || lia).
Qed.

Definition take_slot (l : limiter) : limiter := {| cl_max := cl_max l; cl_active := cl_active l + 1 |}.

(** [plan_limiter] takes a slot when it goes on, and only then. *)
Lemma plan_limiter_cases pr s :
  match plan_limiter pr s with
  | (Ok _, s') =>
      match pr_connection_limiter pr with
      | Some loc => exists l, st_limiters s !! loc = Some l /\ cl_active l < cl_max l /\
                              st_limiters s' = <[loc := take_slot l]> (st_limiters s)
      | None => s' = s
      end
  | (Err _, s') => st_limiters s' = st_limiters s
  end.
Proof.
  unfold plan_limiter. destruct (pr_connection_limiter pr) as [loc|]; [|done].
  destruct (st_limiters s !! loc) as [l|] eqn:Hl; [|done]. rewrite try_acquire_cases.
  destruct (Z.ltb_spec (cl_active l) (cl_max l)); cbn; [by exists l|].
  apply insert_id. rewrite Hl. by destruct l.
Qed.

Lemma plan_limits_limiters pr ip s :
  match plan_limits env pr ip s with
  | (Ok _, s') =>
      match pr_connection_limiter pr with
      | Some loc => exists l, st_limiters s !! loc = Some l /\ cl_active l < cl_max l /\
                              st_limiters s' = <[loc := take_slot l]> (st_limiters s)
      | None => st_limiters s' = st_limiters s
      end
  | (Err _, s') => st_limiters s' = st_limiters s
  end.
Proof.
  unfold plan_limits, bind.
  pose proof (plan_rate_limit_keeps st_limiters pr ip (fun _ _ => eq_refl) (fun _ _ => eq_refl) s) as H1.
  destruct (plan_rate_limit env pr ip s) as [[[]|p] s1]; cbn [snd] in H1; [|done].
  pose proof (plan_breaker_keeps st_limiters pr (fun _ _ => eq_refl) s1) as H2.
  destruct (plan_breaker env pr s1) as [[[]|p] s2]; cbn [snd] in H2; [|congruence].
  pose proof (plan_limiter_cases pr s2) as H3.
  destruct (plan_limiter pr s2) as [[[]|p] s3]; [|congruence].
  destruct (pr_connection_limiter pr); [by rewrite <- H1, <- H2|congruence].
Qed.

(** The steps between the route and the limits leave the slots alone. *)
Lemma admission_limiters sch pr : keeps st_limiters (admission sch pr).
Proof. by apply plan_admission_keeps. Qed.

Lemma backend_limiters pr : keeps st_limiters (plan_backend pr).
Proof. by apply plan_backend_keeps. Qed.

Lemma mirrors_limiters pr : keeps st_limiters (plan_mirrors snap facts env pr).
Proof. by apply plan_mirrors_keeps. Qed.

(** C17: The planner holds exactly the connection slots it hands over.  A plan
    to forward took one slot of the limiter it carries, below its maximum, and
    no other; any other plan leaves every limiter as it found it. *)
Theorem slot_held_iff_forwarded s :
  match plan s with
  | (PlanForward f, s') =>
      match fw_connection_limiter f with
      | Some loc => exists l, st_limiters s !! loc = Some l /\ cl_active l < cl_max l /\
                              st_limiters s' = <[loc := take_slot l]> (st_limiters s)
      | None => st_limiters s' = st_limiters s
      end
  | (_, s') => st_limiters s' = st_limiters s
  end.
Proof.
  rewrite plan_request_unfold. unfold plan_request_steps, bind.
  destruct (routing s) as [[[sch pr]|p] s1] eqn:Hr; apply routing_store in Hr; subst s1; [|by destruct p].
  pose proof (admission_limiters sch pr s) as Ha.
  destruct (admission sch pr s) as [[[[[cors ip] max] auth]|p] s2]; cbn [snd] in Ha; [|by destruct p].
  pose proof (backend_limiters pr s2) as Hb.
  destruct (plan_backend pr s2) as [[[[svc port] hs]|p] s3]; cbn [snd] in Hb; [|destruct p; congruence].
  pose proof (mirrors_limiters pr s3) as Hm.
  destruct (plan_mirrors snap facts env pr s3) as [[[]|p] s4]; cbn [snd] in Hm; [|destruct p; congruence].
  pose proof (plan_limits_limiters pr ip s4) as Hl.
  destruct (plan_limits env pr ip s4) as [[[]|p] s5]; [|destruct p; congruence].
  cbn [ret]. unfold build_forward. destruct (fold_timeouts pr). cbn [fw_connection_limiter].
  destruct (pr_connection_limiter pr); [by rewrite <- Ha, <- Hb, <- Hm|congruence].
Qed.

(** C16: Only admitted requests compete.  A request stopped before a route is
    chosen (or by its redirect) changes nothing at all; one refused by CORS,
    the address filter, the size limit, its credentials or the authorization
    service spends no rate-limit token, no breaker probe, no connection slot,
    no turn of the weighted rotation and no mirror. *)
Theorem refused_requests_spend_nothing s :
  (forall e s1, routing s = (Err e, s1) -> plan s = (early_plan e, s)) /\
  (forall sch pr e s1 s2, routing s = (Ok (sch, pr), s1) -> admission sch pr s1 = (Err e, s2) ->
     plan s = (early_plan e, s2) /\ shared_limits s2 = shared_limits s).
Proof.
  rewrite plan_request_unfold. unfold plan_request_steps. split.
  - intros p s1 Hr. rewrite (bind_stop _ _ _ _ _ Hr). by rewrite (routing_store _ _ _ Hr).
  - intros sch pr p s1 s2 Hr Ha. rewrite (bind_run _ _ _ _ _ Hr). cbn beta iota.
    rewrite (bind_stop _ _ _ _ _ Ha). split; [done|].
    rewrite <- (routing_store _ _ _ Hr).
    pose proof (plan_admission_keeps shared_limits sch pr (fun _ _ => eq_refl) (fun _ _ => eq_refl) s1) as Hk.
    by rewrite Ha in Hk.
Qed.

End PlanFacts.

(** *** A probe that is never sent *)

Lemma set_breakers_same s : set_breakers s (st_breakers s) = s.
Proof. by destruct s. Qed.

(** A half-open breaker refuses the request and is left as it was. *)
Lemma plan_breaker_half_open env pr s loc b :
  pr_circuit_breaker pr = Some loc -> st_breakers s !! loc = Some b -> extract_state (cb_word b) = HalfOpen ->
  plan_breaker env pr s = (Err (EarlyRespond (Reply_text 503 "circuit is open")), s).
Proof.
  intros Hp Hb Hh. unfold plan_breaker. rewrite Hp, Hb. destruct (e_breaker_reads env) as [t1 t2].
  rewrite allow_request_half_open by done. cbn [respond stop].
  rewrite insert_id by (rewrite Hb; by destruct b). by rewrite set_breakers_same.
Qed.

(** An open breaker whose timeout is over lets the request through and turns
    half-open. *)
Lemma allow_request_probe c t1 t2 w :
  extract_state w = Open -> timeout_secs c <= as_u 32 t1 -w[32] extract_timestamp w ->
  breaker_call c AllowRequest t1 t2 w = (Allowed true, pack HalfOpen (as_u 32 t2) 0 0).
Proof.
  intros Hw Ht. unfold breaker_call, run_alone, breaker_object. cbn [fast body].
  unfold allow_request_fast, allow_request_body. rewrite Hw.
  rewrite decide_False by done. by rewrite (proj2 (Z.geb_le _ _)).
Qed.

(** The planner can lose the breaker's only probe.  When an open
    breaker's timeout is over but the route's connection limit is reached, the
    request turns the breaker half-open and is then refused with 503, without
    reporting to the breaker; from then on every request of the route is
    refused because the circuit is open, whenever it comes and however many
    slots are free. *)
Theorem full_limiter_loses_probe env pr ip s cb b cl l
  (Hrate : pr_rate_limiter pr = None)
  (Hcb : pr_circuit_breaker pr = Some cb) (Hb : st_breakers s !! cb = Some b)
  (Hopen : extract_state (cb_word b) = Open)
  (Hover : timeout_secs (cb_config b)
           <= as_u 32 (as_secs ((e_breaker_reads env).1 - cb_epoch b)) -w[32] extract_timestamp (cb_word b))
  (Hcl : pr_connection_limiter pr = Some cl) (Hl : st_limiters s !! cl = Some l)
  (Hfull : cl_max l <= cl_active l) :
  exists s', plan_limits env pr ip s
             = (Err (EarlyRespond (Reply_text 503 "connection limit reached")), s') /\
    forall env' ip' limiters, plan_limits env' pr ip' (set_limiters s' limiters)
             = (Err (EarlyRespond (Reply_text 503 "circuit is open")), set_limiters s' limiters).
Proof.
  destruct (e_breaker_reads env) as [t1 t2] eqn:He. cbn [fst] in Hover.
  eexists. split.
  - unfold plan_limits, plan_rate_limit. rewrite Hrate. destruct (e_rate_reads env) as [[? ?] ?].
    unfold bind. cbn [ret]. unfold plan_breaker. rewrite Hcb, Hb, He.
    rewrite allow_request_probe by done. cbn [ret]. unfold plan_limiter. rewrite Hcl.
    cbn [st_limiters set_breakers]. rewrite Hl, try_acquire_cases.
    rewrite (proj2 (Z.ltb_ge _ _) Hfull). cbn [respond stop]. reflexivity.
  - intros env' ip' limiters. unfold plan_limits, plan_rate_limit. rewrite Hrate.
    destruct (e_rate_reads env') as [[? ?] ?]. unfold bind. cbn [ret].
    erewrite plan_breaker_half_open; [done|done|cbn; apply lookup_insert_eq|].
    cbn [cb_word]. by autorewrite with portus.
Qed.

(** ** A forwarded request passed every gate *)

Section Gates.
Context {Key : Type} {L : Libs Key} `{Hdrs : RequestHeaders H}.
Context (jwks : Jwks Key) (snap : ProxySnapshot) (facts : RequestFacts H) (env : Env).

(** The credentials a route asks for were accepted. *)
Definition authenticated (pr : PathRoute) (s : store) : Prop :=
  match pr_auth_config pr with
  | None => True
  | Some (BasicAuth credentials _) =>
      validate_basic_auth lib_bcrypt (e_bcrypt_permit env) (e_bcrypt_joined env)
        (request_value facts "authorization") credentials = Ok tt
  | Some (ApiKey valid_keys header_name) => validate_api_key (request_value facts header_name) valid_keys = Ok tt
  | Some (Jwt loc) => exists ja set,
      st_jwt s !! loc = Some ja /\
      (JwtAuth_authenticate lib_sha256 value_from_str_ok (header_get (rf_headers facts) "authorization")
         jwks (e_unix_now env) ja).1 = Ok set
  end.

(** The authorization service allowed the request, or was not asked. *)
Definition authorized (pr : PathRoute) : Prop :=
  match pr_ext_auth pr with
  | None => True
  | Some ext => exists pool original set, (ext_check lib_name_ok lib_uri_ok lib_send ext pool original).1 = Allow set
  end.

Lemma plan_route_ok hr pr s s' :
  plan_route facts hr s = (Ok pr, s') ->
  exists r, hr = Some r /\ match_request_with_body lib_regex r (rf_path facts) (rf_method facts)
    (rf_headers facts) (rf_query facts) (rf_body_fields facts) = Some pr.
Proof.
  unfold plan_route. destruct hr as [r|]; [|done].
  destruct (match_request_with_body _ _ _ _ _ _ _) eqn:Hm; [|done]. cbn. intros [= -> ->]. by exists r.
Qed.

Lemma listener_port_kept port tls : exists sch, listener_scheme_and_port port tls = (sch, port).
Proof. unfold listener_scheme_and_port. destruct (tls || _); eexists; reflexivity. Qed.

Lemma plan_routing_ok s sch pr s' :
  plan_routing snap facts env s = (Ok (sch, pr), s') ->
  pr_redirect pr = None /\
  exists hr, plan_host_routes snap facts (rf_local_port facts) = Some hr /\
    match_request_with_body lib_regex hr (rf_path facts) (rf_method facts)
      (rf_headers facts) (rf_query facts) (rf_body_fields facts) = Some pr.
Proof.
  unfold plan_routing. intros (? & s1 & _ & Hr)%bind_ok.
  destruct (listener_port_kept (rf_local_port facts) (rf_socket_is_tls facts)) as [sch0 Hp]. rewrite Hp in Hr.
  apply bind_ok in Hr as (? & s2 & _ & Hr). apply bind_ok in Hr as (? & s3 & _ & Hr).
  apply bind_ok in Hr as (? & s4 & _ & Hr). apply bind_ok in Hr as (pr0 & s5 & Hroute & Hr).
  apply bind_ok in Hr as (? & s6 & Hredir & [= <- <- <-]).
  split.
  - unfold plan_redirect in Hredir. by destruct (pr_redirect pr0).
  - apply plan_route_ok in Hroute as (r & Hh & Hm). eauto.
Qed.

Lemma plan_ip_filter_ok pr ip s u s' :
  plan_ip_filter pr ip s = (Ok u, s') -> ip_denied pr ip = false.
Proof.
  unfold plan_ip_filter. destruct (ip_denied pr ip) eqn:Hd; [|done].
  case_match eqn:Hset; [done|]. intros _. exfalso. revert Hd Hset. unfold ip_denied.
  destruct (pr_ip_allow_cidrs pr), (pr_ip_deny_cidrs pr); destruct ip; cbn; try done; by rewrite ?orb_true_r.
Qed.

Lemma plan_body_limit_ok pr s max s' len v :
  plan_body_limit facts pr s = (Ok max, s') ->
  header_str (rf_headers facts) "content-length" = Some v -> parse_u 64 v = Some len -> len <= max.
Proof.
  unfold plan_body_limit. cbv zeta. generalize (if pr_max_request_body_bytes pr >? 0 then
    pr_max_request_body_bytes pr else DEFAULT_MAX_REQUEST_BODY_BYTES) as m.
  intros m Hp Hs Hl. rewrite Hs, Hl, Z.gtb_ltb in Hp.
  destruct (Z.ltb_spec m len); [done|]. by injection Hp as <- _.
Qed.

Lemma plan_auth_ok pr s auth s' : plan_auth jwks facts env pr s = (Ok auth, s') -> authenticated pr s.
Proof.
  unfold plan_auth, authenticated. destruct (pr_auth_config pr) as [[creds realm|keys name|loc]|]; [| | |done].
  - by destruct (validate_basic_auth _ _ _ _ _) as [[]|].
  - by destruct (validate_api_key _ _) as [[]|].
  - unfold plan_jwt. destruct (st_jwt s !! loc) as [ja|]; [|done].
    destruct (JwtAuth_authenticate _ _ _ _ _ _) as [[set|refusal] ja'] eqn:Ha; [|done].
    intros _. exists ja, set. by rewrite Ha.
Qed.

Lemma plan_ext_auth_ok pr sch ip auth s r s' :
  plan_ext_auth snap facts pr sch ip auth s = (Ok r, s') -> authorized pr.
Proof.
  unfold plan_ext_auth, authorized. destruct (pr_ext_auth pr) as [ext|]; [|done].
  match goal with |- context [ext_check ?a ?b ?c ext ?pool ?o] => destruct (ext_check a b c ext pool o) as [d q] eqn:He end.
  destruct d as [set|reply]; [|done]. intros _. eexists _, _, set. by rewrite He.
Qed.

Lemma plan_backend_ok pr s svc port hs s' :
  plan_backend pr s = (Ok (svc, port, hs), s') -> svc <> EmptyString.
Proof.
  unfold plan_backend. destruct (select_weighted_backend _ _ _) as [[b|] c];
    case_match eqn:He; try done; intros [= <- <- <- _] Hs; by rewrite Hs in He.
Qed.
(** The checks before authentication do not write. *)
Lemma plan_cors_store pr s r s' : plan_cors facts pr s = (r, s') -> s' = s.
Proof.
  intros Hc. assert (Hk : keeps id (plan_cors facts pr)) by (unfold plan_cors; keeps_branches).
  specialize (Hk s). by rewrite Hc in Hk.
Qed.

Lemma plan_ip_filter_store pr ip s r s' : plan_ip_filter pr ip s = (r, s') -> s' = s.
Proof. unfold plan_ip_filter. repeat case_match; by intros [= _ <-]. Qed.

Lemma plan_body_limit_store pr s r s' : plan_body_limit facts pr s = (r, s') -> s' = s.
Proof. unfold plan_body_limit. repeat case_match; by intros [= _ <-]. Qed.


End Gates.

(** ** CORS *)

(** Credentials are never allowed for a wildcard origin.  A preflight
    answer that allows credentials names the request's own origin, which is
    not [*], and its policy allows credentials; the origin it names is the
    only one. *)
Theorem preflight_credentials_name_origin (HC : HttpCrate) (H : Type) (Hdrs : RequestHeaders H)
  (cors : CorsConfig) (origin : string) (has_credentials : bool) (request : H) v w
  (Hcred : ("access-control-allow-credentials", v)
           ∈ reply_headers (preflight_reply cors origin has_credentials request))
  (Horig : ("access-control-allow-origin", w)
           ∈ reply_headers (preflight_reply cors origin has_credentials request)) :
  cors_allow_credentials cors = true /\ origin <> "*" /\ w = header_value origin.
Proof.
  revert Hcred Horig. unfold preflight_reply.
  set (acao := cors_allow_origin_value cors origin has_credentials).
  set (methods := cors_methods_value _ _ _). set (headers := cors_headers_value _ _ _).
  assert (Hacao : cors_allow_credentials cors = true -> acao = origin).
  { unfold acao, cors_allow_origin_value. by intros ->. }
  destruct (cors_allow_credentials cors) eqn:Hc; cbn [andb].
  2:{ repeat case_match; cbn [with_header reply_headers]; set_unfold; naive_solver. }
  specialize (Hacao eq_refl). destruct (decide (acao = "*")) as [Hs|Hs].
  - rewrite bool_decide_true by done. cbn [negb].
    repeat case_match; cbn [with_header reply_headers]; set_unfold; naive_solver.
  - rewrite Hacao in *. intros _ Ho. split_and!; [done..|]. revert Ho.
    rewrite bool_decide_false by done. cbn [negb].
    repeat case_match; cbn [with_header reply_headers Reply_empty]; set_unfold; naive_solver.
Qed.

Definition sample_cors : CorsConfig :=
  {| cors_allow_origins := ["*"]; cors_allow_methods := ["GET"]; cors_allow_headers := [];
     cors_expose_headers := []; cors_allow_credentials := true; cors_max_age := 5;
     cors_max_age_str := "5"; cors_allow_methods_joined := "GET";
     cors_allow_headers_joined := EmptyString; cors_expose_headers_joined := EmptyString |}.

Lemma preflight_credentials_name_origin_witness :
  cors_allow_credentials sample_cors = true /\ "https://app" <> "*" /\
  "https://app" = @header_value sample_http "https://app".
Proof.
  apply (preflight_credentials_name_origin sample_http HeaderMap _ sample_cors "https://app" false [] "true").
  - vm_compute. set_solver.
  - vm_compute. set_solver.
Defined.

(** ** A worked gateway *)

Module Sample.

#[local] Instance libs : Libs unit := {|
  lib_http := sample_http; lib_jwt := sample_jwt;
  lib_regex re s := bool_decide (re = s); lib_net_contains := sample_contains;
  lib_bcrypt := sample_verify; lib_sha256 := id;
  lib_name_ok _ := true; lib_uri_ok _ := true; lib_send _ _ := None;
  lib_json_string s := s |}.

(** One host, one route: an API key, a breaker and at most one connection. *)
Definition route : PathRoute :=
  {| pr_path := "/"; pr_match_type := PathPrefix; pr_service_name := "web"; pr_port := 80;
     pr_connect_timeout := None; pr_read_timeout := None; pr_write_timeout := None;
     pr_rate_limiter := None; pr_max_retries := 0; pr_upstream_tls := false;
     pr_upstream_sni := "web"; pr_upstream_verify := true; pr_protocol := Http;
     pr_request_headers_add := []; pr_request_headers_set := []; pr_request_headers_remove := [];
     pr_response_headers_add := []; pr_response_headers_set := []; pr_response_headers_remove := [];
     pr_header_matches := []; pr_method_match := None; pr_query_param_matches := [];
     pr_redirect := None; pr_url_rewrite := None; pr_listener_name := EmptyString;
     pr_mirror_backends := []; pr_weighted_backends := []; pr_request_timeout := None;
     pr_backend_request_timeout := None; pr_auth_config := Some (ApiKey {["k1"]} "x-api-key");
     pr_ext_auth := None; pr_cors := None; pr_ip_allow_cidrs := []; pr_ip_deny_cidrs := [];
     pr_ip_trusted_proxy_cidrs := []; pr_max_request_body_bytes := 0; pr_retry_on := [];
     pr_retry_codes := []; pr_circuit_breaker := Some 1%positive;
     pr_connection_limiter := Some 2%positive; pr_total_weight := 0; pr_ai := None |}.

Definition routes : HostRoutes :=
  {| hr_exact_map := ∅; hr_rules := [route]; hr_catch_all := None; hr_needs_body := false; hr_oauth := None |}.

Definition snapshot : ProxySnapshot :=
  {| ps_listeners_by_port :=
       {[80 := [{| lb_listener_hostname := "a.test"; lb_exact := {["a.test" := routes]};
                   lb_domain_wildcards := ∅; lb_catch_all := None |}]]};
     ps_any_port_listeners := []; ps_lbs := ∅; ps_backend_tls := ∅; ps_backend_client_cert := None |}.

Definition facts (headers : HeaderMap) : RequestFacts HeaderMap :=
  {| rf_host := "a.test"; rf_path := "/x"; rf_path_and_query := "/x"; rf_query := None;
     rf_method := "GET"; rf_headers := headers; rf_local_port := 80; rf_socket_is_tls := false;
     rf_sni := None; rf_peer_ip := None; rf_body_fields := None |}.

Definition env : Env :=
  {| e_http01 := ∅; e_unix_now := 0; e_rate_reads := (0, 0, 0);
     e_breaker_reads := (100 * 1000000000, 100 * 1000000000);
     e_mirror_sampled _ := true; e_bcrypt_permit := true; e_bcrypt_joined := true |}.

(** A store with the given breaker word and number of busy connections. *)
Definition gateway (word active : Z) : store :=
  {| st_pools := ∅; st_buckets := ∅; st_per_ip := ∅;
     st_breakers := {[1%positive := {| cb_config := CircuitBreakerConfig_default; cb_epoch := 0; cb_word := word |}]};
     st_limiters := {[2%positive := {| cl_max := 1; cl_active := active |}]};
     st_jwt := ∅; st_weight_counter := 0; st_mirror_permits := 128; st_mirrors := [] |}.

Definition plan (headers : HeaderMap) (s : store) : Plan * store :=
  plan_request sample_jwks snapshot (facts headers) env s.

Lemma refused_requests_spend_nothing_witness :
  shared_limits (plan [("x-api-key", "guess")] (gateway CircuitBreaker_new 0)).2
  = shared_limits (gateway CircuitBreaker_new 0).
Proof.
  pose proof (proj2 (refused_requests_spend_nothing sample_jwks snapshot (facts [("x-api-key", "guess")]) env
                       (gateway CircuitBreaker_new 0))
    "http" route (EarlyRespond (Reply_empty 401)) (gateway CircuitBreaker_new 0) (gateway CircuitBreaker_new 0)) as Hw.
  destruct Hw as [Hp _]; [vm_compute; reflexivity|vm_compute; reflexivity|].
  unfold plan. rewrite Hp. reflexivity.
Defined.


(** A breaker that opened at second 3, with the only connection in use. *)
Lemma full_limiter_loses_probe_witness :
  exists s', plan_limits env route None (gateway (pack Open 3 5 0) 1)
             = (Err (EarlyRespond (Reply_text 503 "connection limit reached")), s') /\
    forall env' ip' limiters, plan_limits env' route ip' (set_limiters s' limiters)
             = (Err (EarlyRespond (Reply_text 503 "circuit is open")), set_limiters s' limiters).
Proof.
  apply (full_limiter_loses_probe env route None (gateway (pack Open 3 5 0) 1) 1%positive
    {| cb_config := CircuitBreakerConfig_default; cb_epoch := 0; cb_word := pack Open 3 5 0 |}
    2%positive {| cl_max := 1; cl_active := 1 |}); try reflexivity.
  all: vm_compute; (reflexivity || discriminate).
Defined.

End Sample.
