(* ===== verification/Scan.v ===== *)
(** * The streaming JSON field scanner

    [portus-dataplane-core/src/ai/scan.rs]: a scanner is fed the chunks of a
    body and extracts the values of a few top-level keys.  A position of the
    chunk being scanned is the suffix of the chunk from it; the loops that the
    source leaves through [memchr] jumps have fuel, one unit per byte.

    [step] is the reference: an automaton that takes one byte at a time and
    knows nothing of chunks.  The theorems relate [feed] to it and show what
    the scanner extracts from a well-formed object. *)
From S2P Require Import Prelude Text.

Notation bytes := (list ascii).

(** ** Values and states *)

Inductive Scalar :=
| Str (s : string)
| Bool (b : bool)
| Null
| Num (text : string)
| Compound
| Raw (text : bytes).

Definition Scalar_as_str (v : Scalar) : option string := match v with Str s => Some s | _ => None end.
Definition Scalar_as_bool (v : Scalar) : option bool := match v with Bool b => Some b | _ => None end.

Inductive Progress := NeedMore | Complete | Invalid.

#[export] Instance Progress_eq_dec : EqDecision Progress.
Proof. solve_decision. Defined.

Inductive State :=
| Start
| ExpectKey
| InKey (escaped : bool)
| ExpectColon
| ExpectValue
| InString (escaped : bool) (wanted : option nat)
| InBare (wanted : option nat)
| InNested (depth : Z) (in_string escaped : bool)
| AfterValue
| Done (p : Progress).

Record FieldScanner := {
  fs_keys : list string;
  fs_values : list (option Scalar);
  fs_found : Z;
  fs_state : State;
  fs_token : bytes;
  fs_current : option nat;
  fs_consumed : Z;
  fs_capture_compound : bool;
  fs_capture_limit : Z;
  fs_capturing : option nat;
}.

Definition set_state (s : FieldScanner) (st : State) : FieldScanner :=
  {| fs_keys := fs_keys s; fs_values := fs_values s; fs_found := fs_found s; fs_state := st;
     fs_token := fs_token s; fs_current := fs_current s; fs_consumed := fs_consumed s;
     fs_capture_compound := fs_capture_compound s; fs_capture_limit := fs_capture_limit s;
     fs_capturing := fs_capturing s |}.
Definition set_token (s : FieldScanner) (t : bytes) : FieldScanner :=
  {| fs_keys := fs_keys s; fs_values := fs_values s; fs_found := fs_found s; fs_state := fs_state s;
     fs_token := t; fs_current := fs_current s; fs_consumed := fs_consumed s;
     fs_capture_compound := fs_capture_compound s; fs_capture_limit := fs_capture_limit s;
     fs_capturing := fs_capturing s |}.
Definition set_current (s : FieldScanner) (c : option nat) : FieldScanner :=
  {| fs_keys := fs_keys s; fs_values := fs_values s; fs_found := fs_found s; fs_state := fs_state s;
     fs_token := fs_token s; fs_current := c; fs_consumed := fs_consumed s;
     fs_capture_compound := fs_capture_compound s; fs_capture_limit := fs_capture_limit s;
     fs_capturing := fs_capturing s |}.
Definition set_capturing (s : FieldScanner) (c : option nat) : FieldScanner :=
  {| fs_keys := fs_keys s; fs_values := fs_values s; fs_found := fs_found s; fs_state := fs_state s;
     fs_token := fs_token s; fs_current := fs_current s; fs_consumed := fs_consumed s;
     fs_capture_compound := fs_capture_compound s; fs_capture_limit := fs_capture_limit s;
     fs_capturing := c |}.
Definition set_values (s : FieldScanner) (v : list (option Scalar)) (found : Z) : FieldScanner :=
  {| fs_keys := fs_keys s; fs_values := v; fs_found := found; fs_state := fs_state s;
     fs_token := fs_token s; fs_current := fs_current s; fs_consumed := fs_consumed s;
     fs_capture_compound := fs_capture_compound s; fs_capture_limit := fs_capture_limit s;
     fs_capturing := fs_capturing s |}.
Definition add_consumed (s : FieldScanner) (n : Z) : FieldScanner :=
  {| fs_keys := fs_keys s; fs_values := fs_values s; fs_found := fs_found s; fs_state := fs_state s;
     fs_token := fs_token s; fs_current := fs_current s; fs_consumed := fs_consumed s + n;
     fs_capture_compound := fs_capture_compound s; fs_capture_limit := fs_capture_limit s;
     fs_capturing := fs_capturing s |}.

(** [FieldScanner::new], [capturing_compounds] and [capture_limit] *)
Definition FieldScanner_new (keys : list string) : FieldScanner :=
  {| fs_keys := keys; fs_values := repeat None (length keys); fs_found := 0; fs_state := Start;
     fs_token := []; fs_current := None; fs_consumed := 0; fs_capture_compound := false;
     fs_capture_limit := 2 ^ 64 - 1; fs_capturing := None |}.

Definition capturing_compounds (s : FieldScanner) : FieldScanner :=
  {| fs_keys := fs_keys s; fs_values := fs_values s; fs_found := fs_found s; fs_state := fs_state s;
     fs_token := fs_token s; fs_current := fs_current s; fs_consumed := fs_consumed s;
     fs_capture_compound := true; fs_capture_limit := fs_capture_limit s;
     fs_capturing := fs_capturing s |}.
Definition capture_limit (s : FieldScanner) (n : Z) : FieldScanner :=
  {| fs_keys := fs_keys s; fs_values := fs_values s; fs_found := fs_found s; fs_state := fs_state s;
     fs_token := fs_token s; fs_current := fs_current s; fs_consumed := fs_consumed s;
     fs_capture_compound := fs_capture_compound s; fs_capture_limit := n;
     fs_capturing := fs_capturing s |}.

(** The position of the first element that satisfies a test. *)
Fixpoint position {A} (test : A -> bool) (l : list A) : option nat :=
  match l with
  | [] => None
  | a :: l => if test a then Some O else S <$> position test l
  end.

Definition key_position (keys : list string) (key : string) : option nat :=
  position (fun k => bool_decide (k = key)) keys.

(** [FieldScanner::get] and [is_done] *)
Definition FieldScanner_get (s : FieldScanner) (key : string) : option Scalar :=
  match key_position (fs_keys s) key with
  | Some i => default None (fs_values s !! i)
  | None => None
  end.

Definition is_done (s : FieldScanner) : bool := match fs_state s with Done _ => true | _ => false end.

(** ** Bytes *)

Definition QUOTE : ascii := "034"%char.
Definition BACKSLASH : ascii := "092"%char.
Definition LBRACE : ascii := "123"%char.
Definition RBRACE : ascii := "125"%char.
Definition LBRACKET : ascii := "091"%char.
Definition RBRACKET : ascii := "093"%char.
Definition COMMA : ascii := "044"%char.
Definition COLON : ascii := "058"%char.

Definition is_ws (c : ascii) : bool :=
  (byte_val c =? 32) || (byte_val c =? 9) || (byte_val c =? 10) || (byte_val c =? 13).

(** [skip_ws] *)
Fixpoint skip_ws (rest : bytes) : bytes :=
  match rest with
  | [] => []
  | c :: more => if is_ws c then skip_ws more else rest
  end.

(** [is_bare_end] *)
Definition is_bare_end (c : ascii) : bool :=
  Ascii.eqb c COMMA || Ascii.eqb c RBRACE || Ascii.eqb c RBRACKET || is_ws c.

Definition is_number_byte (c : ascii) : bool :=
  in_byte_range 48 57 c || (byte_val c =? 45) || (byte_val c =? 43) || (byte_val c =? 46) ||
  (byte_val c =? 101) || (byte_val c =? 69).

(** [bare_value] *)
Definition bare_value (token : bytes) : option Scalar :=
  if decide (token = String.list_ascii_of_string "true") then Some (Bool true)
  else if decide (token = String.list_ascii_of_string "false") then Some (Bool false)
  else if decide (token = String.list_ascii_of_string "null") then Some Null
  else
    match token with
    | [] => None
    | first :: _ =>
        if (byte_val first =? 45) || in_byte_range 48 57 first then
          if forallb is_number_byte token then Some (Num (String.string_of_list_ascii token)) else None
        else None
    end.

(** The [memchr] crate: the position of the first of a few bytes. *)
Class MemchrCrate := {
  memchr : ascii -> bytes -> option nat;
  memchr2 : ascii -> ascii -> bytes -> option nat;
  memchr3 : ascii -> ascii -> ascii -> bytes -> option nat;
  memchr_spec a l : memchr a l = position (fun c => Ascii.eqb c a) l;
  memchr2_spec a b l : memchr2 a b l = position (fun c => Ascii.eqb c a || Ascii.eqb c b) l;
  memchr3_spec a b c l : memchr3 a b c l = position (fun x => Ascii.eqb x a || Ascii.eqb x b || Ascii.eqb x c) l;
}.

Definition sample_memchr : MemchrCrate := {|
  memchr a l := position (fun c => Ascii.eqb c a) l;
  memchr2 a b l := position (fun c => Ascii.eqb c a || Ascii.eqb c b) l;
  memchr3 a b c l := position (fun x => Ascii.eqb x a || Ascii.eqb x b || Ascii.eqb x c) l;
  memchr_spec _ _ := eq_refl; memchr2_spec _ _ _ := eq_refl; memchr3_spec _ _ _ _ := eq_refl |}.

(** ** Parts of strings and nested values *)

Section Scanner.
Context {MC : MemchrCrate}.

Inductive StringEnd := Closed | Pending (escaped : bool).

(** The loop of [read_string_part]. *)
Fixpoint read_string_loop (fuel : nat) (rest out : bytes) : bytes * bytes * StringEnd :=
  match fuel with
  | O => (rest, out, Pending false)
  | S fuel =>
      match memchr2 QUOTE BACKSLASH rest with
      | None => ([], out ++ rest, Pending false)
      | Some off =>
          let out := out ++ take off rest in
          match drop off rest with
          | [] => ([], out, Pending false)
          | c :: rest =>
              if Ascii.eqb c QUOTE then (rest, out, Closed)
              else
                let out := out ++ [BACKSLASH] in
                match rest with
                | [] => ([], out, Pending true)
                | e :: rest => read_string_loop fuel rest (out ++ [e])
                end
          end
      end
  end.

(** [read_string_part] *)
Definition read_string_part (rest : bytes) (escaped : bool) (out : bytes) : bytes * bytes * StringEnd :=
  if escaped then
    match rest with
    | [] => ([], out, Pending true)
    | c :: rest => read_string_loop (S (length rest)) rest (out ++ [c])
    end
  else read_string_loop (S (length rest)) rest out.

(** The loop of [skip_string_part]. *)
Fixpoint skip_string_loop (fuel : nat) (rest : bytes) : bytes * StringEnd :=
  match fuel with
  | O => (rest, Pending false)
  | S fuel =>
      match memchr2 QUOTE BACKSLASH rest with
      | None => ([], Pending false)
      | Some off =>
          match drop off rest with
          | [] => ([], Pending false)
          | c :: more =>
              if Ascii.eqb c QUOTE then (more, Closed)
              else
                match more with
                | [] => ([], Pending true)
                | _ :: more => skip_string_loop fuel more
                end
          end
      end
  end.

(** [skip_string_part] *)
Definition skip_string_part (rest : bytes) (escaped : bool) : bytes * StringEnd :=
  if escaped then
    match rest with
    | [] => ([], Pending true)
    | _ :: rest => skip_string_loop (S (length rest)) rest
    end
  else skip_string_loop (S (length rest)) rest.

(** The loop of [skip_nested_part]; what is left of the nesting, or [None]
    once the value closed. *)
Fixpoint skip_nested_loop (fuel : nat) (rest : bytes) (depth : Z) (in_string escaped : bool)
  : bytes * option (Z * bool * bool) :=
  match fuel, rest with
  | O, _ | _, [] => (rest, Some (depth, in_string, escaped))
  | S fuel, _ =>
      if in_string then
        match skip_string_part rest escaped with
        | (rest, Closed) => skip_nested_loop fuel rest depth false false
        | (rest, Pending e) => (rest, Some (depth, true, e))
        end
      else
        let brace := memchr3 QUOTE LBRACE RBRACE rest in
        let bracket := memchr2 LBRACKET RBRACKET rest in
        let off :=
          match brace, bracket with
          | Some a, Some b => Some (Nat.min a b)
          | Some a, None => Some a
          | None, Some b => Some b
          | None, None => None
          end in
        match off with
        | None => ([], Some (depth, false, false))
        | Some off =>
            match drop off rest with
            | [] => ([], Some (depth, false, false))
            | c :: rest =>
                if Ascii.eqb c QUOTE then skip_nested_loop fuel rest depth true escaped
                else if Ascii.eqb c LBRACE || Ascii.eqb c LBRACKET
                then skip_nested_loop fuel rest (as_u 32 (depth + 1)) false escaped
                else if as_u 32 (depth - 1) =? 0 then (rest, None)
                else skip_nested_loop fuel rest (as_u 32 (depth - 1)) false escaped
            end
        end
  end.

(** [skip_nested_part] *)
Definition skip_nested_part (rest : bytes) (depth : Z) (in_string escaped : bool)
  : bytes * option (Z * bool * bool) :=
  skip_nested_loop (S (length rest)) rest depth in_string escaped.

(** ** unescape *)

Definition hex_val (c : ascii) : option Z :=
  if in_byte_range 48 57 c then Some (byte_val c - 48)
  else if in_byte_range 97 102 c then Some (byte_val c - 87)
  else if in_byte_range 65 70 c then Some (byte_val c - 55)
  else None.

Definition hex_digits (l : bytes) : option Z :=
  fold_left (fun acc c => match acc, hex_val c with Some a, Some d => Some (16 * a + d) | _, _ => None end)
    l (Some 0).

(** [u32::from_str_radix(_, 16)] on at most four bytes: digits after an
    optional [+]. *)
Definition from_str_radix_16 (l : bytes) : option Z :=
  match l with
  | [] => None
  | c :: more =>
      if byte_val c =? 43 then match more with [] => None | _ => hex_digits more end else hex_digits l
  end.

(** [char::from_u32] and [char::encode_utf8] *)
Definition char_from_u32 (code : Z) : option Z :=
  if (code <? 0xD800) || ((0xDFFF <? code) && (code <=? 0x10FFFF)) then Some code else None.

Definition encode_utf8 (code : Z) : bytes :=
  let cont n := byte_of (0x80 + (code / 64 ^ n) mod 64) in
  if code <? 0x80 then [byte_of code]
  else if code <? 0x800 then [byte_of (0xC0 + code / 64); cont 0]
  else if code <? 0x10000 then [byte_of (0xE0 + code / 64 ^ 2); cont 1; cont 0]
  else [byte_of (0xF0 + code / 64 ^ 3); cont 2; cont 1; cont 0].

(** [std::str::from_utf8] on bytes. *)
Definition utf8_text (l : bytes) : option string := from_utf8 (String.string_of_list_ascii l).

(** Four hexadecimal digits as a number. *)
Definition hex4 (l : bytes) : option Z :=
  if decide (length l = 4%nat) then match utf8_text l with Some _ => from_str_radix_16 l | None => None end else None.

(** The code point of a [\u] escape (after the [u]), and what follows it. *)
Definition unicode_escape (raw : bytes) : option (Z * bytes) :=
  match hex4 (take 4 raw) with
  | None => None
  | Some code =>
      let raw := drop 4 raw in
      if (0xD800 <=? code) && (code <? 0xDC00) then
        match raw with
        | b :: u :: raw =>
            if Ascii.eqb b BACKSLASH && Ascii.eqb u "u"%char then
              match hex4 (take 4 raw) with
              | Some low =>
                  if (0xDC00 <=? low) && (low <? 0xE000)
                  then Some (0x10000 + Z.shiftl (code - 0xD800) 10 + (low - 0xDC00), drop 4 raw)
                  else None
              | None => None
              end
            else None
        | _ => None
        end
      else Some (code, raw)
  end.

(** The byte a one-letter escape stands for. *)
Definition simple_escape (esc : ascii) : option ascii :=
  if Ascii.eqb esc QUOTE then Some QUOTE
  else if Ascii.eqb esc BACKSLASH then Some BACKSLASH
  else if Ascii.eqb esc "/"%char then Some "/"%char
  else if Ascii.eqb esc "b"%char then Some "008"%char
  else if Ascii.eqb esc "f"%char then Some "012"%char
  else if Ascii.eqb esc "n"%char then Some "010"%char
  else if Ascii.eqb esc "r"%char then Some "013"%char
  else if Ascii.eqb esc "t"%char then Some "009"%char
  else None.

(** The loop of [unescape]. *)
Fixpoint unescape_loop (fuel : nat) (raw out : bytes) : option bytes :=
  match fuel with
  | O => None
  | S fuel =>
      match raw with
      | [] => Some out
      | c :: raw =>
          if negb (Ascii.eqb c BACKSLASH) then unescape_loop fuel raw (out ++ [c])
          else
            match raw with
            | [] => None
            | esc :: raw =>
                if Ascii.eqb esc "u"%char then
                  match unicode_escape raw with
                  | None => None
                  | Some (code, raw) =>
                      match char_from_u32 code with
                      | None => None
                      | Some ch => unescape_loop fuel raw (out ++ encode_utf8 ch)
                      end
                  end
                else
                  match simple_escape esc with
                  | Some b => unescape_loop fuel raw (out ++ [b])
                  | None => None
                  end
            end
      end
  end.

(** [unescape] *)
Definition unescape (raw : bytes) : option string :=
  match memchr BACKSLASH raw with
  | None => utf8_text raw
  | Some _ =>
      match unescape_loop (S (length raw)) raw [] with
      | Some out => utf8_text out
      | None => None
      end
  end.

(** ** feed *)

(** [FieldScanner::finish], [wanted_index] and [record] *)
Definition finish (s : FieldScanner) (p : Progress) : FieldScanner := set_token (set_state s (Done p)) [].

Definition wanted_index (s : FieldScanner) : option nat :=
  match memchr BACKSLASH (fs_token s) with
  | Some _ => None
  | None =>
      match position (fun k => bool_decide (String.list_ascii_of_string k = fs_token s)) (fs_keys s) with
      | Some i => match fs_values s !! i with Some None => Some i | _ => None end
      | None => None
      end
  end.

Definition record (s : FieldScanner) (index : nat) (value : Scalar) : FieldScanner :=
  match fs_values s !! index with
  | Some None => set_values s (<[index := Some value]> (fs_values s)) (fs_found s + 1)
  | _ => s
  end.

Definition all_found (s : FieldScanner) : bool := fs_found s =? Z.of_nat (length (fs_keys s)).

(** A wanted value was read: keep it, and stop if it was the last. *)
Definition after_value (s : FieldScanner) (wanted : option nat) (value : Scalar) : FieldScanner :=
  match wanted with
  | Some w =>
      let s := record s w value in
      if all_found s then finish s Complete else set_state s AfterValue
  | None => set_state s AfterValue
  end.

(** The arms of the loop of [feed] from the first byte that is not white
    space; each gives the scanner and the rest of the chunk. *)
Definition start_arm (s : FieldScanner) (c : ascii) (rest : bytes) : FieldScanner * bytes :=
  if Ascii.eqb c LBRACE then (set_state s ExpectKey, rest) else (finish s Invalid, rest).

Definition key_arm (s : FieldScanner) (c : ascii) (rest : bytes) : FieldScanner * bytes :=
  if Ascii.eqb c QUOTE then (set_state (set_token s []) (InKey false), rest)
  else if Ascii.eqb c RBRACE then (finish s Complete, rest)
  else (finish s Invalid, rest).

Definition colon_arm (s : FieldScanner) (c : ascii) (rest : bytes) : FieldScanner * bytes :=
  if Ascii.eqb c COLON then (set_state s ExpectValue, rest) else (finish s Invalid, rest).

Definition value_arm (s : FieldScanner) (c : ascii) (rest : bytes) : FieldScanner * bytes :=
  let wanted := fs_current s in
  let s := set_token (set_current s None) [] in
  if Ascii.eqb c QUOTE then (set_state s (InString false wanted), rest)
  else if Ascii.eqb c LBRACE || Ascii.eqb c LBRACKET then
    let s :=
      match wanted with
      | Some w => if fs_capture_compound s then set_capturing (set_token s [c]) (Some w)
                  else record s w Compound
      | None => s
      end in
    (set_state s (InNested 1 false false), rest)
  else if Ascii.eqb c COMMA || Ascii.eqb c RBRACE || Ascii.eqb c RBRACKET || Ascii.eqb c COLON
  then (finish s Invalid, rest)
  else (set_state s (InBare wanted), c :: rest).

Definition after_arm (s : FieldScanner) (c : ascii) (rest : bytes) : FieldScanner * bytes :=
  if Ascii.eqb c COMMA then (set_state s ExpectKey, rest)
  else if Ascii.eqb c RBRACE then (finish s Complete, rest)
  else (finish s Invalid, rest).

Definition in_key_arm (s : FieldScanner) (escaped : bool) (rest : bytes) : FieldScanner * bytes :=
  let '(rest, token, ending) := read_string_part rest escaped (fs_token s) in
  let s := set_token s token in
  match ending with
  | Closed => (set_state (set_current s (wanted_index s)) ExpectColon, rest)
  | Pending escaped => (set_state s (InKey escaped), rest)
  end.

Definition in_string_arm (s : FieldScanner) (escaped : bool) (wanted : option nat) (rest : bytes)
  : FieldScanner * bytes :=
  let '(rest, token, ending) :=
    match wanted with
    | Some _ => read_string_part rest escaped (fs_token s)
    | None => let '(rest, ending) := skip_string_part rest escaped in (rest, fs_token s, ending)
    end in
  let s := set_token s token in
  match ending with
  | Closed =>
      match wanted with
      | Some w =>
          match unescape token with
          | None => (finish s Invalid, rest)
          | Some text => (after_value s wanted (Str text), rest)
          end
      | None => (set_state s AfterValue, rest)
      end
  | Pending escaped => (set_state s (InString escaped wanted), rest)
  end.

(** The bytes of a bare token, and what ends it. *)
Fixpoint bare_span (rest : bytes) : bytes * bytes :=
  match rest with
  | [] => ([], [])
  | c :: more => if is_bare_end c then ([], rest) else let '(a, b) := bare_span more in (c :: a, b)
  end.

Definition in_bare_arm (s : FieldScanner) (wanted : option nat) (rest : bytes) : FieldScanner * bytes :=
  let '(part, rest) := bare_span rest in
  let s := if bool_decide (is_Some wanted) || (length (fs_token s) <? 8)%nat
           then set_token s (fs_token s ++ part) else s in
  match rest with
  | [] => (s, [])
  | _ =>
      match bare_value (fs_token s) with
      | None => (finish s Invalid, rest)
      | Some value => (after_value s wanted value, rest)
      end
  end.

(** The bytes a nested value adds to the one being captured. *)
Definition capture (s : FieldScanner) (part : bytes) : FieldScanner :=
  match fs_capturing s with
  | Some w =>
      let s := set_token s (fs_token s ++ part) in
      if Z.of_nat (length (fs_token s)) >? fs_capture_limit s
      then record (set_token (set_capturing s None) []) w Compound else s
  | None => s
  end.

(** A nested value closed. *)
Definition close_nested (s : FieldScanner) : FieldScanner :=
  let s :=
    match fs_capturing s with
    | Some w => record (set_token (set_capturing s None) []) w (Raw (fs_token s))
    | None => s
    end in
  if all_found s then finish s Complete else set_state s AfterValue.

Definition in_nested_arm (s : FieldScanner) (depth : Z) (in_string escaped : bool) (rest : bytes)
  : FieldScanner * bytes :=
  let '(next, state) := skip_nested_part rest depth in_string escaped in
  let s := capture s (take (length rest - length next) rest) in
  match state with
  | Some (depth, in_string, escaped) => (set_state s (InNested depth in_string escaped), next)
  | None => (close_nested s, next)
  end.

(** One round of the loop; the chunk is not empty. *)
Definition feed_round (s : FieldScanner) (rest : bytes) : FieldScanner * bytes :=
  let token_arm arm := match skip_ws rest with [] => (s, []) | c :: rest => arm s c rest end in
  match fs_state s with
  | Start => token_arm start_arm
  | ExpectKey => token_arm key_arm
  | InKey escaped => in_key_arm s escaped rest
  | ExpectColon => token_arm colon_arm
  | ExpectValue => token_arm value_arm
  | InString escaped wanted => in_string_arm s escaped wanted rest
  | InBare wanted => in_bare_arm s wanted rest
  | InNested depth in_string escaped => in_nested_arm s depth in_string escaped rest
  | AfterValue => token_arm after_arm
  | Done _ => (s, rest)
  end.

(** The loop of [feed]: until the chunk is used up or the scanner is done. *)
Fixpoint feed_loop (fuel : nat) (s : FieldScanner) (rest : bytes) : FieldScanner * Progress :=
  match rest with
  | [] => (s, NeedMore)
  | _ =>
      match fuel with
      | O => (s, NeedMore)
      | S fuel =>
          let '(s, rest) := feed_round s rest in
          match fs_state s with
          | Done p => (s, p)
          | _ => feed_loop fuel s rest
          end
      end
  end.

(** Two rounds use at least one byte. *)
Definition feed (s : FieldScanner) (chunk : bytes) : FieldScanner * Progress :=
  match fs_state s with
  | Done p => (s, p)
  | _ => feed_loop (2 * length chunk + 2) (add_consumed s (Z.of_nat (length chunk))) chunk
  end.

(** A body arrives in chunks; the answer is that of the last call. *)
Fixpoint feed_all (s : FieldScanner) (chunks : list bytes) : FieldScanner :=
  match chunks with
  | [] => s
  | chunk :: chunks => feed_all (feed s chunk).1 chunks
  end.

(** ** The byte automaton *)

(** One byte inside a nested value: what is left of the nesting. *)
Definition nest_step (st : Z * bool * bool) (c : ascii) : option (Z * bool * bool) :=
  let '(depth, in_string, escaped) := st in
  if in_string then
    if escaped then Some (depth, true, false)
    else if Ascii.eqb c QUOTE then Some (depth, false, false)
    else Some (depth, true, Ascii.eqb c BACKSLASH)
  else if Ascii.eqb c QUOTE then Some (depth, true, false)
  else if Ascii.eqb c LBRACE || Ascii.eqb c LBRACKET then Some (as_u 32 (depth + 1), false, false)
  else if Ascii.eqb c RBRACE || Ascii.eqb c RBRACKET then
    if as_u 32 (depth - 1) =? 0 then None else Some (as_u 32 (depth - 1), false, false)
  else Some (depth, false, false).

(** A byte between tokens. *)
Definition token_step (arm : FieldScanner -> ascii -> bytes -> FieldScanner * bytes) (s : FieldScanner)
  (c : ascii) : FieldScanner :=
  if is_ws c then s else (arm s c []).1.

Definition push (s : FieldScanner) (c : ascii) : FieldScanner := set_token s (fs_token s ++ [c]).

Definition step (s : FieldScanner) (c : ascii) : FieldScanner :=
  match fs_state s with
  | Start => token_step start_arm s c
  | ExpectKey => token_step key_arm s c
  | InKey true => set_state (push s c) (InKey false)
  | InKey false =>
      if Ascii.eqb c QUOTE then set_state (set_current s (wanted_index s)) ExpectColon
      else set_state (push s c) (InKey (Ascii.eqb c BACKSLASH))
  | ExpectColon => token_step colon_arm s c
  | ExpectValue =>
      if is_ws c then s
      else
        let '(s, unread) := value_arm s c [] in
        match unread with [] => s | _ => push s c end
  | InString escaped wanted =>
      let s' := if wanted is Some _ then push s c else s in
      if escaped then set_state s' (InString false wanted)
      else if Ascii.eqb c QUOTE then
        match wanted with
        | Some _ => match unescape (fs_token s) with
                    | Some text => after_value s wanted (Str text)
                    | None => finish s Invalid
                    end
        | None => set_state s AfterValue
        end
      else set_state s' (InString (Ascii.eqb c BACKSLASH) wanted)
  | InBare wanted =>
      if is_bare_end c then
        match bare_value (fs_token s) with
        | None => finish s Invalid
        | Some value =>
            let s := after_value s wanted value in
            if is_done s then s else token_step after_arm s c
        end
      else push s c
  | InNested depth in_string escaped =>
      match nest_step (depth, in_string, escaped) c with
      | Some (depth, in_string, escaped) => set_state (capture s [c]) (InNested depth in_string escaped)
      | None => close_nested (capture s [c])
      end
  | AfterValue => token_step after_arm s c
  | Done _ => s
  end.

Definition run (s : FieldScanner) (l : bytes) : FieldScanner := fold_left step l s.

(** ** The jumps of the source against one byte at a time *)

Lemma position_none {A} (test : A -> bool) l : position test l = None -> Forall (fun a => test a = false) l.
Proof.
  induction l as [|a l IH]; [constructor|]. simpl. destruct (test a) eqn:Ht; [done|].
  destruct (position test l); [done|]. auto.
Qed.

Lemma position_some {A} (test : A -> bool) l n :
  position test l = Some n ->
  exists part c rest, l = part ++ c :: rest /\ take n l = part /\ drop n l = c :: rest /\ test c = true /\
    Forall (fun a => test a = false) part.
Proof.
  revert n. induction l as [|a l IH]; [done|]. intros n. simpl. destruct (test a) eqn:Ht.
  - intros [= <-]. by exists [], a, l.
  - destruct (position test l) as [m|] eqn:Hp; [|done]. intros [= <-].
    destruct (IH m eq_refl) as (part & c & rest & -> & Hk & Hd & Hc & Hf). exists (a :: part), c, rest.
    cbn [take drop]. rewrite Hk, Hd. by repeat constructor.
Qed.

(** Any automaton that reads a string: [K e t] is in the string, having read
    [t], after a backslash if [e]; [Z t] has closed it. *)
Section ReadString.
Context (K : bool -> bytes -> FieldScanner) (Z : bytes -> FieldScanner).
Hypothesis K_escaped : forall t c, step (K true t) c = K false (t ++ [c]).
Hypothesis K_plain : forall t c, step (K false t) c =
  if Ascii.eqb c QUOTE then Z t else K (Ascii.eqb c BACKSLASH) (t ++ [c]).

Lemma run_plain part t rest :
  Forall (fun c => Ascii.eqb c QUOTE || Ascii.eqb c BACKSLASH = false) part ->
  run (K false t) (part ++ rest) = run (K false (t ++ part)) rest.
Proof.
  revert t. induction part as [|c part IH]; intros t; [by rewrite app_nil_r|].
  intros [Hc Hf]%Forall_cons. apply orb_false_iff in Hc as [Hq Hb].
  cbn [app run fold_left]. change (fold_left step) with (fun l s => run s l). cbv beta.
  rewrite K_plain, Hq, Hb, IH by done. by rewrite <- app_assoc.
Qed.

Definition resume (ending : StringEnd) (t : bytes) : FieldScanner :=
  match ending with Closed => Z t | Pending e => K e t end.

Lemma read_string_loop_run fuel rest t :
  (length rest < fuel)%nat ->
  let '(rest', t', ending) := read_string_loop fuel rest t in
  run (K false t) rest = run (resume ending t') rest'.
Proof.
  revert rest t. induction fuel as [|fuel IH]; intros rest t Hf; [lia|].
  cbn [read_string_loop]. rewrite memchr2_spec. destruct (position _ rest) as [off|] eqn:Hp.
  - destruct (position_some _ _ _ Hp) as (part & c & more & Hl & Hk & Hd & Hc & Hfree).
    rewrite Hd, Hk. subst rest. rewrite length_app in Hf. cbn [length] in Hf.
    destruct (Ascii.eqb c QUOTE) eqn:Hq.
    + rewrite run_plain by done. cbn. by rewrite K_plain, Hq.
    + cbn [orb] in Hc. apply Ascii.eqb_eq in Hc as ->. destruct more as [|e more].
      * rewrite run_plain by done. cbn. rewrite K_plain. by destruct (Ascii.eqb_spec BACKSLASH QUOTE).
      * specialize (IH more (((t ++ part) ++ [BACKSLASH]) ++ [e])).
        destruct (read_string_loop fuel more _) as [[rest' t'] ending]. rewrite run_plain by done.
        cbn [run fold_left]. rewrite K_plain, Hq. change (Ascii.eqb BACKSLASH BACKSLASH) with true.
        rewrite K_escaped. apply IH. cbn [length] in Hf. lia.
  - apply position_none in Hp. rewrite <- (app_nil_r rest) at 1. by rewrite run_plain.
Qed.

Lemma read_string_part_run rest e t :
  let '(rest', t', ending) := read_string_part rest e t in
  run (K e t) rest = run (resume ending t') rest'.
Proof.
  unfold read_string_part. destruct e.
  - destruct rest as [|c rest]; [done|]. cbn [run fold_left]. rewrite K_escaped.
    apply read_string_loop_run. lia.
  - apply read_string_loop_run. lia.
Qed.
End ReadString.

(** The rest of a string, byte by byte. *)
Fixpoint skip_scan (escaped : bool) (rest : bytes) : bytes * StringEnd :=
  match rest with
  | [] => ([], Pending escaped)
  | c :: rest =>
      if escaped then skip_scan false rest
      else if Ascii.eqb c QUOTE then (rest, Closed)
      else skip_scan (Ascii.eqb c BACKSLASH) rest
  end.

Lemma skip_scan_plain part rest :
  Forall (fun c => Ascii.eqb c QUOTE || Ascii.eqb c BACKSLASH = false) part ->
  skip_scan false (part ++ rest) = skip_scan false rest.
Proof.
  induction part as [|c part IH]; [done|]. intros [Hc Hf]%Forall_cons.
  apply orb_false_iff in Hc as [Hq Hb]. cbn. rewrite Hq, Hb. auto.
Qed.

Lemma skip_string_loop_scan fuel rest :
  (length rest < fuel)%nat -> skip_string_loop fuel rest = skip_scan false rest.
Proof.
  revert rest. induction fuel as [|fuel IH]; intros rest Hf; [lia|].
  cbn [skip_string_loop]. rewrite memchr2_spec. destruct (position _ rest) as [off|] eqn:Hp.
  - destruct (position_some _ _ _ Hp) as (part & c & more & Hl & Hk & Hd & Hc & Hfree).
    rewrite Hd. subst rest. rewrite skip_scan_plain by done. cbn.
    destruct (Ascii.eqb c QUOTE) eqn:Hq; [done|]. cbn [orb] in Hc. rewrite Hc.
    destruct more as [|e more]; [done|]. rewrite length_app in Hf. cbn [length] in Hf. apply IH. lia.
  - apply position_none in Hp. rewrite <- (app_nil_r rest) at 1. by rewrite skip_scan_plain.
Qed.

Lemma skip_string_part_scan rest e : skip_string_part rest e = skip_scan e rest.
Proof.
  unfold skip_string_part. destruct e; [destruct rest; [done|]|]; rewrite skip_string_loop_scan by lia; done.
Qed.

Lemma skip_scan_pending e rest rest' e' : skip_scan e rest = (rest', Pending e') -> rest' = [].
Proof.
  revert e. induction rest as [|c rest IH]; intros e; cbn; [by intros [= <- _]|].
  destruct e; [apply IH|]. destruct (Ascii.eqb c QUOTE); [done|apply IH].
Qed.

Lemma skip_scan_shorter e rest rest' : skip_scan e rest = (rest', Closed) -> (length rest' < length rest)%nat.
Proof.
  revert e. induction rest as [|c rest IH]; intros e; cbn; [done|].
  destruct e; [intros H%IH; lia|]. destruct (Ascii.eqb c QUOTE); [intros [= <-]; lia|intros H%IH; lia].
Qed.

(** The rest of a nested value, byte by byte. *)
Fixpoint nest_scan (st : Z * bool * bool) (rest : bytes) : bytes * option (Z * bool * bool) :=
  match rest with
  | [] => ([], Some st)
  | c :: rest => match nest_step st c with None => (rest, None) | Some st => nest_scan st rest end
  end.

Lemma nest_scan_string depth e rest :
  nest_scan (depth, true, e) rest =
    match skip_scan e rest with
    | (rest, Closed) => nest_scan (depth, false, false) rest
    | (rest, Pending e) => (rest, Some (depth, true, e))
    end.
Proof.
  revert e. induction rest as [|c rest IH]; intros e; [done|]. cbn [nest_scan skip_scan nest_step].
  destruct e; [apply IH|]. destruct (Ascii.eqb c QUOTE); [done|]. apply IH.
Qed.

(** Bytes that do not change the nesting. *)
Definition structural (c : ascii) : bool :=
  (Ascii.eqb c QUOTE || Ascii.eqb c LBRACE || Ascii.eqb c RBRACE) || (Ascii.eqb c LBRACKET || Ascii.eqb c RBRACKET).

Lemma nest_scan_plain depth part rest :
  Forall (fun c => structural c = false) part ->
  nest_scan (depth, false, false) (part ++ rest) = nest_scan (depth, false, false) rest.
Proof.
  induction part as [|c part IH]; [done|]. intros [Hc Hf]%Forall_cons. unfold structural in Hc.
  rewrite !orb_false_iff in Hc. destruct Hc as [[[H1 H2] H3] [H4 H5]].
  cbn [app nest_scan nest_step]. rewrite H1, H2, H3, H4, H5. cbn. auto.
Qed.

(** The first of two searches is the search for either. *)
Lemma position_or {A} (f g : A -> bool) l :
  position (fun a => f a || g a) l =
    match position f l, position g l with
    | Some a, Some b => Some (Nat.min a b)
    | Some a, None => Some a
    | None, Some b => Some b
    | None, None => None
    end.
Proof.
  induction l as [|a l IH]; [done|]. cbn. rewrite IH.
  destruct (f a), (g a), (position f l), (position g l); done.
Qed.

Lemma skip_nested_loop_scan fuel rest depth str e :
  (length rest < fuel)%nat -> (str = false -> e = false) ->
  skip_nested_loop fuel rest depth str e = nest_scan (depth, str, e) rest.
Proof.
  revert rest depth str e. induction fuel as [|fuel IH]; intros rest depth str e Hf He; [lia|].
  destruct rest as [|c0 rest0]; [done|]. set (rest := c0 :: rest0) in *.
  change (skip_nested_loop (S fuel) rest depth str e) with
    (if str then match skip_string_part rest e with
       | (rest, Closed) => skip_nested_loop fuel rest depth false false
       | (rest, Pending e) => (rest, Some (depth, true, e)) end
     else match match memchr3 QUOTE LBRACE RBRACE rest, memchr2 LBRACKET RBRACKET rest with
          | Some a, Some b => Some (Nat.min a b) | Some a, None => Some a
          | None, Some b => Some b | None, None => None end with
       | None => ([], Some (depth, false, false))
       | Some off => match drop off rest with
           | [] => ([], Some (depth, false, false))
           | c :: rest =>
               if Ascii.eqb c QUOTE then skip_nested_loop fuel rest depth true e
               else if Ascii.eqb c LBRACE || Ascii.eqb c LBRACKET
               then skip_nested_loop fuel rest (as_u 32 (depth + 1)) false e
               else if as_u 32 (depth - 1) =? 0 then (rest, None)
               else skip_nested_loop fuel rest (as_u 32 (depth - 1)) false e
           end end).
  clearbody rest. clear c0 rest0. destruct str.
  - rewrite nest_scan_string, skip_string_part_scan.
    destruct (skip_scan e rest) as [rest' [|e']] eqn:Hs; [|done].
    apply skip_scan_shorter in Hs. apply IH; [lia|done].
  - specialize (He eq_refl) as ->. rewrite memchr3_spec, memchr2_spec, <- position_or.
    change (fun a => _) with structural. destruct (position structural rest) as [off|] eqn:Hp.
    + destruct (position_some _ _ _ Hp) as (part & c & more & Hl & Hk & Hd & Hc & Hfree).
      rewrite Hd. subst rest. rewrite nest_scan_plain by done. cbn [nest_scan nest_step].
      rewrite length_app in Hf. cbn [length] in Hf.
      destruct (Ascii.eqb c QUOTE) eqn:Hq; [apply IH; [lia|done]|].
      destruct (Ascii.eqb c LBRACE || Ascii.eqb c LBRACKET) eqn:Ho; [apply IH; [lia|done]|].
      assert (Ascii.eqb c RBRACE || Ascii.eqb c RBRACKET = true) as ->.
      { unfold structural in Hc. rewrite Hq in Hc. apply orb_false_iff in Ho as [Ho1 Ho2].
        rewrite Ho1, Ho2 in Hc. exact Hc. }
      destruct (as_u 32 (depth - 1) =? 0); [done|]. apply IH; [lia|done].
    + apply position_none in Hp. rewrite <- (app_nil_r rest) at 1. by rewrite nest_scan_plain.
Qed.

Lemma skip_nested_part_scan rest depth str e :
  (str = false -> e = false) -> skip_nested_part rest depth str e = nest_scan (depth, str, e) rest.
Proof. apply skip_nested_loop_scan. lia. Qed.

(** ** A round of the loop is a run of the automaton *)

Lemma run_cons s c l : run s (c :: l) = run (step s c) l.
Proof. done. Qed.

Lemma run_app s l1 l2 : run s (l1 ++ l2) = run (run s l1) l2.
Proof. apply fold_left_app. Qed.

Lemma run_done s p l : fs_state s = Done p -> run s l = s.
Proof. intros Hs. induction l as [|c l IH]; [done|]. rewrite run_cons. unfold step. by rewrite Hs. Qed.

Lemma record_state s st w v : record (set_state s st) w v = set_state (record s w v) st.
Proof. unfold record. cbn. by destruct (fs_values s !! w) as [[]|]. Qed.

Lemma capture_state s st part : capture (set_state s st) part = set_state (capture s part) st.
Proof.
  unfold capture. cbn [fs_capturing set_state]. destruct (fs_capturing s); [|done].
  cbn [fs_token set_token fs_capture_limit set_state]. case_match; [|done].
  by rewrite <- record_state.
Qed.

Lemma capture_capturing_none s part : fs_capturing s = None -> capture s part = s.
Proof. unfold capture. by intros ->. Qed.

Lemma record_capturing s w v : fs_capturing (record s w v) = fs_capturing s.
Proof. unfold record. by destruct (fs_values s !! w) as [[]|]. Qed.

Lemma capture_app s a b : capture (capture s a) b = capture s (a ++ b).
Proof.
  destruct (fs_capturing s) as [w|] eqn:Hc; [|by rewrite (capture_capturing_none s a Hc), !capture_capturing_none].
  unfold capture at 2 3. rewrite Hc. cbn [fs_token set_token fs_capture_limit].
  rewrite !length_app, !Nat2Z.inj_add.
  destruct (Z.gtb_spec (Z.of_nat (length (fs_token s)) + Z.of_nat (length a)) (fs_capture_limit s)) as [Ha|Ha].
  - rewrite capture_capturing_none by (by rewrite record_capturing).
    destruct (Z.gtb_spec (Z.of_nat (length (fs_token s)) + (Z.of_nat (length a) + Z.of_nat (length b)))
      (fs_capture_limit s)); [done|lia].
  - unfold capture. cbn [fs_token set_token fs_capture_limit fs_capturing]. rewrite Hc.
    rewrite !length_app, !Nat2Z.inj_add, <- !app_assoc, Z.add_assoc. done.
Qed.

Lemma close_nested_state s st : close_nested (set_state s st) = close_nested s.
Proof.
  unfold close_nested. cbn [fs_capturing set_state]. destruct (fs_capturing s) as [w|]; [|done].
  change (set_token (set_capturing (set_state s st) None) [])
    with (set_state (set_token (set_capturing s None) []) st).
  by rewrite record_state.
Qed.

Definition nested_state (st : Z * bool * bool) : State := let '(d, i, e) := st in InNested d i e.

Lemma run_nested rest st s next r :
  fs_state s = nested_state st -> rest <> [] -> nest_scan st rest = (next, r) ->
  exists part, rest = part ++ next /\
    run s rest = run (match r with
                      | Some st => set_state (capture s part) (nested_state st)
                      | None => close_nested (capture s part)
                      end) next.
Proof.
  revert st s. induction rest as [|c rest IH]; [done|]. intros st s Hs _ Hn. cbn [nest_scan] in Hn.
  rewrite run_cons. assert (Hstep : step s c = match nest_step st c with
    | Some st => set_state (capture s [c]) (nested_state st) | None => close_nested (capture s [c]) end).
  { destruct st as [[d i] e]. unfold step. rewrite Hs. cbn [nested_state].
    by destruct (nest_step (d, i, e) c) as [[[? ?] ?]|]. }
  rewrite Hstep. destruct (nest_step st c) as [st'|].
  2:{ injection Hn as <- <-. by exists [c]. }
  destruct rest as [|c' rest]; [injection Hn as <- <-; by exists [c]|].
  destruct (IH st' (set_state (capture s [c]) (nested_state st')) eq_refl ltac:(done) Hn) as (part & Hp & Hr).
  exists (c :: part). split; [by rewrite Hp|]. rewrite Hr, capture_state, capture_app. cbn [app].
  by destruct r; [|rewrite close_nested_state].
Qed.

Lemma set_state_id s st : fs_state s = st -> set_state s st = s.
Proof. destruct s. cbn. by intros ->. Qed.

Lemma set_token_id s : set_token s (fs_token s) = s.
Proof. by destruct s. Qed.

(** What a round must preserve. *)
Definition same_run (s : FieldScanner) (rest : bytes) (r : FieldScanner * bytes) : Prop :=
  run s rest = run r.1 r.2.

Lemma run_skip_ws s rest :
  (forall c, is_ws c = true -> step s c = s) -> run s rest = run s (skip_ws rest).
Proof.
  intros Hws. induction rest as [|c rest IH]; [done|]. cbn [skip_ws]. destruct (is_ws c) eqn:Hc; [|done].
  by rewrite run_cons, Hws.
Qed.

Lemma skip_ws_head rest c more : skip_ws rest = c :: more -> is_ws c = false.
Proof.
  induction rest as [|a rest IH]; [done|]. cbn [skip_ws]. destruct (is_ws a) eqn:Ha; [done|]. by intros [= <- _].
Qed.

Lemma token_arm_run s rest (arm : FieldScanner -> ascii -> bytes -> FieldScanner * bytes) :
  (forall c, step s c = token_step arm s c) ->
  (forall c more, arm s c more = ((arm s c []).1, more)) ->
  same_run s rest (match skip_ws rest with [] => (s, []) | c :: more => arm s c more end).
Proof.
  intros Hstep Harm. unfold same_run. rewrite run_skip_ws by (intros c Hc; rewrite Hstep; unfold token_step; by rewrite Hc).
  destruct (skip_ws rest) as [|c more] eqn:Hs; [done|]. rewrite Harm. cbn [fst snd].
  rewrite run_cons, Hstep. unfold token_step. by rewrite (skip_ws_head _ _ _ Hs).
Qed.

Lemma value_arm_run s rest :
  fs_state s = ExpectValue ->
  same_run s rest (match skip_ws rest with [] => (s, []) | c :: more => value_arm s c more end).
Proof.
  intros Hst. unfold same_run. rewrite run_skip_ws by (intros c Hc; unfold step; by rewrite Hst, Hc).
  destruct (skip_ws rest) as [|c more] eqn:Hs; [done|]. rewrite run_cons. unfold step. rewrite Hst.
  rewrite (skip_ws_head _ _ _ Hs). unfold value_arm.
  destruct (Ascii.eqb c QUOTE); [done|]. destruct (Ascii.eqb c LBRACE || Ascii.eqb c LBRACKET); [done|].
  destruct (Ascii.eqb c COMMA || Ascii.eqb c RBRACE || Ascii.eqb c RBRACKET || Ascii.eqb c COLON) eqn:He; [done|].
  cbn [fst snd]. rewrite run_cons. f_equal. unfold step. cbn [fs_state set_state].
  rewrite !orb_false_iff in He. destruct He as [[[H1 H2] H3] _].
  unfold is_bare_end. by rewrite H1, H2, H3, (skip_ws_head _ _ _ Hs).
Qed.

Lemma in_key_arm_run s e rest : fs_state s = InKey e -> same_run s rest (in_key_arm s e rest).
Proof.
  intros Hst. unfold same_run, in_key_arm.
  pose proof (read_string_part_run (fun e t => set_state (set_token s t) (InKey e))
    (fun t => set_state (set_current (set_token s t) (wanted_index (set_token s t))) ExpectColon)
    (fun t c => eq_refl) (fun t c => eq_refl) rest e (fs_token s)) as Hr.
  destruct (read_string_part rest e (fs_token s)) as [[rest' t'] ending]. cbn beta in Hr.
  rewrite set_token_id, (set_state_id s _ Hst) in Hr. rewrite Hr. by destruct ending.
Qed.

Lemma in_string_wanted_run s e w rest :
  fs_state s = InString e (Some w) -> same_run s rest (in_string_arm s e (Some w) rest).
Proof.
  intros Hst. unfold same_run, in_string_arm.
  pose proof (read_string_part_run (fun e t => set_state (set_token s t) (InString e (Some w)))
    (fun t => match unescape t with
              | Some text => after_value (set_state (set_token s t) (InString false (Some w))) (Some w) (Str text)
              | None => finish (set_token s t) Invalid end)
    (fun t c => eq_refl)) as Hr.
  specialize (Hr ltac:(intros t c; unfold step; cbn; by destruct (Ascii.eqb c QUOTE), (unescape t)) rest e (fs_token s)).
  destruct (read_string_part rest e (fs_token s)) as [[rest' t'] ending]. cbn beta in Hr.
  rewrite set_token_id, (set_state_id s _ Hst) in Hr. rewrite Hr. destruct ending; cbn [resume fst snd]; [|done].
  destruct (unescape t'); [|done]. cbn [fst snd]. unfold after_value. by rewrite record_state.
Qed.

Lemma in_string_skip_run s e rest :
  fs_state s = InString e None -> same_run s rest (in_string_arm s e None rest).
Proof.
  intros Hst. unfold same_run, in_string_arm. rewrite skip_string_part_scan.
  revert s e Hst. induction rest as [|c rest IH]; intros s e Hst.
  - cbn. by rewrite set_token_id, (set_state_id s _ Hst).
  - rewrite run_cons. unfold step. rewrite Hst. cbn [skip_scan]. destruct e.
    + rewrite (IH (set_state s (InString false None)) false eq_refl). by destruct (skip_scan false rest) as [? []].
    + destruct (Ascii.eqb c QUOTE); [cbn; by rewrite set_token_id|].
      rewrite (IH (set_state s (InString (Ascii.eqb c BACKSLASH) None)) _ eq_refl).
      by destruct (skip_scan _ rest) as [? []].
Qed.

Lemma bare_span_app rest part more :
  bare_span rest = (part, more) ->
  rest = part ++ more /\ Forall (fun c => is_bare_end c = false) part /\
  (more = [] \/ exists c l, more = c :: l /\ is_bare_end c = true).
Proof.
  revert part. induction rest as [|c rest IH]; intros part; cbn [bare_span]; [intros [= <- <-]; auto|].
  destruct (is_bare_end c) eqn:Hc; [intros [= <- <-]; split_and!; eauto|].
  destruct (bare_span rest) as [a b]. intros [= <- <-].
  destruct (IH a eq_refl) as (-> & Hf & Hm). split_and!; [done|by constructor|done].
Qed.

Lemma run_bare s wanted part more :
  fs_state s = InBare wanted -> Forall (fun c => is_bare_end c = false) part ->
  run s (part ++ more) = run (set_token s (fs_token s ++ part)) more.
Proof.
  revert s. induction part as [|c part IH]; intros s Hst Hf; [by rewrite app_nil_r, set_token_id|].
  apply Forall_cons in Hf as [Hc Hf]. cbn [app]. rewrite run_cons. unfold step. rewrite Hst, Hc.
  rewrite (IH (push s c) Hst Hf). cbn [push fs_token set_token]. by rewrite <- app_assoc.
Qed.

Lemma after_value_cases s wanted v :
  fs_state (after_value s wanted v) = AfterValue \/ fs_state (after_value s wanted v) = Done Complete.
Proof. unfold after_value. destruct wanted; [case_match|]; auto. Qed.

(** The end of a bare token is read again as what follows the value. *)
Lemma step_bare_end s wanted c more :
  fs_state s = InBare wanted -> is_bare_end c = true ->
  run s (c :: more) = run (match bare_value (fs_token s) with
                           | None => finish s Invalid
                           | Some v => after_value s wanted v
                           end) (c :: more).
Proof.
  intros Hst Hc. rewrite run_cons. unfold step at 1. rewrite Hst, Hc.
  destruct (bare_value (fs_token s)) as [v|]; [|by rewrite !(run_done (finish s Invalid) Invalid)].
  unfold is_done. destruct (after_value_cases s wanted v) as [Ha|Ha]; rewrite Ha.
  - rewrite run_cons. unfold step. by rewrite Ha.
  - by rewrite !(run_done _ _ _ Ha).
Qed.

Lemma in_bare_arm_run s wanted rest :
  fs_state s = InBare wanted -> (wanted = None -> (length (fs_token s) < 8)%nat) ->
  same_run s rest (in_bare_arm s wanted rest).
Proof.
  intros Hst Hlen. unfold same_run, in_bare_arm. destruct (bare_span rest) as [part more] eqn:Hb.
  destruct (bare_span_app _ _ _ Hb) as (-> & Hf & Hm).
  assert (bool_decide (is_Some wanted) || (length (fs_token s) <? 8)%nat = true) as ->.
  { destruct wanted; [done|]. rewrite (proj2 (Nat.ltb_lt _ _) (Hlen eq_refl)). apply orb_true_r. }
  rewrite (run_bare s wanted) by done. destruct Hm as [->|(c & l & -> & Hc)]; [done|].
  rewrite (step_bare_end (set_token s (fs_token s ++ part)) wanted) by done.
  by destruct (bare_value _).
Qed.

Lemma in_nested_arm_run s depth i e rest :
  fs_state s = InNested depth i e -> (i = false -> e = false) -> rest <> [] ->
  same_run s rest (in_nested_arm s depth i e rest).
Proof.
  intros Hst He Hne. unfold same_run, in_nested_arm. rewrite skip_nested_part_scan by done.
  destruct (nest_scan (depth, i, e) rest) as [next r] eqn:Hn.
  destruct (run_nested rest (depth, i, e) s next r Hst Hne Hn) as (part & -> & Hr). rewrite Hr.
  rewrite length_app, Nat.add_sub, take_app_length. by destruct r as [[[? ?] ?]|].
Qed.

(** Nothing of an unwanted bare token was dropped yet. *)
Definition untruncated (s : FieldScanner) : Prop :=
  match fs_state s with
  | InBare None => (length (fs_token s) < 8)%nat
  | InNested _ false e => e = false
  | _ => True
  end.

Lemma feed_round_run s rest : rest <> [] -> untruncated s -> same_run s rest (feed_round s rest).
Proof.
  intros Hne Hu. unfold feed_round, untruncated in *.
  destruct (fs_state s) eqn:Hst.
  1,2,4,9: apply token_arm_run; [intros c; unfold step; by rewrite Hst|].
  1-4: intros c more; unfold start_arm, key_arm, colon_arm, after_arm; repeat case_match; done.
  - by apply in_key_arm_run.
  - by apply value_arm_run.
  - destruct wanted; [by apply in_string_wanted_run|by apply in_string_skip_run].
  - apply in_bare_arm_run; [done|]. by intros ->.
  - apply in_nested_arm_run; [done| |done]. by intros ->.
  - done.
Qed.

(** ** The loop ends *)

(** Rounds that may leave a byte unread are followed by one that reads it. *)
Definition state_weight (st : State) : nat :=
  match st with ExpectValue => 2 | ExpectColon | InBare _ => 1 | _ => 0 end.

Definition weight (s : FieldScanner) (rest : bytes) : nat := 2 * length rest + state_weight (fs_state s).

(** After a round the chunk is used up, the scanner is done, or there is less
    to do and still nothing was dropped. *)
Definition round_ok (s : FieldScanner) (rest : bytes) (r : FieldScanner * bytes) : Prop :=
  r.2 = [] \/ is_done r.1 = true \/ ((weight r.1 r.2 < weight s rest)%nat /\ untruncated r.1).

Lemma skip_ws_length rest : (length (skip_ws rest) <= length rest)%nat.
Proof. induction rest as [|c rest IH]; [done|]. cbn. destruct (is_ws c); cbn; lia. Qed.

Lemma token_arm_ok s rest (arm : FieldScanner -> ascii -> bytes -> FieldScanner * bytes) :
  (forall c more, (is_done (arm s c more).1 = true \/ untruncated (arm s c more).1) /\
     (weight (arm s c more).1 (arm s c more).2 < weight s (c :: more))%nat) ->
  round_ok s rest (match skip_ws rest with [] => (s, []) | c :: more => arm s c more end).
Proof.
  intros Harm. unfold round_ok. pose proof (skip_ws_length rest) as Hl.
  destruct (skip_ws rest) as [|c more]; [by left|]. destruct (Harm c more) as [[Hd|Hu] Hw]; [auto|].
  right; right. split; [|done]. unfold weight in *. lia.
Qed.

(** A string part ends with the string or with the chunk. *)
Definition part_ends (rest rest' : bytes) (ending : StringEnd) : Prop :=
  match ending with Closed => (length rest' < length rest)%nat | Pending _ => rest' = [] end.

Lemma part_ends_longer rest1 rest2 rest' ending :
  part_ends rest1 rest' ending -> (length rest1 <= length rest2)%nat -> part_ends rest2 rest' ending.
Proof. destruct ending; cbn; [lia|done]. Qed.

Lemma read_string_loop_ends fuel rest t :
  (length rest < fuel)%nat ->
  let '(rest', _, ending) := read_string_loop fuel rest t in part_ends rest rest' ending.
Proof.
  revert rest t. induction fuel as [|fuel IH]; intros rest t Hf; [lia|]. cbn [read_string_loop].
  rewrite memchr2_spec. destruct (position _ rest) as [off|] eqn:Hp; [|done].
  destruct (position_some _ _ _ Hp) as (part & c & more & Hl & Hk & Hd & Hc & Hfree).
  rewrite Hd. subst rest. rewrite length_app in Hf. cbn [length] in Hf. destruct (Ascii.eqb c QUOTE).
  { cbn. rewrite length_app. cbn. lia. }
  destruct more as [|e more]; [done|]. cbn [length] in Hf.
  specialize (IH more (((t ++ take off (part ++ c :: e :: more)) ++ [BACKSLASH]) ++ [e]) ltac:(lia)).
  destruct (read_string_loop fuel more _) as [[rest' t'] ending].
  apply (part_ends_longer more); [done|]. rewrite length_app. cbn [length]. lia.
Qed.

Lemma read_string_part_ends rest e t :
  let '(rest', _, ending) := read_string_part rest e t in part_ends rest rest' ending.
Proof.
  unfold read_string_part. destruct e; [|apply read_string_loop_ends; lia].
  destruct rest as [|c rest]; [done|].
  pose proof (read_string_loop_ends (S (length rest)) rest (t ++ [c]) ltac:(lia)) as Hr.
  destruct (read_string_loop _ rest _) as [[rest' t'] ending].
  apply (part_ends_longer rest); [done|]. cbn. lia.
Qed.

Lemma skip_string_part_ends rest e :
  let '(rest', ending) := skip_string_part rest e in part_ends rest rest' ending.
Proof.
  rewrite skip_string_part_scan. destruct (skip_scan e rest) as [rest' [|e']] eqn:Hs.
  - by apply skip_scan_shorter in Hs.
  - by apply skip_scan_pending in Hs.
Qed.

Lemma nest_scan_ends st rest next r :
  nest_scan st rest = (next, r) ->
  match r with
  | None => (length next < length rest)%nat
  | Some (_, i, e) => next = [] /\ (rest <> [] -> i = false -> e = false)
  end.
Proof.
  revert st. induction rest as [|c rest IH]; intros st; cbn [nest_scan].
  { intros [= <- <-]. destruct st as [[? ?] ?]. done. }
  destruct (nest_step st c) as [st'|] eqn:Hs; [|intros [= <- <-]; cbn; lia].
  intros Hn. assert (Hst' : let '(_, i, e) := st' in i = false -> e = false).
  { destruct st as [[d i] e]. unfold nest_step in Hs. repeat case_match; simplify_eq; done. }
  destruct rest as [|c' rest].
  - injection Hn as <- <-. destruct st' as [[? ?] ?]. done.
  - specialize (IH st' Hn). destruct r as [[[? ?] ?]|]; [|cbn in *; lia].
    destruct IH as [-> He]. split; [done|]. intros _. by apply He.
Qed.

Lemma round_ok_shorter s rest s' rest' :
  (length rest' < length rest)%nat -> (state_weight (fs_state s') <= 1)%nat -> untruncated s' ->
  round_ok s rest (s', rest').
Proof. intros Hl Hw Hu. right; right. split; [|done]. unfold weight. cbn. lia. Qed.

Lemma round_ok_after s rest s' rest' wanted v :
  (length rest' <= length rest)%nat -> (state_weight (fs_state s) > 0 \/ (length rest' < length rest))%nat ->
  round_ok s rest (after_value s' wanted v, rest').
Proof.
  intros Hl Hw. unfold round_ok. cbn [fst snd]. destruct (after_value_cases s' wanted v) as [Ha|Ha].
  - right; right. unfold weight, untruncated. rewrite Ha. cbn [state_weight]. split; [lia|done].
  - right; left. unfold is_done. by rewrite Ha.
Qed.

Lemma finish_ok s rest s' p rest' : round_ok s rest (finish s' p, rest').
Proof. by right; left. Qed.

Lemma token_rounds_ok s rest :
  match fs_state s with
  | Start | ExpectKey | ExpectColon | ExpectValue | AfterValue => round_ok s rest (feed_round s rest)
  | _ => True
  end.
Proof.
  unfold feed_round. destruct (fs_state s) eqn:Hst; try done; apply token_arm_ok; intros c more;
    unfold start_arm, key_arm, colon_arm, value_arm, after_arm; repeat case_match; cbn [fst snd];
    unfold untruncated, weight; cbn; rewrite Hst; cbn; (split; [auto|lia]).
  right. destruct (fs_current s); [done|lia].
Qed.

Lemma in_key_arm_ok s e rest : round_ok s rest (in_key_arm s e rest).
Proof.
  unfold in_key_arm. pose proof (read_string_part_ends rest e (fs_token s)) as Hr.
  destruct (read_string_part rest e (fs_token s)) as [[rest' t'] [|e']]; cbn in Hr; [|by left].
  by apply round_ok_shorter.
Qed.

Lemma in_string_arm_ok s e wanted rest : round_ok s rest (in_string_arm s e wanted rest).
Proof.
  unfold in_string_arm. destruct wanted as [w|].
  - pose proof (read_string_part_ends rest e (fs_token s)) as Hr.
    destruct (read_string_part rest e (fs_token s)) as [[rest' t'] [|e']]; cbn in Hr; [|by left].
    destruct (unescape t'); [apply round_ok_after; lia|apply finish_ok].
  - pose proof (skip_string_part_ends rest e) as Hr.
    destruct (skip_string_part rest e) as [rest' [|e']]; cbn in Hr; [|by left]. by apply round_ok_shorter; [|cbn; lia|].
Qed.

Lemma in_bare_arm_ok s wanted rest : fs_state s = InBare wanted -> round_ok s rest (in_bare_arm s wanted rest).
Proof.
  intros Hst. unfold in_bare_arm. destruct (bare_span rest) as [part more] eqn:Hb.
  destruct (bare_span_app _ _ _ Hb) as (-> & _ & _).
  destruct more as [|c more]; [by left|]. destruct (bare_value _); [|apply finish_ok].
  apply round_ok_after; [rewrite length_app; lia|]. left. rewrite Hst. cbn. lia.
Qed.

Lemma close_nested_cases s :
  fs_state (close_nested s) = AfterValue \/ fs_state (close_nested s) = Done Complete.
Proof. unfold close_nested. case_match; auto. Qed.

Lemma in_nested_arm_ok s depth i e rest :
  (i = false -> e = false) -> rest <> [] -> round_ok s rest (in_nested_arm s depth i e rest).
Proof.
  intros He Hne. unfold in_nested_arm. rewrite skip_nested_part_scan by done.
  destruct (nest_scan (depth, i, e) rest) as [next r] eqn:Hn. apply nest_scan_ends in Hn.
  destruct r as [[[? ?] ?]|]; [destruct Hn as [-> _]; by left|].
  destruct (close_nested_cases (capture s (take (length rest - length next) rest))) as [Ha|Ha].
  - apply round_ok_shorter; [done|rewrite Ha; cbn; lia|]. unfold untruncated. by rewrite Ha.
  - right; left. unfold is_done. cbn. by rewrite Ha.
Qed.

Lemma feed_round_ok s rest :
  rest <> [] -> untruncated s -> is_done s = false -> round_ok s rest (feed_round s rest).
Proof.
  intros Hne Hu Hd. pose proof (token_rounds_ok s rest) as Ht. unfold untruncated, is_done in *.
  destruct (fs_state s) eqn:Hst; try exact Ht; unfold feed_round; rewrite Hst.
  - apply in_key_arm_ok.
  - apply in_string_arm_ok.
  - by apply in_bare_arm_ok.
  - apply in_nested_arm_ok; [|done]. by intros ->.
  - done.
Qed.

(** What a call of [feed] answers. *)
Definition progress (s : FieldScanner) : Progress := match fs_state s with Done p => p | _ => NeedMore end.

Lemma feed_loop_run fuel s rest :
  (weight s rest <= fuel)%nat -> untruncated s -> is_done s = false ->
  feed_loop fuel s rest = (run s rest, progress (run s rest)).
Proof.
  revert s rest. induction fuel as [|fuel IH]; intros s rest Hw Hu Hd.
  { destruct rest; [|unfold weight in Hw; cbn in Hw; lia]. cbn. unfold progress, is_done in *. by destruct (fs_state s). }
  destruct rest as [|c rest0]; [cbn; unfold progress, is_done in *; by destruct (fs_state s)|].
  set (rest := c :: rest0) in *. assert (Hne : rest <> []) by done.
  change (feed_loop (S fuel) s rest) with
    (let '(s, rest) := feed_round s rest in
     match fs_state s with Done p => (s, p) | _ => feed_loop fuel s rest end).
  pose proof (feed_round_run s rest Hne Hu) as Hrun. pose proof (feed_round_ok s rest Hne Hu Hd) as Hok.
  destruct (feed_round s rest) as [s' rest']. unfold same_run in Hrun. cbn [fst snd] in *. rewrite Hrun.
  destruct (is_done s') eqn:Hd'.
  - unfold is_done in Hd'. destruct (fs_state s') eqn:Hs'; try done.
    rewrite (run_done _ _ _ Hs'). unfold progress. by rewrite Hs'.
  - assert (Hgo : match fs_state s' with Done p => (s', p) | _ => feed_loop fuel s' rest' end
                  = feed_loop fuel s' rest').
    { unfold is_done in Hd'. by destruct (fs_state s'). }
    rewrite Hgo. destruct Hok as [Hnil|[Hdone|[Hlt Hu']]]; cbn [fst snd] in *; [|congruence|apply IH; [lia|done|done]].
    subst rest'. destruct fuel; cbn; unfold progress, is_done in *; by destruct (fs_state s').
Qed.

(** Fed one chunk, a scanner that dropped nothing is the automaton. *)
Lemma feed_run s chunk :
  untruncated s ->
  feed s chunk = if is_done s then (s, progress s)
                 else let s := run (add_consumed s (Z.of_nat (length chunk))) chunk in (s, progress s).
Proof.
  intros Hu. unfold feed, is_done, progress. destruct (fs_state s) eqn:Hst; try done;
    (rewrite feed_loop_run; [done|unfold weight; cbn [fs_state add_consumed]; rewrite Hst; cbn; lia|
      unfold untruncated in *; cbn [fs_state add_consumed fs_token]; by rewrite Hst in *|
      unfold is_done; cbn [fs_state add_consumed]; by rewrite Hst]).
Qed.

(** ** Chunks *)

Definition set_consumed (s : FieldScanner) (n : Z) : FieldScanner :=
  {| fs_keys := fs_keys s; fs_values := fs_values s; fs_found := fs_found s; fs_state := fs_state s;
     fs_token := fs_token s; fs_current := fs_current s; fs_consumed := n;
     fs_capture_compound := fs_capture_compound s; fs_capture_limit := fs_capture_limit s;
     fs_capturing := fs_capturing s |}.

(** A scanner up to its byte count and its token. *)
Definition forget (s : FieldScanner) : FieldScanner := set_token (set_consumed s 0) [].

(** States in which the token is cleared before it is read again. *)
Definition token_dead (st : State) : bool :=
  match st with Start | ExpectKey | ExpectColon | ExpectValue | AfterValue | Done _ => true | _ => false end.

Record alike (s t : FieldScanner) : Prop := {
  alike_forget : forget s = forget t;
  alike_token : token_dead (fs_state s) = false -> fs_token s = fs_token t;
  alike_nested : match fs_state s with InNested _ false e => e = false | _ => True end;
}.

Lemma alike_fields s t :
  forget s = forget t ->
  t = set_consumed (set_token s (fs_token t)) (fs_consumed t).
Proof. destruct s, t. unfold forget. cbn. intros [=]. by subst. Qed.

Lemma record_consumed s n w v : record (set_consumed s n) w v = set_consumed (record s w v) n.
Proof. unfold record. cbn. by destruct (fs_values s !! w) as [[]|]. Qed.

Lemma capture_consumed s n part : capture (set_consumed s n) part = set_consumed (capture s part) n.
Proof.
  unfold capture. cbn [fs_capturing set_consumed]. destruct (fs_capturing s) as [w|]; [|done].
  cbn [fs_token fs_capture_limit set_token set_consumed]. case_match; [|done].
  by rewrite <- record_consumed.
Qed.

Lemma all_found_consumed s n : all_found (set_consumed s n) = all_found s.
Proof. done. Qed.

Lemma after_value_consumed s n w v : after_value (set_consumed s n) w v = set_consumed (after_value s w v) n.
Proof. unfold after_value. destruct w; [|done]. rewrite record_consumed, all_found_consumed. by case_match. Qed.

Lemma close_nested_consumed s n : close_nested (set_consumed s n) = set_consumed (close_nested s) n.
Proof.
  unfold close_nested. cbn [fs_capturing set_consumed]. destruct (fs_capturing s) as [w|].
  - change (set_token (set_capturing (set_consumed s n) None) [])
      with (set_consumed (set_token (set_capturing s None) []) n).
    cbn [fs_token set_consumed]. rewrite record_consumed, all_found_consumed. by case_match.
  - rewrite all_found_consumed. by case_match.
Qed.

Lemma value_arm_consumed s n c :
  value_arm (set_consumed s n) c [] = (set_consumed (value_arm s c []).1 n, (value_arm s c []).2).
Proof.
  unfold value_arm. cbn [fs_current set_consumed]. destruct (Ascii.eqb c QUOTE); [done|].
  destruct (Ascii.eqb c LBRACE || Ascii.eqb c LBRACKET); [|by case_match].
  cbn [fst snd]. f_equal. destruct (fs_current s) as [w|]; [|done]. cbn [fs_capture_compound set_token set_current set_consumed].
  destruct (fs_capture_compound s); [done|].
  change (set_token (set_current (set_consumed s n) None) [])
    with (set_consumed (set_token (set_current s None) []) n). by rewrite record_consumed.
Qed.

Lemma step_consumed s n c : step (set_consumed s n) c = set_consumed (step s c) n.
Proof.
  unfold step. cbn [fs_state set_consumed]. destruct (fs_state s) as [| |[]| | |e w|w|d i e| |].
  1,2,5,10: unfold token_step, start_arm, key_arm, colon_arm, after_arm; repeat case_match; done.
  - done.
  - by case_match.
  - destruct (is_ws c); [done|]. rewrite value_arm_consumed. destruct (value_arm s c []) as [s' []]; done.
  - destruct e, (Ascii.eqb c QUOTE), w; try done. cbn [fs_token set_consumed].
    destruct (unescape (fs_token s)); [|done]. apply after_value_consumed.
  - cbn [fs_token set_consumed]. destruct (is_bare_end c); [|done].
    destruct (bare_value (fs_token s)) as [v|]; [|done]. rewrite after_value_consumed.
    unfold is_done. cbn [fs_state set_consumed]. destruct (after_value_cases s w v) as [->| ->]; [|done].
    unfold token_step, after_arm. repeat case_match; done.
  - destruct (nest_step (d, i, e) c) as [[[? ?] ?]|]; rewrite capture_consumed; [done|].
    apply close_nested_consumed.
  - done.
Qed.

Definition nested_wf (s : FieldScanner) : Prop :=
  match fs_state s with InNested _ false e => e = false | _ => True end.

Lemma state_nested_wf s st : fs_state s = st -> (forall d i e, st <> InNested d i e) -> nested_wf s.
Proof. unfold nested_wf. intros -> Hn. by destruct st; try done; destruct in_string; [|destruct (Hn depth false escaped)]. Qed.

Lemma step_nested_wf s c : nested_wf s -> nested_wf (step s c).
Proof.
  intros Hs. unfold step. destruct (fs_state s) as [| |[]| | |e w|w|d i e| |] eqn:Hst.
  1,2,5,10: unfold token_step, start_arm, key_arm, colon_arm, after_arm; repeat case_match; done.
  - done.
  - by case_match.
  - unfold value_arm. destruct (is_ws c); [done|]. repeat case_match; simplify_eq; done.
  - destruct e; [done|]. destruct (Ascii.eqb c QUOTE); [|done]. destruct w; [|done].
    destruct (unescape (fs_token s)); [|done].
    edestruct after_value_cases as [Ha|Ha]; by eapply state_nested_wf; [exact Ha|].
  - destruct (is_bare_end c); [|done]. destruct (bare_value (fs_token s)) as [v|]; [|done].
    unfold is_done. destruct (after_value_cases s w v) as [Ha|Ha]; rewrite Ha.
    + unfold token_step, after_arm. repeat case_match; try done. by eapply state_nested_wf; [exact Ha|].
    + by eapply state_nested_wf; [exact Ha|].
  - unfold nest_step. repeat case_match; simplify_eq; try done;
      edestruct close_nested_cases as [Ha|Ha]; by eapply state_nested_wf; [exact Ha|].
  - done.
Qed.

(** In a state where it is dead the token does not matter. *)
Lemma step_token_dead s t c :
  token_dead (fs_state s) = true ->
  forget (step s c) = forget (step (set_token s t) c) /\
  (token_dead (fs_state (step s c)) = false -> fs_token (step s c) = fs_token (step (set_token s t) c)).
Proof.
  unfold step. cbn [fs_state set_token]. destruct (fs_state s) as [| |[]| | |e w|w|d i e| |] eqn:Hst; try done; intros _.
  1,2,3,5: unfold token_step, start_arm, key_arm, colon_arm, after_arm; repeat case_match; (split; [done|]); cbn; by rewrite ?Hst.
  - destruct (is_ws c); [split; [done|]; by rewrite Hst|].
    by change (value_arm (set_token s t) c []) with (value_arm s c []).
  - split; [done|]. by rewrite Hst.
Qed.

Lemma alike_refl s n : nested_wf s -> alike s (set_consumed s n).
Proof. by intros Hs; constructor. Qed.

Lemma step_alike s t c : alike s t -> alike (step s c) (step t c).
Proof.
  intros [Hf Ht Hn]. rewrite (alike_fields s t Hf), step_consumed.
  destruct (token_dead (fs_state s)) eqn:Hd.
  - destruct (step_token_dead s (fs_token t) c Hd) as [Hf' Ht'].
    constructor; [exact Hf'|exact Ht'|]. by apply (step_nested_wf s c).
  - rewrite <- (Ht eq_refl), set_token_id. apply alike_refl. by apply step_nested_wf.
Qed.

Lemma run_alike s t l : alike s t -> alike (run s l) (run t l).
Proof. revert s t. induction l as [|c l IH]; [done|]. intros s t Ha. apply IH. by apply step_alike. Qed.

(** A scanner that dropped the end of an unwanted bare token. *)
Record truncated (s t : FieldScanner) : Prop := {
  tr_forget : forget s = forget t;
  tr_state : fs_state s = InBare None;
  tr_long : (8 <= length (fs_token s))%nat;
  tr_prefix : fs_token s `prefix_of` fs_token t;
}.

Lemma forget_state s t : forget s = forget t -> fs_state s = fs_state t.
Proof. by intros [=]. Qed.

(** Eight bytes of a well-formed number are a well-formed number. *)
Lemma bare_value_prefix a b v :
  a `prefix_of` b -> (8 <= length a)%nat -> bare_value b = Some v -> exists v', bare_value a = Some v'.
Proof.
  intros [more ->] Hl. unfold bare_value.
  assert (Hne : forall w, (length (String.list_ascii_of_string w) < 8)%nat -> a <> String.list_ascii_of_string w
    /\ a ++ more <> String.list_ascii_of_string w).
  { intros w Hw. split; intros He; apply (f_equal length) in He; rewrite ?length_app in He; lia. }
  destruct (Hne "true" ltac:(cbn; lia)), (Hne "false" ltac:(cbn; lia)), (Hne "null" ltac:(cbn; lia)).
  rewrite !decide_False by done. destruct a as [|c a]; [cbn in Hl; lia|]. cbn [app].
  destruct ((byte_val c =? 45) || in_byte_range 48 57 c); [|done].
  destruct (forallb is_number_byte (c :: a ++ more)) eqn:Hf; [|done]. intros _.
  change (c :: a ++ more) with ((c :: a) ++ more) in Hf. rewrite forallb_app in Hf.
  apply andb_true_iff in Hf as [-> _]. by eexists.
Qed.

Lemma feed_loop_round fuel s rest :
  rest <> [] ->
  feed_loop (S fuel) s rest = let '(s, rest) := feed_round s rest in
                              match fs_state s with Done p => (s, p) | _ => feed_loop fuel s rest end.
Proof. by destruct rest. Qed.

(** The round that reads the rest of a long unwanted token keeps none of it. *)
Lemma feed_round_truncated s part more :
  fs_state s = InBare None -> (8 <= length (fs_token s))%nat ->
  bare_span (part ++ more) = (part, more) ->
  feed_round s (part ++ more) =
    match more with
    | [] => (s, [])
    | _ => match bare_value (fs_token s) with
           | None => (finish s Invalid, more)
           | Some v => (set_state s AfterValue, more)
           end
    end.
Proof.
  intros Hst Hl Hb. unfold feed_round. rewrite Hst. unfold in_bare_arm. rewrite Hb.
  rewrite bool_decide_false by (by intros []). rewrite (proj2 (Nat.ltb_ge _ _) Hl). cbn [orb].
  by destruct more; [|destruct (bare_value (fs_token s))].
Qed.

(** Feeding a chunk to a scanner in the middle of a long unwanted token. *)
Lemma feed_truncated s t chunk :
  truncated s t ->
  let s' := (feed s chunk).1 in
  truncated s' (run t chunk) \/ alike s' (run t chunk) \/ fs_state (run t chunk) = Done Invalid.
Proof.
  intros [Hf Hst Hlong Hpre]. cbv zeta. unfold feed. rewrite Hst.
  set (s1 := add_consumed s (Z.of_nat (length chunk))).
  assert (Hst1 : fs_state s1 = InBare None) by done.
  assert (Htst : fs_state t = InBare None) by (by rewrite <- (forget_state s t Hf)).
  destruct (bare_span chunk) as [part more] eqn:Hb. destruct (bare_span_app _ _ _ Hb) as (-> & Hp & Hm).
  rewrite (run_bare t None) by done. set (t1 := set_token t (fs_token t ++ part)).
  assert (Hpre1 : fs_token s `prefix_of` fs_token t ++ part) by (by apply prefix_app_r).
  destruct (part ++ more) as [|c0 l0] eqn:Hne.
  { apply app_eq_nil in Hne as [-> ->]. left. by constructor. }
  rewrite <- Hne in *. replace (2 * length (part ++ more) + 2)%nat with (S (2 * length (part ++ more) + 1)) by lia.
  rewrite feed_loop_round by (by rewrite Hne). rewrite (feed_round_truncated s1) by done.
  destruct Hm as [->|(c & l & -> & Hc)].
  { left. rewrite Hst1. destruct (2 * length (part ++ []) + 1)%nat; by constructor. }
  rewrite (step_bare_end t1 None) by done. destruct (bare_value (fs_token t1)) as [v|] eqn:Hv.
  2:{ right; right. by rewrite (run_done (finish t1 Invalid) Invalid). }
  destruct (bare_value_prefix (fs_token s1) _ v Hpre1 Hlong Hv) as [v' ->].
  cbn [fs_state set_state]. right; left. rewrite feed_loop_run; [|unfold weight; rewrite length_app; cbn; lia|done|done].
  apply run_alike. constructor; [|done|done].
  change (set_state (forget s) AfterValue = set_state (forget t) AfterValue). by rewrite Hf.
Qed.

(** Any number of chunks, as the automaton run over all of them. *)
Definition related (s t : FieldScanner) : Prop :=
  truncated s t \/ alike s t \/ fs_state t = Done Invalid.

Lemma feed_alike s t chunk :
  alike s t -> related (feed s chunk).1 (run t chunk).
Proof.
  intros Ha. destruct Ha as [Hf Ht Hn] eqn:He. clear He.
  assert (Hcase : untruncated s \/ (fs_state s = InBare None /\ (8 <= length (fs_token s))%nat)).
  { unfold untruncated. destruct (fs_state s) as [| | | | | |[]| | |]; auto.
    destruct (Nat.lt_ge_cases (length (fs_token s)) 8); auto. }
  destruct Hcase as [Hu|[Hst Hlong]].
  - right; left. rewrite feed_run by done. destruct (is_done s) eqn:Hd; cbn [fst].
    + unfold is_done in Hd. destruct (fs_state s) eqn:Hst; try done.
      rewrite (run_done t p) by (by rewrite <- (forget_state s t Hf)). exact Ha.
    + by apply run_alike.
  - apply feed_truncated. constructor; [done|done|done|]. rewrite Ht; [done|]. by rewrite Hst.
Qed.

Lemma feed_related s t chunk : related s t -> related (feed s chunk).1 (run t chunk).
Proof.
  intros [Ht|[Ha|Hi]]; [by apply feed_truncated|by apply feed_alike|].
  right; right. by rewrite (run_done _ _ _ Hi).
Qed.

Lemma feed_all_related chunks s t : related s t -> related (feed_all s chunks) (run t (concat chunks)).
Proof.
  revert s t. induction chunks as [|chunk chunks IH]; [done|]. intros s t Hr. cbn [feed_all concat].
  rewrite run_app. apply IH. by apply feed_related.
Qed.

(** ** Theorems: chunks *)

Lemma related_forget s t : related s t -> progress t <> Invalid -> forget s = forget t.
Proof.
  intros [[? _ _ _]|[[? _ _]|Hi]] Hp; [done|done|]. destruct Hp. unfold progress. by rewrite Hi.
Qed.

Lemma related_values s t :
  related s t -> progress t <> Invalid -> fs_values s = fs_values t /\ progress s = progress t.
Proof.
  intros Hr Hp. pose proof (related_forget s t Hr Hp) as Hf.
  split; [by injection Hf|]. unfold progress. by rewrite (forget_state s t Hf).
Qed.

Lemma feed_fresh s chunk :
  fs_state s = Start -> feed s chunk = let t := run (add_consumed s (Z.of_nat (length chunk))) chunk in (t, progress t).
Proof. intros Hs. rewrite feed_run by (unfold untruncated; by rewrite Hs). unfold is_done. by rewrite Hs. Qed.

(** C27: How a body is cut into chunks does not matter.  Unless the whole body
    at once is refused as invalid, feeding it in any chunks extracts the same
    values and gives the same answer. *)
Theorem chunking_irrelevant (s : FieldScanner) (chunks : list bytes)
  (Hfresh : fs_state s = Start) (Hvalid : (feed s (concat chunks)).2 <> Invalid) :
  fs_values (feed_all s chunks) = fs_values (feed s (concat chunks)).1 /\
  progress (feed_all s chunks) = (feed s (concat chunks)).2.
Proof.
  rewrite feed_fresh in * by done. cbn [fst snd] in *. apply related_values; [|done].
  apply feed_all_related. right; left.
  apply (alike_refl s). apply (state_nested_wf s Start); done.
Qed.

(** ** Well-formed objects *)

(** The inside of a string: no bare quote, every backslash escapes a byte. *)
Inductive string_body : bytes -> Prop :=
| body_nil : string_body []
| body_plain c l : c <> QUOTE -> c <> BACKSLASH -> string_body l -> string_body (c :: l)
| body_escape c l : string_body l -> string_body (BACKSLASH :: c :: l).

(** The inside of an object or array, nested at most [n] deep: brackets in
    pairs, strings whole. *)
Inductive balanced : nat -> bytes -> Prop :=
| bal_nil n : balanced n []
| bal_byte n c l : structural c = false -> balanced n l -> balanced n (c :: l)
| bal_string n raw l : string_body raw -> balanced n l -> balanced n (QUOTE :: raw ++ QUOTE :: l)
| bal_nest n o inner c l :
    (o = LBRACE \/ o = LBRACKET) -> (c = RBRACE \/ c = RBRACKET) ->
    balanced n inner -> balanced (S n) l -> balanced (S n) (o :: inner ++ c :: l).

(** A top-level value with its text. *)
Inductive jvalue :=
| JStr (raw : bytes)
| JBare (token : bytes)
| JNest (open : ascii) (inner : bytes) (close : ascii).

Definition value_text (v : jvalue) : bytes :=
  match v with
  | JStr raw => QUOTE :: raw ++ [QUOTE]
  | JBare token => token
  | JNest o inner c => o :: inner ++ [c]
  end.

Definition value_wf (v : jvalue) : Prop :=
  match v with
  | JStr raw => string_body raw /\ is_Some (unescape raw)
  | JBare token => is_Some (bare_value token)
  | JNest o inner c => (o = LBRACE \/ o = LBRACKET) /\ (c = RBRACE \/ c = RBRACKET) /\
      exists n, balanced n inner /\ Z.of_nat n < 2 ^ 32 - 1
  end.

(** What the scanner reports for a value. *)
Definition value_scalar (capture : bool) (limit : Z) (v : jvalue) : Scalar :=
  match v with
  | JStr raw => Str (default EmptyString (unescape raw))
  | JBare token => default Null (bare_value token)
  | JNest _ _ _ =>
      if capture then if Z.of_nat (length (value_text v)) >? limit then Compound else Raw (value_text v)
      else Compound
  end.

(** A member with the white space around its parts. *)
Record member := {
  mb_ws1 : bytes; mb_key : bytes; mb_ws2 : bytes; mb_ws3 : bytes; mb_value : jvalue; mb_ws4 : bytes }.

Definition is_space (l : bytes) : Prop := Forall (fun c => is_ws c = true) l.

Record member_wf (m : member) : Prop := {
  mw_spaces : is_space (mb_ws1 m) /\ is_space (mb_ws2 m) /\ is_space (mb_ws3 m) /\ is_space (mb_ws4 m);
  mw_key : string_body (mb_key m);
  mw_value : value_wf (mb_value m);
}.

Definition member_text (m : member) : bytes :=
  mb_ws1 m ++ QUOTE :: mb_key m ++ QUOTE :: mb_ws2 m ++ COLON :: mb_ws3 m ++ value_text (mb_value m) ++ mb_ws4 m.

(** The members after the opening brace, up to the closing one. *)
Fixpoint members_text (m : member) (ms : list member) : bytes :=
  match ms with
  | [] => member_text m ++ [RBRACE]
  | m' :: ms => member_text m ++ COMMA :: members_text m' ms
  end.

(** The first member named by a key; a key written with escapes names none. *)
Definition names (k : string) (m : member) : bool := bool_decide (String.list_ascii_of_string k = mb_key m).

Definition first_value (capture : bool) (limit : Z) (ms : list member) (k : string) : option Scalar :=
  (fun m => value_scalar capture limit (mb_value m)) <$> List.find (names k) ms.

(** *** Strings and nested values *)

Lemma run_string_body (K : bool -> bytes -> FieldScanner) raw t l :
  (forall t c, step (K true t) c = K false (t ++ [c])) ->
  (forall t c, Ascii.eqb c QUOTE = false -> step (K false t) c = K (Ascii.eqb c BACKSLASH) (t ++ [c])) ->
  string_body raw -> run (K false t) (raw ++ l) = run (K false (t ++ raw)) l.
Proof.
  intros He Hp Hb. revert t. induction Hb as [|c raw Hq Hs Hb IH|c raw Hb IH]; intros t.
  - by rewrite app_nil_r.
  - cbn [app]. rewrite run_cons, Hp by (by apply Ascii.eqb_neq). rewrite (proj2 (Ascii.eqb_neq _ _) Hs), IH.
    by rewrite <- app_assoc.
  - cbn [app]. rewrite !run_cons, Hp by done. change (Ascii.eqb BACKSLASH BACKSLASH) with true.
    rewrite He, IH. by rewrite <- !app_assoc.
Qed.

Lemma skip_scan_body raw l : string_body raw -> skip_scan false (raw ++ QUOTE :: l) = (l, Closed).
Proof.
  induction 1 as [|c raw Hq Hs Hb IH|c raw Hb IH]; cbn; [done| |exact IH].
  by rewrite (proj2 (Ascii.eqb_neq _ _) Hq), (proj2 (Ascii.eqb_neq _ _) Hs).
Qed.

Lemma as_u32_small d : 0 <= d < 2 ^ 32 -> as_u 32 d = d.
Proof. intros Hd. unfold as_u. by rewrite Z.mod_small. Qed.

Lemma balanced_scan n l depth rest :
  balanced n l -> 1 <= depth -> depth + Z.of_nat n < 2 ^ 32 ->
  nest_scan (depth, false, false) (l ++ rest) = nest_scan (depth, false, false) rest.
Proof.
  intros Hb. revert depth rest. induction Hb as [n|n c l Hc Hb IH|n raw l Hr Hb IH|n o inner c l Ho Hc Hi IHi Hl IHl];
    intros depth rest Hd Hlt.
  - done.
  - change (c :: l) with ([c] ++ l). rewrite <- app_assoc, nest_scan_plain by (by repeat constructor). by apply IH.
  - cbn [app nest_scan nest_step]. change (Ascii.eqb QUOTE QUOTE) with true. cbn iota.
    rewrite <- app_assoc. cbn [app]. rewrite nest_scan_string, skip_scan_body by done. by apply IH.
  - cbn [app nest_scan]. rewrite <- app_assoc. cbn [app].
    assert (nest_step (depth, false, false) o = Some (depth + 1, false, false)) as ->.
    { unfold nest_step. rewrite (as_u32_small (depth + 1)) by lia. by destruct Ho as [-> | ->]. }
    rewrite IHi by lia. cbn [nest_scan].
    assert (nest_step (depth + 1, false, false) c = Some (depth, false, false)) as ->.
    { unfold nest_step. replace (depth + 1 - 1) with depth by lia. rewrite (as_u32_small depth) by lia.
      rewrite (proj2 (Z.eqb_neq depth 0)) by lia. by destruct Hc as [-> | ->]. }
    apply IHl; lia.
Qed.

Lemma run_nested_text s inner c l :
  fs_state s = InNested 1 false false -> (c = RBRACE \/ c = RBRACKET) ->
  (exists n, balanced n inner /\ Z.of_nat n < 2 ^ 32 - 1) ->
  run s (inner ++ c :: l) = run (close_nested (capture s (inner ++ [c]))) l.
Proof.
  intros Hst Hc (n & Hb & Hn).
  assert (Hscan : nest_scan (1, false, false) (inner ++ c :: l) = (l, None)).
  { rewrite (balanced_scan n) by (done || lia). by destruct Hc as [-> | ->]. }
  destruct (run_nested (inner ++ c :: l) (1, false, false) s l None Hst ltac:(by destruct inner) Hscan) as (part & Hp & ->).
  change (c :: l) with ([c] ++ l) in Hp. rewrite app_assoc in Hp. apply app_inv_tail in Hp as <-. done.
Qed.

(** *** A member at a time *)

Section Members.
Context (keys : list string) (cap : bool) (limit : Z).
Hypothesis keys_plain : Forall (fun k => BACKSLASH ∉ String.list_ascii_of_string k) keys.

Definition found_count (vs : list (option Scalar)) : Z :=
  Z.of_nat (length (List.filter (fun v => bool_decide (is_Some v)) vs)).

(** A scanner between values, having extracted [vs]. *)
Record ready (s : FieldScanner) (vs : list (option Scalar)) : Prop := {
  rd_keys : fs_keys s = keys;
  rd_values : fs_values s = vs;
  rd_length : length vs = length keys;
  rd_found : fs_found s = found_count vs;
  rd_capturing : fs_capturing s = None;
  rd_cap : fs_capture_compound s = cap;
  rd_limit : fs_capture_limit s = limit;
}.

Lemma found_count_insert vs i v :
  vs !! i = Some None -> found_count (<[i := Some v]> vs) = found_count vs + 1.
Proof.
  unfold found_count. revert i. induction vs as [|x vs IH]; [done|]. intros [|i] Hi.
  - injection Hi as ->. cbn. lia.
  - specialize (IH i Hi). change (<[S i := Some v]> (x :: vs)) with (x :: <[i := Some v]> vs).
    cbn [List.filter]. destruct (bool_decide (is_Some x)); cbn [length]; lia.
Qed.

Definition upd (vs : list (option Scalar)) (w : option nat) (v : Scalar) : list (option Scalar) :=
  match w with Some i => <[i := Some v]> vs | None => vs end.

(** The slot a key is read into. *)
Definition wanted (vs : list (option Scalar)) (key : bytes) : option nat :=
  match position (fun k => bool_decide (String.list_ascii_of_string k = key)) keys with
  | Some i => match vs !! i with Some None => Some i | _ => None end
  | None => None
  end.

Lemma wanted_free vs key i : wanted vs key = Some i -> vs !! i = Some None.
Proof. unfold wanted. repeat case_match; congruence. Qed.

Lemma wanted_index_ready s vs key :
  ready s vs -> fs_token s = key -> wanted_index s = wanted vs key.
Proof.
  intros [Hk Hv _ _ _ _ _] Ht. unfold wanted_index, wanted. rewrite memchr_spec, Hk, Hv, Ht.
  destruct (position (fun c => Ascii.eqb c BACKSLASH) key) as [n|] eqn:Hb; [|done].
  destruct (position_some _ _ _ Hb) as (part & c & rest & -> & _ & _ & Hc & _). apply Ascii.eqb_eq in Hc as ->.
  destruct (position _ keys) as [i|] eqn:Hp; [|done]. exfalso.
  destruct (position_some _ _ _ Hp) as (ks & k & ks' & -> & _ & _ & Hkey & _). apply bool_decide_eq_true in Hkey.
  apply Forall_app in keys_plain as [_ [Hno _]%Forall_cons]. apply Hno. rewrite Hkey. set_solver.
Qed.

(** What is left of a scanner after a value. *)
Definition after (s : FieldScanner) (vs : list (option Scalar)) : Prop :=
  ready s vs /\ (fs_state s = AfterValue \/ (fs_state s = Done Complete /\ found_count vs = Z.of_nat (length keys))).

Lemma record_ready s vs i v :
  ready s vs -> vs !! i = Some None -> ready (record s i v) (<[i := Some v]> vs).
Proof.
  intros [Hk Hv Hl Hf Hc Hcap Hlim] Hi. unfold record. rewrite Hv, Hi.
  constructor; cbn; try done; [by rewrite length_insert|]. rewrite found_count_insert by done. lia.
Qed.

Lemma ready_frame s s' vs :
  ready s vs -> fs_keys s' = fs_keys s -> fs_values s' = fs_values s -> fs_found s' = fs_found s ->
  fs_capturing s' = fs_capturing s -> fs_capture_compound s' = fs_capture_compound s ->
  fs_capture_limit s' = fs_capture_limit s -> ready s' vs.
Proof. intros [] **. constructor; congruence. Qed.

Lemma all_found_ready s vs : ready s vs -> all_found s = (found_count vs =? Z.of_nat (length keys)).
Proof. intros [Hk _ _ Hf _ _ _]. unfold all_found. by rewrite Hk, Hf. Qed.

Lemma settle_after s vs :
  ready s vs -> after (if all_found s then finish s Complete else set_state s AfterValue) vs.
Proof.
  intros Hr. rewrite (all_found_ready s vs Hr). destruct (Z.eqb_spec (found_count vs) (Z.of_nat (length keys))).
  - split; [by eapply ready_frame|]. by right.
  - split; [by eapply ready_frame|]. by left.
Qed.

Lemma after_value_after s vs w v :
  ready s vs -> (forall i, w = Some i -> vs !! i = Some None) -> after (after_value s w v) (upd vs w v).
Proof.
  intros Hr Hw. unfold after_value, upd. destruct w as [i|].
  - apply settle_after. by apply record_ready; [|apply Hw].
  - split; [by eapply ready_frame|]. by left.
Qed.

(** The bytes of a literal or number start no other value and end no token. *)
Definition bare_byte (c : ascii) : bool :=
  negb (is_bare_end c || Ascii.eqb c QUOTE || Ascii.eqb c LBRACE || Ascii.eqb c LBRACKET || Ascii.eqb c COLON).

Lemma number_bare_byte c : is_number_byte c = true -> bare_byte c = true.
Proof. destruct c as [[] [] [] [] [] [] [] []]; vm_compute; congruence. Qed.

Lemma bare_value_bytes token v :
  bare_value token = Some v -> token <> [] /\ Forall (fun c => bare_byte c = true) token.
Proof.
  unfold bare_value. case_decide; [subst; by repeat constructor|]. case_decide; [subst; by repeat constructor|].
  case_decide; [subst; by repeat constructor|]. destruct token as [|c token]; [done|].
  case_match; [|done]. case_match eqn:Hf; [|done]. intros _. split; [done|].
  apply Forall_forall. intros x Hx. apply number_bare_byte.
  rewrite forallb_forall in Hf. apply Hf. by apply list_elem_of_In.
Qed.

Lemma bare_byte_spec c :
  bare_byte c = true ->
  is_bare_end c = false /\ is_ws c = false /\ Ascii.eqb c QUOTE = false /\
  Ascii.eqb c LBRACE || Ascii.eqb c LBRACKET = false /\
  Ascii.eqb c COMMA || Ascii.eqb c RBRACE || Ascii.eqb c RBRACKET || Ascii.eqb c COLON = false.
Proof. destruct c as [[] [] [] [] [] [] [] []]; vm_compute; try done; intros [=]. Qed.

Lemma string_value_run s vs w raw l :
  fs_state s = ExpectValue -> ready s vs -> fs_current s = w ->
  (forall i, w = Some i -> vs !! i = Some None) -> string_body raw -> is_Some (unescape raw) ->
  exists s', run s (value_text (JStr raw) ++ l) = run s' l /\ after s' (upd vs w (value_scalar cap limit (JStr raw))).
Proof.
  intros Hst Hr Hc Hfree Hb [text Ht]. cbn [value_text app]. rewrite <- app_assoc, run_cons. cbn [app].
  set (s0 := set_token (set_current s None) []).
  assert (Hs : step s QUOTE = set_state s0 (InString false w)) by (unfold step; rewrite Hst, <- Hc; done).
  rewrite Hs. cbn [value_scalar]. rewrite Ht. cbn [default]. destruct w as [i|].
  - change (set_state s0 (InString false (Some i)))
      with ((fun e t => set_state (set_token s0 t) (InString e (Some i))) false []).
    rewrite run_string_body; [|done| |done].
    2:{ intros t c Hq. unfold step. cbn. by rewrite Hq. }
    rewrite run_cons. eexists. split; [reflexivity|]. unfold step. cbn [app fs_state set_state fs_token set_token].
    change (Ascii.eqb QUOTE QUOTE) with true. cbn iota. rewrite Ht.
    apply after_value_after; [by eapply ready_frame|done].
  - change (set_state s0 (InString false None)) with ((fun e (t : bytes) => set_state s0 (InString e None)) false []).
    rewrite run_string_body; [|done| |done].
    2:{ intros t c Hq. unfold step. cbn. by rewrite Hq. }
    rewrite run_cons. eexists. split; [reflexivity|].
    split; [by eapply ready_frame|]. by left.
Qed.

Lemma bare_value_run s vs w token c l :
  fs_state s = ExpectValue -> ready s vs -> fs_current s = w ->
  (forall i, w = Some i -> vs !! i = Some None) -> is_Some (bare_value token) -> is_bare_end c = true ->
  exists s', run s (token ++ c :: l) = run s' (c :: l) /\ after s' (upd vs w (value_scalar cap limit (JBare token))).
Proof.
  intros Hst Hr Hc Hfree [v Hv] Hend. destruct (bare_value_bytes _ _ Hv) as [Hne Hf].
  destruct token as [|c0 token]; [done|]. apply Forall_cons in Hf as [H0 Hf].
  destruct (bare_byte_spec c0 H0) as (_ & Hws & Hq & Ho & He). cbn [app]. rewrite run_cons.
  set (s0 := set_state (set_token (set_current s None) [c0]) (InBare w)).
  assert (Hs : step s c0 = s0).
  { unfold step. rewrite Hst, Hws. unfold value_arm. rewrite Hq, Ho, He, Hc. done. }
  rewrite Hs, (run_bare s0 w) by (done || (eapply Forall_impl; [exact Hf|]; intros x Hx; by apply bare_byte_spec)).
  rewrite (step_bare_end (set_token s0 (fs_token s0 ++ token)) w) by done.
  cbn [fs_token set_token set_state s0 app value_scalar]. rewrite Hv. cbn [default].
  eexists. split; [reflexivity|]. apply after_value_after; [by eapply ready_frame|done].
Qed.

(** A value being captured, closed. *)
Lemma close_captured s vs i o rest :
  ready (set_capturing s None) vs -> fs_capturing s = Some i -> fs_token s = [o] -> vs !! i = Some None ->
  after (close_nested (capture s rest))
    (<[i := Some (if Z.of_nat (length (o :: rest)) >? limit then Compound else Raw (o :: rest))]> vs).
Proof.
  intros Hr Hc Ht Hi. unfold capture. rewrite Hc. cbn [fs_token set_token fs_capture_limit]. rewrite Ht.
  replace (fs_capture_limit s) with limit by (by destruct Hr). cbn [app].
  destruct (Z.of_nat (length (o :: rest)) >? limit).
  - unfold close_nested. rewrite record_capturing. cbn [fs_capturing set_token set_capturing].
    apply settle_after. apply record_ready; [by eapply ready_frame|done].
  - unfold close_nested. cbn [fs_capturing set_token]. rewrite Hc. apply settle_after.
    cbn [fs_token set_token]. apply record_ready; [by eapply ready_frame|done].
Qed.

Lemma close_unwanted s vs rest : ready s vs -> after (close_nested (capture s rest)) vs.
Proof.
  intros Hr. rewrite capture_capturing_none by (by destruct Hr). unfold close_nested.
  replace (fs_capturing s) with (@None nat) by (by destruct Hr). by apply settle_after.
Qed.

Lemma nested_value_run s vs w o inner c l :
  fs_state s = ExpectValue -> ready s vs -> fs_current s = w ->
  (forall i, w = Some i -> vs !! i = Some None) -> value_wf (JNest o inner c) ->
  exists s', run s (value_text (JNest o inner c) ++ l) = run s' l /\
    after s' (upd vs w (value_scalar cap limit (JNest o inner c))).
Proof.
  intros Hst Hr Hc Hfree (Ho & Hclose & Hb). cbn [value_text app]. rewrite <- app_assoc, run_cons. cbn [app].
  set (s0 := set_token (set_current s None) []).
  set (s1 := match w with
             | Some i => if cap then set_capturing (set_token s0 [o]) (Some i) else record s0 i Compound
             | None => s0 end).
  assert (Hr0 : ready s0 vs) by (by eapply ready_frame).
  assert (Hs : step s o = set_state s1 (InNested 1 false false)).
  { unfold step. rewrite Hst. unfold value_arm, s1. rewrite Hc. replace cap with (fs_capture_compound s) by (by destruct Hr).
    by destruct Ho as [-> | ->]. }
  rewrite Hs, run_nested_text by done. eexists. split; [reflexivity|].
  rewrite capture_state, close_nested_state. unfold upd, s1. destruct w as [i|]; [|by apply close_unwanted].
  specialize (Hfree i eq_refl). cbn [value_scalar]. destruct cap eqn:Hcap.
  - change (value_text (JNest o inner c)) with (o :: (inner ++ [c])).
    apply (close_captured (set_capturing (set_token s0 [o]) (Some i)) vs i o (inner ++ [c])); [|done|done|done].
    eapply ready_frame; [exact Hr0|done..| |done|done]. cbn. by destruct Hr.
  - apply close_unwanted. by apply record_ready.
Qed.

Lemma value_run s vs w v c l :
  fs_state s = ExpectValue -> ready s vs -> fs_current s = w ->
  (forall i, w = Some i -> vs !! i = Some None) -> value_wf v -> is_bare_end c = true ->
  exists s', run s (value_text v ++ c :: l) = run s' (c :: l) /\ after s' (upd vs w (value_scalar cap limit v)).
Proof.
  intros Hst Hr Hc Hfree Hwf Hend. destruct v as [raw|token|o inner close].
  - destruct Hwf. by apply string_value_run.
  - by apply bare_value_run.
  - by apply nested_value_run.
Qed.

Lemma run_space s ws l :
  (forall c, is_ws c = true -> step s c = s) -> is_space ws -> run s (ws ++ l) = run s l.
Proof.
  intros Hs. induction 1 as [|c ws Hc Hws IH]; [done|]. cbn [app]. rewrite run_cons, Hs by done. exact IH.
Qed.

Lemma token_state_ws s c :
  match fs_state s with ExpectKey | ExpectColon | ExpectValue | AfterValue | Start | Done _ => True | _ => False end ->
  is_ws c = true -> step s c = s.
Proof. intros Hst Hc. unfold step, token_step. destruct (fs_state s); try done; by rewrite Hc. Qed.

(** The values after a member. *)
Definition member_step (vs : list (option Scalar)) (m : member) : list (option Scalar) :=
  upd vs (wanted vs (mb_key m)) (value_scalar cap limit (mb_value m)).

Lemma key_run s vs key l :
  fs_state s = ExpectKey -> ready s vs -> string_body key ->
  exists s', run s (QUOTE :: key ++ QUOTE :: l) = run s' l /\ fs_state s' = ExpectColon /\ ready s' vs /\
    fs_current s' = wanted vs key.
Proof.
  intros Hst Hr Hb. rewrite run_cons. assert (Hs : step s QUOTE = set_state (set_token s []) (InKey false)).
  { unfold step. by rewrite Hst. }
  rewrite Hs. change (set_state (set_token s []) (InKey false))
    with ((fun e t => set_state (set_token s t) (InKey e)) false []).
  rewrite run_string_body; [|done| |done].
  2:{ intros t c Hq. unfold step. cbn. by rewrite Hq. }
  rewrite run_cons. eexists. split; [reflexivity|]. split; [done|]. split; [by eapply ready_frame|].
  change (wanted_index (set_token s ([] ++ key)) = wanted vs key).
  apply wanted_index_ready; [by eapply ready_frame|done].
Qed.

Lemma space_head ws c :
  is_space ws -> (c = COMMA \/ c = RBRACE) ->
  exists b rest, ws ++ [c] = b :: rest /\ is_bare_end b = true.
Proof.
  intros Hws Hc. destruct Hws as [|b ws Hb]; cbn.
  - exists c, []. split; [done|]. by destruct Hc as [-> | ->].
  - exists b, (ws ++ [c]). split; [done|]. unfold is_bare_end. by rewrite Hb, orb_true_r.
Qed.

Lemma member_text_app m l :
  member_text m ++ l = mb_ws1 m ++ QUOTE :: mb_key m ++ QUOTE :: mb_ws2 m ++ COLON :: mb_ws3 m ++
                       value_text (mb_value m) ++ mb_ws4 m ++ l.
Proof. unfold member_text. by repeat (rewrite <- app_assoc; cbn [app]). Qed.

Lemma member_run s vs m c l :
  fs_state s = ExpectKey -> ready s vs -> member_wf m -> (c = COMMA \/ c = RBRACE) ->
  exists s', run s (member_text m ++ c :: l) = run s' (c :: l) /\ after s' (member_step vs m).
Proof.
  intros Hst Hr [(H1 & H2 & H3 & H4) Hk Hv] Hc. rewrite member_text_app.
  rewrite run_space; [|by intros; apply token_state_ws; [rewrite Hst|]|done].
  destruct (key_run s vs (mb_key m) (mb_ws2 m ++ COLON :: mb_ws3 m ++ value_text (mb_value m) ++ mb_ws4 m ++ c :: l)
    Hst Hr Hk) as (s1 & -> & Hs1 & Hr1 & Hcur).
  rewrite run_space; [|by intros; apply token_state_ws; [rewrite Hs1|]|done].
  rewrite run_cons. assert (Hs2 : step s1 COLON = set_state s1 ExpectValue) by (unfold step; by rewrite Hs1).
  rewrite Hs2, run_space; [|by intros; apply token_state_ws|done].
  destruct (space_head (mb_ws4 m) c H4 Hc) as (b & rest & Hb & Hend).
  replace (mb_ws4 m ++ c :: l) with (b :: rest ++ l) by (change (b :: rest ++ l) with ((b :: rest) ++ l); by rewrite <- Hb, <- app_assoc).
  destruct (value_run (set_state s1 ExpectValue) vs (wanted vs (mb_key m)) (mb_value m) b (rest ++ l))
    as (s3 & -> & Ha); [done|by eapply ready_frame|done|apply wanted_free|done|done|].
  exists s3. split; [|done]. change (b :: rest ++ l) with ((b :: rest) ++ l). rewrite <- Hb, <- app_assoc. cbn [app].
  apply run_space; [|done]. intros x Hx. apply token_state_ws; [|done]. destruct Ha as [_ [->|[-> _]]]; done.
Qed.

Lemma found_all vs i : found_count vs = Z.of_nat (length vs) -> vs !! i <> Some None.
Proof.
  unfold found_count. revert i. induction vs as [|x vs IH]; [done|]. intros i. cbn [List.filter].
  assert (Hle : (length (List.filter (fun v => bool_decide (is_Some v)) vs) <= length vs)%nat) by apply List.filter_length_le.
  destruct (bool_decide_reflect (is_Some x)) as [[y ->]|Hx]; cbn [length]; intros Hc; [|lia].
  destruct i as [|i]; [done|]. apply IH. lia.
Qed.

Lemma members_full vs ms :
  found_count vs = Z.of_nat (length vs) -> fold_left member_step ms vs = vs.
Proof.
  intros Hf. induction ms as [|m ms IH]; [done|]. cbn [fold_left].
  assert (Hw : wanted vs (mb_key m) = None).
  { destruct (wanted vs (mb_key m)) as [i|] eqn:Hw; [|done]. destruct (found_all vs i Hf). by apply wanted_free in Hw. }
  unfold member_step at 2. by rewrite Hw.
Qed.

Lemma members_run ms m s vs :
  fs_state s = ExpectKey -> ready s vs -> Forall member_wf (m :: ms) ->
  let s' := run s (members_text m ms) in
  fs_state s' = Done Complete /\ fs_keys s' = keys /\ fs_values s' = fold_left member_step (m :: ms) vs.
Proof.
  revert m s vs. induction ms as [|m' ms IH]; intros m s vs Hst Hr Hwf; apply Forall_cons in Hwf as [Hm Hms]; cbn [members_text].
  - destruct (member_run s vs m RBRACE [] Hst Hr Hm (or_intror eq_refl)) as (s1 & -> & [Hr1 Hs1]).
    rewrite run_cons. destruct Hs1 as [Hs1|[Hs1 _]].
    + unfold step. rewrite Hs1. cbn. by destruct Hr1.
    + unfold step. rewrite Hs1. cbn. by destruct Hr1.
  - destruct (member_run s vs m COMMA (members_text m' ms) Hst Hr Hm (or_introl eq_refl)) as (s1 & -> & [Hr1 Hs1]).
    change (fold_left member_step (m :: m' :: ms) vs) with (fold_left member_step (m' :: ms) (member_step vs m)).
    destruct Hs1 as [Hs1|[Hs1 Hfull]].
    + rewrite run_cons. assert (Hs2 : step s1 COMMA = set_state s1 ExpectKey) by (unfold step; by rewrite Hs1).
      rewrite Hs2. apply IH; [done|by eapply ready_frame|done].
    + rewrite (run_done _ _ _ Hs1), members_full by (by rewrite Hfull, (rd_length _ _ Hr1)). by destruct Hr1.
Qed.

Definition slot (k : string) : option nat :=
  position (fun k' => bool_decide (String.list_ascii_of_string k' = String.list_ascii_of_string k)) keys.

Lemma position_lookup {A} (test : A -> bool) l i : position test l = Some i -> exists a, l !! i = Some a /\ test a = true.
Proof.
  intros Hp. destruct (position_some _ _ _ Hp) as (part & c & rest & _ & _ & Hd & Hc & _).
  exists c. split; [|done]. rewrite <- (Nat.add_0_r i), <- lookup_drop, Hd. done.
Qed.

(** What a member does to the slot of a key. *)
Lemma member_step_slot vs m k i :
  slot k = Some i -> length vs = length keys ->
  member_step vs m !! i = if names k m
    then match vs !! i with Some None => Some (Some (value_scalar cap limit (mb_value m))) | o => o end
    else vs !! i.
Proof.
  intros Hs Hl. assert (Hi : (i < length vs)%nat).
  { destruct (position_lookup _ _ _ Hs) as (a & Ha & _). rewrite Hl. by apply lookup_lt_Some in Ha. }
  unfold member_step, names. destruct (bool_decide_reflect (String.list_ascii_of_string k = mb_key m)) as [Hk|Hk].
  - unfold wanted. rewrite <- Hk. fold (slot k). rewrite Hs.
    destruct (vs !! i) as [[x|]|] eqn:Hv; cbn [upd]; [done| |done]. by apply list_lookup_insert_eq.
  - destruct (wanted vs (mb_key m)) as [j|] eqn:Hw; [|done]. cbn [upd]. apply list_lookup_insert_ne. intros ->.
    unfold wanted in Hw. destruct (position _ keys) as [j|] eqn:Hp in Hw; [|done].
    assert (j = i) as -> by (destruct (vs !! j) as [[]|]; congruence).
    destruct (position_lookup _ _ _ Hp) as (a & Ha & Ha').
    destruct (position_lookup _ _ _ Hs) as (b & Hb & Hb'). rewrite Ha in Hb. injection Hb as <-.
    apply bool_decide_eq_true in Ha', Hb'. congruence.
Qed.

Lemma member_step_length vs m : length (member_step vs m) = length vs.
Proof. unfold member_step, upd. case_match; [apply length_insert|done]. Qed.

(** The first member that names a key decides its slot. *)
Lemma members_slot ms vs k i :
  slot k = Some i -> length vs = length keys ->
  fold_left member_step ms vs !! i =
    match vs !! i with Some None => Some (first_value cap limit ms k) | o => o end.
Proof.
  intros Hs. revert vs. induction ms as [|m ms IH]; intros vs Hl; cbn [fold_left].
  - by destruct (vs !! i) as [[]|].
  - rewrite IH by (by rewrite member_step_length). rewrite (member_step_slot vs m k i Hs Hl).
    unfold first_value. cbn [List.find]. destruct (names k m); [|done].
    by destruct (vs !! i) as [[]|].
Qed.

End Members.

(** The text of an object. *)
Definition object_text (lead : bytes) (m : member) (ms : list member) : bytes :=
  lead ++ LBRACE :: members_text m ms.

Lemma list_ascii_inj a b : String.list_ascii_of_string a = String.list_ascii_of_string b -> a = b.
Proof.
  intros H. apply (f_equal String.string_of_list_ascii) in H. by rewrite !String.string_of_list_ascii_of_string in H.
Qed.

Lemma slot_key_position keys k : slot keys k = key_position keys k.
Proof.
  unfold slot, key_position. induction keys as [|a keys IH]; [done|]. cbn. rewrite IH.
  by rewrite (bool_decide_ext (String.list_ascii_of_string a = String.list_ascii_of_string k) (a = k))
    by (split; [apply list_ascii_inj|congruence]).
Qed.

(** A fresh scanner with its options. *)
Definition new_scanner (keys : list string) (cap : bool) (limit : Z) : FieldScanner :=
  capture_limit (if cap then capturing_compounds (FieldScanner_new keys) else FieldScanner_new keys) limit.

Lemma found_count_none n : found_count (repeat None n) = 0.
Proof. unfold found_count. induction n as [|n IH]; [done|]. exact IH. Qed.

Lemma repeat_lookup {A} (x : A) n i : (i < n)%nat -> repeat x n !! i = Some x.
Proof. revert i. induction n as [|n IH]; [lia|]. intros [|i] Hi; [done|]. apply IH. lia. Qed.

Lemma new_scanner_run keys cap limit n lead m ms :
  Forall (fun k => BACKSLASH ∉ String.list_ascii_of_string k) keys -> is_space lead -> Forall member_wf (m :: ms) ->
  let t := run (add_consumed (new_scanner keys cap limit) n) (object_text lead m ms) in
  fs_state t = Done Complete /\ fs_keys t = keys /\
  fs_values t = fold_left (member_step keys cap limit) (m :: ms) (repeat None (length keys)).
Proof.
  intros Hk Hl Hwf. unfold object_text. set (s := add_consumed (new_scanner keys cap limit) n).
  assert (Hst : fs_state s = Start) by (by destruct cap).
  rewrite run_space; [|by intros; apply token_state_ws; [rewrite Hst|]|done]. rewrite run_cons.
  assert (Hs : step s LBRACE = set_state s ExpectKey) by (unfold step; by rewrite Hst).
  rewrite Hs. apply members_run; [done|done| |done].
  constructor; try by destruct cap; rewrite ?repeat_length, ?found_count_none.
Qed.

(** C7: The scanner finds what it is asked for.  Fed any well-formed object
    in any chunks, a fresh scanner answers that it is complete, and for every
    wanted key holds the value of the first member with that name, and
    nothing when there is none: strings decoded, literals and numbers read,
    objects and arrays reported or, when captured and not over the limit,
    copied byte for byte. *)
Theorem scanner_extracts_first_values (keys : list string) (cap : bool) (limit : Z)
  (lead : bytes) (m : member) (ms : list member) (chunks : list bytes)
  (Hkeys : Forall (fun k => BACKSLASH ∉ String.list_ascii_of_string k) keys)
  (Hlead : is_space lead) (Hwf : Forall member_wf (m :: ms))
  (Hchunks : concat chunks = object_text lead m ms) :
  progress (feed_all (new_scanner keys cap limit) chunks) = Complete /\
  forall k, k ∈ keys ->
    FieldScanner_get (feed_all (new_scanner keys cap limit) chunks) k = first_value cap limit (m :: ms) k.
Proof.
  destruct (new_scanner_run keys cap limit 0 lead m ms Hkeys Hlead Hwf) as (Hst & Hks & Hvs).
  set (t := run _ _) in *. assert (Hf : forget (feed_all (new_scanner keys cap limit) chunks) = forget t).
  { apply related_forget; [|unfold progress; by rewrite Hst]. unfold t. rewrite <- Hchunks.
    apply feed_all_related. right; left. apply (alike_refl (new_scanner keys cap limit)).
    by apply (state_nested_wf _ Start); [destruct cap|]. }
  split; [unfold progress; by rewrite (forget_state _ _ Hf), Hst|]. intros k Hk.
  unfold FieldScanner_get. replace (fs_keys _) with (fs_keys t) by (by injection Hf).
  replace (fs_values _) with (fs_values t) by (by injection Hf). rewrite Hks, Hvs, <- slot_key_position.
  destruct (slot keys k) as [i|] eqn:Hs.
  - rewrite (members_slot keys cap limit (m :: ms) _ k i Hs) by (by rewrite repeat_length).
    destruct (position_lookup _ _ _ Hs) as (a & Ha & _).
    by rewrite (repeat_lookup None (length keys) i (lookup_lt_Some _ _ _ Ha)).
  - exfalso. apply position_none in Hs. rewrite Forall_forall in Hs. specialize (Hs k Hk).
    by rewrite bool_decide_true in Hs.
Qed.

End Scanner.

(** ** Examples *)

Definition text (s : string) : bytes := String.list_ascii_of_string s.
Definition quoted (s : string) : bytes := QUOTE :: text s ++ [QUOTE].

(** A body in which [model] comes after a nested value; it is cut inside a
    string below. *)
Definition sample_inner : bytes := quoted "role" ++ text ":" ++ quoted "u]".
Definition sample_member : member :=
  {| mb_ws1 := []; mb_key := text "messages"; mb_ws2 := []; mb_ws3 := text " ";
     mb_value := JNest LBRACKET (LBRACE :: sample_inner ++ [RBRACE]) RBRACKET; mb_ws4 := [] |}.
Definition sample_members : list member := [
  {| mb_ws1 := text " "; mb_key := text "model"; mb_ws2 := []; mb_ws3 := []; mb_value := JStr (text "m-1"); mb_ws4 := [] |};
  {| mb_ws1 := []; mb_key := text "max_tokens"; mb_ws2 := []; mb_ws3 := []; mb_value := JBare (text "256"); mb_ws4 := text " " |}].

Definition sample_text : bytes := object_text [] sample_member sample_members.

Lemma chunking_irrelevant_witness :
  let s := FieldScanner_new ["model"; "max_tokens"] in
  fs_values (@feed_all sample_memchr s [take 40 sample_text; drop 40 sample_text])
  = fs_values (@feed sample_memchr s (concat [take 40 sample_text; drop 40 sample_text])).1.
Proof.
  cbv zeta. apply (chunking_irrelevant (MC := sample_memchr)).
  - reflexivity.
  - vm_compute. discriminate.
Defined.

Ltac string_body_tac := repeat first [apply body_nil | apply body_plain; [discriminate|discriminate|]].

Lemma sample_inner_balanced : balanced 1 (LBRACE :: sample_inner ++ [RBRACE]).
Proof.
  apply (bal_nest 0 LBRACE sample_inner RBRACE []); [by left|by left| |constructor].
  apply (bal_string 0 (text "role")); [string_body_tac|]. apply bal_byte; [reflexivity|].
  apply (bal_string 0 (text "u]") []); [string_body_tac|constructor].
Qed.

Lemma sample_wf : Forall (@member_wf sample_memchr) (sample_member :: sample_members).
Proof.
  apply Forall_cons. split; [|apply Forall_cons; split; [|apply Forall_cons; split; [|constructor]]].
  - split; [split_and!; repeat constructor|string_body_tac|].
    split; [by right|]. split; [by right|]. exists 1%nat. split; [apply sample_inner_balanced|done].
  - split; [split_and!; repeat constructor|string_body_tac|]. split; [string_body_tac|]. by exists "m-1".
  - split; [split_and!; repeat constructor|string_body_tac|]. by exists (Num "256").
Qed.

Lemma scanner_extracts_first_values_witness :
  FieldScanner_get (@feed_all sample_memchr (new_scanner ["model"; "id"] true 100)
                      [take 40 sample_text; drop 40 sample_text]) "model" = Some (Str "m-1") /\
  FieldScanner_get (@feed_all sample_memchr (new_scanner ["model"; "id"] true 100)
                      [take 40 sample_text; drop 40 sample_text]) "id" = None.
Proof.
  destruct (scanner_extracts_first_values (MC := sample_memchr) ["model"; "id"] true 100 [] sample_member sample_members
    [take 40 sample_text; drop 40 sample_text]) as [_ Hget].
  - apply Forall_forall. intros k Hk. apply (bool_decide_unpack _).
    apply list_elem_of_In in Hk as [<-|[<-|[]]]; vm_compute; exact I.
  - constructor.
  - exact sample_wf.
  - vm_compute. reflexivity.
  - split.
    + transitivity (@first_value sample_memchr true 100 (sample_member :: sample_members) "model");
        [apply Hget; left|vm_compute; reflexivity].
    + transitivity (@first_value sample_memchr true 100 (sample_member :: sample_members) "id");
        [apply Hget; right; left|vm_compute; reflexivity].
Defined.

(** A malformed number that is refused in one chunk and accepted in two. *)
Example malformed_number_accepted_when_split :
  let s := FieldScanner_new ["a"] in
  let first := LBRACE :: quoted "b" ++ text ":12345678" in
  let second := text "x," ++ quoted "a" ++ text ":1" ++ [RBRACE] in
  (@feed sample_memchr s (first ++ second)).2 = Invalid /\
  FieldScanner_get (@feed_all sample_memchr s [first; second]) "a" = Some (Num "1").
Proof. by vm_compute. Qed.
