(* ===== verification/Calendar.v ===== *)
(** * Dates and budget windows

    The civil-date algorithms and [Window::end_of] of
    [portus-dataplane-core/src/ai/budget.rs].  Times are microseconds since
    1970, days are counted from 1970-01-01.  [div_euclid] and [rem_euclid]
    with a positive divisor are [Z.div] and [Z.modulo]. *)
From S2P Require Import Prelude Text Types.

(** ** Civil dates *)

(** [civil_from_days]: year, month and day of a day number. *)
Definition civil_from_days (z : Z) : Z * Z * Z :=
  let z := z + 719468 in
  let era := z / 146097 in
  let doe := z mod 146097 in
  let yoe := (doe - doe / 1460 + doe / 36524 - doe / 146096) / 365 in
  let y := yoe + era * 400 in
  let doy := doe - (365 * yoe + yoe / 4 - yoe / 100) in
  let mp := (5 * doy + 2) / 153 in
  let d := as_u 32 (doy - (153 * mp + 2) / 5 + 1) in
  let m := as_u 32 (if mp <? 10 then mp + 3 else mp - 9) in
  (if m <=? 2 then y + 1 else y, m, d).

(** [days_from_civil] *)
Definition days_from_civil (y m d : Z) : Z :=
  let y := if m <=? 2 then y - 1 else y in
  let era := y / 400 in
  let yoe := y mod 400 in
  let mp := if m >? 2 then m - 3 else m + 9 in
  let doy := (153 * mp + 2) / 5 + d - 1 in
  let doe := yoe * 365 + yoe / 4 - yoe / 100 + doy in
  era * 146097 + doe - 719468.

Definition MICROS : Z := 1000000.

(** [Window::end_of] *)
Definition end_of (w : Window) (now_micros : Z) : Z :=
  let secs := now_micros / MICROS in
  match w with
  | Hourly => as_u 64 ((secs / 3600 + 1) * 3600 * MICROS)
  | Daily => as_u 64 ((secs / 86400 + 1) * 86400 * MICROS)
  | Monthly =>
      let days := secs / 86400 in
      let '(y, m, _) := civil_from_days days in
      let '(ny, nm) := if m =? 12 then (y + 1, 1) else (y, m + 1) in
      as_u 64 (as_u 64 (days_from_civil ny nm 1) * 86400 * MICROS)
  end.

(** ** Months counted from March of year 0 *)

Definition year_start (yoe : Z) : Z := 365 * yoe + yoe / 4 - yoe / 100.

Definition year_of_era (doe : Z) : Z := (doe - doe / 1460 + doe / 36524 - doe / 146096) / 365.

(** The number of the month a day is in, and the first day of a month. *)
Definition month_index (z : Z) : Z :=
  let doe := (z + 719468) mod 146097 in
  let doy := doe - year_start (year_of_era doe) in
  12 * (year_of_era doe + (z + 719468) / 146097 * 400) + (5 * doy + 2) / 153.

Definition month_first (n : Z) : Z :=
  let y := n / 12 in
  y / 400 * 146097 + year_start (y mod 400) + (153 * (n mod 12) + 2) / 5 - 719468.

Ltac zdiv := Z.div_mod_to_equations; lia.

Lemma year_of_era_range doe : 0 <= doe < 146097 -> 0 <= year_of_era doe < 400.
Proof. intros. unfold year_of_era. zdiv. Qed.

Lemma year_of_era_low doe : 0 <= doe < 146097 -> year_start (year_of_era doe) <= doe.
Proof. intros. unfold year_of_era, year_start. zdiv. Qed.

Lemma year_of_era_high doe : 0 <= doe < 146096 -> doe < year_start (year_of_era doe + 1).
Proof. intros. unfold year_of_era, year_start. zdiv. Qed.

Lemma day_of_year_range doe :
  0 <= doe < 146097 -> 0 <= doe - year_start (year_of_era doe) <= 365.
Proof.
  intros Hd. pose proof (year_of_era_low doe Hd). split; [lia|].
  destruct (Z.eq_dec doe 146096) as [->|Hne]; [vm_compute; congruence|].
  pose proof (year_of_era_high doe ltac:(lia)). unfold year_start in *. zdiv.
Qed.

Lemma month_first_increasing n : month_first n < month_first (n + 1).
Proof. unfold month_first, year_start. zdiv. Qed.

Lemma month_first_le n k : 0 <= k -> month_first n <= month_first (n + k).
Proof.
  intros Hk. pattern k. apply natlike_ind; [by rewrite Z.add_0_r| |done].
  intros x Hx IH. pose proof (month_first_increasing (n + x)). replace (n + Z.succ x) with (n + x + 1) by lia. lia.
Qed.

Lemma month_first_lt n k : n < k -> month_first n < month_first k.
Proof.
  intros Hk. pose proof (month_first_increasing n). pose proof (month_first_le (n + 1) (k - n - 1) ltac:(lia)) as Hle.
  replace (n + 1 + (k - n - 1)) with k in Hle by lia. lia.
Qed.

(** A day lies in exactly the month of its index. *)
Lemma month_index_bounds z : month_first (month_index z) <= z < month_first (month_index z + 1).
Proof.
  set (doe := (z + 719468) mod 146097). set (era := (z + 719468) / 146097).
  assert (Hz : z = era * 146097 + doe - 719468) by (subst doe era; zdiv).
  assert (Hd : 0 <= doe < 146097) by (subst doe; zdiv).
  pose proof (year_of_era_range doe Hd). pose proof (day_of_year_range doe Hd) as Hy.
  unfold month_index. fold doe. fold era. rewrite Hz.
  destruct (Z.eq_dec doe 146096) as [He|Hne].
  - rewrite He. change (year_of_era 146096) with 399. change (146096 - year_start 399) with 365.
    unfold month_first, year_start. zdiv.
  - pose proof (year_of_era_high doe ltac:(lia)) as Hh. revert Hy Hh.
    generalize dependent (year_of_era doe). intros y Hy H1 H2. clear Hz. clearbody era doe.
    set (doy := doe - year_start y) in *. set (mp := (5 * doy + 2) / 153).
    assert (0 <= mp <= 11) by (subst mp; zdiv).
    assert (E : (12 * (y + era * 400) + mp) / 12 = y + era * 400) by zdiv.
    assert (E' : (12 * (y + era * 400) + mp) mod 12 = mp) by zdiv.
    assert (F : (y + era * 400) / 400 = era) by zdiv.
    assert (F' : (y + era * 400) mod 400 = y) by zdiv.
    split.
    + unfold month_first. rewrite E, E', F, F'. subst mp doy. zdiv.
    + destruct (Z.eq_dec mp 11) as [Em|Em].
      * rewrite Em. replace (12 * (y + era * 400) + 11 + 1) with (12 * (y + 1 + era * 400)) by lia.
        unfold month_first, year_start in *. zdiv.
      * assert (G : (12 * (y + era * 400) + mp + 1) / 12 = y + era * 400) by zdiv.
        assert (G' : (12 * (y + era * 400) + mp + 1) mod 12 = mp + 1) by zdiv.
        unfold month_first. rewrite G, G', F, F'. subst mp doy. zdiv.
Qed.

Lemma month_index_unique z n : month_first n <= z < month_first (n + 1) -> month_index z = n.
Proof.
  intros Hn. pose proof (month_index_bounds z).
  destruct (Z.lt_trichotomy (month_index z) n) as [Hlt|[Heq|Hgt]]; [|done|]; exfalso.
  - pose proof (month_first_le (month_index z + 1) (n - (month_index z + 1)) ltac:(lia)) as Hle.
    replace (month_index z + 1 + (n - (month_index z + 1))) with n in Hle by lia. lia.
  - pose proof (month_first_le (n + 1) (month_index z - (n + 1)) ltac:(lia)) as Hle.
    replace (n + 1 + (month_index z - (n + 1))) with (month_index z) in Hle by lia. lia.
Qed.

(** The index of month [m] of year [y], and back. *)
Definition month_number (y m : Z) : Z :=
  12 * (if m <=? 2 then y - 1 else y) + (if m >? 2 then m - 3 else m + 9).

Definition month_of_index (n : Z) : Z := if n mod 12 <? 10 then n mod 12 + 3 else n mod 12 - 9.
Definition year_of_index (n : Z) : Z := if month_of_index n <=? 2 then n / 12 + 1 else n / 12.

Lemma month_of_index_range n : 1 <= month_of_index n <= 12.
Proof. unfold month_of_index. pose proof (Z.mod_pos_bound n 12 ltac:(lia)). destruct (Z.ltb_spec (n mod 12) 10); lia. Qed.

Lemma month_number_of_index n : month_number (year_of_index n) (month_of_index n) = n.
Proof.
  unfold month_number, year_of_index, month_of_index. pose proof (Z.mod_pos_bound n 12 ltac:(lia)).
  pose proof (Z.div_mod n 12 ltac:(lia)).
  destruct (Z.ltb_spec (n mod 12) 10).
  - destruct (Z.leb_spec (n mod 12 + 3) 2); [lia|]. rewrite Z.gtb_ltb. destruct (Z.ltb_spec 2 (n mod 12 + 3)); lia.
  - destruct (Z.leb_spec (n mod 12 - 9) 2); [|lia]. rewrite Z.gtb_ltb. destruct (Z.ltb_spec 2 (n mod 12 - 9)); lia.
Qed.

Lemma days_from_civil_number y m d :
  1 <= m <= 12 -> days_from_civil y m d = month_first (month_number y m) + d - 1.
Proof.
  intros Hm. unfold days_from_civil, month_first, month_number, year_start. rewrite Z.gtb_ltb.
  set (Y := if m <=? 2 then y - 1 else y). set (mp := if 2 <? m then m - 3 else m + 9).
  assert (0 <= mp <= 11) by (subst mp; destruct (Z.ltb_spec 2 m); lia).
  assert ((12 * Y + mp) / 12 = Y) as -> by zdiv. assert ((12 * Y + mp) mod 12 = mp) as -> by zdiv. lia.
Qed.

Lemma civil_from_days_index z :
  civil_from_days z = (year_of_index (month_index z), month_of_index (month_index z), z - month_first (month_index z) + 1).
Proof.
  pose proof (month_index_bounds z) as Hb.
  set (doe := (z + 719468) mod 146097) in *. set (era := (z + 719468) / 146097) in *.
  assert (Hz : z = era * 146097 + doe - 719468) by (subst doe era; zdiv).
  assert (Hd : 0 <= doe < 146097) by (subst doe; zdiv).
  pose proof (year_of_era_range doe Hd) as Hy. pose proof (day_of_year_range doe Hd) as Hdoy.
  unfold civil_from_days. fold doe era. fold (year_of_era doe). fold (year_start (year_of_era doe)).
  unfold month_index in *. fold doe era in Hb |- *.
  generalize dependent (year_of_era doe). intros y Hb Hy Hdoy.
  set (doy := doe - year_start y) in *. set (mp := (5 * doy + 2) / 153) in *.
  assert (Hmp : 0 <= mp <= 11) by (subst mp; zdiv).
  assert (E : (12 * (y + era * 400) + mp) / 12 = y + era * 400) by zdiv.
  assert (E' : (12 * (y + era * 400) + mp) mod 12 = mp) by zdiv.
  assert (F : (y + era * 400) / 400 = era) by zdiv.
  assert (F' : (y + era * 400) mod 400 = y) by zdiv.
  assert (M : as_u 32 (if mp <? 10 then mp + 3 else mp - 9) = month_of_index (12 * (y + era * 400) + mp)).
  { unfold month_of_index. rewrite E'. apply as_u_small. destruct (Z.ltb_spec mp 10); unfold in_u; lia. }
  rewrite M. unfold year_of_index. rewrite E.
  assert (D : z - month_first (12 * (y + era * 400) + mp) + 1 = doy - (153 * mp + 2) / 5 + 1).
  { unfold month_first. rewrite E, E', F, F'. subst doy. lia. }
  rewrite D, as_u_small; [done|]. unfold in_u. subst mp. zdiv.
Qed.

(** ** The Gregorian calendar *)

Definition leap_year (y : Z) : bool := (y mod 4 =? 0) && negb (y mod 100 =? 0) || (y mod 400 =? 0).

Definition month_days (y m : Z) : Z :=
  if m =? 2 then (if leap_year y then 29 else 28)
  else if (m =? 4) || (m =? 6) || (m =? 9) || (m =? 11) then 30 else 31.

Definition valid_date (y m d : Z) : Prop := 1 <= m <= 12 /\ 1 <= d <= month_days y m.

Definition next_month (y m : Z) : Z * Z := if m =? 12 then (y + 1, 1) else (y, m + 1).

(** A year from March to February is a day longer when it ends in a leap year. *)
Lemma year_length y :
  (y + 1) / 400 * 146097 + year_start ((y + 1) mod 400) =
  y / 400 * 146097 + year_start (y mod 400) + 337 + month_days (y + 1) 2.
Proof.
  unfold month_days, leap_year, year_start. change (2 =? 2) with true. cbn iota.
  destruct (Z.eqb_spec ((y + 1) mod 4) 0), (Z.eqb_spec ((y + 1) mod 100) 0), (Z.eqb_spec ((y + 1) mod 400) 0);
    cbn [negb andb orb]; zdiv.
Qed.

Lemma month_first_step y mp :
  0 <= mp < 11 -> month_first (12 * y + mp + 1) = month_first (12 * y + mp) + ((153 * (mp + 1) + 2) / 5 - (153 * mp + 2) / 5).
Proof.
  intros. unfold month_first.
  assert ((12 * y + mp + 1) / 12 = y) as -> by zdiv. assert ((12 * y + mp + 1) mod 12 = mp + 1) as -> by zdiv.
  assert ((12 * y + mp) / 12 = y) as -> by zdiv. assert ((12 * y + mp) mod 12 = mp) as -> by zdiv. lia.
Qed.

Lemma month_first_february y : month_first (12 * y + 11 + 1) = month_first (12 * y + 11) + month_days (y + 1) 2.
Proof.
  pose proof (year_length y). unfold month_first.
  assert ((12 * y + 11 + 1) / 12 = y + 1) as -> by zdiv. assert ((12 * y + 11 + 1) mod 12 = 0) as -> by zdiv.
  assert ((12 * y + 11) / 12 = y) as -> by zdiv. assert ((12 * y + 11) mod 12 = 11) as -> by zdiv.
  change ((153 * 0 + 2) / 5) with 0. change ((153 * 11 + 2) / 5) with 337. lia.
Qed.

(** The months have their Gregorian lengths. *)
Lemma month_length y m :
  1 <= m <= 12 -> month_first (month_number y m + 1) = month_first (month_number y m) + month_days y m.
Proof.
  intros Hm. destruct (Z.eq_dec m 2) as [->|H2].
  - unfold month_number. simpl. rewrite month_first_february. by replace (y - 1 + 1) with y by lia.
  - unfold month_number. rewrite Z.gtb_ltb. set (mp := if 2 <? m then m - 3 else m + 9).
    assert (Hmp : 0 <= mp < 11) by (subst mp; destruct (Z.ltb_spec 2 m); lia).
    rewrite month_first_step by done. f_equal. subst mp. clear Hmp.
    assert (m = 1 \/ m = 3 \/ m = 4 \/ m = 5 \/ m = 6 \/ m = 7 \/ m = 8 \/ m = 9 \/ m = 10 \/ m = 11 \/ m = 12) as Hc by lia.
    repeat destruct Hc as [Hc|Hc]; subst; reflexivity.
Qed.

Lemma month_number_next y m :
  1 <= m <= 12 -> month_number (next_month y m).1 (next_month y m).2 = month_number y m + 1.
Proof.
  intros. unfold next_month, month_number. rewrite !Z.gtb_ltb.
  destruct (Z.eqb_spec m 12) as [->|]; cbn [fst snd]; [simpl; lia|].
  destruct (Z.leb_spec m 2), (Z.leb_spec (m + 1) 2), (Z.ltb_spec 2 m), (Z.ltb_spec 2 (m + 1)); lia.
Qed.

Lemma next_month_range y m : 1 <= m <= 12 -> 1 <= (next_month y m).2 <= 12.
Proof. intros. unfold next_month. destruct (Z.eqb_spec m 12); simpl; lia. Qed.

Lemma month_number_inj n y m : 1 <= m <= 12 -> month_number y m = n -> year_of_index n = y /\ month_of_index n = m.
Proof.
  intros Hm <-. unfold year_of_index, month_of_index, month_number. rewrite Z.gtb_ltb.
  set (Y := if m <=? 2 then y - 1 else y). set (mp := if 2 <? m then m - 3 else m + 9).
  assert (Hmp : 0 <= mp <= 11) by (subst mp; destruct (Z.ltb_spec 2 m); lia).
  assert ((12 * Y + mp) / 12 = Y) as -> by zdiv. assert ((12 * Y + mp) mod 12 = mp) as -> by zdiv.
  subst Y mp. destruct (Z.leb_spec m 2), (Z.ltb_spec 2 m); try lia.
  - destruct (Z.ltb_spec (m + 9) 10); [lia|]. destruct (Z.leb_spec (m + 9 - 9) 2); lia.
  - destruct (Z.ltb_spec (m - 3) 10); [|lia]. destruct (Z.leb_spec (m - 3 + 3) 2); lia.
Qed.

Lemma civil_of_valid y m d : valid_date y m d -> civil_from_days (days_from_civil y m d) = (y, m, d).
Proof.
  intros [Hm Hd]. rewrite civil_from_days_index, days_from_civil_number by done.
  rewrite (month_index_unique _ (month_number y m)) by (rewrite month_length by done; lia).
  destruct (month_number_inj _ y m Hm eq_refl) as [-> ->]. f_equal. lia.
Qed.

Lemma valid_of_civil z :
  let '(y, m, d) := civil_from_days z in valid_date y m d /\ days_from_civil y m d = z.
Proof.
  rewrite civil_from_days_index. pose proof (month_of_index_range (month_index z)) as Hm.
  pose proof (month_index_bounds z) as Hb. pose proof (month_length (year_of_index (month_index z)) _ Hm) as Hl.
  rewrite month_number_of_index in Hl.
  split; [split; [done|lia]|]. rewrite days_from_civil_number, month_number_of_index by done. lia.
Qed.

(** The day numbers and the valid Gregorian dates correspond one to one:
    day 0 is 1970-01-01, every day has a valid date that maps back to it,
    every valid date comes back from its day, and the first of the following
    month is as many days later as the month has, leap years included. *)
Theorem civil_dates_bijective :
  civil_from_days 0 = (1970, 1, 1) /\
  (forall z, let '(y, m, d) := civil_from_days z in valid_date y m d /\ days_from_civil y m d = z) /\
  (forall y m d, valid_date y m d -> civil_from_days (days_from_civil y m d) = (y, m, d)) /\
  (forall y m, 1 <= m <= 12 ->
     days_from_civil (next_month y m).1 (next_month y m).2 1 = days_from_civil y m 1 + month_days y m).
Proof.
  split; [reflexivity|]. split; [exact valid_of_civil|]. split; [exact civil_of_valid|].
  intros y m Hm. pose proof (next_month_range y m Hm).
  rewrite !days_from_civil_number, month_number_next, month_length by done. lia.
Qed.

Lemma civil_dates_bijective_witness :
  valid_date 2028 2 29 /\ civil_from_days (days_from_civil 2028 2 29) = (2028, 2, 29).
Proof.
  assert (H : valid_date 2028 2 29) by (split; vm_compute; split; congruence).
  split; [exact H|]. exact (proj1 (proj2 (proj2 civil_dates_bijective)) 2028 2 29 H).
Defined.

(** ** Windows *)

Definition DAY : Z := 86400 * MICROS.

(** Microseconds [end_of] can add at most: a month of 31 days. *)
Definition window_room : Z := 31 * DAY.

Lemma month_days_le y m : month_days y m <= 31.
Proof. unfold month_days. repeat case_match; lia. Qed.

(** The window a moment is in: its start and end before wrapping. *)
Definition window_start (w : Window) (now : Z) : Z :=
  match w with
  | Hourly => now / (3600 * MICROS) * (3600 * MICROS)
  | Daily => now / DAY * DAY
  | Monthly => month_first (month_index (now / DAY)) * DAY
  end.

Definition window_stop (w : Window) (now : Z) : Z :=
  match w with
  | Hourly => (now / (3600 * MICROS) + 1) * (3600 * MICROS)
  | Daily => (now / DAY + 1) * DAY
  | Monthly => month_first (month_index (now / DAY) + 1) * DAY
  end.

Lemma window_contains w now : window_start w now <= now < window_stop w now.
Proof.
  destruct w; unfold window_start, window_stop, DAY, MICROS.
  - zdiv.
  - zdiv.
  - pose proof (month_index_bounds (now / (86400 * 1000000))). zdiv.
Qed.

Lemma window_stop_same w now t :
  window_start w now <= t < window_stop w now -> window_stop w t = window_stop w now.
Proof.
  destruct w; unfold window_start, window_stop, DAY, MICROS; intros Ht.
  - zdiv.
  - zdiv.
  - do 2 f_equal. f_equal. apply month_index_unique.
    set (a := month_first _) in *. set (b := month_first _) in *. clearbody a b. zdiv.
Qed.

Lemma window_stop_near w now : window_stop w now <= now + window_room.
Proof.
  destruct w; unfold window_stop, window_room.
  - unfold DAY, MICROS. zdiv.
  - unfold DAY, MICROS. zdiv.
  - set (z := now / DAY). pose proof (month_index_bounds z).
    pose proof (month_length (year_of_index (month_index z)) _ (month_of_index_range (month_index z))) as Hl.
    rewrite month_number_of_index in Hl. pose proof (month_days_le (year_of_index (month_index z)) (month_of_index (month_index z))).
    assert (z * DAY <= now) by (subst z; unfold DAY, MICROS; zdiv). unfold DAY, MICROS in *. lia.
Qed.

Lemma end_of_stop w now : 0 <= now -> now + window_room < 2 ^ 64 -> end_of w now = window_stop w now.
Proof.
  intros H0 H1. pose proof (window_stop_near w now) as Hn. pose proof (window_contains w now) as Hc.
  assert (Hw : in_u 64 (window_stop w now)) by (split; lia).
  destruct w; cbn [end_of window_stop] in *.
  - rewrite <- (as_u_small 64 _ Hw). f_equal. rewrite Z.div_div by (unfold MICROS; lia).
    rewrite (Z.mul_comm MICROS). unfold MICROS. lia.
  - rewrite <- (as_u_small 64 _ Hw). f_equal. rewrite Z.div_div by (unfold MICROS; lia).
    unfold DAY. rewrite (Z.mul_comm MICROS). unfold MICROS. lia.
  - rewrite Z.div_div by (unfold MICROS; lia). rewrite (Z.mul_comm MICROS). fold DAY.
    rewrite civil_from_days_index. set (n := month_index (now / DAY)) in *.
    pose proof (month_of_index_range n) as Hm. pose proof (month_number_next (year_of_index n) _ Hm) as Hx.
    rewrite month_number_of_index in Hx. fold (next_month (year_of_index n) (month_of_index n)).
    pose proof (next_month_range (year_of_index n) _ Hm) as Hr.
    destruct (next_month (year_of_index n) (month_of_index n)) as [ny nm]. cbn [fst snd] in *.
    rewrite days_from_civil_number, Hx by done. replace (month_first (n + 1) + 1 - 1) with (month_first (n + 1)) by lia.
    rewrite (as_u_small 64 (month_first (n + 1))).
    + rewrite <- (as_u_small 64 _ Hw). f_equal. unfold DAY. lia.
    + destruct Hw as [Ha Hb]. unfold in_u, DAY, MICROS in *. lia.
Qed.

(** C39: Windows divide time: the end of the window a moment is in lies after
    that moment and at most 31 days later, every moment up to it has the same
    end, the moment it names starts another window, and it falls on a whole
    hour, on midnight, or on midnight of the first day of the month after. *)
Theorem end_of_divides_time (w : Window) (now : Z) :
  0 <= now -> now + 2 * window_room < 2 ^ 64 ->
  now < end_of w now <= now + window_room /\
  (forall t, now <= t < end_of w now -> end_of w t = end_of w now) /\
  end_of w now < end_of w (end_of w now) /\
  match w with
  | Hourly => (end_of w now) mod (3600 * MICROS) = 0
  | Daily => (end_of w now) mod DAY = 0
  | Monthly =>
      let '(y, m, _) := civil_from_days (now / DAY) in
      end_of w now mod DAY = 0 /\
      civil_from_days (end_of w now / DAY) = (next_month y m, 1)
  end.
Proof.
  intros H0 H1. pose proof (window_stop_near w now) as Hn. pose proof (window_contains w now) as Hc.
  assert (Hroom : window_room = 31 * 86400 * 1000000) by reflexivity.
  rewrite (end_of_stop w now) by lia. split; [lia|]. split; [|split].
  - intros t Ht. rewrite end_of_stop by lia. apply window_stop_same. lia.
  - rewrite end_of_stop by lia. apply (window_contains w (window_stop w now)).
  - destruct w; cbn [window_stop].
    + apply Z.mod_mul. unfold MICROS; lia.
    + apply Z.mod_mul. unfold DAY, MICROS; lia.
    + rewrite (civil_from_days_index (now / DAY)). set (n := month_index (now / DAY)).
      split; [apply Z.mod_mul; unfold DAY, MICROS; lia|].
      rewrite Z.div_mul by (unfold DAY, MICROS; lia). pose proof (month_of_index_range n) as Hm.
      pose proof (month_number_next (year_of_index n) _ Hm) as Hx. rewrite month_number_of_index in Hx.
      pose proof (next_month_range (year_of_index n) _ Hm) as Hr.
      destruct (next_month (year_of_index n) (month_of_index n)) as [ny nm]. cbn [fst snd] in *.
      rewrite civil_from_days_index, (month_index_unique _ (n + 1)) by (pose proof (month_first_increasing (n + 1)); lia).
      destruct (month_number_inj _ ny nm Hr Hx) as [-> ->]. f_equal. lia.
Qed.

(** 2026-12-17 lies in the month that ends on 2027-01-01. *)
Lemma end_of_divides_time_witness :
  civil_from_days (1797535948000000 / DAY) = (2026, 12, 17) /\
  civil_from_days (end_of Monthly 1797535948000000 / DAY) = (2027, 1, 1).
Proof.
  split; [reflexivity|].
  exact (proj2 (proj2 (proj2 (proj2 (end_of_divides_time Monthly 1797535948000000 ltac:(lia) ltac:(vm_compute; reflexivity)))))).
Defined.
