(* ===== verification/Budget.v ===== *)
(** * Token budgets on the request path

    [portus-dataplane-core/src/ai/budget.rs]: the policy, the counter a pod
    keeps per policy and subject, reservations, and the exchange with the
    ledger.  Counters are shared ([Arc<Counter>]), so they live in a store and
    the table, the queue and the reservations hold references to them.  Every
    atomic load, store or read-modify-write is one update of the store; the
    waits and wake-ups of [settled] are not modelled. *)
From S2P Require Import Prelude Text Types Calendar.

(** ** Policies *)

(** [Window::parse] and [Window::as_str] *)
Definition Window_parse (s : string) : option Window :=
  let s := to_ascii_uppercase s in
  if decide (s = "HOURLY") then Some Hourly
  else if decide (s = "DAILY") then Some Daily
  else if decide (s = "MONTHLY") then Some Monthly
  else None.

Definition Window_as_str (w : Window) : string :=
  match w with Hourly => "HOURLY" | Daily => "DAILY" | Monthly => "MONTHLY" end.

(** [Scope::parse] and [Scope::as_str] *)
Definition Scope_parse (s : string) : option Scope :=
  let s := to_ascii_uppercase s in
  if decide (s = "KEY") then Some ScopeKey
  else if decide (s = "TENANT") then Some ScopeTenant
  else if decide (s = "ROUTE") then Some ScopeRoute
  else if decide (s = "SUBJECT") then Some ScopeSubject
  else None.

Definition Scope_as_str (p : Scope) : string :=
  match p with
  | ScopeKey => "KEY" | ScopeTenant => "TENANT" | ScopeRoute => "ROUTE" | ScopeSubject => "SUBJECT"
  end.

(** [Unit::parse], [Unit::as_str] and [Unit::noun] *)
Definition Unit_parse (s : string) : option BudgetUnit :=
  if decide (s = "TOKENS") then Some UnitTokens
  else if decide (s = EmptyString) then Some UnitTokens
  else if decide (s = "CALLS") then Some UnitCalls
  else None.

Definition Unit_as_str (u : BudgetUnit) : string :=
  match u with UnitTokens => "TOKENS" | UnitCalls => "CALLS" end.

Definition Unit_noun (u : BudgetUnit) : string :=
  match u with UnitTokens => "token" | UnitCalls => "call" end.

Definition OVERFLOW_SUFFIX : string := "#overflow".

(** [BudgetPolicy::for_key] *)
Definition for_key (p : BudgetPolicy) (token_limit call_limit : Z) : option BudgetPolicy :=
  let limit := match bp_unit p with UnitTokens => token_limit | UnitCalls => call_limit end in
  if (limit >? 0) && match bp_per p with ScopeKey | ScopeSubject => true | _ => false end
  then Some {| bp_id := bp_id p; bp_limit := limit; bp_route_limit := bp_route_limit p;
               bp_unit := bp_unit p; bp_window := bp_window p; bp_per := bp_per p;
               bp_fail_open := bp_fail_open p; bp_fallback := bp_fallback p |}
  else None.

(** [BudgetPolicy::overflow] *)
Definition overflow (p : BudgetPolicy) : option BudgetPolicy :=
  match bp_fallback p with
  | None => None
  | Some f =>
      Some {| bp_id := bp_id p +:+ OVERFLOW_SUFFIX; bp_limit := fb_overflow_limit f;
              bp_route_limit := fb_overflow_limit f; bp_unit := bp_unit p; bp_window := bp_window p;
              bp_per := bp_per p; bp_fail_open := bp_fail_open p; bp_fallback := None |}
  end.

(** [Tokens] of usage.rs: what the provider reported, four [u32]. *)
Record Tokens := {
  tok_input : Z;
  tok_output : Z;
  tok_cache_read : Z;
  tok_cache_creation : Z;
}.

(** [estimate] and [cost]: the sum is a plain [u64] addition. *)
Definition estimate (max_tokens : option Z) (request_bytes : Z) : Z :=
  as_u 64 (default 0 max_tokens + request_bytes / 4).

Definition cost (u : BudgetUnit) (max_tokens : option Z) (request_bytes : Z) : Z :=
  match u with UnitTokens => estimate max_tokens request_bytes | UnitCalls => 1 end.

(** ** Counters *)

Record Counter := {
  c_window_end : Z;
  c_global_spent : Z;
  c_unsynced_spent : Z;
  c_reserved : Z;
  c_synced : bool;
  c_syncing : bool;
  c_budget : Z;
  c_route_limit : Z;
  c_synced_at : Z;
  c_unit : BudgetUnit;
  c_per : Scope;
  c_fail_open : bool;
  c_window : Window;
}.

(** Stores to the four figures, the two flags, the limits and the clock. *)
Definition set_figures (we gs us rs : Z) (c : Counter) : Counter :=
  let 'Build_Counter _ _ _ _ sy sg bu rl sa u p f w := c in Build_Counter we gs us rs sy sg bu rl sa u p f w.
Definition set_flags (sy sg : bool) (c : Counter) : Counter :=
  let 'Build_Counter we gs us rs _ _ bu rl sa u p f w := c in Build_Counter we gs us rs sy sg bu rl sa u p f w.
Definition set_limits (bu rl : Z) (c : Counter) : Counter :=
  let 'Build_Counter we gs us rs sy sg _ _ sa u p f w := c in Build_Counter we gs us rs sy sg bu rl sa u p f w.
Definition set_synced_at (sa : Z) (c : Counter) : Counter :=
  let 'Build_Counter we gs us rs sy sg bu rl _ u p f w := c in Build_Counter we gs us rs sy sg bu rl sa u p f w.

(** [Counter::new] *)
Definition Counter_new (p : BudgetPolicy) : Counter :=
  {| c_window_end := 0; c_global_spent := 0; c_unsynced_spent := 0; c_reserved := 0;
     c_synced := false; c_syncing := false; c_budget := bp_limit p; c_route_limit := bp_route_limit p;
     c_synced_at := 0; c_unit := bp_unit p; c_per := bp_per p; c_fail_open := bp_fail_open p;
     c_window := bp_window p |}.

(** [Counter::remaining]: casts to [i64], then subtraction at that width. *)
Definition Counter_remaining (c : Counter) : Z :=
  as_i 64 (as_i 64 (c_budget c) - as_i 64 (c_global_spent c) - as_i 64 (c_unsynced_spent c) - as_i 64 (c_reserved c)).

(** [Counter::apply_sync] *)
Definition apply_sync (spent_total window_end reported now : Z) (c : Counter) : Counter :=
  let c := set_synced_at now c in
  let unsynced :=
    if c_window_end c =? window_end then saturating_sub (c_unsynced_spent c) reported else 0 in
  set_flags true false (set_figures window_end spent_total unsynced (c_reserved c) c).

(** [Counter::sync_failed] *)
Definition sync_failed (reported : Z) (c : Counter) : Counter :=
  set_flags (c_synced c) false
    (set_figures (c_window_end c) (c_global_spent c) (wrapping_add 64 (c_unsynced_spent c) reported) (c_reserved c) c).

(** [Counter::roll_over] *)
Definition roll_over (c : Counter) : Counter :=
  set_flags false (c_syncing c) (set_figures 0 0 0 (c_reserved c) c).

(** The [fetch_add] of [check], and the two updates of [settle]. *)
Definition reserve (est : Z) (c : Counter) : Counter :=
  set_figures (c_window_end c) (c_global_spent c) (c_unsynced_spent c) (wrapping_add 64 (c_reserved c) est) c.

Definition settle_actual (u : BudgetUnit) (tokens : option Tokens) : Z :=
  match u with
  | UnitTokens =>
      match tokens with
      | None => 0
      | Some t => tok_input t + tok_output t + tok_cache_read t + tok_cache_creation t
      end
  | UnitCalls => 1
  end.

Definition settle_counter (est : Z) (tokens : option Tokens) (c : Counter) : Counter :=
  set_figures (c_window_end c) (c_global_spent c)
    (wrapping_add 64 (c_unsynced_spent c) (settle_actual (c_unit c) tokens))
    (saturating_sub (c_reserved c) est) c.

(** ** The table of counters and the queue of the sync task *)

Record SyncAsk := {
  ask_policy_id : string;
  ask_subject : string;
  ask_counter : positive;
}.

Record Budgets := {
  b_counters : gmap (string * string) positive;
  b_heap : gmap positive Counter;
  b_asks : list SyncAsk;
}.

(** Capacity of the channel to the sync task. *)
Definition ASKS_CAPACITY : nat := 4096%nat.

Definition update (r : positive) (f : Counter -> Counter) (b : Budgets) : Budgets :=
  {| b_counters := b_counters b; b_heap := alter f r (b_heap b); b_asks := b_asks b |}.

(** [Budgets::start] *)
Definition Budgets_start : Budgets := {| b_counters := ∅; b_heap := ∅; b_asks := [] |}.

(** The [entry(..).or_insert_with(..)] of [Budgets::counter] *)
Definition counter_entry (b : Budgets) (policy : BudgetPolicy) (subject : string) : positive * Budgets :=
  match b_counters b !! (bp_id policy, subject) with
  | Some r => (r, b)
  | None =>
      let r := fresh (dom (b_heap b)) in
      (r, {| b_counters := <[(bp_id policy, subject) := r]> (b_counters b);
             b_heap := <[r := Counter_new policy]> (b_heap b);
             b_asks := b_asks b |})
  end.

(** [Budgets::counter] *)
Definition counter (b : Budgets) (policy : BudgetPolicy) (subject : string) : positive * Budgets :=
  let '(r, b) := counter_entry b policy subject in
  (r, update r (set_limits (bp_limit policy) (bp_route_limit policy)) b).

(** [Budgets::ask] *)
Definition ask (policy_id subject : string) (r : positive) (b : Budgets) : Budgets :=
  match b_heap b !! r with
  | None => b
  | Some c =>
      if c_syncing c then b
      else if (length (b_asks b) <? ASKS_CAPACITY)%nat
      then {| b_counters := b_counters b;
              b_heap := <[r := set_flags (c_synced c) true c]> (b_heap b);
              b_asks := b_asks b ++ [{| ask_policy_id := policy_id; ask_subject := subject; ask_counter := r |}] |}
      else update r (fun c => set_flags (c_synced c) false c) b
  end.

(** [Reservation] and [Verdict] *)
Record Reservation := {
  rv_counter : positive;
  rv_estimate : Z;
  rv_settled : bool;
}.

Inductive Verdict :=
| Allow (r : Reservation)
| Exhausted (retry_after_secs remaining needed : Z)
| Unknown.

Definition SYNC_INTERVAL_MICROS : Z := 1000000.
Definition URGENT_SYNC_SHARE : Z := 100.

(** [Budgets::refresh_if_stale] *)
Definition refresh_if_stale (b : Budgets) (policy : BudgetPolicy) (subject : string) (now_micros : Z)
  : option positive * Budgets :=
  let '(r, b) := counter b policy subject in
  match b_heap b !! r with
  | None => (None, b)
  | Some c =>
      if negb (c_synced c) then (None, b)
      else if saturating_sub now_micros (c_synced_at c) <? SYNC_INTERVAL_MICROS then (None, b)
      else (Some r, ask (bp_id policy) subject r b)
  end.

(** [window_end != 0 && window_end <= now_micros]: the window is over. *)
Definition window_ended (c : Counter) (now_micros : Z) : bool :=
  negb (c_window_end c =? 0) && (c_window_end c <=? now_micros).

(** The roll-over at the start of [Budgets::check] *)
Definition roll_if_ended (r : positive) (now_micros : Z) (b : Budgets) : Budgets :=
  match b_heap b !! r with
  | Some c => if window_ended c now_micros then update r roll_over b else b
  | None => b
  end.

(** [Budgets::check] up to the decision: the verdict of a refused request, or
    the counter that an admitted one goes on to reserve from. *)
Definition check_decide (b : Budgets) (policy : BudgetPolicy) (subject : string) (est now_micros : Z)
  : result positive Verdict * Budgets :=
  let '(r, b) := counter b policy subject in
  let b := roll_if_ended r now_micros b in
  match b_heap b !! r with
  | None => (Err Unknown, b)
  | Some c =>
      if negb (c_synced c) then (Err Unknown, ask (bp_id policy) subject r b)
      else
        let remaining := Counter_remaining c in
        if (remaining <=? 0) || (remaining <? as_i 64 est)
        then (Err (Exhausted (Z.max 1 ((saturating_sub (c_window_end c) now_micros + 999999) / 1000000)) remaining est), b)
        else (Ok r, b)
  end.

(** The rest of [Budgets::check]: reserve, and sync at once when a lot has
    piled up. *)
Definition check_reserve (b : Budgets) (policy : BudgetPolicy) (subject : string) (est : Z) (r : positive)
  : Verdict * Budgets :=
  let b := update r (reserve est) b in
  let b := match b_heap b !! r with
           | Some c => if as_u 64 (c_unsynced_spent c * URGENT_SYNC_SHARE) >? bp_limit policy
                       then ask (bp_id policy) subject r b else b
           | None => b
           end in
  (Allow {| rv_counter := r; rv_estimate := est; rv_settled := false |}, b).

Definition check (b : Budgets) (policy : BudgetPolicy) (subject : string) (est now_micros : Z) : Verdict * Budgets :=
  match check_decide b policy subject est now_micros with
  | (Err v, b) => (v, b)
  | (Ok r, b) => check_reserve b policy subject est r
  end.

(** One entry of [Budgets::sync_all], and the pass over the table.  The
    iteration order of the map is unspecified; the model uses one. *)
Definition sync_entry (now_micros : Z) (b : Budgets) (e : string * string * positive) : Budgets :=
  let '(policy_id, subject, r) := e in
  match b_heap b !! r with
  | None => b
  | Some c =>
      if window_ended c now_micros || (c_unsynced_spent c >? 0) || (c_reserved c >? 0) then ask policy_id subject r b else b
  end.

Definition sync_all (now_micros : Z) (b : Budgets) : Budgets :=
  foldl (sync_entry now_micros) b (map_to_list (b_counters b)).

(** ** A pod: the table, the reservations requests hold, the sync in flight *)

Record Pod := {
  p_budgets : Budgets;
  p_reservations : list Reservation;
  p_inflight : option (SyncAsk * Z);
}.

Definition Pod_start : Pod := {| p_budgets := Budgets_start; p_reservations := []; p_inflight := None |}.

Definition on_budgets (f : Budgets -> Budgets) (p : Pod) : Pod :=
  {| p_budgets := f (p_budgets p); p_reservations := p_reservations p; p_inflight := p_inflight p |}.

(** What happens to a pod: a request is checked or makes its counter refresh,
    a response ends ([Settle], also the [Drop] of a reservation, without
    tokens), the ticker fires, and the sync task takes the next question
    without a connection ([NoClient]) or with one ([Ship]) and hears the
    answer ([Answered], [Failed]). *)
Inductive Event :=
| Check_ (policy : BudgetPolicy) (subject : string) (est now : Z)
| Refresh (policy : BudgetPolicy) (subject : string) (now : Z)
| Settle (i : nat) (tokens : option Tokens)
| Tick (now : Z)
| NoClient
| Ship
| Answered (spent_total window_end now : Z)
| Failed.

(** [Reservation::settle] *)
Definition settle (p : Pod) (i : nat) (tokens : option Tokens) : Pod :=
  match p_reservations p !! i with
  | Some rv =>
      if rv_settled rv then p
      else {| p_budgets := update (rv_counter rv) (settle_counter (rv_estimate rv) tokens) (p_budgets p);
              p_reservations :=
                <[i := {| rv_counter := rv_counter rv; rv_estimate := rv_estimate rv; rv_settled := true |}]> (p_reservations p);
              p_inflight := p_inflight p |}
  | None => p
  end.

Definition pod_check (p : Pod) (policy : BudgetPolicy) (subject : string) (est now : Z) : Verdict * Pod :=
  let '(v, b) := check (p_budgets p) policy subject est now in
  (v, {| p_budgets := b;
         p_reservations := match v with Allow rv => p_reservations p ++ [rv] | _ => p_reservations p end;
         p_inflight := p_inflight p |}).

(** [sync_loop], one question at a time: the question it takes off the queue. *)
Definition take_ask (p : Pod) : option (SyncAsk * Budgets) :=
  match p_inflight p, b_asks (p_budgets p) with
  | None, a :: rest =>
      Some (a, {| b_counters := b_counters (p_budgets p); b_heap := b_heap (p_budgets p); b_asks := rest |})
  | _, _ => None
  end.

Definition clear_unsynced (c : Counter) : Counter :=
  set_figures (c_window_end c) (c_global_spent c) 0 (c_reserved c) c.

Definition sync_no_client (p : Pod) : Pod :=
  match take_ask p with
  | Some (a, b) => on_budgets (fun _ => update (ask_counter a) (sync_failed 0) b) p
  | None => p
  end.

Definition sync_ship (p : Pod) : Pod :=
  match take_ask p with
  | Some (a, b) =>
      match b_heap b !! ask_counter a with
      | Some c =>
          {| p_budgets := update (ask_counter a) clear_unsynced b;
             p_reservations := p_reservations p;
             p_inflight := Some (a, c_unsynced_spent c) |}
      | None => p
      end
  | None => p
  end.

Definition sync_reply (p : Pod) (f : Z -> Counter -> Counter) : Pod :=
  match p_inflight p with
  | Some (a, delta) =>
      {| p_budgets := update (ask_counter a) (f delta) (p_budgets p);
         p_reservations := p_reservations p; p_inflight := None |}
  | None => p
  end.

Definition step (p : Pod) (e : Event) : Pod :=
  match e with
  | Check_ policy subject est now => (pod_check p policy subject est now).2
  | Refresh policy subject now => on_budgets (fun b => (refresh_if_stale b policy subject now).2) p
  | Settle i tokens => settle p i tokens
  | Tick now => on_budgets (sync_all now) p
  | NoClient => sync_no_client p
  | Ship => sync_ship p
  | Answered total we now => sync_reply p (fun delta => apply_sync total we delta now)
  | Failed => sync_reply p sync_failed
  end.

(** ** The invariant *)

Create HintDb budget.

(** Estimates of the reservations on a counter that are still open. *)
Fixpoint outstanding (r : positive) (l : list Reservation) : Z :=
  match l with
  | [] => 0
  | rv :: l => (if bool_decide (rv_counter rv = r) && negb (rv_settled rv) then rv_estimate rv else 0) + outstanding r l
  end.

(** No limit and no total heard from the ledger is beyond [2^61], and an
    estimate is below [2^63]. *)
Definition CEILING : Z := 2 ^ 61.

Definition tokens_u32 (t : option Tokens) : Prop :=
  match t with
  | None => True
  | Some t => in_u 32 (tok_input t) /\ in_u 32 (tok_output t) /\ in_u 32 (tok_cache_read t) /\ in_u 32 (tok_cache_creation t)
  end.

Definition ok_event (e : Event) : Prop :=
  match e with
  | Check_ policy _ est _ => 0 <= bp_limit policy <= CEILING /\ 0 <= est < 2 ^ 63
  | Refresh policy _ _ => 0 <= bp_limit policy <= CEILING
  | Settle _ tokens => tokens_u32 tokens
  | Answered total _ _ => 0 <= total <= CEILING
  | _ => True
  end.

(** Spend not yet shipped is below [2^61] on every counter. *)
Definition calm (p : Pod) : Prop := map_Forall (fun _ c => c_unsynced_spent c <= CEILING) (b_heap (p_budgets p)).

Inductive reachable : Pod -> Prop :=
| reach_start : reachable Pod_start
| reach_step p e : reachable p -> calm p -> ok_event e -> reachable (step p e).

Definition counter_ok (r : positive) (l : list Reservation) (c : Counter) : Prop :=
  c_reserved c = outstanding r l /\ 0 <= c_reserved c <= CEILING /\
  0 <= c_global_spent c <= CEILING /\ 0 <= c_unsynced_spent c /\ 0 <= c_budget c <= CEILING.

Record heap_ok (l : list Reservation) (b : Budgets) : Prop := {
  ok_counters r c : b_heap b !! r = Some c -> counter_ok r l c;
  ok_table k r : b_counters b !! k = Some r -> is_Some (b_heap b !! r);
  ok_reservations rv : rv ∈ l -> is_Some (b_heap b !! rv_counter rv) /\ 0 <= rv_estimate rv;
}.

Definition pod_ok (p : Pod) : Prop :=
  heap_ok (p_reservations p) (p_budgets p) /\ forall a delta, p_inflight p = Some (a, delta) -> 0 <= delta.

(** *** Open estimates *)

Lemma outstanding_app r l1 l2 : outstanding r (l1 ++ l2) = outstanding r l1 + outstanding r l2.
Proof. induction l1 as [|rv l1 IH]; simpl; [done|]. rewrite IH. lia. Qed.

Lemma outstanding_nonneg r l : (forall rv, rv ∈ l -> 0 <= rv_estimate rv) -> 0 <= outstanding r l.
Proof.
  induction l as [|rv l IH]; simpl; intros Hl; [done|].
  pose proof (Hl rv ltac:(left)). specialize (IH ltac:(intros; apply Hl; by right)). case_match; lia.
Qed.

Lemma outstanding_fresh r l : (forall rv, rv ∈ l -> rv_counter rv <> r) -> outstanding r l = 0.
Proof.
  induction l as [|rv l IH]; simpl; intros Hl; [done|].
  rewrite bool_decide_eq_false_2 by (apply Hl; left). rewrite IH; [done|]. intros; apply Hl; by right.
Qed.

(** Closing one reservation takes its estimate off its own counter only. *)
Lemma outstanding_settle r l i rv :
  l !! i = Some rv -> rv_settled rv = false ->
  outstanding r (<[i := {| rv_counter := rv_counter rv; rv_estimate := rv_estimate rv; rv_settled := true |}]> l) =
  outstanding r l - (if bool_decide (rv_counter rv = r) then rv_estimate rv else 0).
Proof.
  revert i. induction l as [|x l IH]; intros [|i] Hi Hs; simplify_eq/=.
  - rewrite Hs, andb_false_r, andb_true_r. lia.
  - rewrite IH by done. lia.
Qed.

Lemma outstanding_has r l i rv :
  l !! i = Some rv -> rv_settled rv = false -> (forall rv, rv ∈ l -> 0 <= rv_estimate rv) ->
  rv_counter rv = r -> rv_estimate rv <= outstanding r l.
Proof.
  intros Hi Hs Hl Hr.
  pose proof (outstanding_settle r l i rv Hi Hs) as Ho. rewrite bool_decide_eq_true_2 in Ho by done.
  assert (0 <= outstanding r (<[i := {| rv_counter := rv_counter rv; rv_estimate := rv_estimate rv; rv_settled := true |}]> l)); [|lia].
  apply outstanding_nonneg. intros x [j Hj]%list_elem_of_lookup.
  destruct (decide (i = j)) as [->|Hne].
  - rewrite list_lookup_insert_eq in Hj by (eapply lookup_lt_Some; done). simplify_eq/=.
    apply (Hl rv). by eapply list_elem_of_lookup_2.
  - rewrite list_lookup_insert_ne in Hj by done. apply Hl. by eapply list_elem_of_lookup_2.
Qed.

(** *** Updates of the store *)

Lemma update_ok l b r f :
  (forall c, counter_ok r l c -> counter_ok r l (f c)) -> heap_ok l b -> heap_ok l (update r f b).
Proof.
  intros Hf [Hc Ht Hr]. split; simpl.
  - intros r' c. rewrite lookup_alter_Some. intros [(<- & c' & Hc' & ->)|[_ Hc']]; eauto.
  - intros k r' Hk. rewrite lookup_alter_is_Some. eauto.
  - intros rv Hrv. rewrite lookup_alter_is_Some. eauto.
Qed.

Ltac counter_tac :=
  repeat match goal with c : Counter |- _ => destruct c end; unfold counter_ok in *; simpl in *.

Lemma set_flags_ok r l sy sg c : counter_ok r l c -> counter_ok r l (set_flags sy sg c).
Proof. by counter_tac. Qed.

Lemma set_limits_ok r l bu rl c : 0 <= bu <= CEILING -> counter_ok r l c -> counter_ok r l (set_limits bu rl c).
Proof. counter_tac. tauto. Qed.

Lemma roll_over_ok r l c : counter_ok r l c -> counter_ok r l (roll_over c).
Proof. counter_tac. unfold CEILING in *. lia. Qed.

Lemma clear_unsynced_ok r l c : counter_ok r l c -> counter_ok r l (clear_unsynced c).
Proof. counter_tac. lia. Qed.

Lemma apply_sync_ok r l total we delta now c :
  0 <= total <= CEILING -> counter_ok r l c -> counter_ok r l (apply_sync total we delta now c).
Proof. unfold apply_sync. counter_tac. unfold saturating_sub. case_match; lia. Qed.

Lemma sync_failed_ok r l delta c : counter_ok r l c -> counter_ok r l (sync_failed delta c).
Proof.
  counter_tac. unfold wrapping_add.
  pose proof (Z.mod_pos_bound (c_unsynced_spent0 + delta) (2 ^ 64) ltac:(lia)). lia.
Qed.

#[local] Hint Resolve set_flags_ok set_limits_ok roll_over_ok clear_unsynced_ok apply_sync_ok sync_failed_ok update_ok : budget.

Lemma Counter_new_ok r l policy :
  outstanding r l = 0 -> 0 <= bp_limit policy <= CEILING -> counter_ok r l (Counter_new policy).
Proof. intros Ho Hl. unfold counter_ok. rewrite Ho. unfold CEILING in *. simpl. lia. Qed.

Lemma counter_entry_ok l b policy subject :
  heap_ok l b -> 0 <= bp_limit policy <= CEILING ->
  heap_ok l (counter_entry b policy subject).2 /\
  is_Some (b_heap (counter_entry b policy subject).2 !! (counter_entry b policy subject).1).
Proof.
  intros Hb Hl. unfold counter_entry. destruct (b_counters b !! _) as [r|] eqn:Hk; simpl.
  - split; [done|]. by eapply ok_table.
  - pose proof (is_fresh (dom (b_heap b))) as Hf. set (r := fresh (dom (b_heap b))) in *.
    rewrite not_elem_of_dom in Hf. split; [|rewrite lookup_insert_eq; eauto].
    destruct Hb as [Hc Ht Hr]. split; simpl.
    + intros r' c. rewrite lookup_insert_Some. intros [[<- <-]|[_ Hc']]; [|eauto].
      apply Counter_new_ok; [|done]. apply outstanding_fresh. intros rv Hrv <-.
      destruct (Hr rv Hrv) as [[? ?] _]. congruence.
    + intros k r' [[_ <-]|[_ Hk']]%lookup_insert_Some; [rewrite lookup_insert_eq; eauto|].
      rewrite lookup_insert_is_Some'. right. eauto.
    + intros rv Hrv. rewrite lookup_insert_is_Some'. destruct (Hr rv Hrv). eauto.
Qed.

Lemma counter_heap_ok l b policy subject :
  heap_ok l b -> 0 <= bp_limit policy <= CEILING -> heap_ok l (counter b policy subject).2.
Proof.
  intros Hb Hl. destruct (counter_entry_ok l b policy subject Hb Hl) as [Ho _]. unfold counter.
  destruct (counter_entry b policy subject) as [r b']. simpl in *. eauto with budget.
Qed.

(** The counter found or made for a subject, with the policy's limits on it. *)
Definition subject_counter (b : Budgets) (policy : BudgetPolicy) (subject : string) : Counter :=
  set_limits (bp_limit policy) (bp_route_limit policy)
    (match b_counters b !! (bp_id policy, subject) ≫= fun r => b_heap b !! r with
     | Some c => c | None => Counter_new policy end).

Lemma counter_found l b policy subject :
  heap_ok l b ->
  b_heap (counter b policy subject).2 !! (counter b policy subject).1 = Some (subject_counter b policy subject).
Proof.
  intros Hb. unfold counter, subject_counter, counter_entry.
  destruct (b_counters b !! _) as [r|] eqn:Hk; simpl; rewrite lookup_alter_eq.
  - destruct (ok_table _ _ Hb _ _ Hk) as [c Hc]. by rewrite Hc.
  - by rewrite lookup_insert_eq.
Qed.

Lemma ask_ok l policy_id subject r b : heap_ok l b -> heap_ok l (ask policy_id subject r b).
Proof.
  intros Hb. unfold ask. destruct (b_heap b !! r) as [c|] eqn:Hr; [|done].
  destruct (c_syncing c); [done|]. case_match; [|eauto with budget].
  destruct Hb as [Hc Ht Hl]. split; simpl.
  - intros r' c' [[<- <-]|[_ Hc']]%lookup_insert_Some; eauto with budget.
  - intros k r' Hk. rewrite lookup_insert_is_Some'. eauto.
  - intros rv Hrv. rewrite lookup_insert_is_Some'. destruct (Hl rv Hrv). eauto.
Qed.

#[local] Hint Resolve counter_heap_ok ask_ok : budget.

Lemma refresh_ok l b policy subject now :
  heap_ok l b -> 0 <= bp_limit policy <= CEILING -> heap_ok l (refresh_if_stale b policy subject now).2.
Proof.
  intros Hb Hl. pose proof (counter_heap_ok l b policy subject Hb Hl) as Ho. unfold refresh_if_stale.
  destruct (counter b policy subject) as [r b']. simpl in *. repeat case_match; simpl; eauto with budget.
Qed.

Lemma sync_all_ok l now b : heap_ok l b -> heap_ok l (sync_all now b).
Proof.
  unfold sync_all. generalize (map_to_list (b_counters b)) as es. intros es. revert b.
  induction es as [|[[i s] r] es IH]; intros b Hb; simpl; [done|]. apply IH.
  repeat case_match; eauto with budget.
Qed.

Lemma roll_if_ended_ok l r now b : heap_ok l b -> heap_ok l (roll_if_ended r now b).
Proof. intros. unfold roll_if_ended. repeat case_match; eauto with budget. Qed.

#[local] Hint Resolve roll_if_ended_ok : budget.

Lemma roll_if_ended_found r now b c :
  b_heap b !! r = Some c ->
  b_heap (roll_if_ended r now b) !! r = Some (if window_ended c now then roll_over c else c).
Proof. intros Hc. unfold roll_if_ended. rewrite Hc. case_match; [|done]. simpl. by rewrite lookup_alter_eq, Hc. Qed.

Lemma check_decide_ok l b policy subject est now :
  heap_ok l b -> 0 <= bp_limit policy <= CEILING -> heap_ok l (check_decide b policy subject est now).2.
Proof.
  intros Hb Hl. pose proof (counter_heap_ok l b policy subject Hb Hl) as Ho. unfold check_decide.
  destruct (counter b policy subject) as [r b']. cbn [fst snd] in *.
  repeat case_match; simpl; eauto with budget.
Qed.

(** What is left of the subject's limit, in unbounded arithmetic. *)
Definition left_over (c : Counter) : Z :=
  c_budget c - c_global_spent c - c_unsynced_spent c - c_reserved c.

Lemma Counter_remaining_exact r l c :
  counter_ok r l c -> c_unsynced_spent c <= CEILING -> Counter_remaining c = left_over c.
Proof.
  intros (_ & Hr & Hg & Hu & Hb) Hc. unfold Counter_remaining, left_over, CEILING in *.
  rewrite (as_i_small 64 (c_budget c)), (as_i_small 64 (c_global_spent c)), (as_i_small 64 (c_unsynced_spent c)),
    (as_i_small 64 (c_reserved c)) by lia. apply as_i_small; lia.
Qed.

(** The decision of [check] on the subject's counter. *)
Definition decision (c : Counter) (r : positive) (est now : Z) : result positive Verdict :=
  if window_ended c now || negb (c_synced c) then Err Unknown
  else if (left_over c <=? 0) || (left_over c <? est)
  then Err (Exhausted (Z.max 1 ((saturating_sub (c_window_end c) now + 999999) / 1000000)) (left_over c) est)
  else Ok r.

Lemma check_decide_decision l b policy subject est now :
  heap_ok l b -> 0 <= bp_limit policy <= CEILING -> 0 <= est < 2 ^ 63 ->
  c_unsynced_spent (subject_counter b policy subject) <= CEILING ->
  (check_decide b policy subject est now).1 =
  decision (subject_counter b policy subject) (counter b policy subject).1 est now.
Proof.
  intros Hb Hl He Hu. pose proof (counter_heap_ok l b policy subject Hb Hl) as Ho.
  pose proof (counter_found l b policy subject Hb) as Hf. unfold check_decide, decision.
  set (c := subject_counter b policy subject) in *.
  destruct (counter b policy subject) as [r b']. cbn [fst snd] in *.
  rewrite (roll_if_ended_found _ _ _ _ Hf). destruct (window_ended c now) eqn:Hw.
  - by destruct c.
  - destruct (c_synced c); [|done]. cbn [negb orb].
    rewrite (Counter_remaining_exact r l c (ok_counters _ _ Ho _ _ Hf) Hu), (as_i_small 64 est) by lia.
    by case_match.
Qed.

(** An admitted estimate joins the open ones of its counter. *)
Lemma reserve_ok l b r c est :
  heap_ok l b -> b_heap b !! r = Some c -> 0 <= est -> c_reserved c + est <= CEILING ->
  heap_ok (l ++ [{| rv_counter := r; rv_estimate := est; rv_settled := false |}]) (update r (reserve est) b).
Proof.
  intros [Hc Ht Hl] Hr He Hx. split; simpl.
  - intros r' c'. rewrite lookup_alter_Some.
    intros [(<- & d & Hd & ->)|[Hne Hd]]; unfold counter_ok; rewrite outstanding_app; simpl.
    + simplify_eq. destruct (Hc _ _ Hr) as (Hres & H1 & H2 & H3 & H4).
      rewrite bool_decide_eq_true_2 by done. unfold CEILING in *. counter_tac.
      unfold wrapping_add. rewrite Z.mod_small by lia. lia.
    + rewrite bool_decide_eq_false_2 by done. simpl. rewrite Z.add_0_r. by apply Hc.
  - intros k r' Hk. rewrite lookup_alter_is_Some. eauto.
  - intros rv [Hrv| ->%list_elem_of_singleton]%elem_of_app; rewrite lookup_alter_is_Some; [eauto|]. simpl. eauto.
Qed.

Lemma check_reserve_ok l b policy subject est r c :
  heap_ok l b -> b_heap b !! r = Some c -> 0 <= est -> c_reserved c + est <= CEILING ->
  heap_ok (l ++ [{| rv_counter := r; rv_estimate := est; rv_settled := false |}])
    (check_reserve b policy subject est r).2.
Proof.
  intros. pose proof (reserve_ok l b r c est). unfold check_reserve. cbn [fst snd].
  repeat case_match; eauto with budget.
Qed.

Lemma check_decide_admits l b policy subject est now r :
  heap_ok l b -> 0 <= bp_limit policy <= CEILING -> 0 <= est < 2 ^ 63 ->
  c_unsynced_spent (subject_counter b policy subject) <= CEILING ->
  (check_decide b policy subject est now).1 = Ok r ->
  let c := subject_counter b policy subject in
  r = (counter b policy subject).1 /\ c_synced c = true /\ window_ended c now = false /\ 0 < left_over c /\ est <= left_over c /\
  (check_decide b policy subject est now).2 = (counter b policy subject).2 /\
  b_heap (counter b policy subject).2 !! r = Some c.
Proof.
  intros Hb Hl He Hu Hok c. rewrite (check_decide_decision l) in Hok by done. fold c in Hok. unfold decision in Hok.
  pose proof (counter_found l b policy subject Hb) as Hf. fold c in Hf.
  destruct (window_ended c now) eqn:Hw; [done|]. destruct (c_synced c) eqn:Hs; [|done]. cbn [orb negb] in Hok.
  destruct ((left_over c <=? 0) || (left_over c <? est)) eqn:Hx; [done|]. injection Hok as <-.
  apply orb_false_iff in Hx as [?%Z.leb_gt ?%Z.ltb_ge].
  split_and!; try done. unfold check_decide.
  pose proof (ok_counters _ _ (counter_heap_ok l b policy subject Hb Hl) _ _ Hf) as Hcok.
  destruct (counter b policy subject) as [r b']. cbn [fst snd] in *.
  assert (roll_if_ended r now b' = b') as -> by (unfold roll_if_ended; by rewrite Hf, Hw).
  rewrite Hf, Hs. cbn [negb]. rewrite (Counter_remaining_exact r l c Hcok Hu), (as_i_small 64 est) by lia.
  destruct (Z.leb_spec (left_over c) 0); [lia|]. destruct (Z.ltb_spec (left_over c) est); [lia|]. done.
Qed.

Lemma calm_subject p policy subject :
  calm p -> c_unsynced_spent (subject_counter (p_budgets p) policy subject) <= CEILING.
Proof.
  intros Hc. unfold subject_counter.
  destruct (b_counters (p_budgets p) !! _) as [r|]; simpl; [|done].
  destruct (b_heap (p_budgets p) !! r) as [c|] eqn:Hr; [|done]. specialize (Hc r c Hr). by destruct c.
Qed.

Lemma subject_counter_ok l b policy subject :
  heap_ok l b -> 0 <= bp_limit policy <= CEILING ->
  counter_ok (counter b policy subject).1 l (subject_counter b policy subject).
Proof.
  intros Hb Hl. eapply ok_counters; [by apply (counter_heap_ok l b policy subject)|]. by eapply counter_found.
Qed.

Lemma subject_counter_budget b policy subject : c_budget (subject_counter b policy subject) = bp_limit policy.
Proof. unfold subject_counter. by case_match; counter_tac. Qed.

Lemma pod_check_ok p policy subject est now :
  pod_ok p -> calm p -> 0 <= bp_limit policy <= CEILING -> 0 <= est < 2 ^ 63 ->
  pod_ok (pod_check p policy subject est now).2.
Proof.
  intros [Hb Hi] Hc Hl He. unfold pod_check, check.
  pose proof (calm_subject p policy subject Hc) as Hu.
  pose proof (check_decide_ok _ _ policy subject est now Hb Hl) as Hd.
  destruct (check_decide (p_budgets p) policy subject est now) as [[r|v] b'] eqn:Hx; cbn [fst snd] in *.
  - pose proof (check_decide_admits _ _ policy subject est now r Hb Hl He Hu) as Ha. rewrite Hx in Ha.
    destruct (Ha eq_refl) as (_ & _ & _ & _ & Hfit & Hb' & Hf). cbn [snd] in Hb'. rewrite <- Hb' in Hf.
    pose proof (ok_counters _ _ Hd _ _ Hf) as (_ & _ & ? & ? & ?). unfold left_over in Hfit.
    pose proof (check_reserve_ok _ b' policy subject est r _ Hd Hf ltac:(lia) ltac:(lia)) as Hr.
    unfold check_reserve in *. cbn [fst snd] in *. by split.
  - split; [|done]. cbn [snd p_reservations p_budgets]. destruct v; try done.
    unfold check_decide in Hx. destruct (counter (p_budgets p) policy subject). repeat case_match; simplify_eq.
Qed.

Lemma settle_ok p i tokens : pod_ok p -> tokens_u32 tokens -> pod_ok (settle p i tokens).
Proof.
  intros [[Hc Ht Hl] Hi] Htok. unfold settle. destruct (p_reservations p !! i) as [rv|] eqn:Hrv; [|done].
  destruct (rv_settled rv) eqn:Hs; [done|]. split; [|done]. cbn [p_reservations p_budgets]. split; simpl.
  - intros r c. rewrite lookup_alter_Some. intros [(<- & d & Hd & ->)|[Hne Hd]].
    + pose proof (outstanding_has _ _ _ _ Hrv Hs (fun x Hx => proj2 (Hl x Hx)) eq_refl) as Hle.
      destruct (Hc _ _ Hd) as (Ho & Hr & Hg & Hu & Hb). unfold counter_ok. rewrite (outstanding_settle _ _ _ _ Hrv Hs).
      rewrite bool_decide_eq_true_2 by done.
      assert (0 <= rv_estimate rv) by (apply Hl; by eapply list_elem_of_lookup_2).
      counter_tac. unfold saturating_sub, wrapping_add.
      match goal with |- context [?x mod 2 ^ 64] => pose proof (Z.mod_pos_bound x (2 ^ 64) ltac:(lia)) end. lia.
    + destruct (Hc _ _ Hd) as (Ho & Hrest). unfold counter_ok. rewrite (outstanding_settle _ _ _ _ Hrv Hs).
      rewrite bool_decide_eq_false_2 by done. split; [lia|done].
  - intros k r Hk. rewrite lookup_alter_is_Some. eauto.
  - intros x [j Hj]%list_elem_of_lookup. rewrite lookup_alter_is_Some.
    destruct (decide (i = j)) as [->|Hne].
    + rewrite list_lookup_insert_eq in Hj by (eapply lookup_lt_Some; done). simplify_eq/=.
      apply Hl. by eapply list_elem_of_lookup_2.
    + rewrite list_lookup_insert_ne in Hj by done. apply Hl. by eapply list_elem_of_lookup_2.
Qed.

Lemma take_ask_ok p a b : pod_ok p -> take_ask p = Some (a, b) -> heap_ok (p_reservations p) b.
Proof. intros [[Hc Ht Hl] _]. unfold take_ask. intros. repeat case_match; simplify_eq/=. by split. Qed.

Lemma step_ok p e : pod_ok p -> calm p -> ok_event e -> pod_ok (step p e).
Proof.
  intros Hp Hc He. destruct e; simpl in *.
  - destruct He. by apply pod_check_ok.
  - destruct Hp. split; [|done]. by apply refresh_ok.
  - by apply settle_ok.
  - destruct Hp. split; [|done]. by apply sync_all_ok.
  - unfold sync_no_client. destruct (take_ask p) as [[a b]|] eqn:Ha; [|done].
    pose proof (take_ask_ok _ _ _ Hp Ha). destruct Hp. split; [|done]. simpl. eauto with budget.
  - unfold sync_ship. destruct (take_ask p) as [[a b]|] eqn:Ha; [|done].
    pose proof (take_ask_ok _ _ _ Hp Ha) as Hb. destruct (b_heap b !! ask_counter a) as [c|] eqn:Hf; [|done].
    split; simpl; [eauto with budget|]. intros a' delta [= _ <-]. by apply (ok_counters _ _ Hb _ _ Hf).
  - unfold sync_reply. destruct (p_inflight p) as [[a delta]|]; [|done]. destruct Hp. split; simpl; [eauto with budget|done].
  - unfold sync_reply. destruct (p_inflight p) as [[a delta]|]; [|done]. destruct Hp. split; simpl; [eauto with budget|done].
Qed.

Lemma reachable_ok p : reachable p -> pod_ok p.
Proof.
  induction 1; [|by apply step_ok]. split; [|done]. split; simpl.
  - intros r c. by rewrite lookup_empty.
  - intros k r. by rewrite lookup_empty.
  - intros rv Hrv. by apply not_elem_of_nil in Hrv.
Qed.

(** ** Theorems *)

(** Whatever requests, responses, drops and syncs a pod has gone through, the
    reserved figure of a counter is the sum of the estimates of the
    reservations on it that are still open: every admitted request holds its
    estimate exactly until it settles, and settles once. *)
Theorem reserved_is_outstanding (p : Pod) (r : positive) (c : Counter) :
  reachable p -> b_heap (p_budgets p) !! r = Some c -> c_reserved c = outstanding r (p_reservations p).
Proof. intros Hp Hr. apply reachable_ok in Hp as [Hb _]. by apply (ok_counters _ _ Hb). Qed.

(** The answer of [check] in every reachable state, in unbounded arithmetic:
    unknown before the ledger has answered for the window, exhausted when the
    limit less the spend of all pods, the spend here and the open estimates
    is used up or smaller than the estimate, admitted otherwise; and exactly
    an admitted request adds its estimate to the open ones. *)
Theorem check_verdict_exact (p : Pod) (policy : BudgetPolicy) (subject : string) (est now : Z) :
  reachable p -> calm p -> ok_event (Check_ policy subject est now) ->
  let c := subject_counter (p_budgets p) policy subject in
  let r := (counter (p_budgets p) policy subject).1 in
  let rest := bp_limit policy - c_global_spent c - c_unsynced_spent c - outstanding r (p_reservations p) in
  let v := (pod_check p policy subject est now).1 in
  v = (if window_ended c now || negb (c_synced c) then Unknown
       else if (rest <=? 0) || (rest <? est)
       then Exhausted (Z.max 1 ((saturating_sub (c_window_end c) now + 999999) / 1000000)) rest est
       else Allow {| rv_counter := r; rv_estimate := est; rv_settled := false |}) /\
  outstanding r (p_reservations (pod_check p policy subject est now).2) =
    outstanding r (p_reservations p) + match v with Allow _ => est | _ => 0 end.
Proof.
  intros Hp Hc [Hl He] c r rest v. apply reachable_ok in Hp as [Hb _].
  pose proof (calm_subject p policy subject Hc) as Hu.
  assert (Hrest : left_over c = rest).
  { unfold left_over, rest. destruct (subject_counter_ok _ _ policy subject Hb Hl) as [Ho _].
    fold c r in Ho. rewrite <- Ho. unfold c at 1. by rewrite subject_counter_budget. }
  assert (Hv : v = match decision c r est now with
                   | Ok r => Allow {| rv_counter := r; rv_estimate := est; rv_settled := false |} | Err v => v end).
  { unfold v, pod_check, check. pose proof (check_decide_decision _ _ policy subject est now Hb Hl He Hu) as Hd.
    fold c r in Hd. destruct (check_decide _ _ _ _ _) as [[r'|v'] b']; cbn [fst] in Hd; rewrite <- Hd; done. }
  split.
  - rewrite Hv. unfold decision. rewrite Hrest. destruct (window_ended c now || _); [done|].
    by destruct ((rest <=? 0) || _).
  - assert (Hres : p_reservations (pod_check p policy subject est now).2 =
                   match v with Allow rv => p_reservations p ++ [rv] | _ => p_reservations p end).
    { unfold v, pod_check. by destruct (check _ _ _ _ _). }
    rewrite Hres, Hv. unfold decision. destruct (window_ended c now || _); [lia|].
    destruct ((left_over c <=? 0) || _); [lia|]. rewrite outstanding_app. simpl. rewrite bool_decide_eq_true_2 by done. simpl. lia.
Qed.

(** *** Spend that ends while a sync is in flight *)

Definition run (p : Pod) (es : list Event) : Pod := foldl step p es.

(** What the end of a response adds to a counter. *)
Definition settled_on (r : positive) (p : Pod) (i : nat) (tokens : option Tokens) : Z :=
  match p_reservations p !! i with
  | Some rv =>
      if rv_settled rv || negb (bool_decide (rv_counter rv = r)) then 0
      else match b_heap (p_budgets p) !! r with Some c => settle_actual (c_unit c) tokens | None => 0 end
  | None => 0
  end.

Fixpoint settled_in (r : positive) (p : Pod) (ends : list (nat * option Tokens)) : Z :=
  match ends with
  | [] => 0
  | (i, t) :: ends => settled_on r p i t + settled_in r (settle p i t) ends
  end.

Definition settles (ends : list (nat * option Tokens)) : list Event := map (fun x => Settle x.1 x.2) ends.

Lemma settle_actual_range u t : tokens_u32 t -> 0 <= settle_actual u t <= 2 ^ 34.
Proof. intros Ht. destruct u, t as [t|]; simpl in *; unfold in_u in *; lia. Qed.

Lemma settle_unsynced r p i t c :
  tokens_u32 t -> b_heap (p_budgets p) !! r = Some c -> 0 <= c_unsynced_spent c -> c_unsynced_spent c + 2 ^ 34 < 2 ^ 64 ->
  exists c', b_heap (p_budgets (settle p i t)) !! r = Some c' /\
    c_unsynced_spent c' = c_unsynced_spent c + settled_on r p i t /\ c_window_end c' = c_window_end c /\
    p_inflight (settle p i t) = p_inflight p.
Proof.
  intros Ht Hr H0 H1. unfold settle, settled_on. destruct (p_reservations p !! i) as [rv|]; [|exists c; split_and!; [done|lia|done..]].
  destruct (rv_settled rv); [exists c; split_and!; [done|simpl; lia|done..]|]. simpl.
  destruct (decide (rv_counter rv = r)) as [->|Hne].
  - rewrite lookup_alter_eq, Hr, bool_decide_eq_true_2 by done. eexists. split; [done|]. simpl.
    pose proof (settle_actual_range (c_unit c) t Ht). counter_tac. unfold wrapping_add. rewrite Z.mod_small by lia. done.
  - rewrite lookup_alter_ne, bool_decide_eq_false_2 by done. exists c. split_and!; [done|simpl; lia|done..].
Qed.

Lemma settles_unsynced r ends p c :
  Forall (fun x => tokens_u32 x.2) ends -> b_heap (p_budgets p) !! r = Some c ->
  0 <= c_unsynced_spent c -> c_unsynced_spent c + 2 ^ 34 * (Z.of_nat (length ends) + 1) < 2 ^ 64 ->
  exists c', b_heap (p_budgets (run p (settles ends))) !! r = Some c' /\
    c_unsynced_spent c' = c_unsynced_spent c + settled_in r p ends /\ c_window_end c' = c_window_end c /\
    p_inflight (run p (settles ends)) = p_inflight p.
Proof.
  revert p c. induction ends as [|[i t] ends IH]; intros p c Ht Hr H0 H1.
  - exists c. split_and!; [done|simpl; lia|done..].
  - inversion Ht as [|?? Hx Hxs]; subst. simpl in Hx. rewrite length_cons in H1.
    destruct (settle_unsynced r p i t c Hx Hr H0 ltac:(lia)) as (c' & Hr' & Hu & Hw & Hi).
    assert (0 <= settled_on r p i t <= 2 ^ 34).
    { unfold settled_on. repeat case_match; try lia. by apply settle_actual_range. }
    destruct (IH (settle p i t) c' Hxs Hr' ltac:(lia) ltac:(lia)) as (c'' & Hr'' & Hu' & Hw' & Hi').
    exists c''. cbn [settled_in settles run foldl map step fst snd].
    split_and!; [done|lia|congruence|]. change (p_inflight (run (settle p i t) (settles ends)) = p_inflight p). congruence.
Qed.

Lemma sync_ship_next p a rest c :
  p_inflight p = None -> b_asks (p_budgets p) = a :: rest -> b_heap (p_budgets p) !! ask_counter a = Some c ->
  p_inflight (step p Ship) = Some (a, c_unsynced_spent c) /\
  b_heap (p_budgets (step p Ship)) !! ask_counter a = Some (clear_unsynced c).
Proof.
  intros Hi Ha Hc. unfold step, sync_ship, take_ask. rewrite Hi, Ha. cbn [b_heap].
  rewrite Hc. simpl. by rewrite lookup_alter_eq, Hc.
Qed.

(** Spend that is settled between the moment a counter's unsynced spend is
    taken for a sync and the ledger's answer is partly lost: after the answer
    for the same window, what was reported and what is left to report fall
    short of what was spent by the smaller of the reported amount and the
    spend of the meantime, because the reported amount is taken off twice. *)
Theorem sync_loses_meanwhile_spend (p : Pod) (a : SyncAsk) (rest : list SyncAsk) (c : Counter)
    (ends : list (nat * option Tokens)) (total now : Z) :
  p_inflight p = None -> b_asks (p_budgets p) = a :: rest ->
  b_heap (p_budgets p) !! ask_counter a = Some c -> 0 <= c_unsynced_spent c ->
  Forall (fun x => tokens_u32 x.2) ends -> Z.of_nat (length ends) < 2 ^ 29 ->
  let q := run (step p Ship) (settles ends) in
  let reported := c_unsynced_spent c in
  let meanwhile := settled_in (ask_counter a) (step p Ship) ends in
  p_inflight q = Some (a, reported) /\
  exists c', b_heap (p_budgets (step q (Answered total (c_window_end c) now))) !! ask_counter a = Some c' /\
    reported + c_unsynced_spent c' = reported + meanwhile - Z.min reported meanwhile.
Proof.
  intros Hi Ha Hc H0 Ht Hn q reported meanwhile.
  destruct (sync_ship_next p a rest c Hi Ha Hc) as [Hs Hh].
  assert (Hz : c_unsynced_spent (clear_unsynced c) = 0) by by destruct c.
  assert (Hw : c_window_end (clear_unsynced c) = c_window_end c) by by destruct c.
  destruct (settles_unsynced (ask_counter a) ends (step p Ship) _ Ht Hh ltac:(lia) ltac:(lia)) as (c' & Hr & Hu & Hw' & Hi').
  fold q in Hr, Hi'. rewrite Hs in Hi'. split; [done|].
  cbn [step]. unfold sync_reply. rewrite Hi'. cbn [p_budgets update b_heap]. rewrite lookup_alter_eq, Hr.
  eexists. split; [done|]. rewrite Hz in Hu. fold meanwhile reported in Hu. unfold apply_sync.
  assert (Heq : (c_window_end (set_synced_at now c') =? c_window_end c) = true).
  { apply Z.eqb_eq. rewrite <- Hw, <- Hw'. by destruct c'. }
  rewrite Heq. fold reported. counter_tac. unfold saturating_sub. lia.
Qed.

(** *** Estimates beyond the signed range *)

Lemma reserve_remaining r l c est :
  counter_ok r l c -> c_unsynced_spent c <= CEILING ->
  Counter_remaining (reserve est c) = as_i 64 (left_over c - est).
Proof.
  intros Hok Hu. pose proof (Counter_remaining_exact r l c Hok Hu) as Hrem. destruct Hok as (_ & Hr & Hg & H0 & Hb).
  unfold Counter_remaining, left_over, CEILING in *. counter_tac.
  unfold wrapping_add. fold (as_u 64 (c_reserved0 + est)).
  rewrite (as_i_as_u 64 (c_reserved0 + est)) by lia. rewrite (as_i_sub 64 _ (c_reserved0 + est)) by lia.
  rewrite (as_i_small 64 c_budget0), (as_i_small 64 c_global_spent0), (as_i_small 64 c_unsynced_spent0) by lia.
  f_equal. lia.
Qed.

Lemma ask_remaining policy_id subject r b c :
  b_heap b !! r = Some c ->
  exists c', b_heap (ask policy_id subject r b) !! r = Some c' /\ Counter_remaining c' = Counter_remaining c.
Proof.
  intros Hc. unfold ask. rewrite Hc. destruct (c_syncing c); [by exists c|]. case_match; simpl.
  - rewrite lookup_insert_eq. eexists. split; [done|]. by destruct c.
  - rewrite lookup_alter_eq, Hc. eexists. split; [done|]. by destruct c.
Qed.

(** An estimate of [2^63] or more (a [max_tokens] the client chose) is
    admitted by every counter that has anything left, because it is compared
    as a negative number, and holding it makes more of the budget available:
    what is left afterwards grows by [2^64] less the estimate. *)
Theorem huge_estimate_enlarges_budget (p : Pod) (policy : BudgetPolicy) (subject : string) (est now : Z) :
  reachable p -> calm p -> 0 <= bp_limit policy <= CEILING -> 2 ^ 63 < est < 2 ^ 64 ->
  let c := subject_counter (p_budgets p) policy subject in
  let r := (counter (p_budgets p) policy subject).1 in
  c_synced c = true -> window_ended c now = false -> 0 < left_over c ->
  left_over c + (2 ^ 64 - est) < 2 ^ 63 ->
  (pod_check p policy subject est now).1 = Allow {| rv_counter := r; rv_estimate := est; rv_settled := false |} /\
  exists c', b_heap (p_budgets (pod_check p policy subject est now).2) !! r = Some c' /\
    Counter_remaining c' = left_over c + (2 ^ 64 - est).
Proof.
  intros Hp Hc Hl He c r Hs Hw Hpos Hroom. apply reachable_ok in Hp as [Hb _].
  pose proof (calm_subject p policy subject Hc) as Hu.
  pose proof (counter_found _ (p_budgets p) policy subject Hb) as Hf.
  pose proof (subject_counter_ok _ _ policy subject Hb Hl) as Hcok.
  fold c in Hu, Hf, Hcok. fold r in Hf. pose proof (Counter_remaining_exact _ _ _ Hcok Hu) as Hrem.
  assert (Hneg : as_i 64 est = est - 2 ^ 64).
  { unfold as_i. change (2 ^ (64 - 1)) with (2 ^ 63). replace (est + 2 ^ 63) with (est - 2 ^ 63 + 1 * 2 ^ 64) by lia.
    rewrite Z_mod_plus_full, Z.mod_small by lia. lia. }
  assert (Hd : check_decide (p_budgets p) policy subject est now = (Ok r, (counter (p_budgets p) policy subject).2)).
  { unfold check_decide. subst r. destruct (counter (p_budgets p) policy subject) as [r b'].
    cbn [fst snd] in *. assert (roll_if_ended r now b' = b') as -> by (unfold roll_if_ended; by rewrite Hf, Hw).
    rewrite Hf, Hs. cbn [negb]. rewrite Hrem, Hneg.
    destruct (Z.leb_spec (left_over c) 0); [lia|]. destruct (Z.ltb_spec (left_over c) (est - 2 ^ 64)); [lia|]. done. }
  unfold pod_check, check. rewrite Hd. unfold check_reserve. cbn [fst snd p_budgets]. split; [done|].
  assert (Hr : b_heap (update r (reserve est) (counter (p_budgets p) policy subject).2) !! r = Some (reserve est c)).
  { simpl. by rewrite lookup_alter_eq, Hf. }
  assert (Hres : Counter_remaining (reserve est c) = left_over c + (2 ^ 64 - est)).
  { rewrite (reserve_remaining _ _ c est Hcok Hu), <- (as_i_add_mult 64 _ 1). rewrite as_i_small by lia. lia. }
  rewrite Hr. case_match; [|eauto].
  destruct (ask_remaining (bp_id policy) subject r _ _ Hr) as (c' & Hc' & Hx). exists c'. split; [done|congruence].
Qed.

(** ** A run *)

Module Sample.

Definition now : Z := 1789673548000000.
Definition policy : BudgetPolicy :=
  {| bp_id := "llm/hourly"; bp_limit := 1000; bp_route_limit := 1000; bp_unit := UnitTokens; bp_window := Hourly;
     bp_per := ScopeKey; bp_fail_open := true; bp_fallback := None |}.
Definition tokens (n : Z) : option Tokens :=
  Some {| tok_input := n; tok_output := 0; tok_cache_read := 0; tok_cache_creation := 0 |}.
Definition window_end : Z := end_of Hourly now.

(** A first request waits for the ledger, two are admitted, one has ended. *)
Definition events : list Event :=
  [Check_ policy "7" 300 now; Ship; Answered 0 window_end now;
   Check_ policy "7" 300 now; Check_ policy "7" 400 now; Settle 0 (tokens 200)].

(** Then the ticker queues a sync. *)
Definition before_sync : Pod := step (run Pod_start events) (Tick now).

Lemma reach_events p es :
  reachable p -> Forall ok_event es ->
  forallb (fun n => bool_decide (calm (run p (take n es)))) (seq 0 (length es)) = true ->
  reachable (run p es).
Proof.
  induction es as [|e es IH] using rev_ind; intros Hp Hes Hc; [done|].
  apply Forall_app in Hes as [Hes He]. rewrite length_app in Hc. cbn [length] in Hc.
  rewrite Nat.add_1_r, seq_S in Hc. rewrite forallb_app in Hc. apply andb_true_iff in Hc as [Hc Hl].
  unfold run in *. rewrite foldl_app. cbn [foldl]. apply reach_step.
  - apply IH; [done..|]. apply forallb_forall. intros n Hn%in_seq. rewrite forallb_forall in Hc.
    specialize (Hc n ltac:(apply in_seq; lia)). by rewrite take_app_le in Hc by lia.
  - cbn [forallb Nat.add] in Hl. rewrite andb_true_r, take_app_le, firstn_all in Hl by lia. by apply bool_decide_eq_true in Hl.
  - by inversion He.
Qed.

Lemma events_reachable : reachable (run Pod_start events).
Proof.
  apply reach_events; [constructor| |vm_compute; reflexivity].
  repeat constructor; vm_compute; congruence.
Qed.

Lemma events_calm : calm (run Pod_start events).
Proof. apply (bool_decide_unpack _). vm_compute. exact I. Qed.

Lemma reserved_is_outstanding_witness :
  exists c, b_heap (p_budgets (run Pod_start events)) !! 1%positive = Some c /\
    c_reserved c = outstanding 1 (p_reservations (run Pod_start events)) /\ c_reserved c = 400.
Proof.
  destruct (b_heap (p_budgets (run Pod_start events)) !! 1%positive) as [c|] eqn:Hc; [|vm_compute in Hc; discriminate].
  exists c. split; [reflexivity|]. split; [exact (reserved_is_outstanding _ _ _ events_reachable Hc)|].
  vm_compute in Hc. injection Hc as <-. reflexivity.
Defined.

(** 1000 less 200 spent less 400 open leaves 400: an estimate of 401 does not fit. *)
Lemma check_verdict_exact_witness :
  (pod_check (run Pod_start events) policy "7" 401 now).1 = Exhausted 1652 400 401.
Proof.
  assert (H : ok_event (Check_ policy "7" 401 now)) by (vm_compute; repeat split; congruence).
  pose proof (proj1 (check_verdict_exact _ policy "7" 401 now events_reachable events_calm H)) as E.
  transitivity (Exhausted (Z.max 1 ((saturating_sub window_end now + 999999) / 1000000)) 400 401); [|vm_compute; reflexivity].
  rewrite E. vm_compute. reflexivity.
Defined.

(** 200 are reported, 150 are spent before the answer and forgotten. *)
Lemma sync_loses_meanwhile_spend_witness :
  exists c', b_heap (p_budgets (step (run (step before_sync Ship) (settles [(1%nat, tokens 150)]))
                                     (Answered 200 window_end now))) !! 1%positive = Some c' /\
    200 + c_unsynced_spent c' = 200 + 150 - 150.
Proof.
  destruct (b_heap (p_budgets before_sync) !! 1%positive) as [c|] eqn:Hc; [|vm_compute in Hc; discriminate].
  destruct (sync_loses_meanwhile_spend before_sync (Build_SyncAsk "llm/hourly" "7" 1) [] c [(1%nat, tokens 150)] 200 now)
    as (_ & c' & Hc' & E).
  - vm_compute; reflexivity.
  - vm_compute; reflexivity.
  - exact Hc.
  - vm_compute in Hc. injection Hc as <-. vm_compute; congruence.
  - repeat constructor; vm_compute; congruence.
  - vm_compute; reflexivity.
  - vm_compute in Hc. injection Hc as <-. exists c'. split; [exact Hc'|exact E].
Defined.

(** A [max_tokens] of [2^64 - 1000] is admitted and leaves 1400 of 1000. *)
Lemma huge_estimate_enlarges_budget_witness :
  exists c', b_heap (p_budgets (pod_check (run Pod_start events) policy "7" (2 ^ 64 - 1000) now).2)
               !! (counter (p_budgets (run Pod_start events)) policy "7").1 = Some c' /\
    Counter_remaining c' = 1400.
Proof.
  assert (Hl : 0 <= bp_limit policy <= CEILING) by (split; vm_compute; congruence).
  assert (He : 2 ^ 63 < 2 ^ 64 - 1000 < 2 ^ 64) by (split; reflexivity).
  set (c := subject_counter (p_budgets (run Pod_start events)) policy "7").
  assert (Hs : c_synced c = true) by (vm_compute; reflexivity).
  assert (Hw : window_ended c now = false) by (vm_compute; reflexivity).
  assert (Hp : left_over c = 400) by (vm_compute; reflexivity).
  pose proof (huge_estimate_enlarges_budget (run Pod_start events) policy "7" (2 ^ 64 - 1000) now
                events_reachable events_calm Hl He) as H.
  cbv zeta in H. fold c in H. rewrite Hp in H.
  destruct (H Hs Hw eq_refl eq_refl) as (_ & c' & Hc' & E).
  exists c'. split; [exact Hc'|exact E].
Defined.

End Sample.
