(* ===== verification/Proto.v ===== *)
(** * The configuration message

    The messages of [proto/portus/v1/config.proto] as the controller sends
    them and the data plane reads them: one record per message, a [repeated]
    field as a list, an [optional] message as an option, a [map] as a [gmap],
    unsigned integers as [Z]. *)
From S2P Require Import Prelude.

Record PathRule := {
  pl_path : string;
  pl_match_type : string;
}.

Record TimeoutConfig := {
  tc_connect_timeout_ms : Z;
  tc_read_timeout_ms : Z;
  tc_write_timeout_ms : Z;
}.

Record UpstreamTlsConfig := {
  ut_enabled : bool;
  ut_verify_cert : bool;
  ut_sni : string;
}.

Record HeaderMutation := {
  hmu_add : gmap string string;
  hmu_remove : list string;
  hmu_set : gmap string string;
}.

Record RateLimitConfig := {
  rlc_requests_per_second : Z;
  rlc_per_client : bool;
}.

Record CircuitBreakerProto := {
  cbp_failure_threshold : Z;
  cbp_success_threshold : Z;
  cbp_timeout_secs : Z;
}.

Record GrpcRouteMatch := {
  grp_service : string;
  grp_method : string;
  grp_match_type : string;
}.

Record HeaderMatch := {
  hmp_name : string;
  hmp_value : string;
  hmp_match_type : string;
}.

Record QueryParamMatch := {
  qmp_name : string;
  qmp_value : string;
  qmp_match_type : string;
}.

Record RedirectFilter := {
  rdf_scheme : string;
  rdf_hostname : string;
  rdf_port : Z;
  rdf_path : string;
  rdf_path_type : string;
  rdf_status_code : Z;
}.

Record URLRewriteFilter := {
  uf_hostname : string;
  uf_path : string;
  uf_path_type : string;
}.

Record MirrorBackend := {
  mb_service_name : string;
  mb_port : Z;
  mb_percent : Z;
}.

Record WeightedBackend := {
  wbp_service_name : string;
  wbp_port : Z;
  wbp_weight : Z;
  wbp_request_headers : option HeaderMutation;
}.

Record JwtClaimHeader := {
  jch_claim : string;
  jch_header : string;
}.

Record JwtProvider := {
  jpv_issuer : string;
  jpv_audiences : list string;
  jpv_claim_to_headers : list JwtClaimHeader;
}.

(** [AuthConfig.auth_type] *)
Inductive AuthType :=
| AuthBasic (credentials : gmap string string) (realm : string)
| AuthApiKey (valid_keys : list string) (header_name : string)
| AuthJwt (providers : list JwtProvider).

Record ExtAuthConfig := {
  eac_service_name : string;
  eac_service_namespace : string;
  eac_port : Z;
  eac_path : string;
  eac_timeout_ms : Z;
  eac_fail_open : bool;
  eac_request_headers : list string;
  eac_response_headers : list string;
}.

Record CORSProto := {
  cp_allow_origins : list string;
  cp_allow_methods : list string;
  cp_allow_headers : list string;
  cp_expose_headers : list string;
  cp_allow_credentials : bool;
  cp_max_age : Z;
}.

Record IPAllowlistConfig := {
  ial_allow_cidrs : list string;
  ial_deny_cidrs : list string;
  ial_trusted_proxy_cidrs : list string;
}.

Record AiOnBehalfOf := {
  aob_header : string;
  aob_trusted_keys : list string;
}.

Record AiJwt := {
  aj_issuer : string;
  aj_audience : string;
  aj_tenant_claim : string;
  aj_tools_claim : string;
  aj_scopes : string;
  aj_tools_by_group : list (string * list string);
  aj_groups_claim : string;
}.

Record AiBudget := {
  ab_policy : string;
  ab_limit : Z;
  ab_window : string;
  ab_per : string;
  ab_unit : string;
  ab_fail_open : bool;
  ab_fallback_model : string;
  ab_overflow_limit : Z;
}.

Record RouteConfig := {
  rc_host : string;
  rc_paths : list PathRule;
  rc_service_name : string;
  rc_port : Z;
  rc_timeouts : option TimeoutConfig;
  rc_max_retries : Z;
  rc_upstream_tls : option UpstreamTlsConfig;
  rc_protocol : string;
  rc_request_headers : option HeaderMutation;
  rc_response_headers : option HeaderMutation;
  rc_rate_limit : option RateLimitConfig;
  rc_circuit_breaker : option CircuitBreakerProto;
  rc_max_connections : option Z;
  rc_header_matches : list HeaderMatch;
  rc_method_match : string;
  rc_query_param_matches : list QueryParamMatch;
  rc_redirect : option RedirectFilter;
  rc_url_rewrite : option URLRewriteFilter;
  rc_grpc_match : option GrpcRouteMatch;
  rc_listener_name : string;
  rc_mirror_backend : option MirrorBackend;
  rc_weighted_backends : list WeightedBackend;
  rc_request_timeout_ms : Z;
  rc_backend_request_timeout_ms : Z;
  rc_auth : option (option AuthType);
  rc_cors : option CORSProto;
  rc_mirror_backends : list MirrorBackend;
  rc_listener_port : Z;
  rc_ip_allowlist : option IPAllowlistConfig;
  rc_max_request_body_bytes : Z;
  rc_retry_on : list string;
  rc_retry_codes : list Z;
  rc_ai_dialect : string;
  rc_ai_provider : string;
  rc_ai_key_required : bool;
  rc_ai_budget : option AiBudget;
  rc_ai_session_affinity : bool;
  rc_ai_jwt : option AiJwt;
  rc_ai_on_behalf_of : option AiOnBehalfOf;
  rc_ai_federation : string;
  rc_ext_auth : option ExtAuthConfig;
  rc_listener_hostname : string;
  rc_gateway_namespace : string;
  rc_gateway_name : string;
}.

Record HealthCheckConfig := {
  hcc_path : string;
  hcc_interval_secs : Z;
  hcc_timeout_secs : Z;
  hcc_healthy_threshold : Z;
  hcc_unhealthy_threshold : Z;
}.

Record BackendTlsConfig := {
  btc_ca_cert_pem : string;
  btc_hostname : string;
  btc_subject_alt_names : list (string * string);
}.

Record BackendEndpoint := {
  be_address : string;
  be_port : Z;
}.

Record BackendGroup := {
  bg_service_name : string;
  bg_port : Z;
  bg_endpoints : list BackendEndpoint;
  bg_health_check : option HealthCheckConfig;
  bg_backend_tls : option BackendTlsConfig;
}.

Record TlsCertRef := {
  tcr_cert_pem : string;
  tcr_key_pem : string;
}.

Record ClientValidation := {
  cv_ca_cert_pems : list string;
  cv_mode : string;
}.

Record Listener := {
  ls_name : string;
  ls_port : Z;
  ls_protocol : string;
  ls_hostname : string;
  ls_tls_cert_ref : option TlsCertRef;
  ls_gateway_namespace : string;
  ls_gateway_name : string;
  ls_client_validation : option ClientValidation;
}.

Record GatewayBackendTls := {
  gbt_gateway_namespace : string;
  gbt_gateway_name : string;
  gbt_cert_pem : string;
  gbt_key_pem : string;
}.

Record TlsPassthroughRoute := {
  tpr_sni_hostnames : list string;
  tpr_backend_service : string;
  tpr_backend_port : Z;
  tpr_listener_name : string;
  tpr_listener_hostname : string;
  tpr_tls_mode : string;
  tpr_cert_pem : string;
  tpr_key_pem : string;
  tpr_listener_port : Z;
  tpr_gateway_namespace : string;
  tpr_gateway_name : string;
}.

Record L4ProxyRoute := {
  lpr_backend_service : string;
  lpr_backend_port : Z;
  lpr_listener_name : string;
  lpr_listener_port : Z;
  lpr_backends : list WeightedBackend;
  lpr_gateway_namespace : string;
  lpr_gateway_name : string;
}.

Record McpMember := {
  mm_name : string;
  mm_service_name : string;
  mm_port : Z;
  mm_tls : bool;
  mm_sni : string;
  mm_host : string;
  mm_headers : gmap string string;
  mm_path : string;
}.

Record McpFederation := {
  mf_name : string;
  mf_members : list McpMember;
}.

Record IssuerKeys := {
  ik_issuer : string;
  ik_jwks_json : string;
}.

Record CompiledConfig := {
  cc_schema_version : string;
  cc_version : Z;
  cc_fingerprint : Z;
  cc_routes : list RouteConfig;
  cc_backends : list BackendGroup;
  cc_listeners : list Listener;
  cc_tls_passthrough_routes : list TlsPassthroughRoute;
  cc_tcp_proxy_routes : list L4ProxyRoute;
  cc_udp_proxy_routes : list L4ProxyRoute;
  cc_tls_passthrough_listener_hostnames : list string;
  cc_gateway_backend_tls : list GatewayBackendTls;
  cc_mcp_federations : list McpFederation;
  cc_issuer_keys : list IssuerKeys;
}.
