(* ===== verification/ConfigRoutes.v ===== *)
(** * From route messages to the routing table

    The first part of [portus-dataplane-core/src/config_receiver.rs]: the
    conversion of a [RouteConfig] into the [PathRoute]s the router matches,
    the order of the rules of a host, and the buckets of the listeners.  New
    rate limiters and JWT verifiers are allocated in the planner's store; the
    state of those a route had before is kept. *)
From S2P Require Import Prelude Text Net Types RateLimiter Router Auth Keys Pool Http Plan Budget Proto.

(** ** Third-party parsers *)

(** [RegexBuilder::build] with the 64 KiB size limit, [HeaderName::from_bytes]
    (which returns the name in lower case), [Method::from_bytes], and the
    parser of [ipnet::IpNet]. *)
Class ConfigCrates := {
  regex_builds : string -> bool;
  header_name_from_bytes : string -> option string;
  method_from_bytes : string -> option string;
  ipnet_parse : string -> option IpNet;
}.

(** ** Allocation *)

(** Building a snapshot allocates the objects requests will share. *)
Definition Alloc (A : Type) : Type := store -> A * store.

Definition aret {A} (a : A) : Alloc A := fun s => (a, s).
Definition abind {A B} (m : Alloc A) (f : A -> Alloc B) : Alloc B := fun s => let '(a, s) := m s in f a s.

Notation "'let!' x ':=' c 'in' k" := (abind c (fun x => k))
  (at level 10, x pattern, c at level 100, k at level 200) : rust_scope.

Fixpoint amap {A B} (f : A -> Alloc B) (l : list A) : Alloc (list B) :=
  match l with
  | [] => aret []
  | x :: l => let! y := f x in let! ys := amap f l in aret (y :: ys)
  end.

Definition amap_option {A B} (f : A -> Alloc B) (o : option A) : Alloc (option B) :=
  match o with None => aret None | Some a => let! b := f a in aret (Some b) end.

Definition new_bucket (rps now : Z) : Alloc positive := fun s =>
  let r := fresh (dom (st_buckets s)) in
  (r, set_buckets s (<[r := {| tb_epoch := now; tb_word := AtomicTokenBucket_new rps |}]> (st_buckets s))).

Definition new_per_ip (rps now : Z) : Alloc positive := fun s =>
  let r := fresh (dom (st_per_ip s)) in
  (r, set_per_ip s (<[r := {| po_epoch := now; po_limiter := PerIpRateLimiter_new rps |}]> (st_per_ip s))).

Definition new_jwt (providers : list Provider) : Alloc positive := fun s =>
  let r := fresh (dom (st_jwt s)) in (r, set_jwt s (<[r := JwtAuth_new providers]> (st_jwt s))).

(** ** Conversion helpers *)

Definition non_empty (s : string) : option string := if is_empty s then None else Some s.

Definition from_millis (ms : Z) : Z := ms * 1000000.
Definition timeout_ms (ms : Z) : option Z := if ms >? 0 then Some (from_millis ms) else None.

(** [u16::try_from] *)
Definition try_u16 (x : Z) : option Z := if x <? 2 ^ 16 then Some x else None.

(** [Dialect::parse] *)
Definition Dialect_parse (kind : string) : option Dialect :=
  if decide (kind = "anthropic") then Some Anthropic
  else if decide (kind = "openai") then Some OpenAi
  else if decide (kind = "openai-compatible") then Some OpenAi
  else if decide (kind = "mcp") then Some Mcp
  else None.

(** [parse_protocol] *)
Definition parse_protocol (s : string) : BackendProtocol :=
  if decide (s ∈ ["GRPC"; "grpc"]) then Grpc
  else if decide (s ∈ ["H2C"; "h2c"]) then H2c
  else if decide (s ∈ ["WS"; "ws"]) then WebSocket
  else Types.Http.

(** [budget_policy_from_proto] *)
Definition budget_policy_from_proto (b : AiBudget) : option BudgetPolicy :=
  match Unit_parse (ab_unit b), Window_parse (ab_window b), Scope_parse (ab_per b) with
  | Some unit, Some window, Some per =>
      Some {| bp_id := ab_policy b; bp_limit := ab_limit b; bp_route_limit := ab_limit b; bp_unit := unit;
              bp_window := window; bp_per := per; bp_fail_open := ab_fail_open b;
              bp_fallback :=
                if bool_decide (unit = UnitTokens) && negb (is_empty (ab_fallback_model b)) && (ab_overflow_limit b >? 0)
                then Some {| fb_model := ab_fallback_model b; fb_overflow_limit := ab_overflow_limit b |}
                else None |}
  | _, _, _ => None
  end.

Definition ON_BEHALF_OF_HEADER : string := "x-portus-on-behalf-of".
Definition MAX_API_KEY_LEN : nat := 256%nat.

Section Build.
Context `{HttpCrate} `{ConfigCrates}.

(** [parse_match_type] *)
Definition parse_match_type (match_type path : string) : option PathMatchType :=
  if decide (match_type = "Exact") then Some PathExact
  else if decide (match_type = "RegularExpression")
  then if regex_builds path then Some (PathRegularExpression path) else None
  else Some PathPrefix.

(** The pairs of a header map that are a valid name and value. *)
Definition valid_headers (m : gmap string string) : header_list :=
  omap (fun '(n, v) =>
    match header_name_from_bytes n with
    | Some name => if value_from_str_ok v then Some (name, v) else None
    | None => None
    end) (map_to_list m).

(** [parse_header_mutations_from_proto] *)
Definition parse_header_mutations (mutation : option HeaderMutation) : header_list * header_list * list string :=
  match mutation with
  | None => ([], [], [])
  | Some m => (valid_headers (hmu_add m), valid_headers (hmu_set m), omap header_name_from_bytes (hmu_remove m))
  end.

Definition build_header_matches (hms : list HeaderMatch) : list HeaderMatchEntry :=
  omap (fun hm =>
    match header_name_from_bytes (hmp_name hm) with
    | None => None
    | Some name =>
        Some {| hm_name := name; hm_value := hmp_value hm;
                hm_match_type :=
                  if decide (hmp_match_type hm = "RegularExpression")
                  then if regex_builds (hmp_value hm) then HeaderRegularExpression (hmp_value hm) else HeaderExact
                  else HeaderExact |}
    end) hms.

Definition build_method_match (m : string) : option string :=
  if is_empty m then None else method_from_bytes m.

Definition build_query_matches (qms : list QueryParamMatch) : list QueryParamMatchEntry :=
  omap (fun qm =>
    let entry mt := {| qm_name := qmp_name qm; qm_value := qmp_value qm; qm_match_type := mt |} in
    if decide (qmp_match_type qm = "RegularExpression")
    then if regex_builds (qmp_value qm) then Some (entry (QueryRegularExpression (qmp_value qm))) else None
    else Some (entry QueryExact)) qms.

Definition build_redirect (r : RedirectFilter) : RedirectConfig :=
  {| rd_scheme := non_empty (rdf_scheme r); rd_hostname := non_empty (rdf_hostname r);
     rd_port := if rdf_port r =? 0 then None else Some (as_u 16 (rdf_port r));
     rd_path := non_empty (rdf_path r); rd_path_type := rdf_path_type r;
     rd_status_code := if rdf_status_code r =? 0 then 302 else as_u 16 (rdf_status_code r) |}.

Definition build_url_rewrite (w : URLRewriteFilter) : UrlRewriteConfig :=
  {| rw_hostname := non_empty (uf_hostname w); rw_path := non_empty (uf_path w); rw_path_type := uf_path_type w |}.

(** [jwt_auth_from_proto] *)
Definition jwt_provider_from_proto (p : JwtProvider) : Provider :=
  {| pv_issuer := jpv_issuer p; pv_audiences := jpv_audiences p;
     pv_claim_headers := omap (fun c =>
       match header_name_from_bytes (to_ascii_lowercase (jch_header c)) with
       | Some h => Some (jch_claim c, h)
       | None => None
       end) (jpv_claim_to_headers p) |}.

Definition jwt_auth_from_proto (providers : list JwtProvider) : Alloc positive :=
  new_jwt (map jwt_provider_from_proto providers).

Definition build_auth (auth : AuthType) : Alloc AuthConfig :=
  match auth with
  | AuthBasic credentials realm => aret (BasicAuth credentials (if is_empty realm then "Restricted" else realm))
  | AuthApiKey valid_keys header_name =>
      aret (ApiKey (list_to_set (List.filter (fun k => (String.length k <=? MAX_API_KEY_LEN)%nat) valid_keys))
                   (if is_empty header_name then "X-API-Key" else header_name))
  | AuthJwt providers => let! r := jwt_auth_from_proto providers in aret (Jwt r)
  end.

(** [ext_auth_from_proto] *)
Definition ext_auth_from_proto (e : ExtAuthConfig) : ExtAuth :=
  let names := omap (fun h => header_name_from_bytes (to_ascii_lowercase h)) in
  {| ea_service_name := eac_service_name e; ea_port := as_u 16 (eac_port e);
     ea_path := if is_empty (eac_path e) then "/" else eac_path e;
     ea_timeout := from_millis (if eac_timeout_ms e =? 0 then 1000 else eac_timeout_ms e);
     ea_fail_open := eac_fail_open e;
     ea_request_headers := match eac_request_headers e with [] => None | hs => Some (names hs) end;
     ea_response_headers := names (eac_response_headers e) |}.

Definition build_cors (c : CORSProto) : CorsConfig :=
  {| cors_allow_origins := cp_allow_origins c; cors_allow_methods := cp_allow_methods c;
     cors_allow_headers := cp_allow_headers c; cors_expose_headers := cp_expose_headers c;
     cors_allow_credentials := cp_allow_credentials c; cors_max_age := cp_max_age c;
     cors_max_age_str := show_u (cp_max_age c);
     cors_allow_methods_joined := join ", " (cp_allow_methods c);
     cors_allow_headers_joined := join ", " (cp_allow_headers c);
     cors_expose_headers_joined := join ", " (cp_expose_headers c) |}.

Definition build_mirrors (spec : RouteConfig) : list (string * Z * Z) :=
  let entry mb := (mb_service_name mb, as_u 16 (mb_port mb), mb_percent mb) in
  match rc_mirror_backends spec with
  | [] => match rc_mirror_backend spec with Some mb => [entry mb] | None => [] end
  | mbs => map entry mbs
  end.

Definition build_weighted (wb : WeightedBackend) : WeightedBackendEntry :=
  let '(add, set, remove) := parse_header_mutations (wbp_request_headers wb) in
  {| wb_service_name := wbp_service_name wb; wb_port := as_u 16 (wbp_port wb); wb_weight := wbp_weight wb;
     wb_request_headers_add := add; wb_request_headers_set := set; wb_request_headers_remove := remove |}.

Definition build_cidrs (field : IPAllowlistConfig -> list string) (spec : RouteConfig) : list IpNet :=
  match rc_ip_allowlist spec with Some ip => omap ipnet_parse (field ip) | None => [] end.

Definition build_ai_jwt (j : AiJwt) : JwtPolicy :=
  {| jp_issuer := aj_issuer j; jp_audience := non_empty (aj_audience j); jp_tenant_claim := aj_tenant_claim j;
     jp_tools_claim := aj_tools_claim j; jp_scopes := aj_scopes j;
     jp_groups_claim := if is_empty (aj_groups_claim j) then "groups" else aj_groups_claim j;
     jp_tools_by_group := aj_tools_by_group j |}.

Definition build_ai (spec : RouteConfig) : option AiBackend :=
  match Dialect_parse (rc_ai_dialect spec) with
  | None => None
  | Some dialect =>
      Some {| ai_dialect := dialect; ai_provider := rc_ai_provider spec; ai_key_required := rc_ai_key_required spec;
              ai_budget := match rc_ai_budget spec with Some b => budget_policy_from_proto b | None => None end;
              ai_session_affinity := rc_ai_session_affinity spec;
              ai_jwt := build_ai_jwt <$> rc_ai_jwt spec;
              ai_on_behalf_of :=
                (fun o => {| obo_header := to_ascii_lowercase (if is_empty (aob_header o) then ON_BEHALF_OF_HEADER else aob_header o);
                             obo_trusted_keys := aob_trusted_keys o |}) <$> rc_ai_on_behalf_of spec;
              ai_federation := non_empty (rc_ai_federation spec) |}
  end.

(** The rate limiter of a rule: the one the host had for the same path, type,
    rate and mode, else a new one. *)
Definition build_rate_limiter (old_host : option HostRoutes) (path : string) (mt : PathMatchType) (now : Z)
  (rl : RateLimitConfig) : Alloc RateLimiterMode :=
  let rps := rlc_requests_per_second rl in
  match old_host ≫= fun hr => find_rate_limiter hr path mt rps (rlc_per_client rl) with
  | Some existing => aret existing
  | None =>
      if rlc_per_client rl
      then let! r := new_per_ip rps now in aret (PerIp rps r)
      else let! r := new_bucket rps now in aret (Shared rps r)
  end.

(** The maps of breakers and limiters that routes embed. *)
Context (cb_map cl_map : gmap (string * Z) positive).

(** The closure [make_route] of [build_listener_buckets_from_proto], with the
    verifier of the spec already built. *)
Definition make_route (old_host : option HostRoutes) (now : Z) (spec : RouteConfig) (auth : option AuthConfig)
  (path : string) (mt : PathMatchType) : Alloc PathRoute :=
  let! rate_limiter := amap_option (build_rate_limiter old_host path mt now) (rc_rate_limit spec) in
  let '(req_add, req_set, req_remove) := parse_header_mutations (rc_request_headers spec) in
  let '(resp_add, resp_set, resp_remove) := parse_header_mutations (rc_response_headers spec) in
  let port := as_u 16 (rc_port spec) in
  let timeout field := match rc_timeouts spec with Some t => timeout_ms (field t) | None => None end in
  aret {| pr_path := path; pr_match_type := mt; pr_service_name := rc_service_name spec; pr_port := port;
     pr_connect_timeout := timeout tc_connect_timeout_ms; pr_read_timeout := timeout tc_read_timeout_ms;
     pr_write_timeout := timeout tc_write_timeout_ms;
     pr_rate_limiter := rate_limiter; pr_max_retries := rc_max_retries spec;
     pr_upstream_tls := match rc_upstream_tls spec with Some t => ut_enabled t | None => false end;
     pr_upstream_sni := match rc_upstream_tls spec ≫= fun t => non_empty (ut_sni t) with
                        | Some sni => sni | None => rc_service_name spec end;
     pr_upstream_verify := match rc_upstream_tls spec with Some t => ut_verify_cert t | None => true end;
     pr_protocol := parse_protocol (rc_protocol spec);
     pr_request_headers_add := req_add; pr_request_headers_set := req_set; pr_request_headers_remove := req_remove;
     pr_response_headers_add := resp_add; pr_response_headers_set := resp_set; pr_response_headers_remove := resp_remove;
     pr_header_matches := build_header_matches (rc_header_matches spec);
     pr_method_match := build_method_match (rc_method_match spec);
     pr_query_param_matches := build_query_matches (rc_query_param_matches spec);
     pr_redirect := build_redirect <$> rc_redirect spec; pr_url_rewrite := build_url_rewrite <$> rc_url_rewrite spec;
     pr_listener_name := rc_listener_name spec;
     pr_mirror_backends := build_mirrors spec; pr_weighted_backends := map build_weighted (rc_weighted_backends spec);
     pr_request_timeout := timeout_ms (rc_request_timeout_ms spec);
     pr_backend_request_timeout := timeout_ms (rc_backend_request_timeout_ms spec);
     pr_auth_config := auth; pr_ext_auth := ext_auth_from_proto <$> rc_ext_auth spec;
     pr_cors := build_cors <$> rc_cors spec;
     pr_ip_allow_cidrs := build_cidrs ial_allow_cidrs spec; pr_ip_deny_cidrs := build_cidrs ial_deny_cidrs spec;
     pr_ip_trusted_proxy_cidrs := build_cidrs ial_trusted_proxy_cidrs spec;
     pr_max_request_body_bytes := rc_max_request_body_bytes spec;
     pr_retry_on := rc_retry_on spec; pr_retry_codes := omap try_u16 (rc_retry_codes spec);
     pr_circuit_breaker := cb_map !! (rc_service_name spec, port);
     pr_connection_limiter := cl_map !! (rc_service_name spec, port);
     pr_total_weight := as_u 32 (foldr Z.add 0 (map wbp_weight (rc_weighted_backends spec)));
     pr_ai := build_ai spec |}.

(** The paths of a spec that are rules: a spec without paths is the prefix
    [/], a path whose regex does not compile is skipped. *)
Definition spec_paths (spec : RouteConfig) : list (string * PathMatchType) :=
  match rc_paths spec with
  | [] => [("/", PathPrefix)]
  | paths => omap (fun p => (fun mt => (pl_path p, mt)) <$> parse_match_type (pl_match_type p) (pl_path p)) paths
  end.

(** The rules of one spec, in the order of its paths. *)
Definition spec_routes (old_host : option HostRoutes) (now : Z) (spec : RouteConfig) : Alloc (list PathRoute) :=
  let! auth := amap_option build_auth (rc_auth spec ≫= id) in
  amap (fun '(path, mt) => make_route old_host now spec auth path mt) (spec_paths spec).

(** The rules of a host, in the order of its specs. *)
Definition group_routes (old_host : option HostRoutes) (now : Z) (specs : list RouteConfig) : Alloc (list PathRoute) :=
  let! routes := amap (spec_routes old_host now) specs in aret (concat routes).
End Build.

(** ** The order of rules *)

Definition is_exact (r : PathRoute) : bool := match pr_match_type r with PathExact => true | _ => false end.

Definition has_method (r : PathRoute) : nat := match pr_method_match r with Some _ => 1 | None => 0 end.

(** [specificity_cmp]: a method first, then more headers, then more query
    parameters. *)
Definition specificity_cmp (a b : PathRoute) : comparison :=
  then_with (Nat.compare (has_method b) (has_method a))
    (then_with (Nat.compare (length (pr_header_matches b)) (length (pr_header_matches a)))
       (Nat.compare (length (pr_query_param_matches b)) (length (pr_query_param_matches a)))).

(** Prefix and regex rules: longer paths first. *)
Definition prefix_cmp (a b : PathRoute) : comparison :=
  then_with (Nat.compare (String.length (pr_path b)) (String.length (pr_path a))) (specificity_cmp a b).

(** The exact rules under their paths, in the order given. *)
Definition exact_map_of (rules : list PathRoute) : gmap string (list PathRoute) :=
  group_by pr_path rules.

(** The rules of a host sorted into its [HostRoutes]. *)
Definition host_routes (routes : list PathRoute) : HostRoutes :=
  let rules := sort_by prefix_cmp (List.filter (fun r => negb (is_exact r)) routes) in
  let exact_map := exact_map_of (sort_by specificity_cmp (List.filter is_exact routes)) in
  let all := concat (map snd (map_to_list exact_map)) ++ rules in
  {| hr_exact_map := exact_map; hr_rules := rules; hr_catch_all := None;
     hr_needs_body := existsb route_needs_body all; hr_oauth := oauth_of all |}.

(** ** Precedence *)

(** What a rule is ranked by: exact before all others, then the length of the
    path, then the specificity of its other dimensions. *)
Definition rank (r : PathRoute) : list nat :=
  (if is_exact r then [1; 0] else [0; String.length (pr_path r)])%nat
    ++ [has_method r; length (pr_header_matches r); length (pr_query_param_matches r)].

Fixpoint lex_gt (a b : list nat) : bool :=
  match a, b with
  | x :: a, y :: b => match Nat.compare x y with Gt => true | Lt => false | Eq => lex_gt a b end
  | _, _ => false
  end.

Definition outranks (a b : PathRoute) : bool := lex_gt (rank a) (rank b).

Ltac compare_cases :=
  repeat match goal with
  | |- context [Nat.compare ?x ?y] => destruct (Nat.compare_spec x y)
  | H : context [Nat.compare ?x ?y] |- _ => destruct (Nat.compare_spec x y)
  end; subst; simpl in *; try done; try lia.

Definition specificity_keys (r : PathRoute) : list nat :=
  [has_method r; length (pr_header_matches r); length (pr_query_param_matches r)].
Definition prefix_keys (r : PathRoute) : list nat := String.length (pr_path r) :: specificity_keys r.

Lemma specificity_lex a b : not_after specificity_cmp a b = negb (lex_gt (specificity_keys b) (specificity_keys a)).
Proof. unfold not_after, specificity_cmp, then_with. simpl. by repeat case_match. Qed.

Lemma prefix_lex a b : not_after prefix_cmp a b = negb (lex_gt (prefix_keys b) (prefix_keys a)).
Proof. unfold not_after, prefix_cmp, specificity_cmp, then_with. simpl. by repeat case_match. Qed.

(** Comparing tuples of numbers is a total preorder. *)
Section Lex.
Context {A : Type} (keys : A -> list nat) (cmp : A -> A -> comparison).
Hypothesis cmp_lex : forall x y, not_after cmp x y = negb (lex_gt (keys y) (keys x)).
Hypothesis keys_length : forall x y, length (keys x) = length (keys y).

Lemma lex_gt_asym a b : length a = length b -> lex_gt a b = true -> lex_gt b a = false.
Proof.
  revert b. induction a as [|x a IH]; intros [|y b]; simpl; try done. intros [= Hab]. compare_cases. auto.
Qed.

Lemma lex_gt_trans a b c :
  length a = length b -> length b = length c -> lex_gt b a = false -> lex_gt c b = false -> lex_gt c a = false.
Proof.
  revert b c. induction a as [|x a IH]; intros [|y b] [|z c]; simpl; try done. intros [= Hab] [= Hbc].
  compare_cases. eauto.
Qed.

Lemma lex_total x y : not_after cmp x y = false -> not_after cmp y x = true.
Proof. rewrite !cmp_lex, negb_false_iff, negb_true_iff. by apply lex_gt_asym. Qed.

Lemma lex_trans x y z : not_after cmp x y = true -> not_after cmp y z = true -> not_after cmp x z = true.
Proof. rewrite !cmp_lex, !negb_true_iff. by apply lex_gt_trans. Qed.
End Lex.

Lemma outranks_exact a b :
  is_exact a = true -> is_exact b = true -> outranks a b = lex_gt (specificity_keys a) (specificity_keys b).
Proof. intros Ha Hb. unfold outranks, rank. by rewrite Ha, Hb. Qed.

Lemma outranks_other a b :
  is_exact a = false -> is_exact b = false -> outranks a b = lex_gt (prefix_keys a) (prefix_keys b).
Proof. intros Ha Hb. unfold outranks, rank. by rewrite Ha, Hb. Qed.

Lemma outranks_mixed a b : is_exact a = true -> is_exact b = false -> outranks a b = true /\ outranks b a = false.
Proof. intros Ha Hb. unfold outranks, rank. by rewrite Ha, Hb. Qed.

(** A split of a filtered list comes from a split of the list. *)
Lemma filter_split {A} (f : A -> bool) l l1 x l2 :
  List.filter f l = l1 ++ x :: l2 ->
  exists k1 k2, l = k1 ++ x :: k2 /\ List.filter f k1 = l1 /\ List.filter f k2 = l2.
Proof.
  revert l1. induction l as [|y l IH]; intros l1; simpl; [by destruct l1|]. destruct (f y) eqn:Hy.
  - destruct l1 as [|z l1]; intros [= -> Hl].
    + by exists [], l.
    + destruct (IH _ Hl) as (k1 & k2 & -> & <- & <-). exists (z :: k1), k2. split_and!; [done| |done]. simpl. by rewrite Hy.
  - intros (k1 & k2 & -> & H1 & H2)%IH. exists (y :: k1), k2. split_and!; [done| |done]. simpl. by rewrite Hy.
Qed.

Lemma find_filter {A} (f g : A -> bool) l : List.find g (List.filter f l) = List.find (fun x => f x && g x) l.
Proof. induction l as [|x l IH]; simpl; [done|]. destruct (f x); simpl; [|done]. by rewrite IH. Qed.

Section Precedence.
Context `{RequestHeaders H} (regex_is_match : Regex -> string -> bool).
Context (path method : string) (headers : H) (query : option string) (body : option BodyFields).

Definition rule_matches (r : PathRoute) : bool :=
  path_matches regex_is_match r path && extra_dimensions_match regex_is_match r method headers query body.

(** The rule the precedence rules choose: it matches, no matching rule
    outranks it, and it outranks every matching rule listed before it. *)
Definition chosen_rule (routes : list PathRoute) (r : PathRoute) : Prop :=
  rule_matches r = true /\
  (forall r', r' ∈ routes -> rule_matches r' = true -> outranks r' r = false) /\
  exists before after, routes = before ++ r :: after /\
    forall r', r' ∈ before -> rule_matches r' = true -> outranks r r' = true.

(** From the best rule of one class to the best of all. *)
Lemma best_of_class (f : PathRoute -> bool) (cmp : PathRoute -> PathRoute -> comparison) routes r :
  (forall a b, f a = true -> f b = true -> not_after cmp a b = negb (outranks b a)) ->
  (forall r', r' ∈ routes -> f r' = false -> rule_matches r' = true -> outranks r r' = true /\ outranks r' r = false) ->
  (forall a b, f a = true -> f b = true -> outranks a b = true -> outranks b a = false) ->
  f r = true ->
  first_best cmp rule_matches (List.filter f routes) r -> chosen_rule routes r.
Proof.
  intros Hcmp Hother Hasym Hfr (HP & l1 & l2 & (k1 & k2 & Hk & <- & <-)%filter_split & H1 & H2).
  assert (Hbefore : forall r', r' ∈ k1 -> rule_matches r' = true -> outranks r r' = true).
  { intros r' Hr' HP'. destruct (f r') eqn:Hf.
    - assert (Hin : r' ∈ List.filter f k1) by (apply list_elem_of_In, filter_In; by rewrite <- list_elem_of_In).
      specialize (H1 r' Hin HP'). rewrite Hcmp in H1 by done. by apply negb_false_iff in H1.
    - apply Hother; [|done..]. rewrite Hk. apply elem_of_app. by left. }
  split; [done|]. split; [|by exists k1, k2].
  intros r' Hr' HP'. destruct (f r') eqn:Hf; [|by apply Hother].
  rewrite Hk in Hr'. apply elem_of_app in Hr' as [Hr'|[->|Hr']%elem_of_cons].
  - apply Hasym; auto.
  - assert (not_after cmp r r = true) as Hrr; [|rewrite Hcmp in Hrr by done; by apply negb_true_iff in Hrr].
    destruct (not_after cmp r r) eqn:Hx; [done|]. rewrite Hcmp in Hx by done. apply negb_false_iff in Hx.
    pose proof (Hasym r r Hfr Hfr Hx). congruence.
  - assert (Hin : r' ∈ List.filter f k2) by (apply list_elem_of_In, filter_In; by rewrite <- list_elem_of_In).
    specialize (H2 r' Hin HP'). rewrite Hcmp in H2 by done. by apply negb_true_iff in H2.
Qed.

Lemma specificity_sort_laws :
  (forall x y, not_after specificity_cmp x y = false -> not_after specificity_cmp y x = true) /\
  (forall x y z, not_after specificity_cmp x y = true -> not_after specificity_cmp y z = true -> not_after specificity_cmp x z = true).
Proof. split; [eapply lex_total|eapply lex_trans]; (exact specificity_lex || done). Qed.

Lemma prefix_sort_laws :
  (forall x y, not_after prefix_cmp x y = false -> not_after prefix_cmp y x = true) /\
  (forall x y z, not_after prefix_cmp x y = true -> not_after prefix_cmp y z = true -> not_after prefix_cmp x z = true).
Proof. split; [eapply lex_total|eapply lex_trans]; (exact prefix_lex || done). Qed.

(** The exact rules of a host that match, found through the map. *)
Lemma exact_lookup routes :
  match hr_exact_map (host_routes routes) !! path with
  | Some rs => List.find (fun r => extra_dimensions_match regex_is_match r method headers query body) rs
  | None => None
  end = List.find rule_matches (sort_by specificity_cmp (List.filter is_exact routes)).
Proof.
  simpl. set (l := sort_by specificity_cmp _).
  assert (Hex : forall r, r ∈ l -> is_exact r = true).
  { intros r. unfold l. rewrite sort_by_perm. rewrite list_elem_of_In, filter_In. tauto. }
  pose proof (group_by_default pr_path l path) as Hlook. fold (exact_map_of l) in Hlook.
  transitivity (List.find (fun r => extra_dimensions_match regex_is_match r method headers query body)
                  (default [] (exact_map_of l !! path))); [by destruct (exact_map_of l !! path)|].
  rewrite Hlook, find_filter. clear Hlook. clearbody l. induction l as [|r l IH]; [done|]. simpl.
  assert (Hr : bool_decide (pr_path r = path) && extra_dimensions_match regex_is_match r method headers query body
               = rule_matches r).
  { unfold rule_matches, path_matches. specialize (Hex r ltac:(left)). unfold is_exact in Hex.
    destruct (pr_match_type r); try done. f_equal. by apply bool_decide_ext. }
  rewrite Hr. destruct (rule_matches r); [done|]. apply IH. intros r' Hr'. apply Hex. by right.
Qed.

(** C4: The rules built for a host are matched by precedence: an exact path before
    any other, else the longest path, then a required method, more header
    requirements, more query requirements, and the rule listed first; a
    request gets no rule only when none matches. *)
Theorem route_precedence (routes : list PathRoute) :
  match match_request_with_body regex_is_match (host_routes routes) path method headers query body with
  | Some r => chosen_rule routes r
  | None => forall r, r ∈ routes -> rule_matches r = false
  end.
Proof.
  unfold match_request_with_body. rewrite exact_lookup.
  destruct specificity_sort_laws as [Ht Htr]. pose proof (find_sort_by specificity_cmp Ht Htr rule_matches (List.filter is_exact routes)) as He.
  destruct (List.find rule_matches (sort_by specificity_cmp _)) as [r|] eqn:Hf.
  - assert (is_exact r = true).
    { apply find_some in Hf as [Hin _]. apply list_elem_of_In in Hin. rewrite sort_by_perm, list_elem_of_In, filter_In in Hin. tauto. }
    apply (best_of_class is_exact specificity_cmp); try done.
    + intros a b Ha Hb. rewrite outranks_exact by done. apply specificity_lex.
    + intros r' _ Hr' _. by apply outranks_mixed.
    + intros a b Ha Hb. rewrite !outranks_exact by done. by apply lex_gt_asym.
  - assert (Hnone : forall r, r ∈ routes -> is_exact r = true -> rule_matches r = false).
    { intros r Hr Hex. apply He. apply list_elem_of_In, filter_In. by rewrite <- list_elem_of_In. }
    destruct prefix_sort_laws as [Ht' Htr'].
    pose proof (find_sort_by prefix_cmp Ht' Htr' rule_matches (List.filter (fun r => negb (is_exact r)) routes)) as Hp.
    simpl. fold rule_matches. change (fun rule => path_matches regex_is_match rule path && _) with rule_matches.
    destruct (List.find rule_matches (sort_by prefix_cmp _)) as [r|] eqn:Hf'.
    + assert (is_exact r = false).
      { apply find_some in Hf' as [Hin _]. apply list_elem_of_In in Hin. rewrite sort_by_perm, list_elem_of_In, filter_In in Hin.
        destruct Hin as [_ Hn]. by apply negb_true_iff. }
      apply (best_of_class (fun r => negb (is_exact r)) prefix_cmp); [| | | |done].
      * intros a b ?%negb_true_iff ?%negb_true_iff. rewrite outranks_other by done. apply prefix_lex.
      * intros r' Hr' ?%negb_false_iff Hm. rewrite Hnone in Hm; done.
      * intros a b ?%negb_true_iff ?%negb_true_iff. rewrite !outranks_other by done. by apply lex_gt_asym.
      * by apply negb_true_iff.
    + intros r Hr. destruct (is_exact r) eqn:Hex; [by apply Hnone|]. apply Hp.
      apply list_elem_of_In, filter_In. rewrite <- list_elem_of_In. by rewrite Hex.
Qed.
End Precedence.

(** ** Listener buckets *)

Notation group_key := (Z * string * string)%type.

Definition route_key (r : RouteConfig) : group_key := (as_u 16 (rc_listener_port r), rc_listener_hostname r, rc_host r).

(** The routes of each (listener port, listener hostname, host), in order. *)
Definition by_group (routes : list RouteConfig) : gmap group_key (list RouteConfig) :=
  group_by route_key routes.

(** The slot of a bucket a host's routes are in. *)
Definition bucket_host (b : ListenerBucket) (host : string) : option HostRoutes :=
  if decide (host = "*") then lb_catch_all b
  else match strip_prefix "*." host with
       | Some suffix => lb_domain_wildcards b !! ("." +:+ suffix)
       | None => lb_exact b !! host
       end.

(** The closure [find_old_host] *)
Definition find_old_host (by_port : gmap Z (list ListenerBucket)) (any_port : list ListenerBucket)
  (port : Z) (lh host : string) : option HostRoutes :=
  let buckets := if port =? 0 then any_port else default [] (by_port !! port) in
  match List.find (fun b => bool_decide (lb_listener_hostname b = lh)) buckets with
  | None => None
  | Some b => bucket_host b host
  end.

Definition new_bucket_for (lh : string) : ListenerBucket :=
  {| lb_listener_hostname := lh; lb_exact := ∅; lb_domain_wildcards := ∅; lb_catch_all := None |}.

(** A host's routes go into the slot of its kind. *)
Definition place_host (b : ListenerBucket) (host : string) (hr : HostRoutes) : ListenerBucket :=
  if decide (host = "*")
  then {| lb_listener_hostname := lb_listener_hostname b; lb_exact := lb_exact b;
          lb_domain_wildcards := lb_domain_wildcards b; lb_catch_all := Some hr |}
  else match strip_prefix "*." host with
       | Some suffix =>
           {| lb_listener_hostname := lb_listener_hostname b; lb_exact := lb_exact b;
              lb_domain_wildcards := <["." +:+ suffix := hr]> (lb_domain_wildcards b); lb_catch_all := lb_catch_all b |}
       | None =>
           {| lb_listener_hostname := lb_listener_hostname b; lb_exact := <[host := hr]> (lb_exact b);
              lb_domain_wildcards := lb_domain_wildcards b; lb_catch_all := lb_catch_all b |}
       end.

Definition place_group (buckets : gmap (Z * string) ListenerBucket) (g : group_key * HostRoutes)
  : gmap (Z * string) ListenerBucket :=
  let '((port, lh, host), hr) := g in
  <[(port, lh) := place_host (default (new_bucket_for lh) (buckets !! (port, lh))) host hr]> buckets.

(** [sort_by_specificity] *)
Definition bucket_cmp (a b : ListenerBucket) : comparison :=
  Z.compare (listener_specificity (lb_listener_hostname b)) (listener_specificity (lb_listener_hostname a)).

(** The buckets of a port, most specific hostname first. *)
Definition port_buckets (buckets : gmap (Z * string) ListenerBucket) (port : Z) : list ListenerBucket :=
  sort_by bucket_cmp (map snd (List.filter (fun kb => kb.1.1 =? port) (map_to_list buckets))).

Definition ports_of (buckets : gmap (Z * string) ListenerBucket) : gset Z :=
  set_map fst (dom buckets) ∖ {[0]}.

Section Buckets.
Context `{HttpCrate} `{ConfigCrates}.
Context (cb_map cl_map : gmap (string * Z) positive).
Context (existing_by_port : gmap Z (list ListenerBucket)) (existing_any_port : list ListenerBucket).

(** The [HostRoutes] of one group. *)
Definition build_group (now : Z) (g : group_key * list RouteConfig) : Alloc (group_key * HostRoutes) :=
  let '((port, lh, host), specs) := g in
  let old_host := find_old_host existing_by_port existing_any_port port lh host in
  let! routes := group_routes cb_map cl_map old_host now specs in
  aret ((port, lh, host), host_routes routes).

(** [build_listener_buckets_from_proto]: the buckets of every port, and those
    of routes bound to no port. *)
Definition build_listener_buckets (now : Z) (routes : list RouteConfig)
  : Alloc (gmap Z (list ListenerBucket) * list ListenerBucket) :=
  let! groups := amap (build_group now) (map_to_list (by_group routes)) in
  let buckets := fold_left place_group groups ∅ in
  aret (set_to_map (fun port => (port, port_buckets buckets port)) (ports_of buckets), port_buckets buckets 0).
End Buckets.

(** ** What the buckets hold *)

Lemma amap_results {A B} (f : A -> Alloc B) l s :
  Forall2 (fun x y => exists s0, (f x s0).1 = y) l (amap f l s).1.
Proof.
  revert s. induction l as [|x l IH]; intros s; simpl; [constructor|]. unfold abind.
  pose proof (eq_refl (f x s).1) as Hx. destruct (f x s) as [y s1] eqn:Hf.
  specialize (IH s1). destruct (amap f l s1) as [ys s2]. constructor; [|done]. exists s. by rewrite Hf.
Qed.

Lemma strip_wildcard_inj h h' s :
  strip_prefix "*." h = Some s -> strip_prefix "*." h' = Some s -> h = h'.
Proof. intros ->%strip_prefix_Some ->%strip_prefix_Some. done. Qed.

Lemma bucket_host_place b host hr host' :
  bucket_host (place_host b host hr) host' = if decide (host' = host) then Some hr else bucket_host b host'.
Proof.
  unfold bucket_host, place_host. destruct (decide (host' = host)) as [->|Hne].
  - destruct (decide (host = "*")); [done|]. destruct (strip_prefix "*." host); simpl; by rewrite lookup_insert_eq.
  - destruct (decide (host' = "*")), (decide (host = "*")); subst; try done.
    + by destruct (strip_prefix "*." host).
    + destruct (strip_prefix "*." host') as [s'|] eqn:Hs', (strip_prefix "*." host) as [s|] eqn:Hs; simpl; try done.
      * rewrite lookup_insert_ne; [done|]. intros Heq. apply Hne.
        injection Heq as ->. by eapply strip_wildcard_inj.
      * by rewrite lookup_insert_ne.
Qed.

Lemma place_host_hostname b host hr : lb_listener_hostname (place_host b host hr) = lb_listener_hostname b.
Proof. unfold place_host. by repeat case_match. Qed.

(** Buckets agree with the groups placed so far. *)
Definition placed (groups : list (group_key * HostRoutes)) (m : gmap (Z * string) ListenerBucket) : Prop :=
  forall p lh, match m !! (p, lh) with
    | Some b => lb_listener_hostname b = lh /\ (exists host hr, ((p, lh, host), hr) ∈ groups) /\
                (forall host hr, bucket_host b host = Some hr <-> ((p, lh, host), hr) ∈ groups)
    | None => forall host hr, ((p, lh, host), hr) ∉ groups
    end.

Lemma bucket_host_empty lh host : bucket_host (new_bucket_for lh) host = None.
Proof. unfold bucket_host, new_bucket_for. repeat case_match; simpl; by rewrite ?lookup_empty. Qed.

Lemma place_group_placed groups m g :
  g.1 ∉ groups.*1 -> placed groups m -> placed (groups ++ [g]) (place_group m g).
Proof.
  destruct g as [[[p lh] host] hr]. simpl. intros Hnew Hm p' lh'. destruct (decide ((p', lh') = (p, lh))) as [[= -> ->]|Hne].
  - rewrite lookup_insert_eq. rewrite place_host_hostname. specialize (Hm p lh).
    assert (Hold : forall host' hr', host' = host -> ((p, lh, host'), hr') ∉ groups).
    { intros host' hr' -> Hin. apply Hnew. apply list_elem_of_fmap. by exists ((p, lh, host), hr'). }
    split; [by destruct (m !! (p, lh)); simpl; [apply Hm|]|].
    split; [exists host, hr; apply elem_of_app; right; by left|].
    intros host' hr'. rewrite bucket_host_place, elem_of_app, list_elem_of_singleton.
    destruct (decide (host' = host)) as [->|Hh].
    + split; [intros [= ->]; by right|]. intros [Hin|[= ->]]; [by destruct (Hold host hr')|done].
    + destruct (m !! (p, lh)) as [b|]; simpl.
      * destruct Hm as (_ & _ & Hm). rewrite Hm. split; [by left|]. intros [?|[= ? ?]]; done.
      * rewrite bucket_host_empty. split; [done|]. intros [Hin|[= ? ?]]; [by destruct (Hm host' hr')|done].
  - rewrite lookup_insert_ne by done. specialize (Hm p' lh').
    assert (Hsame : forall host' hr', ((p', lh', host'), hr') ∈ groups ++ [((p, lh, host), hr)] <-> ((p', lh', host'), hr') ∈ groups).
    { intros. rewrite elem_of_app, list_elem_of_singleton. split; [|by left]. intros [?|[= -> -> ? ?]]; done. }
    destruct (m !! (p', lh')) as [b|].
    + destruct Hm as (Hl & (h & r & Hin) & Hm). split; [done|]. split; [exists h, r; by apply Hsame|].
      intros. by rewrite Hm, Hsame.
    + intros. by rewrite Hsame.
Qed.

Lemma place_groups_placed groups : NoDup groups.*1 -> placed groups (fold_left place_group groups ∅).
Proof.
  induction groups as [|g groups IH] using rev_ind; intros Hn.
  - intros p lh. simpl. rewrite lookup_empty. intros ? ?. apply not_elem_of_nil.
  - rewrite fold_left_app. simpl. rewrite fmap_app in Hn. apply NoDup_app in Hn as (Hn & Hd & _).
    apply place_group_placed; [|by apply IH]. intros Hin. apply (Hd _ Hin). by left.
Qed.

Lemma bucket_cmp_spec a b :
  not_after bucket_cmp a b = (listener_specificity (lb_listener_hostname b) <=? listener_specificity (lb_listener_hostname a)).
Proof. reflexivity. Qed.

Lemma port_buckets_sorted buckets p :
  StronglySorted (fun a b => listener_specificity (lb_listener_hostname b) <= listener_specificity (lb_listener_hostname a))
    (port_buckets buckets p).
Proof.
  unfold port_buckets.
  assert (Hs : StronglySorted (fun a b => not_after bucket_cmp a b = true)
                 (sort_by bucket_cmp (map snd (List.filter (fun kb => kb.1.1 =? p) (map_to_list buckets))))).
  { apply sort_by_sorted; intros *; rewrite !bucket_cmp_spec; lia. }
  induction Hs as [|x l Hl IH Hx]; constructor; [done|]. eapply Forall_impl; [exact Hx|].
  intros y Hy. cbn beta in Hy |- *. rewrite bucket_cmp_spec in Hy. lia.
Qed.

Lemma port_buckets_elem buckets p b :
  b ∈ port_buckets buckets p <-> exists lh, buckets !! (p, lh) = Some b.
Proof.
  unfold port_buckets. rewrite sort_by_perm, list_elem_of_In, in_map_iff. split.
  - intros ([[p' lh] b'] & Hb & Hin). simpl in Hb. subst b'. apply filter_In in Hin as [Hin Hp%Z.eqb_eq]. simpl in Hp. subst p'.
    exists lh. apply elem_of_map_to_list. by apply list_elem_of_In.
  - intros [lh Hb]. exists ((p, lh), b). split; [done|]. apply filter_In. split; [|by apply Z.eqb_eq].
    apply list_elem_of_In. by apply elem_of_map_to_list.
Qed.

Lemma port_buckets_nodup groups buckets p :
  placed groups buckets -> NoDup (map lb_listener_hostname (port_buckets buckets p)).
Proof.
  intros Hpl. unfold port_buckets. rewrite sort_by_perm, List.map_map.
  assert (Hn : NoDup (map fst (List.filter (fun kb => kb.1.1 =? p) (map_to_list buckets)))).
  { pose proof (NoDup_fst_map_to_list buckets) as Hn. induction (map_to_list buckets) as [|[k b] l IH]; [constructor|].
    apply NoDup_cons in Hn as [Hk Hn]. simpl. destruct (k.1 =? p); simpl; [|by apply IH]. constructor; [|by apply IH].
    intros Hin. apply Hk. apply list_elem_of_In, in_map_iff in Hin as (x & <- & [Hx _]%filter_In).
    apply list_elem_of_fmap. exists x. split; [done|]. by apply list_elem_of_In. }
  assert (Hmap : map (fun kb => lb_listener_hostname kb.2) (List.filter (fun kb => kb.1.1 =? p) (map_to_list buckets))
               = map (fun kb => kb.1.2) (List.filter (fun kb => kb.1.1 =? p) (map_to_list buckets))).
  { apply map_ext_in. intros [[p' lh] b] [Hin _]%filter_In. apply list_elem_of_In, elem_of_map_to_list in Hin.
    specialize (Hpl p' lh). rewrite Hin in Hpl. apply Hpl. }
  rewrite Hmap. clear Hmap. set (l := map_to_list buckets) in *. clearbody l.
  induction l as [|[[p' lh] b] l IH]; [constructor|]. simpl in *. destruct (Z.eqb_spec p' p) as [->|]; [|by apply IH].
  simpl in *. apply NoDup_cons in Hn as [Hk Hn]. constructor; [|by apply IH].
  intros Hin. apply Hk. apply list_elem_of_In, in_map_iff in Hin as ([[p'' lh'] b'] & <- & Hx). simpl.
  pose proof Hx as [_ Hp%Z.eqb_eq]%filter_In. simpl in Hp. subst p''.
  apply list_elem_of_In, in_map_iff. by exists ((p, lh', b')).
Qed.

(** The buckets a request on port [p] is matched against ([0]: any port). *)
Definition buckets_at (res : gmap Z (list ListenerBucket) * list ListenerBucket) (p : Z) : list ListenerBucket :=
  if p =? 0 then res.2 else default [] (res.1 !! p).

Lemma buckets_at_port buckets p :
  buckets_at (set_to_map (fun port => (port, port_buckets buckets port)) (ports_of buckets), port_buckets buckets 0) p
  = port_buckets buckets p.
Proof.
  unfold buckets_at. destruct (Z.eqb_spec p 0) as [->|Hp]; [done|]. cbn [fst].
  destruct (set_to_map _ _ !! p) as [l|] eqn:Hl; simpl.
  - apply lookup_set_to_map in Hl as (y & _ & Hy); [by injection Hy as -> <-|done].
  - destruct (port_buckets buckets p) as [|b l] eqn:Hb; [done|exfalso].
    assert (Hin : b ∈ port_buckets buckets p) by (rewrite Hb; left). apply port_buckets_elem in Hin as [lh Hlh].
    assert (Hx : set_to_map (M:=gmap Z (list ListenerBucket)) (fun port => (port, port_buckets buckets port)) (ports_of buckets) !! p
                 = Some (port_buckets buckets p)).
    { apply lookup_set_to_map; [done|]. exists p. split; [|done]. apply elem_of_difference. split; [|set_solver].
      apply elem_of_map. exists (p, lh). split; [done|]. apply elem_of_dom. eauto. }
    rewrite Hl in Hx. done.
Qed.

Section Isolation.
Context `{HttpCrate} `{ConfigCrates}.
Context (cb_map cl_map : gmap (string * Z) positive).
Context (existing_by_port : gmap Z (list ListenerBucket)) (existing_any_port : list ListenerBucket).
Context (now : Z) (routes : list RouteConfig).

Definition specs_of (k : group_key) : list RouteConfig := List.filter (fun r => bool_decide (route_key r = k)) routes.

(** What [build_group] makes of the routes of a key. *)
Definition group_built (k : group_key) (hr : HostRoutes) : Prop :=
  specs_of k <> [] /\ exists s, hr = host_routes (group_routes cb_map cl_map
    (find_old_host existing_by_port existing_any_port k.1.1 k.1.2 k.2) now (specs_of k) s).1.

Lemma build_groups_spec groups :
  Forall2 (fun g y => exists s0, (build_group cb_map cl_map existing_by_port existing_any_port now g s0).1 = y)
    (map_to_list (by_group routes)) groups ->
  NoDup groups.*1 /\
  (forall k hr, (k, hr) ∈ groups -> group_built k hr) /\
  (forall k, specs_of k <> [] -> exists hr, (k, hr) ∈ groups).
Proof.
  intros Hf.
  assert (Hstep : forall g y, (exists s0, (build_group cb_map cl_map existing_by_port existing_any_port now g s0).1 = y) ->
    y.1 = g.1 /\ exists s, y.2 = host_routes (group_routes cb_map cl_map
      (find_old_host existing_by_port existing_any_port g.1.1.1 g.1.1.2 g.1.2) now g.2 s).1).
  { intros [[[p lh] host] specs] y [s0 <-]. unfold build_group, abind. simpl.
    destruct (group_routes _ _ _ _ _ s0) as [rs s1] eqn:Hg. simpl. split; [done|]. exists s0. by rewrite Hg. }
  assert (Hkeys : groups.*1 = (map_to_list (by_group routes)).*1).
  { induction Hf as [|g y gs ys Hgy Hf IH]; [done|]. simpl. destruct (Hstep _ _ Hgy) as [-> _]. by f_equal. }
  split; [rewrite Hkeys; apply NoDup_fst_map_to_list|]. split.
  - intros k hr [i Hi]%list_elem_of_lookup. destruct (Forall2_lookup_r _ _ _ _ _ Hf Hi) as ([k' specs] & Hx & Hgy).
    destruct (Hstep _ _ Hgy) as [Hk [s Hs]]. simpl in Hk, Hs. subst k'.
    apply list_elem_of_lookup_2, elem_of_map_to_list, group_by_lookup in Hx as [-> Hne]. split; [done|]. by exists s.
  - intros k Hne. assert (Hin : (k, specs_of k) ∈ map_to_list (by_group routes)).
    { apply elem_of_map_to_list, group_by_lookup. done. }
    apply list_elem_of_lookup in Hin as [i Hi]. destruct (Forall2_lookup_l _ _ _ _ _ Hf Hi) as ([k' hr] & Hx & Hgy).
    destruct (Hstep _ _ Hgy) as [Hk _]. simpl in Hk. subst k'. exists hr. by eapply list_elem_of_lookup_2.
Qed.

End Isolation.

(** ** Rate limiters across rebuilds *)

Section Limiters.
Context `{HttpCrate} `{ConfigCrates}.
Context (cb_map cl_map : gmap (string * Z) positive).

Lemma make_route_limiter old now spec auth path mt s :
  let '(r, s') := make_route cb_map cl_map old now spec auth path mt s in
  pr_path r = path /\ pr_match_type r = mt /\
  (pr_rate_limiter r, s') = amap_option (build_rate_limiter old path mt now) (rc_rate_limit spec) s.
Proof.
  unfold make_route, abind. destruct (amap_option _ _ s) as [rl s1].
  destruct (parse_header_mutations (rc_request_headers spec)) as [[? ?] ?].
  by destruct (parse_header_mutations (rc_response_headers spec)) as [[? ?] ?].
Qed.

(** Building the authentication of a spec allocates no rate limiter. *)
Lemma build_auth_limiters auth s :
  let s' := (amap_option build_auth auth s).2 in st_buckets s' = st_buckets s /\ st_per_ip s' = st_per_ip s.
Proof. destruct auth as [[| |]|]; done. Qed.

(** The rule of a spec with one path that compiles. *)
Lemma spec_routes_one old now spec path mt s :
  spec_paths spec = [(path, mt)] ->
  exists r s1 s2, spec_routes cb_map cl_map old now spec s = ([r], s2) /\
    st_buckets s1 = st_buckets s /\ st_per_ip s1 = st_per_ip s /\ pr_path r = path /\ pr_match_type r = mt /\
    (pr_rate_limiter r, s2) = amap_option (build_rate_limiter old path mt now) (rc_rate_limit spec) s1.
Proof.
  intros Hp. unfold spec_routes. rewrite Hp. unfold abind at 1. simpl.
  pose proof (build_auth_limiters (rc_auth spec ≫= id) s) as Ha.
  destruct (amap_option build_auth (rc_auth spec ≫= id) s) as [auth s1]. simpl in Ha. unfold abind, aret.
  pose proof (make_route_limiter old now spec auth path mt s1) as Hm.
  destruct (make_route cb_map cl_map old now spec auth path mt s1) as [r s2].
  exists r, s1, s2. tauto.
Qed.

Lemma group_routes_two old now a b path mt s :
  spec_paths a = [(path, mt)] -> spec_paths b = [(path, mt)] ->
  exists ra rb sa sa' sb sb', group_routes cb_map cl_map old now [a; b] s = ([ra; rb], sb') /\
    st_buckets sa = st_buckets s /\ st_per_ip sa = st_per_ip s /\ pr_path ra = path /\ pr_match_type ra = mt /\
    (pr_rate_limiter ra, sa') = amap_option (build_rate_limiter old path mt now) (rc_rate_limit a) sa /\
    st_buckets sb = st_buckets sa' /\ st_per_ip sb = st_per_ip sa' /\ pr_path rb = path /\ pr_match_type rb = mt /\
    (pr_rate_limiter rb, sb') = amap_option (build_rate_limiter old path mt now) (rc_rate_limit b) sb.
Proof.
  intros Ha Hb.
  destruct (spec_routes_one old now a path mt s Ha) as (ra & sa & sa' & Ea & ? & ? & ? & ? & ?).
  destruct (spec_routes_one old now b path mt sa' Hb) as (rb & sb & sb' & Eb & ? & ? & ? & ? & ?).
  exists ra, rb, sa, sa', sb, sb'. split; [|done].
  unfold group_routes, abind. cbn [amap]. unfold abind. rewrite Ea, Eb. done.
Qed.

(** A host with a limiter for the path, type, rate and mode hands it to every rule. *)
Lemma reused_limiter hr path mt now rl m s :
  find_rate_limiter hr path mt (rlc_requests_per_second rl) (rlc_per_client rl) = Some m ->
  amap_option (build_rate_limiter (Some hr) path mt now) (Some rl) s = (Some m, s).
Proof. intros Hf. simpl. unfold abind, build_rate_limiter. cbn [option_bind mbind]. by rewrite Hf. Qed.

(** A prefix rule that has the limiter looked for is found in the host's rules. *)
Lemma find_limiter_rules ra rb path mt rps pc :
  is_exact ra = false -> is_exact rb = false ->
  (forall r, r ∈ [ra; rb] -> pr_path r = path /\ pr_match_type r = mt /\
     exists m, pr_rate_limiter r = Some m /\ RateLimiterMode_rps m = rps /\ RateLimiterMode_is_per_ip m = pc) ->
  exists m, find_rate_limiter (host_routes [ra; rb]) path mt rps pc = Some m.
Proof.
  intros Ha Hb Hl. unfold find_rate_limiter, host_routes. cbn [hr_catch_all hr_exact_map hr_rules List.filter].
  rewrite Ha, Hb. cbn [negb]. change (exact_map_of (sort_by specificity_cmp [])) with (∅ : gmap string (list PathRoute)).
  rewrite map_to_list_empty. cbn [map concat app option_list].
  pose proof (sort_by_perm prefix_cmp [ra; rb]) as Hperm.
  destruct (sort_by prefix_cmp [ra; rb]) as [|r l]; [by apply Permutation_nil in Hperm|].
  destruct (Hl r) as (Hp & Hm & m & Hlim & Hr & Hpc); [rewrite <- Hperm; left|].
  exists m. change (option_list None ++ r :: l) with (r :: l). cbn [List.find]. rewrite !bool_decide_eq_true_2, Hlim, Hr, Hpc, Z.eqb_refl, eqb_reflx by done. done.
Qed.

(** A new limiter is not one of those in use. *)
Lemma fresh_limiter path mt now rl s :
  exists m s', amap_option (build_rate_limiter None path mt now) (Some rl) s = (Some m, s') /\
    RateLimiterMode_rps m = rlc_requests_per_second rl /\ RateLimiterMode_is_per_ip m = rlc_per_client rl /\
    match m with
    | Shared _ r => st_buckets s !! r = None /\ is_Some (st_buckets s' !! r)
    | PerIp _ r => st_per_ip s !! r = None /\ is_Some (st_per_ip s' !! r)
    end.
Proof.
  simpl. unfold abind, build_rate_limiter. cbn [option_bind mbind]. destruct (rlc_per_client rl) eqn:Hpc.
  - eexists _, _. split; [reflexivity|]. simpl. split_and!; [done..| |].
    + apply not_elem_of_dom, is_fresh.
    + rewrite lookup_insert_eq. eauto.
  - eexists _, _. split; [reflexivity|]. simpl. split_and!; [done..| |].
    + apply not_elem_of_dom, is_fresh.
    + rewrite lookup_insert_eq. eauto.
Qed.

(** Two rules of a host that share a path, rate and mode and differ in any
    other requirement each get a limiter of their own when the host is built,
    and one limiter together when the unchanged configuration is built again:
    each may then use up the rate of the other. *)
Theorem reload_merges_rate_limiters (now now' : Z) (a b : RouteConfig) (path : string) (mt : PathMatchType)
    (rl : RateLimitConfig) (s s' : store) :
  spec_paths a = [(path, mt)] -> spec_paths b = [(path, mt)] -> mt <> PathExact ->
  rc_rate_limit a = Some rl -> rc_rate_limit b = Some rl ->
  exists ra rb ra' rb' m,
    (group_routes cb_map cl_map None now [a; b] s).1 = [ra; rb] /\
    pr_rate_limiter ra <> pr_rate_limiter rb /\
    (group_routes cb_map cl_map (Some (host_routes [ra; rb])) now' [a; b] s').1 = [ra'; rb'] /\
    pr_rate_limiter ra' = Some m /\ pr_rate_limiter rb' = Some m.
Proof.
  intros Ha Hb Hmt Hra Hrb.
  destruct (group_routes_two None now a b path mt s Ha Hb) as (ra & rb & sa & sa' & sb & sb' & E & _ & _ & Hp & Hm & L & Hbk & Hip & Hp' & Hm' & L').
  rewrite Hra in L. rewrite Hrb in L'.
  destruct (fresh_limiter path mt now rl sa) as (m1 & t1 & E1 & R1 & P1 & F1). rewrite E1 in L. injection L as L <-.
  destruct (fresh_limiter path mt now rl sb) as (m2 & t2 & E2 & R2 & P2 & F2). rewrite E2 in L'. injection L' as L' <-.
  assert (He : is_exact ra = false /\ is_exact rb = false) by (unfold is_exact; rewrite Hm, Hm'; by destruct mt).
  destruct (find_limiter_rules ra rb path mt (rlc_requests_per_second rl) (rlc_per_client rl)) as [m Hfind]; [apply He..| |].
  { intros r [->|[->|[]%not_elem_of_nil]%elem_of_cons]%elem_of_cons; split_and!; eauto. }
  destruct (group_routes_two (Some (host_routes [ra; rb])) now' a b path mt s' Ha Hb)
    as (ra' & rb' & ? & ? & ? & ? & E' & _ & _ & _ & _ & M & _ & _ & _ & _ & M').
  rewrite Hra, (reused_limiter _ _ _ _ _ m) in M by done. rewrite Hrb, (reused_limiter _ _ _ _ _ m) in M' by done.
  injection M as M _. injection M' as M' _.
  exists ra, rb, ra', rb', m. split_and!; [by rewrite E| |by rewrite E'|done..].
  rewrite L, L'. intros [= <-]. destruct m1 as [? r|? r]; destruct F1 as [_ F1], F2 as [F2 _].
  - rewrite Hbk in F2. rewrite F2 in F1. by destruct F1.
  - rewrite Hip in F2. rewrite F2 in F1. by destruct F1.
Qed.
End Limiters.

(** ** Address lists *)

Section AddressLists.
Context {Key : Type} {L : Libs Key} `{ConfigCrates}.
Context (cb_map cl_map : gmap (string * Z) positive).

(** The controller's check of an entry of an IPAllowlistPolicy. *)
Definition cidr_accepted (cidr : string) : bool :=
  match parse_ip cidr with
  | Some _ => true
  | None => match ipnet_parse cidr with Some _ => true | None => false end
  end.

Definition has_slash (s : string) : bool := existsb (fun c => bool_decide (c = "/"%char)) (String.list_ascii_of_string s).

(** The parser of [ipnet::IpNet] reads [address/length]: without a slash it
    refuses. *)
Hypothesis ipnet_needs_slash : forall s, has_slash s = false -> ipnet_parse s = None.

Lemma bare_cidrs cidrs : Forall (fun c => has_slash c = false) cidrs -> omap ipnet_parse cidrs = [].
Proof. induction 1 as [|c cidrs Hc _ IH]; [done|]. simpl. by rewrite ipnet_needs_slash. Qed.

Lemma make_route_cidrs old now spec auth path mt s :
  let r := (make_route cb_map cl_map old now spec auth path mt s).1 in
  pr_ip_allow_cidrs r = build_cidrs ial_allow_cidrs spec /\ pr_ip_deny_cidrs r = build_cidrs ial_deny_cidrs spec.
Proof.
  unfold make_route, abind. destruct (amap_option _ _ s) as [rl s1].
  destruct (parse_header_mutations (rc_request_headers spec)) as [[? ?] ?].
  by destruct (parse_header_mutations (rc_response_headers spec)) as [[? ?] ?].
Qed.

Lemma spec_routes_cidrs old now spec s r :
  r ∈ (spec_routes cb_map cl_map old now spec s).1 ->
  pr_ip_allow_cidrs r = build_cidrs ial_allow_cidrs spec /\ pr_ip_deny_cidrs r = build_cidrs ial_deny_cidrs spec.
Proof.
  unfold spec_routes, abind. destruct (amap_option build_auth _ s) as [auth s1].
  pose proof (amap_results (fun '(path, mt) => make_route cb_map cl_map old now spec auth path mt) (spec_paths spec) s1) as Hf.
  intros [i Hi]%list_elem_of_lookup. destruct (Forall2_lookup_r _ _ _ _ _ Hf Hi) as ([path mt] & _ & s0 & <-).
  apply make_route_cidrs.
Qed.

(** An address list whose entries are single addresses is accepted by the
    controller and filters nobody: the data plane reads each entry as a network
    with a prefix length, drops those that are not, and takes the empty lists
    for the absence of a filter. *)
Theorem bare_address_lists_filter_nobody (old : option HostRoutes) (now : Z) (spec : RouteConfig)
    (ips : IPAllowlistConfig) (s : store) (r : PathRoute) (client : option IpAddr) (st : store) :
  rc_ip_allowlist spec = Some ips ->
  Forall (fun c => is_Some (parse_ip c) /\ has_slash c = false) (ial_allow_cidrs ips ++ ial_deny_cidrs ips) ->
  r ∈ (spec_routes cb_map cl_map old now spec s).1 ->
  forallb cidr_accepted (ial_allow_cidrs ips ++ ial_deny_cidrs ips) = true /\
  plan_ip_filter r client st = (Ok tt, st).
Proof.
  intros Hips Hbare Hr. split.
  { apply forallb_forall. intros c Hc%list_elem_of_In. rewrite Forall_forall in Hbare. destruct (Hbare c Hc) as [[a Ha] _].
    unfold cidr_accepted. by rewrite Ha. }
  apply Forall_app in Hbare as [Hal Hde].
  assert (Hz : forall l, Forall (fun c => is_Some (parse_ip c) /\ has_slash c = false) l -> omap ipnet_parse l = []).
  { intros l Hl. apply bare_cidrs. eapply Forall_impl; [exact Hl|]. by intros c [_ ?]. }
  destruct (spec_routes_cidrs _ _ _ _ _ Hr) as [Ea Ed]. unfold build_cidrs in Ea, Ed. rewrite Hips, Hz in Ea, Ed by done.
  unfold plan_ip_filter. by rewrite Ea, Ed, !bool_decide_eq_true_2 by done.
Qed.
End AddressLists.

(** ** Samples *)

Module Sample.

Definition crates : ConfigCrates := {|
  regex_builds _ := true;
  header_name_from_bytes s := Some (to_ascii_lowercase s);
  method_from_bytes s := Some s;
  ipnet_parse _ := None;
|}.

(** A route to a service with nothing else set. *)
Definition plain_spec (host service : string) (paths : list PathRule) (method : string) (rl : option RateLimitConfig) : RouteConfig :=
  {| rc_host := host; rc_paths := paths; rc_service_name := service; rc_port := 80; rc_timeouts := None;
     rc_max_retries := 0; rc_upstream_tls := None; rc_protocol := "HTTP"; rc_request_headers := None;
     rc_response_headers := None; rc_rate_limit := rl; rc_circuit_breaker := None; rc_max_connections := None;
     rc_header_matches := []; rc_method_match := method; rc_query_param_matches := []; rc_redirect := None;
     rc_url_rewrite := None; rc_grpc_match := None; rc_listener_name := "http"; rc_mirror_backend := None; rc_weighted_backends := [];
     rc_request_timeout_ms := 0; rc_backend_request_timeout_ms := 0; rc_auth := None; rc_cors := None;
     rc_mirror_backends := []; rc_listener_port := 80; rc_ip_allowlist := None; rc_max_request_body_bytes := 0;
     rc_retry_on := []; rc_retry_codes := []; rc_ai_dialect := EmptyString; rc_ai_provider := EmptyString;
     rc_ai_key_required := false; rc_ai_budget := None; rc_ai_session_affinity := false; rc_ai_jwt := None;
     rc_ai_on_behalf_of := None; rc_ai_federation := EmptyString; rc_ext_auth := None;
     rc_listener_hostname := EmptyString; rc_gateway_namespace := EmptyString; rc_gateway_name := EmptyString |}.

Definition limit : RateLimitConfig := {| rlc_requests_per_second := 10; rlc_per_client := false |}.
Definition reads : RouteConfig := plain_spec "a.com" "read" [{| pl_path := "/api"; pl_match_type := "PathPrefix" |}] "GET" (Some limit).
Definition writes : RouteConfig := plain_spec "a.com" "write" [{| pl_path := "/api"; pl_match_type := "PathPrefix" |}] "POST" (Some limit).

Definition empty_store : store :=
  {| st_pools := ∅; st_buckets := ∅; st_per_ip := ∅; st_breakers := ∅; st_limiters := ∅; st_jwt := ∅;
     st_weight_counter := 0; st_mirror_permits := 0; st_mirrors := [] |}.

(** GET and POST of one path, ten requests per second each. *)
Lemma reload_merges_rate_limiters_witness :
  exists ra rb ra' rb' m,
    (@group_routes sample_http crates ∅ ∅ None 0 [reads; writes] empty_store).1 = [ra; rb] /\
    pr_rate_limiter ra <> pr_rate_limiter rb /\
    (@group_routes sample_http crates ∅ ∅ (Some (host_routes [ra; rb])) 1 [reads; writes] empty_store).1 = [ra'; rb'] /\
    pr_rate_limiter ra' = Some m /\ pr_rate_limiter rb' = Some m.
Proof.
  exact (@reload_merges_rate_limiters sample_http crates ∅ ∅ 0 1 reads writes "/api" PathPrefix limit empty_store empty_store
           eq_refl eq_refl ltac:(discriminate) eq_refl eq_refl).
Defined.

(** Only 10.0.0.1 may enter; everyone does. *)
Definition office : IPAllowlistConfig :=
  {| ial_allow_cidrs := ["10.0.0.1"]; ial_deny_cidrs := []; ial_trusted_proxy_cidrs := [] |}.

Definition office_spec : RouteConfig :=
  let 'Build_RouteConfig h p sn po t mr ut pr rq rs rl cb mc hm mm qm rd ur gm ln mb wb rt bt au co mbs lp _ bl ro rcs d pv kr bu sa jw ob fe ea lh gn gw :=
    plain_spec "a.com" "svc" [] EmptyString None in
  Build_RouteConfig h p sn po t mr ut pr rq rs rl cb mc hm mm qm rd ur gm ln mb wb rt bt au co mbs lp (Some office) bl ro rcs d pv kr bu sa jw ob fe ea lh gn gw.

Lemma bare_address_lists_filter_nobody_witness :
  exists r, (@spec_routes sample_http crates ∅ ∅ None 0 office_spec empty_store).1 = [r] /\
    @plan_ip_filter unit Plan.Sample.libs r (Some (V4 134744072)) empty_store = (Ok tt, empty_store).
Proof.
  eexists. split; [vm_compute; reflexivity|].
  apply (@bare_address_lists_filter_nobody unit Plan.Sample.libs crates ∅ ∅ (fun _ _ => eq_refl) None 0 office_spec office empty_store).
  - reflexivity.
  - repeat constructor. vm_compute. eauto.
  - vm_compute. left.
Defined.

End Sample.
