(* ===== verification/Tls.v ===== *)
(** * Certificates and client validation

    [portus-dataplane-core/src/tls.rs] and the TLS part of
    [config_receiver.rs]: loading a certificate from PEM text, the choice of a
    certificate by the server name of the handshake, the client certificate
    policy of a port, and the passes of the thread that reloads both. *)
From S2P Require Import Prelude Text Proto.

(** ** Third-party parsers and checks *)

(** [rustls_pemfile::certs] (one result per certificate section),
    [rustls_pemfile::private_key] ([Err], [Ok(None)] or [Ok(Some(der))]),
    [any_supported_type], [RootCertStore::add], the build of a
    [WebPkiClientVerifier], and its verification of a chain against roots. *)
Class TlsCrates := {
  pem_certs : string -> list (option string);
  pem_private_key : string -> option (option string);
  key_supported : string -> bool;
  root_add_ok : string -> bool;
  verifier_builds : list string -> bool;
  chain_verifies : list string -> string -> list string -> bool;
}.

(** ** Loading *)

Record CertifiedKey := {
  ck_certs : list string;
  ck_key : string;
}.

#[export] Instance CertifiedKey_eq_dec : EqDecision CertifiedKey.
Proof. solve_decision. Defined.

Inductive PemError := BadCerts | NoCerts | BadKey | NoKey | UnsupportedKey.

Section Loading.
Context `{TlsCrates}.

(** [collect::<Result<Vec<_>, _>>]: all or nothing. *)
Definition collect_certs (pem : string) : option (list string) := mapM id (pem_certs pem).

(** [load_certified_key_from_pem] *)
Definition load_certified_key_from_pem (cert_pem key_pem : string) : result CertifiedKey PemError :=
  try! certs := ok_or (collect_certs cert_pem) BadCerts in
  if decide (certs = []) then Err NoCerts
  else
    try! key := ok_or (pem_private_key key_pem) BadKey in
    try! key := ok_or key NoKey in
    if key_supported key then Ok {| ck_certs := certs; ck_key := key |} else Err UnsupportedKey.
End Loading.

(** ** Certificate selection *)

(** [CertMap]: exact names, wildcard suffixes in order, the default. *)
Record CertMap := {
  cm_exact : gmap string CertifiedKey;
  cm_wildcard : list (string * CertifiedKey);
  cm_default : option CertifiedKey;
}.

(** [ReloadableCertResolver] *)
Record Resolver := {
  rs_certified_key : CertifiedKey;
  rs_cert_map : CertMap;
  rs_tls_alpn01 : bool;
}.

(** [ReloadableCertResolver::new] *)
Definition Resolver_new (initial : CertifiedKey) : Resolver :=
  {| rs_certified_key := initial;
     rs_cert_map := {| cm_exact := ∅; cm_wildcard := []; cm_default := Some initial |};
     rs_tls_alpn01 := false |}.

(** One round of the loop of [swap_map]: the map so far (its default being
    the one named so far) and the first key. *)
Definition swap_map_entry (acc : CertMap * option CertifiedKey) (entry : string * CertifiedKey)
  : CertMap * option CertifiedKey :=
  let '(m, first) := acc in
  let '(hostname, key) := entry in
  let first := match first with None => Some key | Some _ => first end in
  (if is_empty hostname
   then {| cm_exact := cm_exact m; cm_wildcard := cm_wildcard m; cm_default := Some key |}
   else if starts_with "*." hostname
   then {| cm_exact := cm_exact m; cm_wildcard := cm_wildcard m ++ [(sdrop 1 hostname, key)];
           cm_default := cm_default m |}
   else {| cm_exact := <[hostname := key]> (cm_exact m); cm_wildcard := cm_wildcard m;
           cm_default := cm_default m |}, first).

Definition cert_map_of (entries : list (string * CertifiedKey)) : CertMap :=
  let '(m, first) :=
    fold_left swap_map_entry entries ({| cm_exact := ∅; cm_wildcard := []; cm_default := None |}, None) in
  {| cm_exact := cm_exact m; cm_wildcard := cm_wildcard m;
     cm_default := match cm_default m with None => first | d => d end |}.

(** [swap_map] *)
Definition swap_map (entries : list (string * CertifiedKey)) (r : Resolver) : Resolver :=
  let m := cert_map_of entries in
  {| rs_certified_key := default (rs_certified_key r) (cm_default m);
     rs_cert_map := m; rs_tls_alpn01 := rs_tls_alpn01 r |}.

(** A wildcard suffix covers names with exactly one more label. *)
Definition wildcard_covers (suffix sni : string) : bool :=
  ends_with suffix sni &&
  (let prefix := stake (String.length sni - String.length suffix) sni in
   match find_char "." prefix with None => true | Some _ => false end && negb (is_empty prefix)).

Definition ACME_TLS_ALPN : string := "acme-tls/1".

(** [ResolvesServerCert::resolve], over the table of pending challenge
    certificates. *)
Definition resolve (tls_alpn01_certs : gmap string CertifiedKey) (r : Resolver)
  (server_name : option string) (alpn : option (list string)) : option CertifiedKey :=
  if rs_tls_alpn01 r && (match alpn with Some ps => bool_decide (ACME_TLS_ALPN ∈ ps) | None => false end)
  then server_name ≫= fun sni => tls_alpn01_certs !! sni
  else
    let m := rs_cert_map r in
    let named :=
      match server_name with
      | None => None
      | Some sni =>
          match cm_exact m !! sni with
          | Some key => Some key
          | None => snd <$> List.find (fun '(suffix, _) => wildcard_covers suffix sni) (cm_wildcard m)
          end
      end in
    match named with Some key => Some key | None => cm_default m end.

(** ** Client certificates *)

Inductive ClientValidationMode := AllowValidOnly | AllowInsecureFallback.

(** [ClientValidationMode::parse] *)
Definition ClientValidationMode_parse (mode : string) : ClientValidationMode :=
  if decide (mode = "AllowInsecureFallback") then AllowInsecureFallback else AllowValidOnly.

Record PortClientValidation := {
  pcv_port : Z;
  pcv_ca_cert_pems : list string;
  pcv_mode : ClientValidationMode;
}.

(** The verifiers a port can get: rustls's own over a set of roots, and the
    two of this file. *)
Inductive ClientCertVerifier :=
| WebPki (roots : list string)
| RejectAllClientCerts
| InsecureFallbackVerifier (inner : ClientCertVerifier).

Section Verifier.
Context `{TlsCrates}.

(** [client_auth_mandatory]; the trait's default is [offer_client_auth], which
    is true by default, and [WebPkiClientVerifier] requires a certificate
    unless built with [allow_unauthenticated]. *)
Definition client_auth_mandatory (v : ClientCertVerifier) : bool :=
  match v with InsecureFallbackVerifier _ => false | _ => true end.

Fixpoint verify_client_cert (v : ClientCertVerifier) (end_entity : string) (intermediates : list string) : bool :=
  match v with
  | WebPki roots => chain_verifies roots end_entity intermediates
  | RejectAllClientCerts => false
  | InsecureFallbackVerifier inner => if verify_client_cert inner end_entity intermediates then true else true
  end.

(** [build_client_cert_verifier] *)
Definition root_store (pems : list string) : list string :=
  List.filter root_add_ok (omap id (concat (map pem_certs pems))).

Definition build_client_cert_verifier (spec : PortClientValidation) : ClientCertVerifier :=
  let roots := root_store (pcv_ca_cert_pems spec) in
  let strict :=
    if decide (roots = []) then RejectAllClientCerts
    else if verifier_builds roots then WebPki roots else RejectAllClientCerts in
  match pcv_mode spec with
  | AllowValidOnly => strict
  | AllowInsecureFallback => InsecureFallbackVerifier strict
  end.

(** [build_port_configs]: the verifier of each port's server configuration;
    collecting into a map keeps the last of a port. *)
Definition build_port_configs (specs : list PortClientValidation) : gmap Z ClientCertVerifier :=
  fold_left (fun m spec => <[pcv_port spec := build_client_cert_verifier spec]> m) specs ∅.

(** Whether the handshake on [port] passes client authentication, given the
    chain the client presented: ports without a configuration ask for none. *)
Definition client_admitted (configs : gmap Z ClientCertVerifier) (port : Z)
  (presented : option (string * list string)) : bool :=
  match configs !! port with
  | None => true
  | Some v =>
      match presented with
      | None => negb (client_auth_mandatory v)
      | Some (end_entity, intermediates) => verify_client_cert v end_entity intermediates
      end
  end.
End Verifier.

(** [client_validation_from_listeners] *)
Definition listener_validation (l : Listener) : option PortClientValidation :=
  if decide (ls_protocol l = "HTTPS") then
    match ls_client_validation l with
    | None => None
    | Some cv =>
        if ls_port l <? 2 ^ 16 then
          match List.filter (fun p => negb (is_empty (trim p))) (cv_ca_cert_pems cv) with
          | [] => None
          | pems => Some {| pcv_port := ls_port l; pcv_ca_cert_pems := pems;
                            pcv_mode := ClientValidationMode_parse (cv_mode cv) |}
          end
        else None
    end
  else None.

Definition keep_first_of_port (out : list PortClientValidation) (spec : PortClientValidation)
  : list PortClientValidation :=
  match List.find (fun e => pcv_port e =? pcv_port spec) out with
  | Some _ => out
  | None => out ++ [spec]
  end.

Definition client_validation_from_listeners (listeners : list Listener) : list PortClientValidation :=
  sort_by (fun a b => Z.compare (pcv_port a) (pcv_port b))
    (fold_left keep_first_of_port (omap listener_validation listeners) []).

(** ** The reload thread *)

Record TlsCertEntry := {
  te_hostname : string;
  te_cert_pem : string;
  te_key_pem : string;
}.

Record TlsCertData := {
  td_entries : list TlsCertEntry;
  td_client_validation : list PortClientValidation;
}.

Record ReloadState := {
  rl_last_fingerprint : option Z;
  rl_resolver : Resolver;
  rl_port_configs : gmap Z ClientCertVerifier;
}.

Section Reload.
Context `{TlsCrates}.
(** [DefaultHasher] over an entry and over a port's policy. *)
Context (hash_entry : TlsCertEntry -> Z) (hash_validation : PortClientValidation -> Z).

Definition tls_entries_fingerprint (entries : list TlsCertEntry) : Z :=
  fold_left (fun fp e => wrapping_add 64 fp (hash_entry e)) entries 0.

Definition client_validation_fingerprint (specs : list PortClientValidation) : Z :=
  fold_left (fun fp s => wrapping_add 64 fp (hash_validation s)) specs 0.

Definition fingerprint_of (d : TlsCertData) : Z :=
  wrapping_add 64 (tls_entries_fingerprint (td_entries d)) (client_validation_fingerprint (td_client_validation d)).

Definition loaded_entries (entries : list TlsCertEntry) : list (string * CertifiedKey) :=
  omap (fun e => match load_certified_key_from_pem (te_cert_pem e) (te_key_pem e) with
                 | Ok key => Some (te_hostname e, key)
                 | Err _ => None
                 end) entries.

(** One pass of the loop of [start_tls_cert_hot_reload] over what the slot
    holds. *)
Definition reload_pass (slot : option TlsCertData) (st : ReloadState) : ReloadState :=
  match slot with
  | None => st
  | Some current =>
      let fingerprint := fingerprint_of current in
      if decide (rl_last_fingerprint st = Some fingerprint) then st
      else
        match loaded_entries (td_entries current) with
        | [] => st
        | entries =>
            {| rl_last_fingerprint := Some fingerprint; rl_resolver := swap_map entries (rl_resolver st);
               rl_port_configs := build_port_configs (td_client_validation current) |}
        end
  end.

Definition reload_start (initial : Resolver) : ReloadState :=
  {| rl_last_fingerprint := None; rl_resolver := initial; rl_port_configs := ∅ |}.
End Reload.

(** ** Selecting a certificate *)

(** A listener hostname that is a plain name, and the names it stands for. *)
Definition plain_name (h : string) : bool := negb (is_empty h) && negb (starts_with "*." h).

(** [h] is a wildcard of which [sni] is a name with one more label. *)
Definition covers (h sni : string) : bool := starts_with "*." h && wildcard_covers (sdrop 1 h) sni.

Lemma covers_spec h sni :
  covers h sni = true <->
  exists label rest, h = "*." +:+ rest /\ sni = label +:+ "." +:+ rest /\
    label <> EmptyString /\ find_char "." label = None.
Proof.
  unfold covers, wildcard_covers. rewrite !andb_true_iff, starts_with_spec, ends_with_spec. split.
  - intros ([rest ->] & [label ->] & Hlabel & Hne). exists label, rest. simpl in *.
    rewrite slength_app, Nat.add_sub, stake_app in Hlabel, Hne.
    split_and!; [done..| |by destruct (find_char "." label)]. intros ->. done.
  - intros (label & rest & -> & -> & Hne & Hdot). split; [by exists rest|]. split; [by exists label|]. simpl.
    rewrite slength_app, Nat.add_sub, stake_app, Hdot. split; [done|]. by destruct label.
Qed.

(** What the loop of [swap_map] builds. *)
Lemma swap_map_fold entries :
  let '(m, first) :=
    fold_left swap_map_entry entries ({| cm_exact := ∅; cm_wildcard := []; cm_default := None |}, None) in
  (forall sni, cm_exact m !! sni =
     snd <$> List.find (fun e => plain_name (e.1) && bool_decide (e.1 = sni)) (rev entries)) /\
  (forall sni, (snd <$> List.find (fun '(suffix, _) => wildcard_covers suffix sni) (cm_wildcard m)) =
     snd <$> List.find (fun e => covers (e.1) sni) entries) /\
  cm_default m = (snd <$> List.find (fun e => is_empty (e.1)) (rev entries)) /\
  first = snd <$> head entries.
Proof.
  induction entries as [|[h key] entries IH] using rev_ind; [split_and!; done|].
  rewrite fold_left_app. destruct (fold_left _ entries _) as [m first]. destruct IH as (He & Hw & Hd & Hf).
  rewrite !rev_app_distr. simpl rev. simpl app. cbn [fold_left swap_map_entry List.find fst].
  assert (Hhead : match first with None => Some key | Some _ => first end = snd <$> head (entries ++ [(h, key)])).
  { subst first. by destruct entries as [|[]]. }
  assert (Hfind : forall sni, covers h sni = false ->
    List.find (fun e : string * CertifiedKey => covers (e.1) sni) (entries ++ [(h, key)]) =
    List.find (fun e => covers (e.1) sni) entries).
  { intros sni Hc. rewrite find_app. simpl. rewrite Hc. by destruct (List.find _ entries). }
  unfold plain_name. destruct (is_empty h) eqn:Hempty; simpl; [|destruct (starts_with "*." h) eqn:Hstar; simpl].
  - split_and!; try done. intros sni. rewrite Hw, Hfind; [done|]. apply is_empty_true in Hempty as ->. done.
  - split_and!; try done. intros sni. rewrite !find_app. simpl.
    specialize (Hw sni). unfold covers at 2. rewrite Hstar. simpl.
    destruct (List.find _ (cm_wildcard m)) as [[]|], (List.find _ entries); simplify_eq/=; try done.
    by destruct (wildcard_covers _ _).
  - split_and!; try done.
    + intros sni. destruct (decide (h = sni)) as [<-|Hne].
      * rewrite lookup_insert_eq, bool_decide_true by done. done.
      * rewrite lookup_insert_ne, bool_decide_false by done. by rewrite He.
    + intros sni. rewrite Hw, Hfind; [done|]. unfold covers. by rewrite Hstar.
Qed.

(** Whether entry [i] of [entries] is the one to answer [sni] with. *)
Definition serves (entries : list (string * CertifiedKey)) (sni : string) (i : nat) (h : string) : Prop :=
  let hosts_at j h' := fst <$> entries !! j = Some h' in
  let unnamed := ~ (plain_name sni = true /\ exists j, hosts_at j sni) in
  let uncovered := forall j h', hosts_at j h' -> covers h' sni = false in
  (h = sni /\ plain_name sni = true /\ forall j, (i < j)%nat -> ~ hosts_at j sni) \/
  (unnamed /\ covers h sni = true /\ forall j h', (j < i)%nat -> hosts_at j h' -> covers h' sni = false) \/
  (unnamed /\ uncovered /\ h = EmptyString /\ forall j, (i < j)%nat -> ~ hosts_at j EmptyString) \/
  (unnamed /\ uncovered /\ (forall j, ~ hosts_at j EmptyString) /\ i = 0%nat).

Lemma fst_lookup_Some (entries : list (string * CertifiedKey)) j h :
  fst <$> entries !! j = Some h -> exists key, entries !! j = Some (h, key).
Proof. destruct (entries !! j) as [[h' key]|]; simpl; [|done]. intros [= ->]. by exists key. Qed.

(** Which certificate a handshake gets.  Among the listeners' certificates:
    the one of the last listener with that very hostname; else the first whose
    wildcard hostname covers the name with exactly one label; else the last
    listener without a hostname; else the first certificate.  There is always
    one, unless there are no certificates. *)
Theorem certificate_selection (challenges : gmap string CertifiedKey) (entries : list (string * CertifiedKey))
  (r : Resolver) (sni : string) (alpn : option (list string))
  (Hentries : entries <> []) (Halpn : rs_tls_alpn01 r = false) :
  exists i h key, entries !! i = Some (h, key) /\ serves entries sni i h /\
    resolve challenges (swap_map entries r) (Some sni) alpn = Some key.
Proof.
  unfold resolve, swap_map, cert_map_of. pose proof (swap_map_fold entries) as Hfold.
  destruct (fold_left _ entries _) as [m first]. destruct Hfold as (He & Hw & Hd & Hf). simpl.
  rewrite Halpn. simpl. rewrite He, Hw, Hd, Hf. clear He Hw Hd Hf m first.
  pose proof (find_last_spec (fun e : string * CertifiedKey => plain_name (e.1) && bool_decide (e.1 = sni)) entries) as H1.
  destruct (List.find _ (rev entries)) as [[h1 k1]|]; simpl.
  { destruct H1 as (i & Hi & [Hp Hh%bool_decide_eq_true]%andb_true_iff & Hafter). simpl in Hp, Hh. subst h1.
    exists i, sni, k1. split_and!; [done| |done]. left. split_and!; [done..|].
    intros j Hj (key & Hk)%fst_lookup_Some. specialize (Hafter j _ Hj Hk). simpl in Hafter.
    by rewrite Hp, bool_decide_true in Hafter. }
  assert (Hun : ~ (plain_name sni = true /\ exists j, fst <$> entries !! j = Some sni)).
  { intros [Hp [j (key & Hk)%fst_lookup_Some]]. specialize (H1 _ (list_elem_of_lookup_2 _ _ _ Hk)). simpl in H1.
    by rewrite Hp, bool_decide_true in H1. }
  pose proof (find_first_spec (fun e : string * CertifiedKey => covers (e.1) sni) entries) as H2.
  destruct (List.find (fun e => covers (e.1) sni) entries) as [[h2 k2]|]; simpl.
  { destruct H2 as (i & Hi & Hc & Hbefore). exists i, h2, k2. split_and!; [done| |done]. right. left.
    split_and!; [done..|]. intros j h' Hj (key & Hk)%fst_lookup_Some. by apply (Hbefore j (h', key)). }
  assert (Huc : forall j h', fst <$> entries !! j = Some h' -> covers h' sni = false).
  { intros j h' (key & Hk)%fst_lookup_Some. by apply (H2 _ (list_elem_of_lookup_2 _ _ _ Hk)). }
  pose proof (find_last_spec (fun e : string * CertifiedKey => is_empty (e.1)) entries) as H3.
  destruct (List.find _ (rev entries)) as [[h3 k3]|]; simpl.
  { destruct H3 as (i & Hi & Hh%is_empty_true & Hafter). simpl in Hh. subst h3. exists i, EmptyString, k3. split_and!; [done| |done].
    right. right. left. split_and!; [done..|]. intros j Hj (key & Hk)%fst_lookup_Some.
    by specialize (Hafter j _ Hj Hk). }
  destruct entries as [|[h0 k0] entries]; [done|]. exists 0%nat, h0, k0. split_and!; [done| |done].
  do 3 right. split_and!; [done..|intros j (key & Hk)%fst_lookup_Some|done].
  by specialize (H3 _ (list_elem_of_lookup_2 _ _ _ Hk)).
Qed.

(** ** Client certificates of a port *)

Section ClientAuth.
Context `{TlsCrates}.

Definition port_spec (specs : list PortClientValidation) (p : Z) : option PortClientValidation :=
  List.find (fun s => pcv_port s =? p) specs.

Lemma keep_first_fold specs out p :
  NoDup (map pcv_port out) ->
  NoDup (map pcv_port (fold_left keep_first_of_port specs out)) /\
  port_spec (fold_left keep_first_of_port specs out) p = port_spec (out ++ specs) p.
Proof.
  revert out. induction specs as [|s specs IH]; intros out Hnd; simpl; [by rewrite app_nil_r|].
  pose proof (find_first_spec (fun e => pcv_port e =? pcv_port s) out) as Hfind.
  destruct (List.find _ out) as [e|] eqn:He.
  - assert (keep_first_of_port out s = out) as -> by (unfold keep_first_of_port; by rewrite He).
    destruct (IH out Hnd) as [Hn ->]. split; [done|]. unfold port_spec. rewrite !find_app.
    destruct (List.find (fun s0 => pcv_port s0 =? p) out) eqn:Hp; [done|]. simpl.
    destruct Hfind as (i & Hi & Heq & _). destruct (Z.eqb_spec (pcv_port s) p) as [<-|]; [|done]. congruence.
  - assert (keep_first_of_port out s = out ++ [s]) as -> by (unfold keep_first_of_port; by rewrite He).
    destruct (IH (out ++ [s])) as [Hn Hp].
    + rewrite map_app. apply NoDup_app. split_and!; [done| |apply NoDup_singleton].
      intros x (e & Hx & Hin)%list_elem_of_fmap Hs%list_elem_of_singleton.
      specialize (Hfind e Hin). lia.
    + split; [done|]. rewrite Hp. by rewrite <- app_assoc.
Qed.

(** A map filled from specs with distinct ports. *)
Lemma build_port_configs_lookup specs p :
  NoDup (map pcv_port specs) ->
  build_port_configs specs !! p = build_client_cert_verifier <$> port_spec specs p.
Proof.
  unfold build_port_configs. induction specs as [|s specs IH] using rev_ind; intros Hnd; [done|].
  rewrite fold_left_app. simpl. rewrite map_app in Hnd. apply NoDup_app in Hnd as (Hnd & Hdis & _).
  unfold port_spec. rewrite find_app. simpl. fold (port_spec specs p). destruct (Z.eqb_spec (pcv_port s) p) as [<-|Hne].
  - rewrite lookup_insert_eq. pose proof (find_first_spec (fun e => pcv_port e =? pcv_port s) specs) as Hf.
    unfold port_spec. destruct (List.find _ specs) as [e|]; [|done]. exfalso. destruct Hf as (i & Hi & Heq & _).
    apply (Hdis (pcv_port s)); [|by left]. apply list_elem_of_fmap. exists e.
    split; [lia|by eapply list_elem_of_lookup_2].
  - rewrite lookup_insert_ne by done. rewrite IH by done. by destruct (port_spec specs p).
Qed.

Lemma port_spec_perm specs specs' p :
  NoDup (map pcv_port specs) -> specs ≡ₚ specs' -> port_spec specs p = port_spec specs' p.
Proof.
  intros Hnd Hperm. unfold port_spec.
  assert (Huniq : forall a b, a ∈ specs -> b ∈ specs -> pcv_port a = pcv_port b -> a = b).
  { intros a b [i Hi]%list_elem_of_lookup [j Hj]%list_elem_of_lookup Hab.
    assert (i = j) as ->; [|congruence]. eapply (NoDup_lookup (map pcv_port specs) i j (pcv_port a)); [done|..];
      apply list_lookup_fmap_Some; eauto. }
  pose proof (find_first_spec (fun s => pcv_port s =? p) specs) as H1.
  pose proof (find_first_spec (fun s => pcv_port s =? p) specs') as H2.
  destruct (List.find _ specs) as [a|], (List.find _ specs') as [b|]; [|exfalso|exfalso|done].
  - destruct H1 as (i & Hi & Ha & _), H2 as (j & Hj & Hb & _). f_equal. apply Huniq; [|rewrite Hperm|lia];
      by eapply list_elem_of_lookup_2.
  - destruct H1 as (i & Hi & Ha & _). apply list_elem_of_lookup_2 in Hi. rewrite Hperm in Hi. specialize (H2 a Hi). lia.
  - destruct H2 as (j & Hj & Hb & _). apply list_elem_of_lookup_2 in Hj. rewrite <- Hperm in Hj. specialize (H1 b Hj). lia.
Qed.

(** The first usable policy of a port governs it. *)
Lemma port_policy listeners p :
  build_port_configs (client_validation_from_listeners listeners) !! p =
  build_client_cert_verifier <$> port_spec (omap listener_validation listeners) p.
Proof.
  unfold client_validation_from_listeners. set (kept := fold_left _ _ _).
  destruct (keep_first_fold (omap listener_validation listeners) [] p ltac:(constructor)) as [Hnd Hspec]. fold kept in Hnd, Hspec.
  rewrite build_port_configs_lookup by (by rewrite sort_by_perm).
  simpl in Hspec. rewrite <- Hspec. f_equal. apply port_spec_perm; rewrite sort_by_perm; done.
Qed.

End ClientAuth.

(** ** The reload thread *)

Section ReloadRuns.
Context `{TlsCrates} (hash_entry : TlsCertEntry -> Z) (hash_validation : PortClientValidation -> Z).

Let fp := fingerprint_of hash_entry hash_validation.

(** The thread after reading the given contents of the slot. *)
Definition reload_run (initial : Resolver) (slots : list (option TlsCertData)) : ReloadState :=
  fold_left (fun st slot => reload_pass hash_entry hash_validation slot st) slots (reload_start initial).

(** What the thread serves for the contents [d]. *)
Definition serving (d : TlsCertData) (st : ReloadState) : Prop :=
  rs_cert_map (rl_resolver st) = cert_map_of (loaded_entries (td_entries d)) /\
  rl_port_configs st = build_port_configs (td_client_validation d).

Lemma reload_pass_serving d st :
  loaded_entries (td_entries d) <> [] -> rl_last_fingerprint st <> Some (fp d) ->
  rl_last_fingerprint (reload_pass hash_entry hash_validation (Some d) st) = Some (fp d) /\
  serving d (reload_pass hash_entry hash_validation (Some d) st).
Proof.
  intros Hload Hfp. unfold reload_pass. rewrite decide_False by done. unfold serving.
  destruct (loaded_entries (td_entries d)); [done|]. split_and!; done.
Qed.

(** The remembered fingerprint is that of contents the thread serves. *)
Lemma reload_run_inv initial slots :
  match rl_last_fingerprint (reload_run initial slots) with
  | None => True
  | Some f => exists d, Some d ∈ slots /\ fp d = f /\ serving d (reload_run initial slots)
  end.
Proof.
  induction slots as [|slot slots IH] using rev_ind; [done|].
  unfold reload_run in *. rewrite fold_left_app. simpl. set (st := fold_left _ slots _) in *.
  assert (Hkeep : match rl_last_fingerprint st with
    | None => True | Some f => exists d, Some d ∈ slots ++ [slot] /\ fp d = f /\ serving d st end).
  { destruct (rl_last_fingerprint st); [|done]. destruct IH as (d & Hd & ? & ?). exists d.
    split; [by apply elem_of_app; left|done]. }
  destruct slot as [d|]; [|done].
  destruct (decide (rl_last_fingerprint st = Some (fp d))) as [Heq|Hne].
  { unfold reload_pass. by rewrite decide_True by done. }
  destruct (decide (loaded_entries (td_entries d) = [])) as [He|He].
  { unfold reload_pass. rewrite decide_False by done. by rewrite He. }
  destruct (reload_pass_serving d st He Hne) as [-> Hs]. exists d.
  split; [|done]. apply elem_of_app. right. by left.
Qed.

(** Skipping unchanged contents is sound.  Whatever the thread read before,
    after a pass over contents with a loadable certificate it serves exactly
    these contents, provided no other contents it read have the same
    fingerprint. *)
Theorem reload_serves_slot (initial : Resolver) (slots : list (option TlsCertData)) (d : TlsCertData)
  (Hload : loaded_entries (td_entries d) <> [])
  (Hdistinct : forall d', Some d' ∈ slots -> fingerprint_of hash_entry hash_validation d' =
                          fingerprint_of hash_entry hash_validation d -> d' = d) :
  let st := reload_run initial (slots ++ [Some d]) in
  rs_cert_map (rl_resolver st) = cert_map_of (loaded_entries (td_entries d)) /\
  rl_port_configs st = build_port_configs (td_client_validation d).
Proof.
  pose proof (reload_run_inv initial slots) as Hinv. cbv zeta. unfold reload_run in *.
  rewrite fold_left_app. simpl. set (st := fold_left _ slots _) in *.
  destruct (decide (rl_last_fingerprint st = Some (fp d))) as [Heq|Hne]; [|by apply reload_pass_serving].
  rewrite Heq in Hinv. destruct Hinv as (d' & Hin & Hfp & Hs). apply Hdistinct in Hfp as ->; [|done].
  unfold reload_pass. rewrite decide_True by done. exact Hs.
Qed.
End ReloadRuns.

(** ** Concrete certificates *)

Module Sample.

#[local] Instance crates : TlsCrates := {|
  pem_certs pem := [Some pem];
  pem_private_key pem := Some (Some pem);
  key_supported _ := true;
  root_add_ok _ := true;
  verifier_builds _ := true;
  chain_verifies roots cert _ := bool_decide (cert ∈ roots);
|}.

Definition cert (name : string) : CertifiedKey := {| ck_certs := [name]; ck_key := name |}.

Definition sample_entries : list (string * CertifiedKey) :=
  [("*.example.com", cert "wild"); ("a.example.com", cert "old"); (EmptyString, cert "any"); ("a.example.com", cert "new")].

Lemma certificate_selection_witness :
  exists i h key, sample_entries !! i = Some (h, key) /\ serves sample_entries "b.example.com" i h /\
    resolve ∅ (swap_map sample_entries (Resolver_new (cert "boot"))) (Some "b.example.com") None = Some key.
Proof. apply (certificate_selection ∅ sample_entries (Resolver_new (cert "boot")) "b.example.com" None); done. Defined.

(** The selections the theorem describes, evaluated. *)
Lemma sample_selections :
  map (fun sni => resolve ∅ (swap_map sample_entries (Resolver_new (cert "boot"))) (Some sni) None)
    ["a.example.com"; "b.example.com"; "x.b.example.com"; "example.com"] =
  [Some (cert "new"); Some (cert "wild"); Some (cert "any"); Some (cert "any")].
Proof. vm_compute. reflexivity. Qed.

Definition data (cert key : string) : TlsCertData :=
  {| td_entries := [{| te_hostname := EmptyString; te_cert_pem := cert; te_key_pem := key |}];
     td_client_validation := [] |}.

Definition length_hash (e : TlsCertEntry) : Z := Z.of_nat (String.length (te_cert_pem e)).

Lemma reload_serves_slot_witness :
  rs_cert_map (rl_resolver (reload_run length_hash (fun _ => 0) (Resolver_new (cert "boot")) ([Some (data "c1" "k")] ++ [Some (data "c22" "k")])))
    = cert_map_of (loaded_entries (td_entries (data "c22" "k"))) /\
  rl_port_configs (reload_run length_hash (fun _ => 0) (Resolver_new (cert "boot")) ([Some (data "c1" "k")] ++ [Some (data "c22" "k")]))
    = build_port_configs (td_client_validation (data "c22" "k")).
Proof.
  apply (reload_serves_slot length_hash (fun _ => 0) (Resolver_new (cert "boot")) [Some (data "c1" "k")] (data "c22" "k")).
  - vm_compute. congruence.
  - intros d' Hin Hfp. apply list_elem_of_singleton in Hin. injection Hin as ->. exfalso. vm_compute in Hfp. discriminate.
Defined.

End Sample.
