(* ===== verification/L4.v ===== *)
(** * Layer-4 listeners

    [portus-dataplane-core/src/l4_proxy.rs] and the part of
    [config_receiver.rs] that builds its configuration: weighted backends of a
    TCP or UDP route, the decision by server name of a TLS listener, the role
    of a port, what becomes of a connection, and the manager that keeps the
    bound ports in step with the configuration.  Copying bytes between sockets
    is not modelled. *)
From S2P Require Import Prelude Text Net Pool Proto Tls.

(** ** Weighted targets *)

Record L4Backend := {
  l4b_service : string;
  l4b_port : Z;
  l4b_weight : Z;
}.

(** [L4RouteTarget]; the counter is its [AtomicU64]. *)
Record L4RouteTarget := {
  rt_backends : list L4Backend;
  rt_total_weight : Z;
  rt_counter : Z;
}.

Definition L4RouteTarget_new (backends : list L4Backend) : L4RouteTarget :=
  {| rt_backends := backends;
     rt_total_weight := fold_left (fun acc b => as_u 64 (acc + l4b_weight b)) backends 0;
     rt_counter := 0 |}.

Fixpoint select_from (backends : list L4Backend) (cumulative n : Z) : option L4Backend :=
  match backends with
  | [] => None
  | b :: backends =>
      let cumulative := cumulative + l4b_weight b in
      if n <? cumulative then Some b else select_from backends cumulative n
  end.

(** [L4RouteTarget::select] *)
Definition L4RouteTarget_select (t : L4RouteTarget) : option L4Backend * L4RouteTarget :=
  if rt_total_weight t =? 0 then (None, t)
  else
    let n := rt_counter t mod rt_total_weight t in
    (select_from (rt_backends t) 0 n,
     {| rt_backends := rt_backends t; rt_total_weight := rt_total_weight t;
        rt_counter := wrapping_add 64 (rt_counter t) 1 |}).

(** ** The configuration *)

Inductive TlsMode := Passthrough | Terminate.

#[export] Instance TlsMode_eq_dec : EqDecision TlsMode.
Proof. solve_decision. Defined.

Record TlsPassthroughListener := {
  tl_hostname : string;
  tl_routes : gmap string (string * Z);
  tl_tls_mode : TlsMode;
  tl_cert : option CertifiedKey;
  tl_listener_port : Z;
}.

Record L4Config := {
  tls_listeners : list TlsPassthroughListener;
  tcp_proxy : gmap Z L4RouteTarget;
  udp_proxy : gmap Z L4RouteTarget;
  http_ports : gset Z;
  https_ports : gset Z;
  tls_ports : gset Z;
  tcp_ports : gset Z;
  udp_ports : gset Z;
}.

(** ** Decision by server name *)

Inductive MuxDecision :=
| MuxPassthrough (service : string) (port : Z)
| MuxTerminate
| MuxTlsTerminate (service : string) (port : Z) (cert : CertifiedKey)
| MuxReject.

(** [str::matches('.').count()] *)
Fixpoint count_char (c : ascii) (s : string) : nat :=
  match s with
  | EmptyString => 0
  | String d s => (if decide (d = c) then 1 else 0) + count_char c s
  end.

(** [listener_matches_sni] *)
Definition listener_matches_sni (listener_hostname sni : string) : bool * nat :=
  if is_empty listener_hostname then (true, 1%nat)
  else if starts_with "*." listener_hostname then
    let suffix := sdrop 1 listener_hostname in
    if ends_with suffix sni && (String.length suffix <? String.length sni)%nat
    then (true, (count_char "." suffix + 2)%nat)
    else (false, 0%nat)
  else if eq_ignore_ascii_case sni listener_hostname then (true, 1000%nat)
  else (false, 0%nat).

(** One round of the loop of [find_best_matching_listener]. *)
Definition better_listener (sni : string) (acc : option TlsPassthroughListener * nat)
  (listener : TlsPassthroughListener) : option TlsPassthroughListener * nat :=
  let '(best, best_specificity) := acc in
  let '(matches, specificity) := listener_matches_sni (tl_hostname listener) sni in
  if matches && (best_specificity <=? specificity)%nat then
    if (best_specificity <? specificity)%nat || bool_decide (best = None)
    then (Some listener, specificity)
    else acc
  else acc.

Definition find_best_matching_listener (sni : string) (listeners : list TlsPassthroughListener)
  : option TlsPassthroughListener :=
  (fold_left (better_listener sni) listeners (None, 0%nat)).1.

(** [lookup_route_in_listener]: the loop over the dots, at most one round per
    byte. *)
Fixpoint wildcard_route_loop (fuel : nat) (search : string) (routes : gmap string (string * Z))
  : option (string * Z) :=
  match fuel with
  | O => None
  | S fuel =>
      match find_char "." search with
      | None => None
      | Some dot =>
          match routes !! ("*." +:+ sdrop (dot + 1) search) with
          | Some backend => Some backend
          | None => wildcard_route_loop fuel (sdrop (dot + 1) search) routes
          end
      end
  end.

Definition lookup_route_in_listener (sni : string) (routes : gmap string (string * Z)) : option (string * Z) :=
  match routes !! sni with
  | Some backend => Some backend
  | None => wildcard_route_loop (S (String.length sni)) sni routes
  end.

(** [sni_mux_decision_over] *)
Definition listener_decision (listener : TlsPassthroughListener) (hostname : string) : MuxDecision :=
  match lookup_route_in_listener hostname (tl_routes listener) with
  | Some (service, port) =>
      match tl_tls_mode listener with
      | Passthrough => MuxPassthrough service port
      | Terminate =>
          match tl_cert listener with
          | Some cert => MuxTlsTerminate service port cert
          | None => MuxReject
          end
      end
  | None => MuxReject
  end.

Definition sni_mux_decision_over (listeners : list TlsPassthroughListener) (sni : option string) : MuxDecision :=
  match sni with
  | None => MuxTerminate
  | Some hostname =>
      if is_empty hostname then MuxTerminate
      else
        match find_best_matching_listener hostname listeners with
        | Some listener => listener_decision listener hostname
        | None => MuxTerminate
        end
  end.

(** Listeners without a port match any port. *)
Definition on_port (port : Z) (l : TlsPassthroughListener) : bool :=
  (tl_listener_port l =? port) || (tl_listener_port l =? 0).

(** [sni_mux_decision_for_port] *)
Definition sni_mux_decision_for_port (cfg : L4Config) (sni : option string) (port : Z) : MuxDecision :=
  sni_mux_decision_over (List.filter (on_port port) (tls_listeners cfg)) sni.

(** ** Ports *)

Definition RESERVED_PORTS : list Z := [8081; 9090].

(** [desired_l4_ports], [desired_udp_ports] *)
Definition desired_l4_ports (cfg : L4Config) : gset Z :=
  filter (fun p => p <> 0 /\ p ∉ RESERVED_PORTS)
    (dom (tcp_proxy cfg) ∪ http_ports cfg ∪ https_ports cfg ∪ tls_ports cfg ∪ tcp_ports cfg ∪
     list_to_set (List.filter (fun p => p >? 0) (map tl_listener_port (tls_listeners cfg)))).

Definition desired_udp_ports (cfg : L4Config) : gset Z :=
  filter (fun p => p <> 0) (dom (udp_proxy cfg) ∪ udp_ports cfg).

Inductive PortRole := RoleTcp | RoleHttp | RoleTls.

(** [port_role] *)
Definition port_role (cfg : L4Config) (port : Z) : PortRole :=
  if bool_decide (port ∈ dom (tcp_proxy cfg)) || bool_decide (port ∈ tcp_ports cfg) then RoleTcp
  else
    let has_tls_listener := existsb (on_port port) (tls_listeners cfg) in
    if bool_decide (port ∈ https_ports cfg) || bool_decide (port ∈ tls_ports cfg) || has_tls_listener then RoleTls
    else if bool_decide (port ∈ http_ports cfg) then RoleHttp
    else RoleTls.

(** ** Connections *)

(** [ClientHelloPeek]; a peek that fails is an error of the connection. *)
Inductive ClientHelloPeek :=
| Complete (sni : option string)
| Incomplete
| NotTls.

Inductive L4Error :=
| NoWeightedBackend
| NoEndpoints (service : string) (port : Z)
| PeekFailed.

(** What [handle_l4_connection] does with the socket: drop it, connect it to
    a backend (decrypting first or not), or hand it to the network stack. *)
Inductive L4Outcome :=
| Dropped
| ProxyTo (addr : string)
| TerminateTo (cert : CertifiedKey) (addr : string)
| ToHttpStack
| ToHttpsStack
| Failed (e : L4Error).

Definition set_tcp_proxy (cfg : L4Config) (m : gmap Z L4RouteTarget) : L4Config :=
  {| tls_listeners := tls_listeners cfg; tcp_proxy := m; udp_proxy := udp_proxy cfg;
     http_ports := http_ports cfg; https_ports := https_ports cfg; tls_ports := tls_ports cfg;
     tcp_ports := tcp_ports cfg; udp_ports := udp_ports cfg |}.

(** The pools of the services, shared with the HTTP side. *)
Definition lb_map : Type := gmap (string * Z) positive.
Definition pools : Type := gmap positive Pool.

(** [resolve_backend] *)
Definition resolve_backend (lbs : lb_map) (ps : pools) (service : string) (port : Z) : option string * pools :=
  match lbs !! (service, port) with
  | None => (None, ps)
  | Some ref =>
      match ps !! ref with
      | None => (None, ps)
      | Some pool =>
          let '(addr, pool) := Pool_select pool in (show_socket_addr <$> addr, <[ref := pool]> ps)
      end
  end.

(** Connect to a backend of a service, or fail for lack of endpoints. *)
Definition connect_to (lbs : lb_map) (ps : pools) (service : string) (port : Z) (k : string -> L4Outcome)
  : L4Outcome * pools :=
  let '(addr, ps) := resolve_backend lbs ps service port in
  (match addr with Some addr => k addr | None => Failed (NoEndpoints service port) end, ps).

(** The branch of a TCP route; [select] advances the target's counter. *)
Definition handle_tcp (cfg : L4Config) (lbs : lb_map) (ps : pools) (port : Z) : L4Outcome * L4Config * pools :=
  match tcp_proxy cfg !! port with
  | None => (Dropped, cfg, ps)
  | Some target =>
      let '(backend, target) := L4RouteTarget_select target in
      let cfg := set_tcp_proxy cfg (<[port := target]> (tcp_proxy cfg)) in
      match backend with
      | None => (Failed NoWeightedBackend, cfg, ps)
      | Some b => let '(out, ps) := connect_to lbs ps (l4b_service b) (l4b_port b) ProxyTo in (out, cfg, ps)
      end
  end.

Definition handle_tls (cfg : L4Config) (lbs : lb_map) (ps : pools) (port : Z) (sni : option string)
  : L4Outcome * pools :=
  match sni_mux_decision_for_port cfg sni port with
  | MuxPassthrough service backend_port => connect_to lbs ps service backend_port ProxyTo
  | MuxTlsTerminate service backend_port cert => connect_to lbs ps service backend_port (TerminateTo cert)
  | MuxTerminate => (if bool_decide (port ∈ https_ports cfg) then ToHttpsStack else Dropped, ps)
  | MuxReject => (Dropped, ps)
  end.

(** [handle_l4_connection], given what peeking at the connection would show. *)
Definition handle_l4_connection (cfg : L4Config) (lbs : lb_map) (ps : pools) (port : Z)
  (peek : option ClientHelloPeek) : L4Outcome * L4Config * pools :=
  match port_role cfg port with
  | RoleTcp => handle_tcp cfg lbs ps port
  | RoleHttp => (ToHttpStack, cfg, ps)
  | RoleTls =>
      match peek with
      | None => (Failed PeekFailed, cfg, ps)
      | Some hello =>
          let sni := match hello with Complete sni => sni | Incomplete => None | NotTls => None end in
          let '(out, ps) := handle_tls cfg lbs ps port sni in (out, cfg, ps)
      end
  end.

(** ** Building the configuration *)

Section BuildL4.
Context `{TlsCrates}.

Record ListenerBuild := {
  lbd_routes : gmap string (string * Z);
  lbd_tls_mode : TlsMode;
  lbd_cert : option CertifiedKey;
  lbd_listener_port : Z;
}.

Definition route_tls_mode (r : TlsPassthroughRoute) : TlsMode :=
  if decide (tpr_tls_mode r = "Terminate") then Terminate else Passthrough.

Definition route_cert (r : TlsPassthroughRoute) : option CertifiedKey :=
  if bool_decide (route_tls_mode r = Terminate) && negb (is_empty (tpr_cert_pem r)) && negb (is_empty (tpr_key_pem r))
  then match load_certified_key_from_pem (tpr_cert_pem r) (tpr_key_pem r) with Ok ck => Some ck | Err _ => None end
  else None.

(** One round of the loop over the TLS routes: the entry of the listener
    hostname, created by its first route, takes a certificate and a port when
    it has none, and the host names of the route. *)
Definition new_listener (r : TlsPassthroughRoute) : ListenerBuild :=
  {| lbd_routes := ∅; lbd_tls_mode := route_tls_mode r; lbd_cert := route_cert r;
     lbd_listener_port := as_u 16 (tpr_listener_port r) |}.

Definition update_listener (r : TlsPassthroughRoute) (entry : ListenerBuild) : ListenerBuild :=
  {| lbd_routes :=
       fold_left (fun m h => <[h := (tpr_backend_service r, as_u 16 (tpr_backend_port r))]> m)
         (tpr_sni_hostnames r) (lbd_routes entry);
     lbd_tls_mode := lbd_tls_mode entry;
     lbd_cert := match route_cert r, lbd_cert entry with
                 | Some cert, None => Some cert
                 | _, old => old
                 end;
     lbd_listener_port :=
       if (lbd_listener_port entry =? 0) && (tpr_listener_port r >? 0)
       then as_u 16 (tpr_listener_port r) else lbd_listener_port entry |}.

Definition add_tls_route (m : gmap string ListenerBuild) (r : TlsPassthroughRoute) : gmap string ListenerBuild :=
  let entry := default (new_listener r) (m !! tpr_listener_hostname r) in
  <[tpr_listener_hostname r := update_listener r entry]> m.

(** A TLS listener hostname without routes; it has no port. *)
Definition add_bare_listener (m : gmap string ListenerBuild) (lh : string) : gmap string ListenerBuild :=
  match m !! lh with
  | Some _ => m
  | None => <[lh := {| lbd_routes := ∅; lbd_tls_mode := Passthrough; lbd_cert := None; lbd_listener_port := 0 |}]> m
  end.

Definition listeners_map (config : CompiledConfig) : gmap string ListenerBuild :=
  fold_left add_bare_listener (cc_tls_passthrough_listener_hostnames config)
    (fold_left add_tls_route (cc_tls_passthrough_routes config) ∅).

Definition finish_listener (entry : string * ListenerBuild) : TlsPassthroughListener :=
  let '(hostname, build) := entry in
  {| tl_hostname := hostname; tl_routes := lbd_routes build; tl_tls_mode := lbd_tls_mode build;
     tl_cert := lbd_cert build; tl_listener_port := lbd_listener_port build |}.

(** [l4_targets]; a later route of a port replaces an earlier one. *)
Definition l4_target (route : L4ProxyRoute) : L4RouteTarget :=
  L4RouteTarget_new (map (fun b => {| l4b_service := wbp_service_name b; l4b_port := as_u 16 (wbp_port b);
                                      l4b_weight := wbp_weight b |}) (lpr_backends route)).

Definition l4_targets (routes : list L4ProxyRoute) : gmap Z L4RouteTarget :=
  fold_left (fun m route => <[as_u 16 (lpr_listener_port route) := l4_target route]> m) routes ∅.

(** The ports of the listeners of a protocol. *)
Definition ports_with (protocol : string) (listeners : list Listener) : gset Z :=
  list_to_set (omap (fun l =>
    if (ls_port l <? 2 ^ 16) && negb (ls_port l =? 0) && bool_decide (ls_protocol l = protocol)
    then Some (ls_port l) else None) listeners).

(** [build_l4_config_from_proto] *)
Definition build_l4_config (config : CompiledConfig) : L4Config :=
  {| tls_listeners := map finish_listener (map_to_list (listeners_map config));
     tcp_proxy := l4_targets (cc_tcp_proxy_routes config); udp_proxy := l4_targets (cc_udp_proxy_routes config);
     http_ports := ports_with "HTTP" (cc_listeners config); https_ports := ports_with "HTTPS" (cc_listeners config);
     tls_ports := ports_with "TLS" (cc_listeners config); tcp_ports := ports_with "TCP" (cc_listeners config);
     udp_ports := ports_with "UDP" (cc_listeners config) |}.
End BuildL4.

(** ** The listener manager *)

(** The tasks serving the bound ports, by port: whether the task has ended.
    The configuration is compared by identity ([Arc::ptr_eq]). *)
Record Manager := {
  mg_bound : gmap Z bool;
  mg_bound_udp : gmap Z bool;
  mg_last_cfg : option positive;
}.

Definition Manager_new : Manager := {| mg_bound := ∅; mg_bound_udp := ∅; mg_last_cfg := None |}.

Definition any_finished (bound : gmap Z bool) : bool := existsb snd (map_to_list bound).

(** Release ports that are no longer wanted, then bind the wanted ones that
    have no live task; [bind] tells which attempts succeed. *)
Definition bind_port (bind : Z -> bool) (bound : gmap Z bool) (port : Z) : gmap Z bool :=
  if decide (bound !! port = Some false) then bound
  else if bind port then <[port := false]> bound else bound.

Definition reconcile_ports (bind : Z -> bool) (desired : gset Z) (bound : gmap Z bool) : gmap Z bool :=
  fold_left (bind_port bind) (elements desired) (filter (fun '(p, _) => p ∈ desired) bound).

(** One round of the loop of [run_l4_proxy]. *)
Definition manager_round (bind bind_udp : Z -> bool) (cfg_id : positive) (cfg : L4Config) (m : Manager) : Manager :=
  let cfg_changed := negb (bool_decide (mg_last_cfg m = Some cfg_id)) in
  let any_dead := any_finished (mg_bound m) || any_finished (mg_bound_udp m) in
  if cfg_changed || any_dead then
    {| mg_bound := reconcile_ports bind (desired_l4_ports cfg) (mg_bound m);
       mg_bound_udp := reconcile_ports bind_udp (desired_udp_ports cfg) (mg_bound_udp m);
       mg_last_cfg := Some cfg_id |}
  else m.

(** ** Weighted selection *)

Lemma select_from_find backends cumulative n :
  select_from backends cumulative n = cumulative_find l4b_weight backends cumulative n.
Proof. reflexivity. Qed.

(** Weighted round robin of a TCP or UDP route is exact.  Over as many
    connections as the weights sum to, from any point on, every backend is
    chosen exactly as often as its weight. *)
Theorem l4_select_exact (backends : list L4Backend) (counter : Z)
  (Hweights : Forall (fun b => 0 <= l4b_weight b) backends)
  (Htotal : 0 < total_by l4b_weight backends < 2 ^ 64)
  (Hcounter : 0 <= counter) (Hwrap : counter + total_by l4b_weight backends < 2 ^ 64) :
  calls L4RouteTarget_select (Z.to_nat (total_by l4b_weight backends))
    {| rt_backends := backends; rt_total_weight := rt_total_weight (L4RouteTarget_new backends); rt_counter := counter |}
  ≡ₚ map Some (expand_by l4b_weight backends).
Proof.
  unfold L4RouteTarget_new. simpl. rewrite sum_by_total by (done || lia).
  set (n := total_by l4b_weight backends) in *.
  rewrite (calls_counter _ (fun z => {| rt_backends := backends; rt_total_weight := n; rt_counter := z |})
    (fun z => expand_by l4b_weight backends !! Z.to_nat (z mod n)) _ counter); [|intros z Hz|done|lia].
  - by apply (weighted_period l4b_weight backends (fun z => expand_by l4b_weight backends !! Z.to_nat (z mod n))).
  - unfold L4RouteTarget_select. simpl. rewrite (proj2 (Z.eqb_neq _ 0)) by lia.
    pose proof (Z.mod_pos_bound z n). rewrite select_from_find, cumulative_find_expand by (done || lia).
    by rewrite Z.sub_0_r.
Qed.

(** ** Which listener decides *)

(** A listener claims a server name: it names no host, a wildcard above the
    name, or the name itself in any case. *)
Definition claims (h sni : string) : Prop :=
  h = EmptyString \/
  (exists label rest, h = "*." +:+ rest /\ sni = label +:+ "." +:+ rest /\ label <> EmptyString) \/
  (plain_name h = true /\ to_ascii_lowercase sni = to_ascii_lowercase h).

(** How specific a listener's hostname is: none, then longer wildcards, then
    names. *)
Definition hostname_rank (h : string) : nat :=
  if is_empty h then 0 else if starts_with "*." h then String.length h else 1000.

Lemma matches_claims h sni : (listener_matches_sni h sni).1 = true <-> claims h sni.
Proof.
  unfold listener_matches_sni, claims, plain_name. destruct (is_empty h) eqn:He.
  { apply is_empty_true in He as ->. split; [by left|done]. }
  destruct (starts_with "*." h) eqn:Hs.
  - apply starts_with_spec in Hs as [rest ->]. simpl.
    destruct (_ && _) eqn:Hm; simpl; (split; try done).
    + intros _. right. left. apply andb_true_iff in Hm as [[label ->]%ends_with_spec Hl%Nat.ltb_lt].
      exists label, rest. split_and!; [done..|]. intros ->. simpl in Hl. lia.
    + intros [Hx|[(label & rest' & Hh & -> & Hne)|[Hx _]]]; [done| |done]. simplify_eq/=.
      exfalso. apply andb_false_iff in Hm as [Hm|Hm%Nat.ltb_ge].
      * assert (ends_with (String "." rest') (label +:+ String "." rest') = true) by (apply ends_with_spec; by exists label).
        congruence.
      * rewrite slength_app in Hm. destruct label; [done|]. simpl in Hm. lia.
  - unfold eq_ignore_ascii_case. destruct (bool_decide _) eqn:Hd; bool_to_prop; simpl; (split; try done).
    + intros _. right. right. done.
    + intros [->|[(label & rest & -> & _)|[_ Hx]]]; done.
Qed.

Lemma count_char_le c s : (count_char c s <= String.length s)%nat.
Proof. induction s as [|d s IH]; simpl; [lia|]. destruct (decide (d = c)); lia. Qed.

Lemma count_char_app c a b : count_char c (a +:+ b) = (count_char c a + count_char c b)%nat.
Proof. induction a as [|d a IH]; simpl; [done|]. rewrite IH. lia. Qed.

(** Of two suffixes at a dot the longer has more dots. *)
Lemma suffix_dots a b x y :
  a +:+ String "." x = b +:+ String "." y -> (String.length x < String.length y)%nat ->
  (count_char "." x < count_char "." y)%nat.
Proof.
  revert b. induction a as [|c a IH]; intros b Heq Hl; simpl in Heq.
  - destruct b as [|d b]; simpl in Heq; simplify_eq; [lia|]. rewrite slength_app in Hl. simpl in Hl. lia.
  - destruct b as [|d b]; simpl in Heq; simplify_eq; [|by apply (IH b)].
    rewrite count_char_app. simpl. lia.
Qed.

(** The numeric score orders claiming listeners by rank. *)
Lemma specificity_rank h h' sni :
  claims h sni -> claims h' sni -> (String.length sni <= 253)%nat ->
  ((listener_matches_sni h sni).2 <= (listener_matches_sni h' sni).2)%nat ->
  (hostname_rank h <= hostname_rank h')%nat.
Proof.
  assert (Hscore : forall h, claims h sni -> (String.length sni <= 253)%nat ->
    (h = EmptyString /\ (listener_matches_sni h sni).2 = 1%nat) \/
    (exists label rest, h = "*." +:+ rest /\ sni = label +:+ "." +:+ rest /\
       (listener_matches_sni h sni).2 = (count_char "." rest + 3)%nat /\ (String.length rest < 252)%nat) \/
    (plain_name h = true /\ (listener_matches_sni h sni).2 = 1000%nat)).
  { clear. intros h Hc Hl. pose proof (proj2 (matches_claims h sni) Hc) as Hm. unfold claims in Hc.
    destruct Hc as [->|[(label & rest & -> & -> & Hne)|[Hp Hx]]]; [by left|right; left|right; right].
    - exists label, rest. revert Hm. unfold listener_matches_sni. simpl. destruct (_ && _); [|done]. intros _. simpl.
      rewrite slength_app in Hl. destruct label; [done|]. simpl in Hl. split_and!; [done..|lia|lia].
    - split; [done|]. revert Hm. unfold listener_matches_sni. unfold plain_name in Hp.
      apply andb_true_iff in Hp as [->%negb_true_iff ->%negb_true_iff]. by destruct (eq_ignore_ascii_case _ _). }
  intros Hc Hc' Hl. unfold hostname_rank, plain_name in *.
  destruct (Hscore h Hc Hl) as [[-> ->]|[(l1 & r1 & -> & Hs1 & -> & Hb1)|[Hp ->]]]; [simpl; lia| |];
  destruct (Hscore h' Hc' Hl) as [[-> ->]|[(l2 & r2 & -> & Hs2 & -> & Hb2)|[Hp' ->]]]; simpl; try lia.
  - intros Hle. destruct (Nat.le_gt_cases (String.length r1) (String.length r2)) as [|Hgt]; [lia|].
    rewrite Hs1 in Hs2. pose proof (suffix_dots l2 l1 r2 r1 (eq_sym Hs2) Hgt). lia.
  - intros _. apply andb_true_iff in Hp' as [->%negb_true_iff ->%negb_true_iff]. lia.
  - pose proof (count_char_le "." r2). lia.
  - intros _. apply andb_true_iff in Hp' as [->%negb_true_iff ->%negb_true_iff].
    apply andb_true_iff in Hp as [->%negb_true_iff ->%negb_true_iff]. lia.
Qed.

Lemma matches_positive h sni : (listener_matches_sni h sni).1 = true -> (0 < (listener_matches_sni h sni).2)%nat.
Proof. unfold listener_matches_sni. repeat case_match; simpl; (done || lia). Qed.

(** What the loop keeps: nothing while nothing claims the name, else a
    claiming listener of the greatest score. *)
Lemma best_listener_fold sni listeners :
  let '(best, score) := fold_left (better_listener sni) listeners (None, 0%nat) in
  match best with
  | None => score = 0%nat /\ forall l, l ∈ listeners -> ~ claims (tl_hostname l) sni
  | Some b => b ∈ listeners /\ claims (tl_hostname b) sni /\ score = (listener_matches_sni (tl_hostname b) sni).2 /\
      forall l, l ∈ listeners -> claims (tl_hostname l) sni -> ((listener_matches_sni (tl_hostname l) sni).2 <= score)%nat
  end.
Proof.
  induction listeners as [|l ls IH] using rev_ind; [split; [done|by intros ? ?%elem_of_nil]|].
  rewrite fold_left_app. simpl. destruct (fold_left _ ls _) as [best score]. unfold better_listener.
  pose proof (matches_claims (tl_hostname l) sni) as Hm. pose proof (matches_positive (tl_hostname l) sni) as Hpos.
  assert (Hnew : claims (tl_hostname l) sni -> (score <= (listener_matches_sni (tl_hostname l) sni).2)%nat ->
    (forall l0, l0 ∈ ls -> claims (tl_hostname l0) sni -> ((listener_matches_sni (tl_hostname l0) sni).2 <= score)%nat) ->
    forall l0, l0 ∈ ls ++ [l] -> claims (tl_hostname l0) sni ->
      ((listener_matches_sni (tl_hostname l0) sni).2 <= (listener_matches_sni (tl_hostname l) sni).2)%nat).
  { intros _ Hle Hmax l0 [Hin0| ->%list_elem_of_singleton]%elem_of_app Hc; [|lia]. specialize (Hmax l0 Hin0 Hc). lia. }
  assert (Hl : l ∈ ls ++ [l]) by (apply elem_of_app; right; by left).
  assert (Hold : forall b, b ∈ ls -> b ∈ ls ++ [l]) by (intros b Hb; apply elem_of_app; by left).
  destruct (listener_matches_sni (tl_hostname l) sni) as [matches s] eqn:Hml. simpl in *.
  destruct matches; simpl.
  - specialize (Hpos eq_refl). pose proof (proj1 Hm eq_refl) as Hc.
    destruct best as [b|]; simpl.
    + destruct IH as (Hb & Hcb & -> & Hmax).
      destruct (Nat.leb_spec (listener_matches_sni (tl_hostname b) sni).2 s); [destruct (Nat.ltb_spec (listener_matches_sni (tl_hostname b) sni).2 s)|]; simpl.
      * rewrite Hml. split_and!; [done..|]. by apply Hnew.
      * split_and!; [by apply Hold|done..|]. intros l0 [Hin0| ->%list_elem_of_singleton]%elem_of_app Hc0; [by apply Hmax|].
        rewrite Hml. simpl. lia.
      * split_and!; [by apply Hold|done..|]. intros l0 [Hin0| ->%list_elem_of_singleton]%elem_of_app Hc0; [by apply Hmax|].
        rewrite Hml. simpl. lia.
    + destruct IH as [-> Hnone]. simpl. rewrite orb_true_r, Hml. simpl.
      split_and!; [done..|]. apply Hnew; [done|lia|]. intros l0 Hin0 Hc0. by destruct (Hnone l0 Hin0).
  - assert (Hnc : ~ claims (tl_hostname l) sni) by (intros Hc; by apply Hm in Hc).
    destruct best as [b|]; simpl.
    + destruct IH as (Hb & Hcb & -> & Hmax). split_and!; [by apply Hold|done..|].
      intros l0 [Hin0| ->%list_elem_of_singleton]%elem_of_app Hc0; [by apply Hmax|done].
    + destruct IH as [-> Hnone]. split; [done|]. intros l0 [Hin0| ->%list_elem_of_singleton]%elem_of_app; [by apply Hnone|done].
Qed.

(** The route of a listener for a name: the one of that name, else the one of
    the longest wildcard above it. *)
Definition best_route (sni : string) (routes : gmap string (string * Z)) (r : option (string * Z)) : Prop :=
  match r with
  | Some b =>
      routes !! sni = Some b \/
      (routes !! sni = None /\ exists s, dot_suffix sni s /\ routes !! ("*" +:+ s) = Some b /\
        forall s', dot_suffix sni s' -> is_Some (routes !! ("*" +:+ s')) -> (String.length s' <= String.length s)%nat)
  | None => routes !! sni = None /\ forall s, dot_suffix sni s -> routes !! ("*" +:+ s) = None
  end.

Lemma wildcard_route_search fuel search routes :
  wildcard_route_loop fuel search routes = suffix_search (fun s => routes !! ("*" +:+ s)) fuel search.
Proof.
  revert search. induction fuel as [|fuel IH]; intros search; simpl; [done|].
  destruct (find_char "." search) as [dot|] eqn:Hd; [|done]. rewrite IH.
  assert (sdrop dot search = String "." (sdrop (dot + 1) search)) as ->; [|done].
  destruct (find_char_Some _ _ _ Hd) as [Heq _]. rewrite Heq at 1.
  assert (Hlen : String.length (stake dot search) = dot).
  { rewrite stake_length. apply (f_equal String.length) in Heq. rewrite slength_app, stake_length in Heq. simpl in Heq. lia. }
  rewrite <- Hlen at 1. apply sdrop_app.
Qed.

Lemma lookup_best_route sni routes : best_route sni routes (lookup_route_in_listener sni routes).
Proof.
  unfold lookup_route_in_listener, best_route. destruct (routes !! sni) as [b|] eqn:Hr; [by left|].
  rewrite wildcard_route_search.
  pose proof (suffix_search_spec (fun s => routes !! ("*" +:+ s)) (S (String.length sni)) sni ltac:(lia)) as Hs.
  destruct (suffix_search _ _ sni); [by right|done].
Qed.

(** C24: What becomes of a server name on a port.  When no TLS listener of the
    port claims it, it is left to the HTTPS stack.  Else a claiming listener
    whose hostname no other claiming one outranks decides, by the route of the
    name or of the longest wildcard above it: the bytes go to that backend as
    they are, or decrypted with the certificate of the listener; a listener
    without a route for the name, or without a certificate, refuses it. *)
Theorem mux_most_specific (cfg : L4Config) (sni : string) (port : Z)
  (Hsni : sni <> EmptyString) (Hlen : (String.length sni <= 253)%nat) :
  let candidate l := l ∈ tls_listeners cfg /\ on_port port l = true /\ claims (tl_hostname l) sni in
  ((forall l, ~ candidate l) /\ sni_mux_decision_for_port cfg (Some sni) port = MuxTerminate) \/
  exists l r, candidate l /\
    (forall l', candidate l' -> (hostname_rank (tl_hostname l') <= hostname_rank (tl_hostname l))%nat) /\
    best_route sni (tl_routes l) r /\
    sni_mux_decision_for_port cfg (Some sni) port =
      match r, tl_tls_mode l, tl_cert l with
      | Some (service, p), Passthrough, _ => MuxPassthrough service p
      | Some (service, p), Terminate, Some cert => MuxTlsTerminate service p cert
      | _, _, _ => MuxReject
      end.
Proof.
  cbv zeta. unfold sni_mux_decision_for_port, sni_mux_decision_over, find_best_matching_listener.
  destruct (is_empty sni) eqn:He; [by apply is_empty_true in He|].
  pose proof (best_listener_fold sni (List.filter (on_port port) (tls_listeners cfg))) as Hbest.
  destruct (fold_left _ _ _) as [[l|] score]; simpl.
  - right. destruct Hbest as (Hin & Hc & -> & Hmax). exists l, (lookup_route_in_listener sni (tl_routes l)).
    apply list_elem_of_In, filter_In in Hin as [Hin Hp]. rewrite <- list_elem_of_In in Hin.
    split_and!; [done..| |apply lookup_best_route|].
    + intros l' (Hin' & Hp' & Hc'). eapply specificity_rank; [done..|]. apply Hmax; [|done].
      apply list_elem_of_In, filter_In. by rewrite <- list_elem_of_In.
    + unfold listener_decision. destruct (lookup_route_in_listener sni (tl_routes l)) as [[]|]; [|done].
      by destruct (tl_tls_mode l), (tl_cert l).
  - left. split; [|done]. intros l (Hin & Hp & Hc). destruct Hbest as [_ Hnone]. apply (Hnone l); [|done].
    apply list_elem_of_In, filter_In. by rewrite <- list_elem_of_In.
Qed.

(** ** Listeners without a port, and hostnames on two ports *)

Section BuildFacts.
Context `{TlsCrates}.

(** The entries of the hostnames no route names stay as they are. *)
Lemma add_tls_routes_other routes m lh :
  (forall r, r ∈ routes -> tpr_listener_hostname r <> lh) -> fold_left add_tls_route routes m !! lh = m !! lh.
Proof.
  revert m. induction routes as [|r routes IH]; intros m Hr; simpl; [done|]. rewrite IH.
  - unfold add_tls_route. apply lookup_insert_ne. apply Hr. by left.
  - intros r' Hr'. apply Hr. by right.
Qed.

Lemma add_bare_kept lhs m lh b : m !! lh = Some b -> fold_left add_bare_listener lhs m !! lh = Some b.
Proof.
  revert m. induction lhs as [|l lhs IH]; intros m Hm; simpl; [done|]. apply IH. unfold add_bare_listener.
  destruct (m !! l) eqn:Hl; [done|]. rewrite lookup_insert_ne; congruence.
Qed.

Lemma add_bare_new lhs m lh :
  lh ∈ lhs -> m !! lh = None ->
  exists b, fold_left add_bare_listener lhs m !! lh = Some b /\ lbd_listener_port b = 0 /\ lbd_routes b = ∅.
Proof.
  revert m. induction lhs as [|l lhs IH]; intros m Hin Hm; [by apply elem_of_nil in Hin|]. simpl.
  unfold add_bare_listener at 2. destruct (decide (l = lh)) as [->|Hne].
  - rewrite Hm. eexists. split; [apply add_bare_kept, lookup_insert_eq|done].
  - apply elem_of_cons in Hin as [->|Hin]; [done|]. apply IH; [done|].
    destruct (m !! l); [done|]. by rewrite lookup_insert_ne.
Qed.

Lemma tls_listener_of config lh b :
  listeners_map config !! lh = Some b -> finish_listener (lh, b) ∈ tls_listeners (build_l4_config config).
Proof. intros Hb. simpl. apply list_elem_of_fmap. exists (lh, b). split; [done|]. by apply elem_of_map_to_list. Qed.

(** A TLS listener whose hostname has no route yet takes plain HTTP down.
    The entry made for its hostname has no port and so counts for every port;
    a port with HTTP listeners only is then treated as a TLS port, and every
    plain connection to it is dropped instead of handed to the HTTP stack. *)
Theorem bare_tls_listener_drops_http (config : CompiledConfig) (lh : string) (port : Z)
  (lbs : lb_map) (ps : pools)
  (Hbare : lh ∈ cc_tls_passthrough_listener_hostnames config)
  (Hnoroute : forall r, r ∈ cc_tls_passthrough_routes config -> tpr_listener_hostname r <> lh)
  (Hhttp : port ∈ ports_with "HTTP" (cc_listeners config))
  (Hhttps : port ∉ ports_with "HTTPS" (cc_listeners config))
  (Htcp : port ∉ ports_with "TCP" (cc_listeners config))
  (Htcproute : l4_targets (cc_tcp_proxy_routes config) !! port = None) :
  handle_l4_connection (build_l4_config config) lbs ps port (Some NotTls) = (Dropped, build_l4_config config, ps).
Proof.
  assert (Hrole : port_role (build_l4_config config) port = RoleTls).
  { unfold port_role. cbv zeta. rewrite bool_decide_false by (simpl; by apply not_elem_of_dom).
    rewrite (bool_decide_false (port ∈ tcp_ports _)) by done. cbn [orb].
    assert (existsb (on_port port) (tls_listeners (build_l4_config config)) = true) as ->;
      [|by rewrite orb_true_r].
    destruct (add_bare_new _ (fold_left add_tls_route (cc_tls_passthrough_routes config) ∅) lh Hbare) as (b & Hb & Hport & _).
    { by rewrite add_tls_routes_other. }
    apply existsb_exists. exists (finish_listener (lh, b)). rewrite <- list_elem_of_In.
    split; [by apply tls_listener_of|]. unfold on_port. simpl. rewrite Hport. apply orb_true_r. }
  unfold handle_l4_connection. rewrite Hrole. unfold handle_tls, sni_mux_decision_for_port. simpl.
  by rewrite bool_decide_false.
Qed.

(** The entry of a hostname has the port of the first route that names it. *)
Lemma listener_port_first routes m lh b :
  m !! lh = Some b -> lbd_listener_port b <> 0 ->
  exists b', fold_left add_tls_route routes m !! lh = Some b' /\ lbd_listener_port b' = lbd_listener_port b /\
    (forall h, is_Some (lbd_routes b !! h) -> is_Some (lbd_routes b' !! h)) /\
    (forall r h, r ∈ routes -> tpr_listener_hostname r = lh -> h ∈ tpr_sni_hostnames r -> is_Some (lbd_routes b' !! h)).
Proof.
  assert (Hins : forall hs (v : string * Z) (m : gmap string (string * Z)) h,
    h ∈ hs \/ is_Some (m !! h) -> is_Some (fold_left (fun m h => <[h := v]> m) hs m !! h)).
  { clear. intros hs v. induction hs as [|h hs IH]; intros m h' Hor; simpl.
    - by destruct Hor as [?%elem_of_nil|].
    - apply IH. destruct (decide (h' = h)) as [->|Hne]; [right; rewrite lookup_insert_eq; eauto|].
      rewrite lookup_insert_ne by done. destruct Hor as [[?|?]%elem_of_cons|]; eauto; done. }
  revert m b. induction routes as [|r routes IH]; intros m b Hm Hp; simpl.
  { exists b. split_and!; [done..|]. by intros r h ?%elem_of_nil. }
  unfold add_tls_route at 2. destruct (decide (tpr_listener_hostname r = lh)) as [Hr|Hr].
  - rewrite Hr, Hm. simpl.
    destruct (IH (<[lh := update_listener r b]> m) (update_listener r b)) as (b' & Hb' & Hport & Hkeep & Hall).
    { apply lookup_insert_eq. }
    { simpl. by rewrite (proj2 (Z.eqb_neq _ 0)). }
    exists b'. split_and!; [done|rewrite Hport; simpl; by rewrite (proj2 (Z.eqb_neq _ 0))|..].
    + intros h Hh. apply Hkeep. apply Hins. by right.
    + intros r' h [->|Hin]%elem_of_cons Hlh Hh; [|by apply (Hall r')]. apply Hkeep. apply Hins. by left.
  - destruct (IH (add_tls_route m r) b) as (b' & Hb' & Hport & Hkeep & Hall).
    { unfold add_tls_route. by rewrite lookup_insert_ne. }
    { done. }
    exists b'. split_and!; [done..|]. intros r' h [->|Hin]%elem_of_cons; [done|by apply Hall].
Qed.

(** TLS listeners of one hostname on two ports are merged into the first.
    When the routes of a hostname come from listeners on two ports, the port
    of the first route is the only one the hostname is served on: on the other
    port no entry of that hostname is left, and the server names of its routes
    are served on the first port instead. *)
Theorem same_hostname_on_two_ports_merged (config : CompiledConfig) (before after : list TlsPassthroughRoute)
  (r1 r2 : TlsPassthroughRoute)
  (Hroutes : cc_tls_passthrough_routes config = before ++ r1 :: after)
  (Hfirst : forall r, r ∈ before -> tpr_listener_hostname r <> tpr_listener_hostname r1)
  (Hsecond : r2 ∈ after) (Hsame : tpr_listener_hostname r2 = tpr_listener_hostname r1)
  (Hport1 : 0 < tpr_listener_port r1 < 2 ^ 16) (Hport2 : 0 < tpr_listener_port r2 < 2 ^ 16)
  (Hports : tpr_listener_port r2 <> tpr_listener_port r1) :
  (forall l, l ∈ tls_listeners (build_l4_config config) -> tl_hostname l = tpr_listener_hostname r2 ->
     on_port (tpr_listener_port r2) l = false) /\
  exists l, l ∈ tls_listeners (build_l4_config config) /\ tl_hostname l = tpr_listener_hostname r2 /\
    tl_listener_port l = tpr_listener_port r1 /\ forall h, h ∈ tpr_sni_hostnames r2 -> is_Some (tl_routes l !! h).
Proof.
  set (lh := tpr_listener_hostname r1) in *.
  set (m := fold_left add_tls_route before ∅).
  assert (Hm : m !! lh = None) by (by unfold m; rewrite add_tls_routes_other).
  assert (Hp1 : as_u 16 (tpr_listener_port r1) = tpr_listener_port r1) by (apply as_u_small; split; lia).
  destruct (listener_port_first after (add_tls_route m r1) lh (update_listener r1 (new_listener r1)))
    as (b & Hb & Hport & _ & Hall).
  { unfold add_tls_route. fold lh. rewrite Hm. apply lookup_insert_eq. }
  { simpl. rewrite Hp1. rewrite (proj2 (Z.eqb_neq _ 0)) by lia. simpl. lia. }
  simpl in Hport. rewrite Hp1 in Hport. rewrite (proj2 (Z.eqb_neq _ 0)) in Hport by lia. simpl in Hport.
  assert (Hlm : listeners_map config !! lh = Some b).
  { unfold listeners_map. apply add_bare_kept. by rewrite Hroutes, fold_left_app. }
  rewrite Hsame. split.
  - intros l Hl Hh. simpl in Hl. apply list_elem_of_fmap in Hl as ([lh' b'] & -> & Hin%elem_of_map_to_list).
    simpl in Hh. subst lh'.
    rewrite Hlm in Hin. injection Hin as <-. unfold on_port. simpl. rewrite Hport. lia.
  - exists (finish_listener (lh, b)). split_and!; [by apply tls_listener_of|done|done|].
    intros h Hh. by apply (Hall r2 h).
Qed.
End BuildFacts.

(** ** The manager *)

(** The state of a port after a bind attempt at it. *)
Definition attempt (bind : Z -> bool) (port : Z) (old : option bool) : option bool :=
  if decide (old = Some false) then old else if bind port then Some false else old.

Lemma bind_port_lookup bind bound q p :
  bind_port bind bound q !! p = if decide (q = p) then attempt bind p (bound !! p) else bound !! p.
Proof.
  unfold bind_port, attempt. destruct (decide (q = p)) as [->|Hne].
  - destruct (decide (bound !! p = Some false)); [done|]. destruct (bind p); [apply lookup_insert_eq|done].
  - destruct (decide _); [done|]. destruct (bind q); [by apply lookup_insert_ne|done].
Qed.

Lemma attempt_twice bind p old : attempt bind p (attempt bind p old) = attempt bind p old.
Proof. unfold attempt. destruct (decide (old = Some false)) as [->|Hne]; [by rewrite decide_True|]. by destruct (bind p); case_decide. Qed.

Lemma bind_ports_lookup bind l bound p :
  fold_left (bind_port bind) l bound !! p = if decide (p ∈ l) then attempt bind p (bound !! p) else bound !! p.
Proof.
  revert bound. induction l as [|q l IH]; intros bound; simpl.
  { done. }
  rewrite IH, bind_port_lookup. destruct (decide (q = p)) as [->|Hne].
  - destruct (decide (p ∈ p :: l)) as [_|Hn]; [|destruct Hn; by left].
    destruct (decide (p ∈ l)); [apply attempt_twice|done].
  - destruct (decide (p ∈ l)) as [Hl|Hl], (decide (p ∈ q :: l)) as [Hq|Hq]; try done; exfalso.
    + apply Hq. by right.
    + apply elem_of_cons in Hq as [->|?]; done.
Qed.

Lemma reconcile_lookup bind desired bound p :
  reconcile_ports bind desired bound !! p = if decide (p ∈ desired) then attempt bind p (bound !! p) else None.
Proof.
  unfold reconcile_ports. rewrite bind_ports_lookup.
  destruct (decide (p ∈ desired)) as [Hd|Hd].
  - rewrite decide_True by (by apply elem_of_elements). f_equal. rewrite map_lookup_filter.
    destruct (bound !! p); simpl; [|done]. by rewrite option_guard_True.
  - rewrite decide_False by (by rewrite elem_of_elements). rewrite map_lookup_filter.
    destruct (bound !! p); simpl; [|done]. by rewrite option_guard_False.
Qed.

(** What a reconciled set of ports looks like. *)
Definition follows (bind : Z -> bool) (desired : gset Z) (old new : gmap Z bool) : Prop :=
  (forall p, new !! p = Some false <-> p ∈ desired /\ (old !! p = Some false \/ bind p = true)) /\
  (forall p, is_Some (new !! p) -> p ∈ desired).

Lemma reconcile_follows bind desired old : follows bind desired old (reconcile_ports bind desired old).
Proof.
  split; intros p; rewrite reconcile_lookup; destruct (decide (p ∈ desired)) as [Hd|Hd]; unfold attempt.
  - destruct (decide (old !! p = Some false)) as [Ho|Ho]; [naive_solver|]. destruct (bind p); naive_solver.
  - naive_solver.
  - done.
  - by intros [? ?].
Qed.

(** A round over a new configuration serves exactly the wanted ports that can
    be bound: a TCP or UDP port has a live task afterwards if and only if the
    configuration wants it and it already had one or binding it succeeded, and
    no task is left for any other port. *)
Theorem manager_follows_config (bind bind_udp : Z -> bool) (cfg_id : positive) (cfg : L4Config) (m : Manager)
  (Hnew : mg_last_cfg m <> Some cfg_id) :
  let m' := manager_round bind bind_udp cfg_id cfg m in
  follows bind (desired_l4_ports cfg) (mg_bound m) (mg_bound m') /\
  follows bind_udp (desired_udp_ports cfg) (mg_bound_udp m) (mg_bound_udp m').
Proof.
  cbv zeta. unfold manager_round. rewrite bool_decide_false by done. simpl. split; apply reconcile_follows.
Qed.

Lemma any_finished_spec bound : any_finished bound = false <-> forall p, bound !! p <> Some true.
Proof.
  unfold any_finished. split.
  - intros Hf p Hp. apply elem_of_map_to_list, list_elem_of_In in Hp.
    assert (existsb snd (map_to_list bound) = true); [|congruence]. apply existsb_exists. by exists (p, true).
  - intros Hall. destruct (existsb snd (map_to_list bound)) eqn:He; [|done]. exfalso.
    apply existsb_exists in He as ([p []] & Hin & Hx); [|done].
    apply list_elem_of_In, elem_of_map_to_list in Hin. by apply (Hall p).
Qed.

Lemma reconcile_alive bind desired bound :
  any_finished bound = false -> any_finished (reconcile_ports bind desired bound) = false.
Proof.
  rewrite !any_finished_spec. intros Hall p. rewrite reconcile_lookup. unfold attempt. specialize (Hall p).
  repeat case_match; naive_solver.
Qed.

(** A port that could not be bound is not tried again.  When binding a wanted
    port fails and all listener tasks are alive, the port stays unbound as long
    as the configuration is the same, even if every later attempt would
    succeed. *)
Theorem failed_bind_not_retried (bind bind_udp : Z -> bool) (cfg_id : positive) (cfg : L4Config) (m : Manager) (p : Z)
  (rounds : list ((Z -> bool) * (Z -> bool)))
  (Hnew : mg_last_cfg m <> Some cfg_id) (Hwanted : p ∈ desired_l4_ports cfg)
  (Hunbound : mg_bound m !! p = None) (Hbind : bind p = false)
  (Halive : any_finished (mg_bound m) = false) (Halive_udp : any_finished (mg_bound_udp m) = false) :
  mg_bound (fold_left (fun m '(b, bu) => manager_round b bu cfg_id cfg m) rounds
              (manager_round bind bind_udp cfg_id cfg m)) !! p = None.
Proof.
  unfold manager_round at 2. rewrite bool_decide_false by done. simpl. set (m' := Build_Manager _ _ _).
  assert (Hstable : forall b bu, manager_round b bu cfg_id cfg m' = m').
  { intros b bu. unfold manager_round. simpl. rewrite bool_decide_true by done.
    by rewrite !reconcile_alive by done. }
  assert (fold_left (fun m '(b, bu) => manager_round b bu cfg_id cfg m) rounds m' = m') as ->.
  { induction rounds as [|[b bu] rounds IH]; simpl; [done|]. by rewrite Hstable. }
  simpl. rewrite reconcile_lookup, decide_True by done. unfold attempt. rewrite Hunbound.
  rewrite decide_False by done. by rewrite Hbind.
Qed.

(** ** Concrete configurations *)

Module Sample.

#[local] Instance crates : TlsCrates := {|
  pem_certs pem := [Some pem];
  pem_private_key pem := Some (Some pem);
  key_supported _ := true;
  root_add_ok _ := true;
  verifier_builds _ := true;
  chain_verifies _ _ _ := true;
|}.

Definition l4_backend (service : string) (weight : Z) : L4Backend :=
  {| l4b_service := service; l4b_port := 80; l4b_weight := weight |}.

Lemma l4_select_exact_witness :
  calls L4RouteTarget_select 5
    {| rt_backends := [l4_backend "a" 3; l4_backend "b" 0; l4_backend "c" 2];
       rt_total_weight := rt_total_weight (L4RouteTarget_new [l4_backend "a" 3; l4_backend "b" 0; l4_backend "c" 2]);
       rt_counter := 7 |}
  ≡ₚ map Some [l4_backend "a" 3; l4_backend "a" 3; l4_backend "a" 3; l4_backend "c" 2; l4_backend "c" 2].
Proof.
  apply (l4_select_exact [l4_backend "a" 3; l4_backend "b" 0; l4_backend "c" 2] 7).
  - repeat constructor; vm_compute; congruence.
  - vm_compute. split; reflexivity.
  - lia.
  - vm_compute. reflexivity.
Defined.

Definition tls_route (lh : string) (port : Z) (sni service : string) : TlsPassthroughRoute :=
  {| tpr_sni_hostnames := [sni]; tpr_backend_service := service; tpr_backend_port := 443; tpr_listener_name := "tls";
     tpr_listener_hostname := lh; tpr_tls_mode := "Passthrough"; tpr_cert_pem := EmptyString; tpr_key_pem := EmptyString;
     tpr_listener_port := port; tpr_gateway_namespace := "default"; tpr_gateway_name := "gw" |}.

Definition plain_listener (protocol : string) (port : Z) : Listener :=
  {| ls_name := protocol; ls_port := port; ls_protocol := protocol; ls_hostname := EmptyString; ls_tls_cert_ref := None;
     ls_gateway_namespace := "default"; ls_gateway_name := "gw"; ls_client_validation := None |}.

Definition config (routes : list TlsPassthroughRoute) (hostnames : list string) (listeners : list Listener) : CompiledConfig :=
  {| cc_schema_version := "1.0.0"; cc_version := 1; cc_fingerprint := 0; cc_routes := []; cc_backends := [];
     cc_listeners := listeners; cc_tls_passthrough_routes := routes; cc_tcp_proxy_routes := []; cc_udp_proxy_routes := [];
     cc_tls_passthrough_listener_hostnames := hostnames; cc_gateway_backend_tls := []; cc_mcp_federations := [];
     cc_issuer_keys := [] |}.

Definition two_listeners : L4Config :=
  build_l4_config (config [tls_route "*.example.com" 8443 "*.example.com" "wild"; tls_route "a.example.com" 8443 "a.example.com" "exact"]
                          [] [plain_listener "TLS" 8443]).

Lemma mux_most_specific_witness :
  let candidate l := l ∈ tls_listeners two_listeners /\ on_port 8443 l = true /\ claims (tl_hostname l) "a.example.com" in
  ((forall l, ~ candidate l) /\ sni_mux_decision_for_port two_listeners (Some "a.example.com") 8443 = MuxTerminate) \/
  exists l r, candidate l /\
    (forall l', candidate l' -> (hostname_rank (tl_hostname l') <= hostname_rank (tl_hostname l))%nat) /\
    best_route "a.example.com" (tl_routes l) r /\
    sni_mux_decision_for_port two_listeners (Some "a.example.com") 8443 =
      match r, tl_tls_mode l, tl_cert l with
      | Some (service, p), Passthrough, _ => MuxPassthrough service p
      | Some (service, p), Terminate, Some cert => MuxTlsTerminate service p cert
      | _, _, _ => MuxReject
      end.
Proof. apply (mux_most_specific two_listeners "a.example.com" 8443); [done|vm_compute; lia]. Defined.

(** The decision itself, evaluated. *)
Lemma two_listeners_decisions :
  map (fun sni => sni_mux_decision_for_port two_listeners (Some sni) 8443) ["a.example.com"; "b.example.com"; "other.org"] =
  [MuxPassthrough "exact" 443; MuxPassthrough "wild" 443; MuxTerminate].
Proof. vm_compute. reflexivity. Qed.

Definition bare : CompiledConfig := config [] ["tls.example.com"] [plain_listener "HTTP" 80; plain_listener "TLS" 8443].

(** Without the bare TLS listener the same connection reaches the HTTP stack. *)
Lemma bare_tls_listener_drops_http_witness :
  handle_l4_connection (build_l4_config (config [] [] (cc_listeners bare))) ∅ ∅ 80 (Some NotTls) =
    (ToHttpStack, build_l4_config (config [] [] (cc_listeners bare)), ∅) /\
  handle_l4_connection (build_l4_config bare) ∅ ∅ 80 (Some NotTls) = (Dropped, build_l4_config bare, ∅).
Proof.
  split; [reflexivity|]. apply (bare_tls_listener_drops_http bare "tls.example.com" 80).
  - by left.
  - by intros r ?%elem_of_nil.
  - vm_compute. reflexivity.
  - apply (bool_decide_eq_false_1 (80 ∈ _)). vm_compute. reflexivity.
  - apply (bool_decide_eq_false_1 (80 ∈ _)). vm_compute. reflexivity.
  - reflexivity.
Defined.

Definition twice : CompiledConfig :=
  config [tls_route "x.example.com" 8443 "x.example.com" "first"; tls_route "x.example.com" 9443 "x.example.com" "second"]
         [] [plain_listener "TLS" 8443; plain_listener "TLS" 9443].

Lemma same_hostname_on_two_ports_merged_witness :
  (forall l, l ∈ tls_listeners (build_l4_config twice) -> tl_hostname l = "x.example.com" -> on_port 9443 l = false) /\
  exists l, l ∈ tls_listeners (build_l4_config twice) /\ tl_hostname l = "x.example.com" /\
    tl_listener_port l = 8443 /\ forall h, h ∈ ["x.example.com"] -> is_Some (tl_routes l !! h).
Proof.
  apply (same_hostname_on_two_ports_merged twice [] [tls_route "x.example.com" 9443 "x.example.com" "second"]
           (tls_route "x.example.com" 8443 "x.example.com" "first")
           (tls_route "x.example.com" 9443 "x.example.com" "second")); simpl; try done.
  - by intros r ?%elem_of_nil.
  - by left.
Defined.

Lemma manager_follows_config_witness :
  let cfg := build_l4_config bare in
  let m' := manager_round (fun _ => true) (fun _ => true) 1 cfg Manager_new in
  follows (fun _ => true) (desired_l4_ports cfg) ∅ (mg_bound m') /\
  follows (fun _ => true) (desired_udp_ports cfg) ∅ (mg_bound_udp m').
Proof. apply (manager_follows_config (fun _ => true) (fun _ => true) 1 (build_l4_config bare) Manager_new). done. Defined.

Lemma failed_bind_not_retried_witness :
  mg_bound (fold_left (fun m '(b, bu) => manager_round b bu 1 (build_l4_config bare) m) [(fun _ => true, fun _ => true)]
              (manager_round (fun p => negb (p =? 80)) (fun _ => true) 1 (build_l4_config bare) Manager_new)) !! 80 = None.
Proof.
  apply (failed_bind_not_retried (fun p => negb (p =? 80)) (fun _ => true) 1 (build_l4_config bare) Manager_new 80).
  - done.
  - apply (bool_decide_eq_true_1 (80 ∈ _)). vm_compute. reflexivity.
  - done.
  - done.
  - done.
  - done.
Defined.

End Sample.
