(* ===== verification/Udp.v ===== *)
(** * UDP sessions

    [portus-dataplane-core/src/udp_proxy.rs]: the session table of a UDP
    listener port.  A listener is a machine whose events are the datagrams of
    the clients, the ticks of the reaper, the replies and failures of the
    sessions' reply pumps, and changes of the route; the answers of the socket
    calls are arguments. *)
From S2P Require Import Prelude Text Net Pool Proto Tls L4.

Definition MAX_UDP_SESSIONS : Z := 65536.

(** A session and the [Activity] it shares with its reply pump; dropping the
    session aborts the pump. *)
Record Session := {
  ss_upstream : SocketAddr;
  ss_last_ms : Z;
  ss_dead : bool;
}.

(** [Sessions]; [idle] in milliseconds. *)
Record Sessions := {
  sn_idle : Z;
  sn_max : Z;
  sn_table : gmap SocketAddr Session;
}.

Definition Sessions_new (idle max : Z) : Sessions := {| sn_idle := idle; sn_max := max; sn_table := ∅ |}.
Definition Sessions_len (s : Sessions) : Z := Z.of_nat (size (sn_table s)).
Definition set_table (s : Sessions) (t : gmap SocketAddr Session) : Sessions :=
  {| sn_idle := sn_idle s; sn_max := sn_max s; sn_table := t |}.

(** [u64::try_from(x).unwrap_or(u64::MAX)] *)
Definition to_u64 (x : Z) : Z := if x <? 2 ^ 64 then x else 2 ^ 64 - 1.

Inductive UdpError :=
| SendFailed
| SessionLimit
| NoBackend
| NoEndpoint
| BadAddress
| BindFailed
| ConnectFailed.

(** The answers of the calls on the upstream socket. *)
Record UpstreamIo := {
  io_bind : bool;
  io_connect : bool;
  io_send : bool;
}.

(** The part of [Sessions::forward] that opens a session. *)
Definition open_session (io : UpstreamIo) (now : Z) (peer : SocketAddr) (lbs : lb_map)
  (s : Sessions) (target : L4RouteTarget) (ps : pools)
  : result SocketAddr UdpError * Sessions * L4RouteTarget * pools :=
  if sn_max s <=? Sessions_len s then (Err SessionLimit, s, target, ps)
  else
    let '(backend, target) := L4RouteTarget_select target in
    match backend with
    | None => (Err NoBackend, s, target, ps)
    | Some b =>
        let '(addr, ps) := resolve_backend lbs ps (l4b_service b) (l4b_port b) in
        match addr with
        | None => (Err NoEndpoint, s, target, ps)
        | Some text =>
            match parse_socket_addr text with
            | None => (Err BadAddress, s, target, ps)
            | Some addr =>
                if negb (io_bind io) then (Err BindFailed, s, target, ps)
                else if negb (io_connect io) then (Err ConnectFailed, s, target, ps)
                else if negb (io_send io) then (Err SendFailed, s, target, ps)
                else (Ok addr,
                      set_table s (<[peer := {| ss_upstream := addr; ss_last_ms := now; ss_dead := false |}]> (sn_table s)),
                      target, ps)
            end
        end
    end.

(** [Sessions::forward]: the backend the payload went to, or the error. *)
Definition forward (io : UpstreamIo) (elapsed : Z) (peer : SocketAddr) (lbs : lb_map)
  (s : Sessions) (target : L4RouteTarget) (ps : pools)
  : result SocketAddr UdpError * Sessions * L4RouteTarget * pools :=
  let now := to_u64 elapsed in
  match sn_table s !! peer with
  | Some session =>
      if ss_dead session then open_session io now peer lbs (set_table s (delete peer (sn_table s))) target ps
      else
        (if io_send io then Ok (ss_upstream session) else Err SendFailed,
         set_table s (<[peer := {| ss_upstream := ss_upstream session; ss_last_ms := now; ss_dead := false |}]> (sn_table s)),
         target, ps)
  | None => open_session io now peer lbs s target ps
  end.

(** [Sessions::reap]: the number of sessions removed, and those kept. *)
Definition session_kept (now idle_ms : Z) (session : Session) : bool :=
  negb (ss_dead session) && (saturating_sub now (ss_last_ms session) <? idle_ms).

Definition reap (elapsed : Z) (s : Sessions) : Z * Sessions :=
  let now := to_u64 elapsed in
  let idle_ms := to_u64 (sn_idle s) in
  let kept := filter (fun '(_, session) => session_kept now idle_ms session = true) (sn_table s) in
  (Sessions_len s - Z.of_nat (size kept), set_table s kept).

(** [reply_pump]: a datagram from the backend, and the end of the pump. *)
Definition pump_reply (elapsed : Z) (peer : SocketAddr) (s : Sessions) : Sessions :=
  set_table s (alter (fun se => {| ss_upstream := ss_upstream se; ss_last_ms := to_u64 elapsed; ss_dead := ss_dead se |})
                 peer (sn_table s)).

Definition pump_ends (peer : SocketAddr) (s : Sessions) : Sessions :=
  set_table s (alter (fun se => {| ss_upstream := ss_upstream se; ss_last_ms := ss_last_ms se; ss_dead := true |})
                 peer (sn_table s)).

(** ** The listener *)

Record UdpListener := {
  ul_sessions : Sessions;
  ul_target : option L4RouteTarget;
  ul_pools : pools;
}.

Inductive udp_event :=
| Tick (elapsed : Z)
| Datagram (elapsed : Z) (peer : SocketAddr) (io : UpstreamIo)
| Reply (elapsed : Z) (peer : SocketAddr)
| PumpEnds (peer : SocketAddr)
| Reroute (target : option L4RouteTarget).

(** One event of [udp_listener_loop] and its pumps, and where the payload of
    a datagram went. *)
Definition udp_step (lbs : lb_map) (e : udp_event) (u : UdpListener) : option SocketAddr * UdpListener :=
  let with_sessions s := {| ul_sessions := s; ul_target := ul_target u; ul_pools := ul_pools u |} in
  match e with
  | Tick elapsed => (None, with_sessions (reap elapsed (ul_sessions u)).2)
  | Datagram elapsed peer io =>
      match ul_target u with
      | None => (None, u)
      | Some target =>
          let '(r, s, target, ps) := forward io elapsed peer lbs (ul_sessions u) target (ul_pools u) in
          (match r with Ok addr => Some addr | Err _ => None end,
           {| ul_sessions := s; ul_target := Some target; ul_pools := ps |})
      end
  | Reply elapsed peer => (None, with_sessions (pump_reply elapsed peer (ul_sessions u)))
  | PumpEnds peer => (None, with_sessions (pump_ends peer (ul_sessions u)))
  | Reroute target => (None, {| ul_sessions := ul_sessions u; ul_target := target; ul_pools := ul_pools u |})
  end.

Definition udp_run (lbs : lb_map) (events : list udp_event) (u : UdpListener) : UdpListener :=
  fold_left (fun u e => (udp_step lbs e u).2) events u.

(** ** Sessions stick to their backend *)

(** The ways a session of [peer] ends at an event. *)
Definition ends_at (idle_ms : Z) (peer : SocketAddr) (session : Session) (e : udp_event) : Prop :=
  match e with
  | Tick elapsed => session_kept (to_u64 elapsed) idle_ms session = false
  | Datagram _ p _ => p = peer /\ ss_dead session = true
  | _ => False
  end.

Lemma open_session_table io now peer lbs s target ps r s' target' ps' :
  open_session io now peer lbs s target ps = (r, s', target', ps') ->
  sn_idle s' = sn_idle s /\ sn_max s' = sn_max s /\
  (sn_table s' = sn_table s \/
   exists addr, r = Ok addr /\ (Sessions_len s < sn_max s) /\
     sn_table s' = <[peer := {| ss_upstream := addr; ss_last_ms := now; ss_dead := false |}]> (sn_table s)).
Proof.
  unfold open_session. destruct (Z.leb_spec (sn_max s) (Sessions_len s)); [intros; simplify_eq; eauto|].
  destruct (L4RouteTarget_select target) as [[b|] t]; [|intros; simplify_eq; eauto].
  destruct (resolve_backend _ _ _ _) as [[text|] ps1]; [|intros; simplify_eq; eauto].
  destruct (parse_socket_addr text) as [addr|]; [|intros; simplify_eq; eauto].
  destruct (io_bind io), (io_connect io), (io_send io); simpl; intros; simplify_eq; simpl; eauto 10.
Qed.

(** A client keeps its backend.  A session stays with its backend through
    every event until it ends, which happens only when the reaper finds it
    dead or idle, or its client sends after its pump failed; and while it is
    alive every datagram of its client that is sent at all goes to that
    backend. *)
Theorem udp_session_sticky (lbs : lb_map) (u : UdpListener) (peer : SocketAddr) (session : Session) (e : udp_event)
  (Hsession : sn_table (ul_sessions u) !! peer = Some session) :
  let '(sent, u') := udp_step lbs e u in
  (ends_at (to_u64 (sn_idle (ul_sessions u))) peer session e \/
   exists session', sn_table (ul_sessions u') !! peer = Some session' /\ ss_upstream session' = ss_upstream session) /\
  (ss_dead session = false -> forall elapsed io, e = Datagram elapsed peer io ->
     sent = None \/ sent = Some (ss_upstream session)).
Proof.
  destruct e as [elapsed|elapsed p io|elapsed p|p|target]; simpl.
  - split; [|done]. destruct (session_kept (to_u64 elapsed) (to_u64 (sn_idle (ul_sessions u))) session) eqn:Hk; [right|by left].
    exists session. split; [|done]. apply map_lookup_filter_Some. done.
  - destruct (ul_target u) as [target|].
    2: { split; [right; by exists session|]. intros _ e' io' [= _ <- _]. by left. }
    unfold forward. destruct (decide (p = peer)) as [->|Hne].
    + rewrite Hsession. destruct (ss_dead session) eqn:Hd.
      * destruct (open_session _ _ _ _ _ _ _) as [[[r s'] t'] ps']. simpl. split; [left; done|done].
      * simpl. split; [right; eexists; split; [apply lookup_insert_eq|done]|].
        intros _ e' io' _. destruct (io_send io); [by right|by left].
    + assert (Hkeep : forall s0 r s' t' ps', sn_table s0 !! peer = Some session ->
        open_session io (to_u64 elapsed) p lbs s0 target (ul_pools u) = (r, s', t', ps') ->
        sn_table s' !! peer = Some session).
      { intros s0 r s' t' ps' H0 (_ & _ & [->|(addr & _ & _ & ->)])%open_session_table; [done|]. by rewrite lookup_insert_ne. }
      assert (Hout : forall (sent : option SocketAddr) s',
        sn_table s' !! peer = Some session ->
        (ends_at (to_u64 (sn_idle (ul_sessions u))) peer session (Datagram elapsed p io) \/
         exists session', sn_table s' !! peer = Some session' /\ ss_upstream session' = ss_upstream session) /\
        (ss_dead session = false -> forall elapsed' io', Datagram elapsed p io = Datagram elapsed' peer io' ->
           sent = None \/ sent = Some (ss_upstream session))).
      { intros sent s' Hs'. split; [right; by exists session|]. by intros _ e' io' [=]. }
      destruct (sn_table (ul_sessions u) !! p) as [se|]; [destruct (ss_dead se)|].
      * destruct (open_session _ _ _ _ _ _ _) as [[[r s'] t'] ps'] eqn:Ho. apply Hout.
        eapply Hkeep; [|exact Ho]. simpl. by rewrite lookup_delete_ne.
      * apply Hout. simpl. by rewrite lookup_insert_ne.
      * destruct (open_session _ _ _ _ _ _ _) as [[[r s'] t'] ps'] eqn:Ho. apply Hout.
        by eapply Hkeep.
  - split; [right|done]. destruct (decide (p = peer)) as [->|Hne].
    + rewrite lookup_alter_eq, Hsession. eexists. by split.
    + rewrite lookup_alter_ne by done. by exists session.
  - split; [right|done]. destruct (decide (p = peer)) as [->|Hne].
    + rewrite lookup_alter_eq, Hsession. eexists. by split.
    + rewrite lookup_alter_ne by done. by exists session.
  - split; [right; by exists session|done].
Qed.

(** ** The table stays small *)

Lemma size_insert_le (t : gmap SocketAddr Session) p se : (size (<[p := se]> t) <= S (size t))%nat.
Proof.
  destruct (t !! p) eqn:Hp; [|by rewrite map_size_insert_None].
  rewrite map_size_insert_Some by eauto. lia.
Qed.

Lemma size_filter_le (f : SocketAddr * Session -> Prop) `{!forall x, Decision (f x)} (t : gmap SocketAddr Session) :
  (size (filter f t) <= size t)%nat.
Proof. apply map_subseteq_size, map_filter_subseteq. Qed.

Lemma udp_step_size lbs e u :
  0 <= sn_max (ul_sessions u) ->
  Sessions_len (ul_sessions u) <= sn_max (ul_sessions u) ->
  let u' := (udp_step lbs e u).2 in
  Sessions_len (ul_sessions u') <= sn_max (ul_sessions u') /\
  sn_max (ul_sessions u') = sn_max (ul_sessions u) /\ sn_idle (ul_sessions u') = sn_idle (ul_sessions u).
Proof.
  intros Hmax Hlen. destruct e as [elapsed|elapsed p io|elapsed p|p|target]; simpl.
  - split_and!; try done. unfold Sessions_len in *. simpl.
    etransitivity; [|exact Hlen]. apply inj_le, size_filter_le.
  - destruct (ul_target u) as [target|]; [|done]. unfold forward.
    assert (Hopen : forall s0 r s' t' ps', sn_max s0 = sn_max (ul_sessions u) -> sn_idle s0 = sn_idle (ul_sessions u) ->
      Sessions_len s0 <= sn_max s0 -> open_session io (to_u64 elapsed) p lbs s0 target (ul_pools u) = (r, s', t', ps') ->
      Sessions_len s' <= sn_max s' /\ sn_max s' = sn_max (ul_sessions u) /\ sn_idle s' = sn_idle (ul_sessions u)).
    { intros s0 r s' t' ps' Hm Hi Hl (Hi' & Hm' & Ht)%open_session_table. rewrite Hm', Hi'. split_and!; try done.
      unfold Sessions_len in *. destruct Ht as [->|(addr & _ & Hlt & ->)]; [done|].
      pose proof (size_insert_le (sn_table s0) p {| ss_upstream := addr; ss_last_ms := to_u64 elapsed; ss_dead := false |}). lia. }
    destruct (sn_table (ul_sessions u) !! p) as [se|] eqn:Hp; [destruct (ss_dead se)|].
    + destruct (open_session _ _ _ _ _ _ _) as [[[r s'] t'] ps'] eqn:Ho. eapply Hopen; [..|exact Ho]; try done.
      unfold Sessions_len in *. simpl. rewrite map_size_delete_Some by eauto. lia.
    + split_and!; try done. unfold Sessions_len in *. simpl. by rewrite map_size_insert_Some.
    + destruct (open_session _ _ _ _ _ _ _) as [[[r s'] t'] ps'] eqn:Ho. by eapply Hopen.
  - split_and!; try done. unfold Sessions_len in *. simpl. rewrite <- size_dom, dom_alter_L, size_dom. done.
  - split_and!; try done. unfold Sessions_len in *. simpl. rewrite <- size_dom, dom_alter_L, size_dom. done.
  - done.
Qed.

(** The table is bounded and holds no stale session after a tick.  Whatever
    the events, a listener never has more sessions than its maximum; and right
    after a tick of the reaper every session left is alive and had traffic
    within the idle time. *)
Theorem udp_table_bounded (lbs : lb_map) (events : list udp_event) (idle max : Z)
  (target : option L4RouteTarget) (ps : pools) (Hmax : 0 <= max) :
  let u := udp_run lbs events {| ul_sessions := Sessions_new idle max; ul_target := target; ul_pools := ps |} in
  Sessions_len (ul_sessions u) <= max /\
  forall elapsed peer session,
    sn_table (ul_sessions (udp_step lbs (Tick elapsed) u).2) !! peer = Some session ->
    ss_dead session = false /\ to_u64 elapsed - ss_last_ms session < to_u64 idle.
Proof.
  cbv zeta. set (start := Build_UdpListener _ _ _). unfold udp_run.
  assert (Hinv : let u := fold_left (fun u e => (udp_step lbs e u).2) events start in
    Sessions_len (ul_sessions u) <= sn_max (ul_sessions u) /\ sn_max (ul_sessions u) = max /\ sn_idle (ul_sessions u) = idle).
  { cbv zeta. induction events as [|e events IH] using rev_ind; [unfold Sessions_len; simpl; rewrite map_size_empty; lia|].
    rewrite fold_left_app. simpl. destruct IH as (Hl & Hm & Hi).
    destruct (udp_step_size lbs e (fold_left (fun u e => (udp_step lbs e u).2) events start)) as (Hl' & Hm' & Hi'); [lia|done|].
    rewrite Hm', Hi'. split_and!; [lia|done..]. }
  cbv zeta in Hinv. destruct Hinv as (Hl & Hm & Hi). split; [lia|]. intros elapsed peer session Hs.
  simpl in Hs. apply map_lookup_filter_Some in Hs as [_ Hk]. unfold session_kept in Hk. rewrite Hi in Hk.
  apply andb_true_iff in Hk as [Hd%negb_true_iff Hlt%Z.ltb_lt]. split; [done|]. unfold saturating_sub in Hlt. lia.
Qed.

(** ** A concrete listener *)

Module Sample.

Definition client (n : Z) : SocketAddr := SocketV4 n 5000.
Definition service_pool : Pool := Pool_new [SocketV4 1 53; SocketV4 2 53] None.
Definition lbs : lb_map := {[ ("dns", 53) := 1%positive ]}.
Definition all_ok : UpstreamIo := {| io_bind := true; io_connect := true; io_send := true |}.

Definition listener : UdpListener :=
  {| ul_sessions := Sessions_new 60000 2;
     ul_target := Some (L4RouteTarget_new [{| l4b_service := "dns"; l4b_port := 53; l4b_weight := 1 |}]);
     ul_pools := {[ 1%positive := service_pool ]} |}.

(** Three clients; the third finds the table full until the first is idle. *)
Definition traffic : list udp_event :=
  [Datagram 0 (client 1) all_ok; Datagram 1000 (client 2) all_ok; Datagram 2000 (client 3) all_ok].

Definition busy : UdpListener := udp_run lbs traffic listener.

Lemma busy_sessions :
  (ss_upstream <$> sn_table (ul_sessions busy) !! client 1) = Some (SocketV4 1 53) /\
  (ss_upstream <$> sn_table (ul_sessions busy) !! client 2) = Some (SocketV4 2 53) /\
  sn_table (ul_sessions busy) !! client 3 = None.
Proof. vm_compute. done. Qed.

Definition first_session : Session := {| ss_upstream := SocketV4 1 53; ss_last_ms := 0; ss_dead := false |}.

Lemma udp_session_sticky_witness :
  let '(sent, u') := udp_step lbs (Datagram 3000 (client 1) all_ok) busy in
  (ends_at (to_u64 (sn_idle (ul_sessions busy))) (client 1) first_session (Datagram 3000 (client 1) all_ok) \/
   exists session', sn_table (ul_sessions u') !! client 1 = Some session' /\ ss_upstream session' = SocketV4 1 53) /\
  (ss_dead first_session = false -> forall elapsed io, Datagram 3000 (client 1) all_ok = Datagram elapsed (client 1) io ->
     sent = None \/ sent = Some (SocketV4 1 53)).
Proof. apply (udp_session_sticky lbs busy (client 1) first_session). vm_compute. reflexivity. Defined.

Lemma udp_table_bounded_witness :
  Sessions_len (ul_sessions busy) <= 2 /\
  forall elapsed peer session,
    sn_table (ul_sessions (udp_step lbs (Tick elapsed) busy).2) !! peer = Some session ->
    ss_dead session = false /\ to_u64 elapsed - ss_last_ms session < to_u64 60000.
Proof. apply (udp_table_bounded lbs traffic 60000 2 (ul_target listener) (ul_pools listener)). lia. Defined.

End Sample.
