(* ===== verification/ConfigReceiver.v ===== *)
(** * Receiving a configuration

    The rest of [portus-dataplane-core/src/config_receiver.rs]: the pools,
    breakers and limiters of a configuration and what is kept of the ones in
    use, backend credentials, federations, validation, [apply_config], and the
    messages of the configuration stream. *)
From Stdlib Require Import String.
From S2P Require Import Prelude Text Net Types CircuitBreaker RateLimiter Router Auth Keys Pool Http Plan Budget Proto.
From S2P Require Import ConfigRoutes Tls L4.
Open Scope Z_scope.

Definition BackendKey : Type := string * Z.

(** ** Breakers and limiters *)

Definition new_breaker (cfg : CircuitBreakerConfig) (now : Z) : Alloc positive := fun s =>
  let r := fresh (dom (st_breakers s)) in
  (r, set_breakers s (<[r := {| cb_config := cfg; cb_epoch := now; cb_word := CircuitBreaker_new |}]> (st_breakers s))).

Definition new_limiter (max : Z) : Alloc positive := fun s =>
  let r := fresh (dom (st_limiters s)) in
  (r, set_limiters s (<[r := {| cl_max := max; cl_active := ConnectionLimiter_new |}]> (st_limiters s))).

(** [u16::try_from(x).unwrap_or(u16::MAX)] *)
Definition clamp_u16 (x : Z) : Z := match try_u16 x with Some y => y | None => 2 ^ 16 - 1 end.

Definition breaker_config (p : CircuitBreakerProto) : CircuitBreakerConfig :=
  {| failure_threshold := clamp_u16 (cbp_failure_threshold p); success_threshold := clamp_u16 (cbp_success_threshold p);
     timeout_secs := cbp_timeout_secs p |}.

#[export] Instance CircuitBreakerConfig_eq_dec : EqDecision CircuitBreakerConfig.
Proof. solve_decision. Defined.

Definition backend_key (route : RouteConfig) : BackendKey := (rc_service_name route, as_u 16 (rc_port route)).

(** [entry(key).or_insert_with(...)] of an allocated object, where an existing
    object with the wanted setting is taken before a new one is made.  The
    object is looked up in the store as it is at this moment. *)
Definition entry_or_reuse {C O} `{EqDecision C} (objects : store -> gmap positive O) (setting : O -> C)
  (existing : gmap BackendKey positive) (make : C -> Alloc positive)
  (key : BackendKey) (wanted : C) (m : gmap BackendKey positive) : Alloc (gmap BackendKey positive) := fun s =>
  match m !! key with
  | Some _ => (m, s)
  | None =>
      let reuse := r ← existing !! key; o ← objects s !! r; if decide (setting o = wanted) then Some r else None in
      match reuse with
      | Some r => (<[key := r]> m, s)
      | None => let '(r, s) := make wanted s in (<[key := r]> m, s)
      end
  end.

(** The breaker a route asks for, and the limiter ([max_connections] above 0). *)
Definition route_breaker (route : RouteConfig) : option CircuitBreakerConfig := breaker_config <$> rc_circuit_breaker route.
Definition route_limiter (route : RouteConfig) : option Z :=
  match rc_max_connections route with Some m => if m >? 0 then Some m else None | None => None end.

Definition add_breaker (existing : gmap BackendKey positive) (now : Z) (route : RouteConfig)
  (m : gmap BackendKey positive) : Alloc (gmap BackendKey positive) :=
  match route_breaker route with
  | None => aret m
  | Some cfg => entry_or_reuse st_breakers cb_config existing (fun c => new_breaker c now) (backend_key route) cfg m
  end.

Definition add_limiter (existing : gmap BackendKey positive) (route : RouteConfig)
  (m : gmap BackendKey positive) : Alloc (gmap BackendKey positive) :=
  match route_limiter route with
  | None => aret m
  | Some max => entry_or_reuse st_limiters cl_max existing new_limiter (backend_key route) max m
  end.

(** [build_cb_cl_maps_from_proto] *)
Fixpoint build_cb_cl_maps (routes : list RouteConfig) (existing_cbs existing_cls : gmap BackendKey positive) (now : Z)
  (cbs cls : gmap BackendKey positive) : Alloc (gmap BackendKey positive * gmap BackendKey positive) :=
  match routes with
  | [] => aret (cbs, cls)
  | route :: routes =>
      let! cbs := add_breaker existing_cbs now route cbs in
      let! cls := add_limiter existing_cls route cls in
      build_cb_cl_maps routes existing_cbs existing_cls now cbs cls
  end.

(** ** Pools *)

Definition new_pool (p : Pool) : Alloc positive := fun s =>
  let r := fresh (dom (st_pools s)) in (r, set_pools s (<[r := p]> (st_pools s))).

(** What a pool is built from, in canonical form: the endpoint texts sorted
    and without duplicates, and the health check. *)
Definition endpoint_cmp (a b : string * Z) : comparison :=
  then_with (String.compare (a.1) (b.1)) (Z.compare (a.2) (b.2)).

Definition signature_input (group : BackendGroup) : list (string * Z) * option HealthCheckConfig :=
  (dedup_adjacent (sort_by endpoint_cmp (map (fun ep => (be_address ep, be_port ep)) (bg_endpoints group))),
   bg_health_check group).

Definition lb_key (group : BackendGroup) : BackendKey := (bg_service_name group, as_u 16 (bg_port group)).

Definition group_addrs (group : BackendGroup) : list SocketAddr :=
  omap (fun ep => parse_socket_addr (be_address ep +:+ ":" +:+ show_u (be_port ep))) (bg_endpoints group).

Definition group_health_check (group : BackendGroup) : option HealthCheck :=
  (fun hc => {| hc_host := bg_service_name group;
                hc_path := if is_empty (hcc_path hc) then "/" else hcc_path hc;
                hc_timeout := from_millis (1000 * Z.max (hcc_timeout_secs hc) 1);
                hc_consecutive_success := Z.max (hcc_healthy_threshold hc) 1;
                hc_consecutive_failure := Z.max (hcc_unhealthy_threshold hc) 1 |}) <$> bg_health_check group.

Section Pools.
(** [DefaultHasher] over the canonical form. *)
Context (hash : list (string * Z) * option HealthCheckConfig -> Z).

Definition lb_signature (group : BackendGroup) : Z := hash (signature_input group).

Section Build.
Context (existing : gmap BackendKey positive) (existing_signatures : gmap BackendKey Z).

(** One round of [build_lb_map_from_proto]. *)
Definition add_group (group : BackendGroup) (acc : gmap BackendKey positive * gmap BackendKey Z)
  : Alloc (gmap BackendKey positive * gmap BackendKey Z) :=
  let '(lb_map, signatures) := acc in
  let key := lb_key group in
  let sig := lb_signature group in
  let reuse := if decide (existing_signatures !! key = Some sig) then existing !! key else None in
  match reuse with
  | Some lb => aret (<[key := lb]> lb_map, <[key := sig]> signatures)
  | None =>
      match group_addrs group with
      | [] => aret (lb_map, signatures)
      | addrs =>
          let! lb := new_pool (Pool_new addrs (group_health_check group)) in
          aret (<[key := lb]> lb_map, <[key := sig]> signatures)
      end
  end.

Fixpoint add_groups (groups : list BackendGroup) (acc : gmap BackendKey positive * gmap BackendKey Z)
  : Alloc (gmap BackendKey positive * gmap BackendKey Z) :=
  match groups with
  | [] => aret acc
  | group :: groups => let! acc := add_group group acc in add_groups groups acc
  end.
End Build.

(** [build_lb_map_from_proto] *)
Definition build_lb_map (groups : list BackendGroup) (existing : gmap BackendKey positive)
  (existing_signatures : gmap BackendKey Z) : Alloc (gmap BackendKey positive * gmap BackendKey Z) :=
  add_groups existing existing_signatures groups (∅, ∅).
End Pools.

(** ** Backend credentials *)

(** [BackendTlsInfo], without its cache of parsed stores. *)
Record BackendTlsInfo := {
  bti_ca_certs_der : list string;
  bti_hostname : string;
  bti_subject_alt_names : list (string * string);
}.

(** [ClientIdentity]: the certificate chain and the key, in DER. *)
Record ClientIdentity := {
  cid_certs : list string;
  cid_key : string;
}.

Section Credentials.
Context `{TlsCrates}.

(** [build_backend_tls_map_from_proto] *)
Definition group_tls (group : BackendGroup) : option BackendTlsInfo :=
  match bg_backend_tls group with
  | None => None
  | Some tls =>
      if is_empty (btc_ca_cert_pem tls) then None
      else
        match omap id (pem_certs (btc_ca_cert_pem tls)) with
        | [] => None
        | der_certs => Some {| bti_ca_certs_der := der_certs; bti_hostname := btc_hostname tls;
                               bti_subject_alt_names := btc_subject_alt_names tls |}
        end
  end.

Definition build_backend_tls_map (groups : list BackendGroup) : gmap BackendKey BackendTlsInfo :=
  fold_left (fun m g => match group_tls g with Some info => <[lb_key g := info]> m | None => m end) groups ∅.

(** [parse_client_cert_key] *)
Definition parse_client_cert_key (cert_pem key_pem : string) : result ClientIdentity PemError :=
  try! certs := ok_or (collect_certs cert_pem) BadCerts in
  match certs with
  | [] => Err NoCerts
  | first :: _ =>
      if is_empty first then Err NoCerts
      else
        try! key := ok_or (pem_private_key key_pem) BadKey in
        try! key := ok_or key NoKey in
        Ok {| cid_certs := certs; cid_key := key |}
  end.

(** [build_backend_client_cert_from_proto] *)
Definition build_backend_client_cert (config : CompiledConfig) (gateway : string * string) : option ClientIdentity :=
  match List.filter (fun g => bool_decide ((gbt_gateway_namespace g, gbt_gateway_name g) = gateway))
          (cc_gateway_backend_tls config) with
  | [] => None
  | entry :: _ =>
      match parse_client_cert_key (gbt_cert_pem entry) (gbt_key_pem entry) with
      | Ok ck => Some ck
      | Err _ => None
      end
  end.
End Credentials.

(** ** Federations and budgets *)

(** [federation::Member] and [federation::Federation] *)
Record Member := {
  fm_name : string;
  fm_service_name : string;
  fm_port : Z;
  fm_tls : bool;
  fm_sni : string;
  fm_headers : header_list;
  fm_path : string;
}.

Record Federation := {
  fed_id : string;
  fed_members : list Member;
}.

Section Federations.
Context `{HttpCrate} `{ConfigCrates}.

Definition build_member (m : McpMember) : Member :=
  {| fm_name := mm_name m; fm_service_name := mm_service_name m;
     fm_port := default 0 (try_u16 (mm_port m)); fm_tls := mm_tls m; fm_sni := mm_sni m;
     fm_headers := sort_by (fun a b => String.compare (a.1) (b.1)) (valid_headers (mm_headers m));
     fm_path := if is_empty (mm_path m) then "/mcp" else mm_path m |}.

(** [build_federations_from_proto] *)
Definition build_federations (federations : list McpFederation) : gmap string Federation :=
  fold_left (fun m f => <[mf_name f := {| fed_id := mf_name f; fed_members := map build_member (mf_members f) |}]> m)
    federations ∅.
End Federations.

(** [budget_policies_from_proto] *)
Definition add_budget (out : list BudgetPolicy) (p : BudgetPolicy) : list BudgetPolicy :=
  if existsb (fun o => bool_decide (bp_id o = bp_id p)) out then out
  else out ++ option_list (overflow p) ++ [p].

Definition budget_policies (routes : list RouteConfig) : list BudgetPolicy :=
  sort_by (fun a b => String.compare (bp_id a) (bp_id b))
    (fold_left add_budget (omap (fun r => rc_ai_budget r ≫= budget_policy_from_proto) routes) []).

(** ** Per-client limiters in use *)

Definition route_per_ip (r : PathRoute) : option positive :=
  match pr_rate_limiter r with Some (PerIp _ l) => Some l | _ => None end.

Definition host_rules (hr : HostRoutes) : list PathRoute :=
  concat (map snd (map_to_list (hr_exact_map hr))) ++ hr_rules hr ++ option_list (hr_catch_all hr).

Definition bucket_rules (b : ListenerBucket) : list PathRoute :=
  concat (map host_rules (map snd (map_to_list (lb_exact b)) ++ map snd (map_to_list (lb_domain_wildcards b)) ++
                          option_list (lb_catch_all b))).

(** [collect_per_ip_limiters]; limiters are compared by identity. *)
Definition collect_per_ip_limiters (by_port : gmap Z (list ListenerBucket)) (any_port : list ListenerBucket)
  : list positive :=
  fold_left (fun seen r =>
    match route_per_ip r with
    | Some l => if decide (l ∈ seen) then seen else seen ++ [l]
    | None => seen
    end) (concat (map bucket_rules (concat (map snd (map_to_list by_port)) ++ any_port))) [].

(** ** Applying *)

(** [ProxySnapshot] in full. *)
Record Snapshot (Key : Type) := {
  sp_listeners_by_port : gmap Z (list ListenerBucket);
  sp_any_port_listeners : list ListenerBucket;
  sp_lbs : gmap BackendKey positive;
  sp_circuit_breakers : gmap BackendKey positive;
  sp_connection_limiters : gmap BackendKey positive;
  sp_per_ip_limiters : list positive;
  sp_backend_tls : gmap BackendKey BackendTlsInfo;
  sp_backend_client_cert : option ClientIdentity;
  sp_lb_signatures : gmap BackendKey Z;
  sp_federations : gmap string Federation;
  sp_budget_policies : list BudgetPolicy;
  sp_jwks : Jwks Key;
}.
Arguments sp_listeners_by_port {Key} s.
Arguments sp_any_port_listeners {Key} s.
Arguments sp_lbs {Key} s.
Arguments sp_circuit_breakers {Key} s.
Arguments sp_connection_limiters {Key} s.
Arguments sp_per_ip_limiters {Key} s.
Arguments sp_backend_tls {Key} s.
Arguments sp_backend_client_cert {Key} s.
Arguments sp_lb_signatures {Key} s.
Arguments sp_federations {Key} s.
Arguments sp_budget_policies {Key} s.
Arguments sp_jwks {Key} s.

(** [ProxyState]: the slots; storing certificates notifies the reload
    thread. *)
Record ProxyState (Key : Type) := {
  px_snapshot : Snapshot Key;
  px_lbs : gmap BackendKey positive;
  px_l4_config : L4Config;
  px_tls_cert : option TlsCertData;
  px_tls_notified : bool;
  px_health_check_min_interval : Z;
}.
Arguments px_snapshot {Key} p.
Arguments px_lbs {Key} p.
Arguments px_l4_config {Key} p.
Arguments px_tls_cert {Key} p.
Arguments px_tls_notified {Key} p.
Arguments px_health_check_min_interval {Key} p.

Definition tls_entries (listeners : list Listener) : list TlsCertEntry :=
  omap (fun l =>
    match ls_tls_cert_ref l with
    | Some c =>
        if negb (is_empty (tcr_cert_pem c)) && negb (is_empty (tcr_key_pem c))
        then Some {| te_hostname := ls_hostname l; te_cert_pem := tcr_cert_pem c; te_key_pem := tcr_key_pem c |}
        else None
    | None => None
    end) listeners.

(** The least health check interval, 10 seconds when there is none. *)
Definition min_interval (groups : list BackendGroup) : Z :=
  match omap (fun g => (fun hc => Z.max (hcc_interval_secs hc) 1) <$> bg_health_check g) groups with
  | [] => 10
  | x :: xs => fold_left Z.min xs x
  end.

(** ** Keys of the issuers *)

(** A key of a [JwkSet], as the crates parse it: its parameters, its declared
    algorithm, its id, and the key [DecodingKey::from_jwk] makes of it. *)
Inductive JwkParams := RsaParams | EcParams (curve : string) | OkpParams | OctParams.

Record Jwk (Key : Type) := {
  jwk_params : JwkParams;
  jwk_key_algorithm : option string;
  jwk_key_id : option string;
  jwk_decoding_key : option Key;
}.
Arguments jwk_params {Key} j.
Arguments jwk_key_algorithm {Key} j.
Arguments jwk_key_id {Key} j.
Arguments jwk_decoding_key {Key} j.

(** [algorithm]: the signature algorithms that are accepted. *)
Definition signature_algorithm (a : string) : option string :=
  if decide (a ∈ ["RS256"; "RS384"; "RS512"; "PS256"; "PS384"; "PS512"; "ES256"; "ES384"; "EdDSA"]) then Some a else None.

Definition jwk_algorithm {Key} (j : Jwk Key) : option string :=
  match jwk_key_algorithm j, jwk_params j with
  | Some a, _ => signature_algorithm a
  | None, RsaParams => Some "RS256"
  | None, EcParams curve =>
      if decide (curve = "P-256") then Some "ES256" else if decide (curve = "P-384") then Some "ES384" else None
  | None, OkpParams => Some "EdDSA"
  | None, OctParams => None
  end.

Definition jwk_entry {Key} (j : Jwk Key) : option (option string * string * Key) :=
  alg ← jwk_algorithm j; key ← jwk_decoding_key j; Some (jwk_key_id j, alg, key).

(** [Jwks::from_entries], over the JSON parser of key sets. *)
Definition Jwks_from_entries {Key} (parse_set : string -> option (list (Jwk Key))) (entries : list IssuerKeys) : Jwks Key :=
  fold_left (fun m e =>
    match parse_set (ik_jwks_json e) with
    | Some keys => <[ik_issuer e := omap jwk_entry keys]> m
    | None => m
    end) entries ∅.

Section Apply.
Context `{HttpCrate} `{ConfigCrates} `{TlsCrates} {Key : Type}.
Context (hash : list (string * Z) * option HealthCheckConfig -> Z).
Context (parse_set : string -> option (list (Jwk Key))).
(** [gateway_identity()] *)
Context (gateway : string * string).

(** [apply_config]: shadow-build, then swap the slots. *)
Definition apply_config (now : Z) (config : CompiledConfig) (state : ProxyState Key) : Alloc (ProxyState Key) :=
  let current := px_snapshot state in
  let! (cbs, cls) :=
    build_cb_cl_maps (cc_routes config) (sp_circuit_breakers current) (sp_connection_limiters current) now ∅ ∅ in
  let! (by_port, any_port) :=
    build_listener_buckets cbs cls (sp_listeners_by_port current) (sp_any_port_listeners current) now (cc_routes config) in
  let! (lbs, signatures) := build_lb_map hash (cc_backends config) (sp_lbs current) (sp_lb_signatures current) in
  let entries := tls_entries (cc_listeners config) in
  let tls_updated := match entries with [] => false | _ => true end in
  aret {|
    px_snapshot := {|
      sp_listeners_by_port := by_port; sp_any_port_listeners := any_port; sp_lbs := lbs;
      sp_circuit_breakers := cbs; sp_connection_limiters := cls;
      sp_per_ip_limiters := collect_per_ip_limiters by_port any_port;
      sp_backend_tls := build_backend_tls_map (cc_backends config);
      sp_backend_client_cert := build_backend_client_cert config gateway;
      sp_lb_signatures := signatures; sp_federations := build_federations (cc_mcp_federations config);
      sp_budget_policies := budget_policies (cc_routes config);
      sp_jwks := Jwks_from_entries parse_set (cc_issuer_keys config) |};
    px_lbs := lbs;
    px_l4_config := build_l4_config config;
    px_tls_cert :=
      if tls_updated
      then Some {| td_entries := entries; td_client_validation := client_validation_from_listeners (cc_listeners config) |}
      else px_tls_cert state;
    px_tls_notified := px_tls_notified state || tls_updated;
    px_health_check_min_interval := min_interval (cc_backends config) |}.

(** ** The configuration stream *)

Inductive ApplyDecision := Apply | Heartbeat | Stale.

(** [apply_decision] *)
Definition apply_decision (config_fingerprint config_version applied_fingerprint applied_version : Z) : ApplyDecision :=
  if negb (config_fingerprint =? 0) then
    if config_fingerprint =? applied_fingerprint then Heartbeat else Apply
  else if (config_version =? applied_version) && (applied_version >? 0) then Heartbeat
  else if config_version <? applied_version then Stale
  else Apply.

(** [is_schema_compatible] *)
Definition is_schema_compatible (schema_version : string) : bool :=
  bool_decide (head (split_char "." schema_version) = Some "1").

Record AppliedConfig := {
  ac_fingerprint : Z;
  ac_version : Z;
}.

Definition AppliedConfig_default : AppliedConfig := {| ac_fingerprint := 0; ac_version := 0 |}.

(** One message of the loop of [connect_and_stream].  What is applied is
    carried across reconnects; validation errors are logged only. *)
Definition handle_message (now : Z) (config : CompiledConfig) (st : AppliedConfig * ProxyState Key)
  : Alloc (AppliedConfig * ProxyState Key) :=
  let '(applied, state) := st in
  if cc_version config =? 0 then aret st
  else if negb (is_schema_compatible (cc_schema_version config)) then aret st
  else
    match apply_decision (cc_fingerprint config) (cc_version config) (ac_fingerprint applied) (ac_version applied) with
    | Apply =>
        let! state := apply_config now config state in
        aret ({| ac_fingerprint := cc_fingerprint config; ac_version := cc_version config |}, state)
    | Heartbeat => aret st
    | Stale => aret st
    end.

(** The messages received, with the clock at each, over any number of
    streams. *)
Fixpoint handle_messages (messages : list (Z * CompiledConfig)) (st : AppliedConfig * ProxyState Key)
  : Alloc (AppliedConfig * ProxyState Key) :=
  match messages with
  | [] => aret st
  | (now, config) :: messages => let! st := handle_message now config st in handle_messages messages st
  end.
End Apply.

(** [next_backoff] *)
Definition next_backoff (current_ms : Z) : Z := Z.min (as_u 64 (current_ms * 2)) 5000.

(** ** Validation *)

(** The reasons for which [validate_config] refuses, with the position. *)
Inductive ConfigError :=
| NoService (route : nat)
| PortZero (route : nat)
| EmptyHost (route : nat)
| DuplicateKey (route : nat)
| WeightedNoService (route backend : nat)
| WeightedPortZero (route backend : nat)
| ListenerPortZero (listener : nat).

Definition RouteKey : Type := string * string * string * string * Z.

Definition path_key (route : RouteConfig) (p : PathRule) : RouteKey :=
  (rc_host route, pl_path p, pl_match_type p, rc_method_match route, rc_listener_port route).

Definition is_redirect (route : RouteConfig) : bool := match rc_redirect route with Some _ => true | None => false end.
Definition no_weighted (route : RouteConfig) : bool := match rc_weighted_backends route with [] => true | _ => false end.

(** The keys of the paths of a route, into the set of those seen. *)
Fixpoint insert_keys (keys : list RouteKey) (seen : gset RouteKey) : option (gset RouteKey) :=
  match keys with
  | [] => Some seen
  | k :: keys => if decide (k ∈ seen) then None else insert_keys keys ({[ k ]} ∪ seen)
  end.

Fixpoint check_weighted (i j : nat) (backends : list WeightedBackend) : result unit ConfigError :=
  match backends with
  | [] => Ok tt
  | wb :: backends =>
      if is_empty (wbp_service_name wb) then Err (WeightedNoService i j)
      else if wbp_port wb =? 0 then Err (WeightedPortZero i j)
      else check_weighted i (S j) backends
  end.

Definition check_route (i : nat) (route : RouteConfig) (seen : gset RouteKey) : result (gset RouteKey) ConfigError :=
  if is_empty (rc_service_name route) && no_weighted route && negb (is_redirect route) then Err (NoService i)
  else if (rc_port route =? 0) && no_weighted route && negb (is_redirect route) then Err (PortZero i)
  else if is_empty (rc_host route) && negb (bool_decide (rc_paths route = [])) then Err (EmptyHost i)
  else
    try! seen := ok_or (insert_keys (map (path_key route) (rc_paths route)) seen) (DuplicateKey i) in
    try! _ := check_weighted i 0 (rc_weighted_backends route) in
    Ok seen.

Fixpoint check_routes (i : nat) (routes : list RouteConfig) (seen : gset RouteKey) : result unit ConfigError :=
  match routes with
  | [] => Ok tt
  | route :: routes => try! seen := check_route i route seen in check_routes (S i) routes seen
  end.

Fixpoint check_listeners (i : nat) (listeners : list Listener) : result unit ConfigError :=
  match listeners with
  | [] => Ok tt
  | l :: listeners => if ls_port l =? 0 then Err (ListenerPortZero i) else check_listeners (S i) listeners
  end.

Inductive ConfigWarning :=
| ZeroRoutes
| ManyRoutes (n : nat)
| NoBackends (route : nat)
| MissingCert (listener : nat)
| BadRegex (route : nat) (path : string).

Section Validate.
Context `{ConfigCrates}.

Definition missing_cert (l : Listener) : bool :=
  let proto := to_ascii_uppercase (ls_protocol l) in
  (bool_decide (proto = "HTTPS") || bool_decide (proto = "TLS")) &&
  match ls_tls_cert_ref l with
  | None => true
  | Some c => is_empty (tcr_cert_pem c) || is_empty (tcr_key_pem c)
  end.

Definition config_warnings (config : CompiledConfig) : list ConfigWarning :=
  (if decide (cc_routes config = []) then [ZeroRoutes] else []) ++
  (if 10000 <? Z.of_nat (length (cc_routes config)) then [ManyRoutes (length (cc_routes config))] else []) ++
  concat (imap (fun i route =>
    if is_empty (rc_service_name route) && no_weighted route && negb (is_redirect route) then [NoBackends i] else []) (cc_routes config)) ++
  concat (imap (fun i l => if missing_cert l then [MissingCert i] else []) (cc_listeners config)) ++
  concat (imap (fun i route =>
    concat (map (fun p => if bool_decide (pl_match_type p = "RegularExpression") && negb (regex_builds (pl_path p))
                          then [BadRegex i (pl_path p)] else []) (rc_paths route))) (cc_routes config)).

(** [validate_config] *)
Definition validate_config (config : CompiledConfig) : result (list ConfigWarning) ConfigError :=
  try! _ := check_routes 0 (cc_routes config) ∅ in
  try! _ := check_listeners 0 (cc_listeners config) in
  Ok (config_warnings config).
End Validate.

(** ** What validation accepts *)

Definition weighted_ok (wb : WeightedBackend) : Prop := wbp_service_name wb <> EmptyString /\ wbp_port wb <> 0.

Definition route_keys (route : RouteConfig) : list RouteKey := map (path_key route) (rc_paths route).
Definition all_keys (routes : list RouteConfig) : list RouteKey := concat (map route_keys routes).

(** A route that can be proxied (or redirects), is reachable, and has usable
    weighted backends. *)
Definition route_ok (route : RouteConfig) : Prop :=
  (rc_weighted_backends route <> [] \/ rc_redirect route <> None \/
   (rc_service_name route <> EmptyString /\ rc_port route <> 0)) /\
  (rc_host route <> EmptyString \/ rc_paths route = []) /\
  Forall weighted_ok (rc_weighted_backends route).

(** What an error says of the route at its position. *)
Definition violates (e : ConfigError) (i : nat) (route : RouteConfig) (earlier : list RouteKey) : Prop :=
  let unbacked := rc_weighted_backends route = [] /\ rc_redirect route = None in
  match e with
  | NoService n => n = i /\ unbacked /\ rc_service_name route = EmptyString
  | PortZero n => n = i /\ unbacked /\ rc_port route = 0
  | EmptyHost n => n = i /\ rc_host route = EmptyString /\ rc_paths route <> []
  | DuplicateKey n => n = i /\ ~ NoDup (earlier ++ route_keys route)
  | WeightedNoService n j =>
      n = i /\ exists wb, rc_weighted_backends route !! j = Some wb /\ wbp_service_name wb = EmptyString
  | WeightedPortZero n j => n = i /\ exists wb, rc_weighted_backends route !! j = Some wb /\ wbp_port wb = 0
  | ListenerPortZero _ => False
  end.

Lemma insert_keys_spec keys seen :
  match insert_keys keys seen with
  | Some seen' => NoDup keys /\ (forall k, k ∈ keys -> k ∉ seen) /\ (forall k, k ∈ seen' <-> k ∈ keys \/ k ∈ seen)
  | None => ~ (NoDup keys /\ forall k, k ∈ keys -> k ∉ seen)
  end.
Proof.
  revert seen. induction keys as [|k keys IH]; intros seen; simpl.
  { split_and!; [constructor|set_solver..]. }
  destruct (decide (k ∈ seen)) as [Hk|Hk].
  { intros [_ Hdis]. by apply (Hdis k); [left|]. }
  specialize (IH ({[ k ]} ∪ seen)). destruct (insert_keys keys _) as [seen'|].
  - destruct IH as (Hnd & Hdis & Hin). split_and!.
    + constructor; [|done]. intros Hx. apply (Hdis k Hx). set_solver.
    + set_solver.
    + set_solver.
  - intros [[Hnk Hnd]%NoDup_cons Hdis]. apply IH. split; [done|]. set_solver.
Qed.

Lemma check_weighted_spec i j backends :
  match check_weighted i j backends with
  | Ok _ => Forall weighted_ok backends
  | Err (WeightedNoService n m) => n = i /\ exists d wb, m = (j + d)%nat /\ backends !! d = Some wb /\ wbp_service_name wb = EmptyString
  | Err (WeightedPortZero n m) => n = i /\ exists d wb, m = (j + d)%nat /\ backends !! d = Some wb /\ wbp_port wb = 0
  | Err _ => False
  end.
Proof.
  revert j. induction backends as [|wb backends IH]; intros j; simpl; [constructor|].
  destruct (is_empty (wbp_service_name wb)) eqn:He.
  { split; [done|]. exists 0%nat, wb. split_and!; [lia|done|]. by apply is_empty_true. }
  destruct (Z.eqb_spec (wbp_port wb) 0) as [Hp|Hp].
  { split; [done|]. exists 0%nat, wb. split_and!; [lia|done..]. }
  specialize (IH (S j)). destruct (check_weighted i (S j) backends) as [[]|[]]; try done.
  - constructor; [|done]. split; [|done]. intros Hs. by rewrite Hs in He.
  - destruct IH as (-> & d & w & -> & ? & ?). split; [done|]. exists (S d), w. split_and!; [lia|done..].
  - destruct IH as (-> & d & w & -> & ? & ?). split; [done|]. exists (S d), w. split_and!; [lia|done..].
Qed.

Lemma unbacked_spec route :
  no_weighted route && negb (is_redirect route) = true <-> rc_weighted_backends route = [] /\ rc_redirect route = None.
Proof.
  unfold no_weighted, is_redirect. destruct (rc_weighted_backends route), (rc_redirect route); simpl; naive_solver.
Qed.

(** The guards of the route checks, when none holds. *)
Lemma route_ok_intro route :
  is_empty (rc_service_name route) && no_weighted route && negb (is_redirect route) = false ->
  (rc_port route =? 0) && no_weighted route && negb (is_redirect route) = false ->
  is_empty (rc_host route) && negb (bool_decide (rc_paths route = [])) = false ->
  Forall weighted_ok (rc_weighted_backends route) -> route_ok route.
Proof.
  rewrite <- !andb_assoc. intros H1 H2 H3 Hw. split_and!; [| |done].
  - destruct (no_weighted route && negb (is_redirect route)) eqn:Hu.
    + right. right. rewrite andb_true_r in H1, H2. split; [|lia]. intros Hs. by rewrite Hs in H1.
    + unfold no_weighted, is_redirect in Hu. destruct (rc_weighted_backends route), (rc_redirect route); naive_solver.
  - apply andb_false_iff in H3 as [H3|H3%negb_false_iff]; [left|right; by apply bool_decide_eq_true in H3].
    intros Hh. by rewrite Hh in H3.
Qed.

Lemma check_route_spec i route seen :
  match check_route i route seen with
  | Ok seen' => route_ok route /\ NoDup (route_keys route) /\ (forall k, k ∈ route_keys route -> k ∉ seen) /\
      (forall k, k ∈ seen' <-> k ∈ route_keys route \/ k ∈ seen)
  | Err e => forall earlier, NoDup earlier -> (forall k, k ∈ seen <-> k ∈ earlier) -> violates e i route earlier
  end.
Proof.
  unfold check_route. destruct (is_empty (rc_service_name route) && _ && _) eqn:H1.
  { intros earlier _ _. rewrite <- andb_assoc in H1. apply andb_true_iff in H1 as [Hs%is_empty_true Hu%unbacked_spec]. done. }
  destruct ((rc_port route =? 0) && _ && _) eqn:H2.
  { intros earlier _ _. rewrite <- andb_assoc in H2. apply andb_true_iff in H2 as [Hp%Z.eqb_eq Hu%unbacked_spec]. done. }
  destruct (is_empty (rc_host route) && _) eqn:H3.
  { intros earlier _ _. apply andb_true_iff in H3 as [Hh%is_empty_true Hp%negb_true_iff%bool_decide_eq_false]. done. }
  fold (route_keys route). pose proof (insert_keys_spec (route_keys route) seen) as Hk.
  destruct (insert_keys (route_keys route) seen) as [seen'|]; simpl.
  2: { intros earlier Hnd Heq. split; [done|]. intros (_ & Hdis & Hnk)%NoDup_app. apply Hk. split; [done|].
       intros k Hin Hse. apply (Hdis k); [by apply Heq|done]. }
  pose proof (check_weighted_spec i 0 (rc_weighted_backends route)) as Hcw.
  destruct (check_weighted i 0 (rc_weighted_backends route)) as [[]|[]]; try done.
  - split; [by apply route_ok_intro|done].
  - intros earlier _ _. destruct Hcw as (-> & d & w & -> & ? & ?). split; [done|]. by exists w.
  - intros earlier _ _. destruct Hcw as (-> & d & w & -> & ? & ?). split; [done|]. by exists w.
Qed.

Lemma check_routes_spec before routes seen :
  NoDup (all_keys before) -> (forall k, k ∈ seen <-> k ∈ all_keys before) ->
  match check_routes (length before) routes seen with
  | Ok _ => Forall route_ok routes /\ NoDup (all_keys (before ++ routes))
  | Err e => exists i route, (before ++ routes) !! i = Some route /\ violates e i route (all_keys (take i (before ++ routes)))
  end.
Proof.
  revert before seen. induction routes as [|route routes IH]; intros before seen Hnd Hseen; simpl.
  { rewrite app_nil_r. by split. }
  pose proof (check_route_spec (length before) route seen) as Hr.
  destruct (check_route (length before) route seen) as [seen'|e].
  - destruct Hr as (Hok & Hnk & Hdis & Hseen').
    assert (Hkeys : all_keys (before ++ [route]) = all_keys before ++ route_keys route).
    { unfold all_keys. rewrite map_app, concat_app. simpl. by rewrite app_nil_r. }
    specialize (IH (before ++ [route]) seen'). rewrite length_app, Nat.add_1_r, <- app_assoc in IH. simpl in IH.
    rewrite Hkeys in IH. specialize (IH ltac:(apply NoDup_app; set_solver) ltac:(set_solver)).
    destruct (check_routes (S (length before)) routes seen') as [[]|e]; [|done].
    destruct IH as [Hall Hn]. split; [by constructor|done].
  - exists (length before), route. rewrite lookup_app_r, Nat.sub_diag by lia. split; [done|].
    rewrite take_app_length. by apply Hr.
Qed.

Lemma check_listeners_spec i listeners :
  match check_listeners i listeners with
  | Ok _ => Forall (fun l => ls_port l <> 0) listeners
  | Err e => exists d l, e = ListenerPortZero (i + d) /\ listeners !! d = Some l /\ ls_port l = 0
  end.
Proof.
  revert i. induction listeners as [|l listeners IH]; intros i; simpl; [constructor|].
  destruct (Z.eqb_spec (ls_port l) 0) as [Hp|Hp].
  { exists 0%nat, l. split_and!; [f_equal; lia|done..]. }
  specialize (IH (S i)). destruct (check_listeners (S i) listeners) as [[]|e]; [by constructor|].
  destruct IH as (d & l' & -> & ? & ?). exists (S d), l'. split_and!; [f_equal; lia|done..].
Qed.

(** C32: Validation accepts exactly the sound configurations and names a real
    fault otherwise.  It succeeds only if every route has a backend or
    redirects, is reachable and has usable weighted backends, no two paths have
    the same key, and no listener has port 0; and every error it returns points
    at a route or listener with that fault. *)
Theorem validate_config_exact `{ConfigCrates} (config : CompiledConfig) :
  match validate_config config with
  | Ok _ => Forall route_ok (cc_routes config) /\ NoDup (all_keys (cc_routes config)) /\
      Forall (fun l => ls_port l <> 0) (cc_listeners config)
  | Err (ListenerPortZero i) => exists l, cc_listeners config !! i = Some l /\ ls_port l = 0
  | Err e => exists i route, cc_routes config !! i = Some route /\ violates e i route (all_keys (take i (cc_routes config)))
  end.
Proof.
  unfold validate_config. pose proof (check_routes_spec [] (cc_routes config) ∅ ltac:(constructor) ltac:(set_solver)) as Hr.
  simpl in Hr. destruct (check_routes 0 (cc_routes config) ∅) as [[]|e].
  - pose proof (check_listeners_spec 0 (cc_listeners config)) as Hl.
    destruct (check_listeners 0 (cc_listeners config)) as [[]|e].
    + destruct Hr. done.
    + destruct Hl as (d & l & -> & ? & ?). by exists l.
  - destruct e; try done. destruct Hr as (? & ? & _ & []).
Qed.

(** ** The stream converges *)

Section Stream.
Context `{HttpCrate} `{ConfigCrates} `{TlsCrates} {Key : Type}.
Context (hash : list (string * Z) * option HealthCheckConfig -> Z).
Context (parse_set : string -> option (list (Jwk Key))) (gateway : string * string).

(** [state] is what applying [config] to some earlier state gave. *)
Definition running (config : CompiledConfig) (state : ProxyState Key) : Prop :=
  exists now before s s', apply_config hash parse_set gateway now config before s = (state, s').

(** What is recorded as applied is running. *)
Definition applied_ok (received : list (Z * CompiledConfig)) (st : AppliedConfig * ProxyState Key) : Prop :=
  ac_fingerprint st.1 <> 0 ->
  exists now config, (now, config) ∈ received /\ cc_fingerprint config = ac_fingerprint st.1 /\ running config st.2.

Lemma handle_message_ok received now config st s :
  applied_ok received st ->
  applied_ok (received ++ [(now, config)]) (handle_message hash parse_set gateway now config st s).1.
Proof.
  intros Hok. assert (Hkeep : applied_ok (received ++ [(now, config)]) st).
  { intros Hne. destruct (Hok Hne) as (n & c & Hin & ? & ?). exists n, c. split; [by apply elem_of_app; left|done]. }
  unfold handle_message. destruct st as [applied state]. destruct (cc_version config =? 0); [done|].
  destruct (negb _); [done|]. destruct (apply_decision _ _ _ _); [|done..].
  unfold abind. destruct (apply_config hash parse_set gateway now config state s) as [state' s'] eqn:Ha. simpl.
  intros _. exists now, config. split; [apply elem_of_app; right; by left|]. split; [done|]. by exists now, state, s, s'.
Qed.

Lemma handle_messages_app ms1 ms2 st s :
  handle_messages hash parse_set gateway (ms1 ++ ms2) st s =
  let '(st, s) := handle_messages hash parse_set gateway ms1 st s in handle_messages hash parse_set gateway ms2 st s.
Proof.
  revert st s. induction ms1 as [|[now config] ms1 IH]; intros st s; simpl; [done|]. unfold abind.
  destruct (handle_message _ _ _ now config st s) as [st' s']. apply IH.
Qed.

Lemma handle_messages_ok messages state s :
  applied_ok messages (handle_messages hash parse_set gateway messages (AppliedConfig_default, state) s).1.
Proof.
  induction messages as [|[now config] messages IH] using rev_ind; [by intros []|].
  rewrite handle_messages_app. destruct (handle_messages _ _ _ messages _ s) as [st s']. simpl in *. unfold abind.
  pose proof (handle_message_ok messages now config st s' IH) as Hok.
  destruct (handle_message _ _ _ now config st s') as [st' s'']. exact Hok.
Qed.

(** A message without its version, which is informational. *)
Definition unversioned (c : CompiledConfig) : CompiledConfig :=
  {| cc_schema_version := cc_schema_version c; cc_version := 0; cc_fingerprint := cc_fingerprint c; cc_routes := cc_routes c;
     cc_backends := cc_backends c; cc_listeners := cc_listeners c; cc_tls_passthrough_routes := cc_tls_passthrough_routes c;
     cc_tcp_proxy_routes := cc_tcp_proxy_routes c; cc_udp_proxy_routes := cc_udp_proxy_routes c;
     cc_tls_passthrough_listener_hostnames := cc_tls_passthrough_listener_hostnames c;
     cc_gateway_backend_tls := cc_gateway_backend_tls c; cc_mcp_federations := cc_mcp_federations c; cc_issuer_keys := cc_issuer_keys c |}.

Lemma running_unversioned c state : running (unversioned c) state <-> running c state.
Proof. reflexivity. Qed.

Lemma last_message_runs messages now config state s :
  cc_version config <> 0 -> is_schema_compatible (cc_schema_version config) = true -> cc_fingerprint config <> 0 ->
  (forall n c, (n, c) ∈ messages -> cc_fingerprint c = cc_fingerprint config -> unversioned c = unversioned config) ->
  let '(applied, state', _) :=
    handle_messages hash parse_set gateway (messages ++ [(now, config)]) (AppliedConfig_default, state) s in
  ac_fingerprint applied = cc_fingerprint config /\ running config state'.
Proof.
  intros Hversion Hschema Hfingerprint Hcontent.
  pose proof (handle_messages_ok messages state s) as Hok. rewrite handle_messages_app.
  destruct (handle_messages _ _ _ messages _ s) as [[applied st] s1]. simpl in *.
  unfold abind, handle_message. rewrite (proj2 (Z.eqb_neq _ 0)) by done. rewrite Hschema. simpl.
  unfold apply_decision. rewrite (proj2 (Z.eqb_neq _ 0)) by done. simpl.
  destruct (Z.eqb_spec (cc_fingerprint config) (ac_fingerprint applied)) as [Heq|Hne]; simpl.
  - split; [done|]. destruct (Hok ltac:(simpl; congruence)) as (n & c & Hin & Hfp & Hrun). simpl in *.
    apply (proj1 (running_unversioned config st)). by rewrite <- (Hcontent n c Hin) by congruence.
  - unfold abind. destruct (apply_config _ _ _ now config st s1) as [state' s'] eqn:Ha. simpl. split; [done|].
    by exists now, st, s1, s'.
Qed.

(** The data plane never gets stuck on an old configuration.  Whatever it
    received before, from whatever controllers and with whatever version
    numbers, after a well-formed message with a fingerprint it runs that
    message's configuration, provided fingerprints identify contents. *)
Theorem stream_runs_last_message (messages : list (Z * CompiledConfig)) (now : Z) (config : CompiledConfig)
  (state : ProxyState Key) (s : store)
  (Hversion : cc_version config <> 0) (Hschema : is_schema_compatible (cc_schema_version config) = true)
  (Hfingerprint : cc_fingerprint config <> 0)
  (Hcontent : forall n c, (n, c) ∈ messages -> cc_fingerprint c = cc_fingerprint config -> unversioned c = unversioned config) :
  let '(applied, state', _) :=
    handle_messages hash parse_set gateway (messages ++ [(now, config)]) (AppliedConfig_default, state) s in
  ac_fingerprint applied = cc_fingerprint config /\ running config state'.
Proof. by apply last_message_runs. Qed.
End Stream.

(** ** Backing off *)

(** Waiting times between reconnects double from one second up to five. *)
Lemma backoff_after n : Nat.iter n next_backoff 1000 = Z.min (1000 * 2 ^ Z.of_nat n) 5000.
Proof.
  induction n as [|n IH]; [done|]. simpl Nat.iter. rewrite IH. unfold next_backoff.
  assert (0 < 2 ^ Z.of_nat n) by (apply Z.pow_pos_nonneg; lia).
  rewrite as_u_small by (split; lia). rewrite Nat2Z.inj_succ, Z.pow_succ_r by lia. lia.
Qed.

(** ** Allocation: what a build leaves alone *)

Definition keeps {A B} (f : store -> B) (m : Alloc A) : Prop := forall s, f (m s).2 = f s.

Create HintDb alloc.

Lemma alloc_keeps_ret {A B} (f : store -> B) (a : A) : keeps f (aret a).
Proof. done. Qed.

Lemma alloc_keeps_bind {A A' B} (f : store -> B) (m : Alloc A) (k : A -> Alloc A') :
  keeps f m -> (forall a, keeps f (k a)) -> keeps f (abind m k).
Proof. intros Hm Hk s. unfold abind. specialize (Hm s). destruct (m s) as [a s1]. rewrite Hk. exact Hm. Qed.

Lemma keeps_amap {A A' B} (f : store -> B) (k : A -> Alloc A') l : (forall a, keeps f (k a)) -> keeps f (amap k l).
Proof.
  intros Hk. induction l as [|x l IH]; simpl; [apply alloc_keeps_ret|].
  apply alloc_keeps_bind; [done|]. intros y. apply alloc_keeps_bind; [done|]. intros ys. apply alloc_keeps_ret.
Qed.

Lemma keeps_amap_option {A A' B} (f : store -> B) (k : A -> Alloc A') o :
  (forall a, keeps f (k a)) -> keeps f (amap_option k o).
Proof.
  intros Hk. destruct o as [a|]; simpl; [|apply alloc_keeps_ret]. apply alloc_keeps_bind; [done|]. intros b. apply alloc_keeps_ret.
Qed.

#[export] Hint Resolve alloc_keeps_ret alloc_keeps_bind keeps_amap keeps_amap_option : alloc.

(** Building routes allocates rate limiters and verifiers only. *)
Section BucketFrame.
Context `{HttpCrate} `{ConfigCrates} {B : Type} (f : store -> B).
Hypothesis f_buckets : forall s b, f (set_buckets s b) = f s.
Hypothesis f_per_ip : forall s b, f (set_per_ip s b) = f s.
Hypothesis f_jwt : forall s b, f (set_jwt s b) = f s.

Lemma keeps_rate_limiter old path mt now rl : keeps f (build_rate_limiter old path mt now rl).
Proof.
  unfold build_rate_limiter. destruct (_ ≫= _); [apply alloc_keeps_ret|].
  destruct (rlc_per_client rl); (apply alloc_keeps_bind; [intros s; apply f_per_ip || apply f_buckets|intros r; apply alloc_keeps_ret]).
Qed.

Lemma keeps_auth a : keeps f (build_auth a).
Proof.
  destruct a; simpl; try apply alloc_keeps_ret. apply alloc_keeps_bind; [|intros r; apply alloc_keeps_ret]. intros s. apply f_jwt.
Qed.

Lemma keeps_buckets cbs cls by_port any_port now routes :
  keeps f (build_listener_buckets cbs cls by_port any_port now routes).
Proof.
  unfold build_listener_buckets. apply alloc_keeps_bind; [|intros gs; apply alloc_keeps_ret].
  apply keeps_amap. intros [[[port lh] host] specs]. unfold build_group. apply alloc_keeps_bind; [|intros rs; apply alloc_keeps_ret].
  unfold group_routes. apply alloc_keeps_bind; [|intros rs; apply alloc_keeps_ret]. apply keeps_amap. intros spec.
  unfold spec_routes. apply alloc_keeps_bind; [apply keeps_amap_option, keeps_auth|].
  intros auth. apply keeps_amap. intros [path mt]. unfold make_route.
  apply alloc_keeps_bind; [apply keeps_amap_option; intros rl; apply keeps_rate_limiter|]. intros rl.
  destruct (parse_header_mutations (rc_request_headers spec)) as [[? ?] ?].
  destruct (parse_header_mutations (rc_response_headers spec)) as [[? ?] ?]. apply alloc_keeps_ret.
Qed.
End BucketFrame.

(** ** Breakers and limiters follow the routes *)

(** A kind of shared object with a setting, and the operation that makes one. *)
Section Entries.
Context {C O : Type} `{EqDecision C} (objects : store -> gmap positive O) (setting : O -> C).
Context (make : C -> Alloc positive).
Hypothesis make_spec : forall c s, exists r o,
  (make c s).1 = r /\ objects s !! r = None /\ objects (make c s).2 = <[r := o]> (objects s) /\ setting o = c.
Context (want : RouteConfig -> option C) (existing : gmap BackendKey positive).

Definition add_entry (route : RouteConfig) (m : gmap BackendKey positive) : Alloc (gmap BackendKey positive) :=
  match want route with
  | None => aret m
  | Some c => entry_or_reuse objects setting existing make (backend_key route) c m
  end.

(** The setting of a backend: the first one its routes ask for. *)
Definition first_want (key : BackendKey) (routes : list RouteConfig) : option C :=
  head (omap want (List.filter (fun r => bool_decide (backend_key r = key)) routes)).

Lemma first_want_snoc key routes route :
  first_want key (routes ++ [route]) =
  match first_want key routes with
  | Some c => Some c
  | None => if decide (backend_key route = key) then want route else None
  end.
Proof.
  unfold first_want. rewrite List.filter_app, omap_app, head_app. simpl.
  destruct (head (omap want (List.filter _ routes))); [done|]. destruct (decide (backend_key route = key)) as [Hk|Hk].
  - rewrite bool_decide_true by done. simpl. by destruct (want route).
  - by rewrite bool_decide_false by done.
Qed.

(** The map after the routes [done], with the objects of [s], having started
    with those of [s0]. *)
Definition entries_ok (s0 s : store) (routes : list RouteConfig) (m : gmap BackendKey positive) : Prop :=
  objects s0 ⊆ objects s /\
  forall key,
    match m !! key with
    | None => first_want key routes = None
    | Some r => exists o, objects s !! r = Some o /\ first_want key routes = Some (setting o) /\
        forall r0 o0, existing !! key = Some r0 -> objects s0 !! r0 = Some o0 -> setting o0 = setting o -> r = r0
    end.

Lemma entries_ok_weaken s0 s s' routes m : objects s' = objects s -> entries_ok s0 s routes m -> entries_ok s0 s' routes m.
Proof. unfold entries_ok. by intros ->. Qed.

Lemma entries_ok_snoc s0 s routes route m m' :
  entries_ok s0 s routes m ->
  (forall key, (backend_key route = key -> want route = None \/ is_Some (m !! key)) -> m' !! key = m !! key) ->
  (forall c, want route = Some c -> m !! backend_key route = None ->
     exists r o, m' !! backend_key route = Some r /\ objects s !! r = Some o /\ setting o = c /\
       forall r0 o0, existing !! backend_key route = Some r0 -> objects s0 !! r0 = Some o0 -> setting o0 = c -> r = r0) ->
  entries_ok s0 s (routes ++ [route]) m'.
Proof.
  intros [Hsub Hok] Hother Hnew. split; [done|]. intros key. specialize (Hok key). rewrite first_want_snoc.
  destruct (m !! key) as [r|] eqn:Hm.
  - rewrite Hother, Hm by eauto. destruct Hok as (o & Ho & -> & Hre). by exists o.
  - rewrite Hok. destruct (decide (backend_key route = key)) as [<-|Hk].
    + destruct (want route) as [c|] eqn:Hw.
      * destruct (Hnew c eq_refl Hm) as (r & o & -> & Ho & <- & Hre). by exists o.
      * rewrite Hother, Hm by eauto. done.
    + rewrite Hother, Hm by done. done.
Qed.

Lemma add_entry_ok s0 s routes route m :
  entries_ok s0 s routes m ->
  let '(m', s') := add_entry route m s in entries_ok s0 s' (routes ++ [route]) m'.
Proof.
  intros Hok. pose proof Hok as [Hsub _]. unfold add_entry, aret. destruct (want route) as [c|] eqn:Hw.
  2: { apply (entries_ok_snoc s0 s routes route m m); [done..|]. by rewrite Hw. }
  unfold entry_or_reuse. destruct (m !! backend_key route) as [r|] eqn:Hm.
  { apply (entries_ok_snoc s0 s routes route m m); [done..|]. intros c' _ Hx. congruence. }
  assert (Hins : forall r' key, (backend_key route = key -> want route = None \/ is_Some (m !! key)) ->
    <[backend_key route := r']> m !! key = m !! key).
  { intros r' key Hk. apply lookup_insert_ne. intros <-. rewrite Hm in Hk. destruct (Hk eq_refl) as [|[? ?]]; congruence. }
  destruct (existing !! backend_key route ≫= _) as [r|] eqn:Hre.
  - apply bind_Some in Hre as (r1 & Hex & (o & Ho & Hset)%bind_Some). destruct (decide (setting o = c)); [|done]. simplify_eq.
    apply (entries_ok_snoc s0 s routes route m); [done|apply Hins|]. rewrite Hw. intros c' [= <-] _. exists r, o.
    split_and!; [apply lookup_insert_eq|done..|]. intros. congruence.
  - destruct (make_spec c s) as (r & o & Hr & Hnone & Hobj & Hset). destruct (make c s) as [r' s']. simpl in *. subst r'.
    assert (Hgrow : objects s ⊆ objects s') by (rewrite Hobj; by apply insert_subseteq).
    apply (entries_ok_snoc s0 s' routes route m); [|apply Hins|].
    + destruct Hok as [_ Hok]. split; [by transitivity (objects s)|]. intros key. specialize (Hok key).
      destruct (m !! key); [|done]. destruct Hok as (o1 & Ho1 & ? & ?). exists o1. split; [by eapply lookup_weaken|done].
    + rewrite Hw. intros c' [= <-] _. exists r, o. rewrite Hobj, !lookup_insert_eq. split_and!; [done..|].
      intros r0 o0 Hex H0 Hset0. exfalso. assert (objects s !! r0 = Some o0) as Hs by (by eapply lookup_weaken).
      rewrite Hex in Hre. simpl in Hre. rewrite Hs in Hre. simpl in Hre. by rewrite decide_True in Hre.
Qed.
End Entries.

Definition breakers_ok := entries_ok st_breakers cb_config route_breaker.
Definition limiters_ok := entries_ok st_limiters cl_max route_limiter.

Lemma new_breaker_spec now c s : exists r o,
  (new_breaker c now s).1 = r /\ st_breakers s !! r = None /\
  st_breakers (new_breaker c now s).2 = <[r := o]> (st_breakers s) /\ cb_config o = c.
Proof.
  eexists _, _. split_and!; [reflexivity| |reflexivity|reflexivity]. apply not_elem_of_dom, is_fresh.
Qed.

Lemma new_limiter_spec c s : exists r o,
  (new_limiter c s).1 = r /\ st_limiters s !! r = None /\
  st_limiters (new_limiter c s).2 = <[r := o]> (st_limiters s) /\ cl_max o = c.
Proof.
  eexists _, _. split_and!; [reflexivity| |reflexivity|reflexivity]. apply not_elem_of_dom, is_fresh.
Qed.

Lemma keeps_entry {C O B} `{EqDecision C} (objects : store -> gmap positive O) (setting : O -> C) (f : store -> B)
  existing make key c m : (forall c, keeps f (make c)) -> keeps f (entry_or_reuse objects setting existing make key c m).
Proof.
  intros Hmake s. unfold entry_or_reuse. destruct (m !! key); [done|]. destruct (existing !! key ≫= _); [done|].
  specialize (Hmake c s). by destruct (make c s).
Qed.

Lemma keeps_add_breaker {B} (f : store -> B) existing now route m :
  (forall s b, f (set_breakers s b) = f s) -> keeps f (add_breaker existing now route m).
Proof. intros Hf. unfold add_breaker. destruct (route_breaker route); [|done]. apply keeps_entry. intros c' s'. apply Hf. Qed.

Lemma keeps_add_limiter {B} (f : store -> B) existing route m :
  (forall s b, f (set_limiters s b) = f s) -> keeps f (add_limiter existing route m).
Proof. intros Hf. unfold add_limiter. destruct (route_limiter route); [|done]. apply keeps_entry. intros c' s'. apply Hf. Qed.

Lemma keeps_cb_cl {B} (f : store -> B) routes ecbs ecls now cbs cls :
  (forall s b, f (set_breakers s b) = f s) -> (forall s b, f (set_limiters s b) = f s) ->
  keeps f (build_cb_cl_maps routes ecbs ecls now cbs cls).
Proof.
  intros Hb Hl. revert cbs cls. induction routes as [|route routes IH]; intros cbs cls; simpl; [apply alloc_keeps_ret|].
  apply alloc_keeps_bind; [by apply keeps_add_breaker|]. intros cbs'. apply alloc_keeps_bind; [by apply keeps_add_limiter|]. intros cls'. apply IH.
Qed.

Lemma build_cb_cl_ok ecbs ecls now s0 routes before cbs cls s :
  breakers_ok ecbs s0 s before cbs -> limiters_ok ecls s0 s before cls ->
  let '(cbs', cls', s') := build_cb_cl_maps routes ecbs ecls now cbs cls s in
  breakers_ok ecbs s0 s' (before ++ routes) cbs' /\ limiters_ok ecls s0 s' (before ++ routes) cls'.
Proof.
  revert before cbs cls s. induction routes as [|route routes IH]; intros before cbs cls s Hb Hl; simpl.
  { by rewrite app_nil_r. }
  unfold abind.
  pose proof (add_entry_ok st_breakers cb_config (fun c => new_breaker c now) (new_breaker_spec now) route_breaker ecbs s0 s before route cbs Hb) as Hb1.
  pose proof (keeps_add_breaker st_limiters ecbs now route cbs ltac:(done) s) as Hk1.
  change (add_entry _ _ _ _ _ route cbs s) with (add_breaker ecbs now route cbs s) in Hb1.
  destruct (add_breaker ecbs now route cbs s) as [cbs1 s1]. simpl in Hk1.
  apply (entries_ok_weaken st_limiters cl_max route_limiter ecls s0 s s1) in Hl; [|done].
  pose proof (add_entry_ok st_limiters cl_max new_limiter new_limiter_spec route_limiter ecls s0 s1 before route cls Hl) as Hl1.
  pose proof (keeps_add_limiter st_breakers ecls route cls ltac:(done) s1) as Hk2.
  change (add_entry _ _ _ _ _ route cls s1) with (add_limiter ecls route cls s1) in Hl1.
  destruct (add_limiter ecls route cls s1) as [cls1 s2]. simpl in Hk2.
  apply (entries_ok_weaken st_breakers cb_config route_breaker ecbs s0 s1 s2) in Hb1; [|done].
  specialize (IH (before ++ [route]) cbs1 cls1 s2 Hb1 Hl1). rewrite <- app_assoc in IH. exact IH.
Qed.

(** ** Pools follow the backend groups *)

(** The canonical form determines the pool. *)
Lemma signature_input_pool g1 g2 :
  signature_input g1 = signature_input g2 -> bg_service_name g1 = bg_service_name g2 ->
  Pool_new (group_addrs g1) (group_health_check g1) = Pool_new (group_addrs g2) (group_health_check g2).
Proof.
  unfold signature_input. intros [= Haddrs Hhc] Hname.
  assert (Hsame : forall a, a ∈ group_addrs g1 <-> a ∈ group_addrs g2).
  { assert (Hel : forall g a, a ∈ group_addrs g <->
      exists x, x ∈ dedup_adjacent (sort_by endpoint_cmp (map (fun ep => (be_address ep, be_port ep)) (bg_endpoints g))) /\
        parse_socket_addr (x.1 +:+ ":" +:+ show_u (x.2)) = Some a).
    { intros g a. unfold group_addrs. rewrite list_elem_of_omap. split.
      - intros (ep & Hin & Hp). exists (be_address ep, be_port ep). split; [|done].
        rewrite dedup_adjacent_elem, sort_by_perm. apply list_elem_of_fmap. by exists ep.
      - intros (x & Hin & Hp). rewrite dedup_adjacent_elem, sort_by_perm in Hin.
        apply list_elem_of_fmap in Hin as (ep & -> & Hin). by exists ep. }
    intros a. by rewrite !Hel, Haddrs. }
  assert (group_health_check g1 = group_health_check g2) as -> by (unfold group_health_check; by rewrite Hhc, Hname).
  by destruct (pool_new_canonical (group_addrs g1) (group_addrs g2) (group_health_check g2) Hsame).
Qed.

Section PoolsOk.
Context (hash : list (string * Z) * option HealthCheckConfig -> Z).

(** A pool built for [g]: its addresses and health check, whatever the state
    of its endpoints. *)
Definition same_pool (g : BackendGroup) (p : Pool) : Prop :=
  map ep_addr (endpoints p) = map ep_addr (endpoints (Pool_new (group_addrs g) (group_health_check g))) /\
  health_check p = group_health_check g.

Definition groups_of (key : BackendKey) (groups : list BackendGroup) : list BackendGroup :=
  List.filter (fun g => bool_decide (lb_key g = key)) groups.

Section Existing.
Context (existing : gmap BackendKey positive) (signatures : gmap BackendKey Z).

Definition reusable (g : BackendGroup) : bool :=
  bool_decide (is_Some (existing !! lb_key g)) && bool_decide (signatures !! lb_key g = Some (lb_signature hash g)).
Definition effective (g : BackendGroup) : bool := reusable g || negb (bool_decide (group_addrs g = [])).

(** The group that makes the pool of a key: the last with a pool to reuse or
    with addresses. *)
Definition deciding (key : BackendKey) (groups : list BackendGroup) : option BackendGroup :=
  List.find effective (rev (groups_of key groups)).

Lemma deciding_snoc key groups g :
  deciding key (groups ++ [g]) =
  if bool_decide (lb_key g = key) && effective g then Some g else deciding key groups.
Proof.
  unfold deciding, groups_of. rewrite List.filter_app. simpl. destruct (bool_decide (lb_key g = key)); simpl.
  - rewrite rev_app_distr. simpl. by destruct (effective g).
  - by rewrite app_nil_r.
Qed.

Definition pools_ok (groups : list BackendGroup) (lbs : gmap BackendKey positive) (sigs : gmap BackendKey Z)
  (ps : gmap positive Pool) : Prop :=
  forall key,
    match lbs !! key with
    | None => deciding key groups = None /\ sigs !! key = None
    | Some r => exists g p, deciding key groups = Some g /\ sigs !! key = Some (lb_signature hash g) /\
        ps !! r = Some p /\ same_pool g p /\ (reusable g = true -> existing !! key = Some r)
    end.

(** Every pool in use was built for a group of its key with the recorded
    signature. *)
Definition existing_ok (old : list BackendGroup) (ps : gmap positive Pool) : Prop :=
  forall key r, existing !! key = Some r -> exists g p, g ∈ old /\ lb_key g = key /\
    signatures !! key = Some (lb_signature hash g) /\ ps !! r = Some p /\ same_pool g p.

(** Signatures tell the groups of two configurations apart. *)
Definition distinguishes (old new : list BackendGroup) : Prop :=
  forall g1 g2, g1 ∈ old -> g2 ∈ new -> lb_signature hash g1 = lb_signature hash g2 -> signature_input g1 = signature_input g2.

Lemma pools_ok_grow groups lbs sigs ps ps' : ps ⊆ ps' -> pools_ok groups lbs sigs ps -> pools_ok groups lbs sigs ps'.
Proof.
  intros Hsub Hok key. specialize (Hok key). destruct (lbs !! key) as [r|]; [|done].
  destruct Hok as (g & p & ? & ? & Hp & ?). exists g, p. split_and!; [done..|by eapply lookup_weaken|naive_solver|naive_solver].
Qed.

(** A round that sets the pool of its group, and one that does not. *)
Lemma pools_ok_set groups g lbs sigs ps r p :
  pools_ok groups lbs sigs ps -> effective g = true -> ps !! r = Some p -> same_pool g p ->
  (reusable g = true -> existing !! lb_key g = Some r) ->
  pools_ok (groups ++ [g]) (<[lb_key g := r]> lbs) (<[lb_key g := lb_signature hash g]> sigs) ps.
Proof.
  intros Hok He Hp Hsame Hre key. rewrite deciding_snoc, He, andb_true_r.
  destruct (decide (lb_key g = key)) as [<-|Hk].
  - rewrite !lookup_insert_eq, bool_decide_true by done. by exists g, p.
  - rewrite !lookup_insert_ne, bool_decide_false by done. apply Hok.
Qed.

Lemma pools_ok_skip groups g lbs sigs ps :
  pools_ok groups lbs sigs ps -> effective g = false -> pools_ok (groups ++ [g]) lbs sigs ps.
Proof. intros Hok He key. rewrite deciding_snoc, He, andb_false_r. apply Hok. Qed.

Lemma add_group_ok old groups g lbs sigs s0 s :
  existing_ok old (st_pools s0) -> st_pools s0 ⊆ st_pools s -> distinguishes old [g] ->
  pools_ok groups lbs sigs (st_pools s) ->
  let '(lbs', sigs', s') := add_group hash existing signatures g (lbs, sigs) s in
  pools_ok (groups ++ [g]) lbs' sigs' (st_pools s') /\ st_pools s0 ⊆ st_pools s'.
Proof.
  intros Hex Hsub Hdist Hok. unfold add_group.
  assert (Hre : (if decide (signatures !! lb_key g = Some (lb_signature hash g)) then existing !! lb_key g else None) =
                if reusable g then existing !! lb_key g else None).
  { unfold reusable. destruct (decide _).
    - rewrite (bool_decide_true (signatures !! _ = _)), andb_true_r by done. by destruct (existing !! lb_key g).
    - by rewrite (bool_decide_false (signatures !! _ = _)), andb_false_r by done. }
  rewrite Hre. destruct (reusable g) eqn:Hr.
  - pose proof Hr as Hr'. unfold reusable in Hr'.
    apply andb_true_iff in Hr' as [[r Hr']%bool_decide_eq_true Hsig%bool_decide_eq_true].
    rewrite Hr'. simpl. split; [|done]. destruct (Hex _ _ Hr') as (g0 & p & Hin & Hkey & Hsig0 & Hp & Hsame).
    assert (Hinput : signature_input g0 = signature_input g) by (apply Hdist; [done|by left|congruence]).
    apply (pools_ok_set groups g lbs sigs (st_pools s) r p); [done| | | |done].
    + unfold effective. by rewrite Hr.
    + by eapply lookup_weaken.
    + unfold same_pool in *. unfold lb_key in Hkey. rewrite <- (signature_input_pool g0 g) by (congruence || done).
      destruct Hsame as [Ha Hh]. split; [done|]. rewrite Hh. unfold group_health_check. unfold signature_input in Hinput.
      injection Hinput as _ Hhc. rewrite Hhc. injection Hkey as Hname _. by rewrite Hname.
  - destruct (group_addrs g) as [|a addrs] eqn:Ha; simpl.
    + split; [|done]. apply pools_ok_skip; [done|]. unfold effective. by rewrite Hr, Ha, bool_decide_true.
    + set (r := fresh (dom (st_pools s))). set (p := Pool_new _ _).
      assert (Hfresh : st_pools s !! r = None) by (apply not_elem_of_dom, is_fresh).
      assert (Hgrow : st_pools s ⊆ <[r := p]> (st_pools s)) by (by apply insert_subseteq).
      split; [|by transitivity (st_pools s)].
      apply (pools_ok_set groups g lbs sigs _ r p).
      * by eapply pools_ok_grow.
      * unfold effective. by rewrite Ha, bool_decide_false, orb_true_r.
      * apply lookup_insert_eq.
      * unfold same_pool, p. by rewrite Ha.
      * congruence.
Qed.

Lemma add_groups_ok old todo groups lbs sigs s0 s :
  existing_ok old (st_pools s0) -> st_pools s0 ⊆ st_pools s -> distinguishes old todo ->
  pools_ok groups lbs sigs (st_pools s) ->
  let '(lbs', sigs', s') := add_groups hash existing signatures todo (lbs, sigs) s in
  pools_ok (groups ++ todo) lbs' sigs' (st_pools s') /\ st_pools s0 ⊆ st_pools s'.
Proof.
  revert groups lbs sigs s. induction todo as [|g todo IH]; intros groups lbs sigs s Hex Hsub Hdist Hok; cbn [add_groups].
  { simpl. by rewrite app_nil_r. }
  pose proof (add_group_ok old groups g lbs sigs s0 s Hex Hsub ltac:(intros ? ? ? ->%list_elem_of_singleton; apply Hdist; [done|by left]) Hok) as Hstep.
  unfold abind. destruct (add_group hash existing signatures g (lbs, sigs) s) as [[lbs1 sigs1] s1]. destruct Hstep as [Hok1 Hsub1].
  specialize (IH (groups ++ [g]) lbs1 sigs1 s1 Hex Hsub1 ltac:(intros ? ? ? ?; apply Hdist; [done|by right]) Hok1).
  rewrite <- app_assoc in IH. exact IH.
Qed.
End Existing.

(** A pool is the one of a group in the list. *)
Lemma deciding_elem existing sigs key groups g :
  deciding existing sigs key groups = Some g -> g ∈ groups /\ lb_key g = key.
Proof.
  unfold deciding. intros [Hin _]%find_some. apply in_rev, filter_In in Hin as [Hin Hk].
  apply bool_decide_eq_true in Hk. by rewrite list_elem_of_In.
Qed.
End PoolsOk.

(** ** A data plane over time *)

Section Reach.
Context `{HttpCrate} `{ConfigCrates} `{TlsCrates} {Key : Type}.
Context (hash : list (string * Z) * option HealthCheckConfig -> Z).
Context (parse_set : string -> option (list (Jwk Key))) (gateway : string * string).

(** What requests, probes and timers leave of the shared objects: pools keep
    their addresses and health checks, breakers their configuration, limiters
    their maximum. *)
Record same_objects (s s' : store) : Prop := {
  so_pools : forall r p, st_pools s !! r = Some p -> exists p', st_pools s' !! r = Some p' /\
    map ep_addr (endpoints p') = map ep_addr (endpoints p) /\ health_check p' = health_check p;
  so_breakers : forall r o, st_breakers s !! r = Some o -> exists o', st_breakers s' !! r = Some o' /\ cb_config o' = cb_config o;
  so_limiters : forall r o, st_limiters s !! r = Some o -> exists o', st_limiters s' !! r = Some o' /\ cl_max o' = cl_max o;
}.

(** A data plane that started without configuration, applied the given ones
    (the latest first), and served requests in between. *)
Inductive reachable : list CompiledConfig -> ProxyState Key -> store -> Prop :=
| reach_start state s :
    sp_lbs (px_snapshot state) = ∅ -> sp_lb_signatures (px_snapshot state) = ∅ ->
    sp_circuit_breakers (px_snapshot state) = ∅ -> sp_connection_limiters (px_snapshot state) = ∅ ->
    reachable [] state s
| reach_apply history state s now config state' s' :
    reachable history state s -> apply_config hash parse_set gateway now config state s = (state', s') ->
    reachable (config :: history) state' s'
| reach_serve history state s s' : reachable history state s -> same_objects s s' -> reachable history state s'.

(** Signatures tell apart the groups of the configurations. *)
Definition signatures_distinct (configs : list CompiledConfig) : Prop :=
  forall c1 c2, c1 ∈ configs -> c2 ∈ configs -> distinguishes hash (cc_backends c1) (cc_backends c2).

(** What the parts of [apply_config] did. *)
Lemma apply_config_parts now config state s state' s' :
  apply_config hash parse_set gateway now config state s = (state', s') ->
  exists s1 s2,
    build_cb_cl_maps (cc_routes config) (sp_circuit_breakers (px_snapshot state)) (sp_connection_limiters (px_snapshot state)) now ∅ ∅ s
      = (sp_circuit_breakers (px_snapshot state'), sp_connection_limiters (px_snapshot state'), s1) /\
    build_lb_map hash (cc_backends config) (sp_lbs (px_snapshot state)) (sp_lb_signatures (px_snapshot state)) s2
      = (sp_lbs (px_snapshot state'), sp_lb_signatures (px_snapshot state'), s') /\
    st_pools s2 = st_pools s /\ st_breakers s2 = st_breakers s1 /\ st_limiters s2 = st_limiters s1.
Proof.
  unfold apply_config, abind. destruct (build_cb_cl_maps _ _ _ _ _ _ s) as [[cbs cls] s1] eqn:Hcb.
  destruct (build_listener_buckets _ _ _ _ _ _ s1) as [[by_port any_port] s2] eqn:Hbk.
  destruct (build_lb_map _ _ _ _ s2) as [[lbs sigs] s3] eqn:Hlb. unfold aret. intros [= <- <-]. simpl.
  exists s1, s2. pose proof (keeps_cb_cl st_pools (cc_routes config) (sp_circuit_breakers (px_snapshot state))
    (sp_connection_limiters (px_snapshot state)) now ∅ ∅ ltac:(done) ltac:(done) s) as Hp1. rewrite Hcb in Hp1. simpl in Hp1.
  assert (Hkeep : forall B (f : store -> B), (forall s b, f (set_buckets s b) = f s) -> (forall s b, f (set_per_ip s b) = f s) ->
    (forall s b, f (set_jwt s b) = f s) -> f s2 = f s1).
  { intros B f Hf1 Hf2 Hf3. pose proof (keeps_buckets f Hf1 Hf2 Hf3 cbs cls (sp_listeners_by_port (px_snapshot state))
      (sp_any_port_listeners (px_snapshot state)) now (cc_routes config) s1) as Hf. by rewrite Hbk in Hf. }
  split_and!; [done..| | |]; [rewrite <- Hp1|..]; by apply Hkeep.
Qed.

Lemma keeps_add_groups {B} (f : store -> B) existing sigs groups acc :
  (forall s p, f (set_pools s p) = f s) -> keeps f (add_groups hash existing sigs groups acc).
Proof.
  intros Hf. revert acc. induction groups as [|g groups IH]; intros acc; cbn [add_groups]; [apply alloc_keeps_ret|].
  apply alloc_keeps_bind; [|done]. unfold add_group. destruct acc as [lbs sg].
  destruct (if decide _ then _ else _); [apply alloc_keeps_ret|]. destruct (group_addrs g) as [|a l]; [apply alloc_keeps_ret|].
  apply alloc_keeps_bind; [|intros lb; apply alloc_keeps_ret]. intros s. apply Hf.
Qed.

(** What a map of shared objects says of the routes it was built from. *)
Definition settings_ok {C O} (objects : store -> gmap positive O) (setting : O -> C) (want : RouteConfig -> option C)
  (routes : list RouteConfig) (m : gmap BackendKey positive) (s : store) : Prop :=
  forall key,
    match m !! key with
    | None => first_want want key routes = None
    | Some r => exists o, objects s !! r = Some o /\ first_want want key routes = Some (setting o)
    end.

Lemma entries_settings {C O} (objects : store -> gmap positive O) (setting : O -> C) want existing s0 s s' routes m :
  entries_ok objects setting want existing s0 s routes m -> objects s' = objects s ->
  settings_ok objects setting want routes m s'.
Proof.
  intros [_ Hok] Heq key. specialize (Hok key). rewrite Heq. destruct (m !! key) as [r|]; [|done].
  destruct Hok as (o & ? & ? & _). by exists o.
Qed.

(** The state between two configurations. *)
Record config_inv (config : CompiledConfig) (state : ProxyState Key) (s : store) : Prop := {
  ci_pools : exists existing sigs, pools_ok hash existing sigs (cc_backends config)
    (sp_lbs (px_snapshot state)) (sp_lb_signatures (px_snapshot state)) (st_pools s);
  ci_breakers : settings_ok st_breakers cb_config route_breaker (cc_routes config) (sp_circuit_breakers (px_snapshot state)) s;
  ci_limiters : settings_ok st_limiters cl_max route_limiter (cc_routes config) (sp_connection_limiters (px_snapshot state)) s;
}.

Lemma config_inv_existing config state s :
  config_inv config state s ->
  existing_ok hash (sp_lbs (px_snapshot state)) (sp_lb_signatures (px_snapshot state)) (cc_backends config) (st_pools s).
Proof.
  intros [(ex & sg & Hp) _ _] key r Hr. specialize (Hp key). rewrite Hr in Hp.
  destruct Hp as (g & p & [Hin Hk]%deciding_elem & ? & ? & ? & _). by exists g, p.
Qed.

(** One application: the new state, and which objects it took over. *)
Lemma apply_config_step old now config state s state' s' :
  existing_ok hash (sp_lbs (px_snapshot state)) (sp_lb_signatures (px_snapshot state)) old (st_pools s) ->
  distinguishes hash old (cc_backends config) ->
  apply_config hash parse_set gateway now config state s = (state', s') ->
  config_inv config state' s' /\
  pools_ok hash (sp_lbs (px_snapshot state)) (sp_lb_signatures (px_snapshot state)) (cc_backends config)
    (sp_lbs (px_snapshot state')) (sp_lb_signatures (px_snapshot state')) (st_pools s') /\
  (exists s1, breakers_ok (sp_circuit_breakers (px_snapshot state)) s s1 (cc_routes config) (sp_circuit_breakers (px_snapshot state'))) /\
  (exists s1, limiters_ok (sp_connection_limiters (px_snapshot state)) s s1 (cc_routes config) (sp_connection_limiters (px_snapshot state'))).
Proof.
  intros Hex Hdist (s1 & s2 & Hcb & Hlb & Hp & Hb & Hl)%apply_config_parts.
  pose proof (build_cb_cl_ok (sp_circuit_breakers (px_snapshot state)) (sp_connection_limiters (px_snapshot state)) now s
    (cc_routes config) [] ∅ ∅ s ltac:(by split; [|intros key; rewrite lookup_empty]) ltac:(by split; [|intros key; rewrite lookup_empty])) as Hent.
  rewrite Hcb in Hent. simpl in Hent. destruct Hent as [Hbr Hli].
  pose proof (add_groups_ok hash (sp_lbs (px_snapshot state)) (sp_lb_signatures (px_snapshot state)) old (cc_backends config) [] ∅ ∅ s2 s2) as Hpo.
  rewrite Hp in Hpo. specialize (Hpo Hex ltac:(done) Hdist ltac:(by intros key; rewrite !lookup_empty)).
  unfold build_lb_map in Hlb. rewrite Hlb in Hpo. simpl in Hpo. destruct Hpo as [Hpo _].
  pose proof (keeps_add_groups st_breakers (sp_lbs (px_snapshot state)) (sp_lb_signatures (px_snapshot state)) (cc_backends config) (∅, ∅) ltac:(done) s2) as Hb3.
  pose proof (keeps_add_groups st_limiters (sp_lbs (px_snapshot state)) (sp_lb_signatures (px_snapshot state)) (cc_backends config) (∅, ∅) ltac:(done) s2) as Hl3.
  rewrite Hlb in Hb3, Hl3. simpl in Hb3, Hl3.
  split_and!; [split|done|by exists s1|by exists s1].
  - eauto.
  - eapply entries_settings; [exact Hbr|congruence].
  - eapply entries_settings; [exact Hli|congruence].
Qed.

Lemma settings_serve {C O} (objects : store -> gmap positive O) (setting : O -> C) want routes m s s' :
  (forall r o, objects s !! r = Some o -> exists o', objects s' !! r = Some o' /\ setting o' = setting o) ->
  settings_ok objects setting want routes m s -> settings_ok objects setting want routes m s'.
Proof.
  intros Hobj Hok key. specialize (Hok key). destruct (m !! key) as [r|]; [|done].
  destruct Hok as (o & Ho & ->). destruct (Hobj r o Ho) as (o' & ? & <-). by exists o'.
Qed.

Lemma config_inv_serve config state s s' : same_objects s s' -> config_inv config state s -> config_inv config state s'.
Proof.
  intros [Hp Hb Hl] [(ex & sg & Hpo) Hbr Hli]. split; [|by eapply settings_serve..].
  exists ex, sg. intros key. specialize (Hpo key). destruct (sp_lbs (px_snapshot state) !! key) as [r|]; [|done].
  destruct Hpo as (g & p & Hd & Hs & Hr & [Ha Hh] & Hre). destruct (Hp r p Hr) as (p' & Hr' & Ha' & Hh').
  exists g, p'. split_and!; try done. split; congruence.
Qed.

Lemma reachable_inv history state s :
  reachable history state s -> signatures_distinct history ->
  match history with
  | [] => sp_lbs (px_snapshot state) = ∅ /\ sp_lb_signatures (px_snapshot state) = ∅
  | config :: _ => config_inv config state s
  end.
Proof.
  induction 1 as [state s Hl Hs Hb Hc|history state s now config state' s' Hr IH Ha|history state s s' Hr IH Hsame]; intros Hdist.
  - done.
  - specialize (IH ltac:(intros ? ? ? ?; apply Hdist; by right)). destruct history as [|old history].
    + destruct IH as [Hl Hs]. eapply (apply_config_step []); [|by intros ? ? ?%elem_of_nil|exact Ha]. intros key r. by rewrite Hl, lookup_empty.
    + eapply (apply_config_step (cc_backends old)); [by apply config_inv_existing| |exact Ha].
      apply Hdist; [right; by left|by left].
  - specialize (IH Hdist). destruct history; [done|]. by eapply config_inv_serve.
Qed.

(** C18: The pools always match the configuration in force.  However many
    configurations came before and whatever pools were kept from them, every
    pool in use has exactly the addresses and the health check of a backend
    group of the latest configuration under its key; and a key without a pool
    has no group with a usable address. *)
Theorem pools_reflect_config (history : list CompiledConfig) (config : CompiledConfig) (state : ProxyState Key) (s : store)
  (Hreach : reachable (config :: history) state s) (Hhash : signatures_distinct (config :: history)) (key : BackendKey) :
  match sp_lbs (px_snapshot state) !! key with
  | Some r => exists g p, g ∈ cc_backends config /\ lb_key g = key /\ st_pools s !! r = Some p /\ same_pool g p
  | None => forall g, g ∈ cc_backends config -> lb_key g = key -> group_addrs g = []
  end.
Proof.
  destruct (reachable_inv _ _ _ Hreach Hhash) as [(ex & sg & Hp) _ _]. specialize (Hp key).
  destruct (sp_lbs (px_snapshot state) !! key) as [r|].
  - destruct Hp as (g & p & [? ?]%deciding_elem & _ & ? & ? & _). by exists g, p.
  - destruct Hp as [Hd _]. intros g Hin Hk. unfold deciding in Hd.
    pose proof (find_none _ _ Hd g) as Hn. destruct (decide (group_addrs g = [])) as [|Hne]; [done|].
    assert (effective hash ex sg g = true) as He by (unfold effective; by rewrite bool_decide_false, orb_true_r).
    rewrite Hn in He; [done|]. rewrite <- in_rev. apply filter_In. rewrite <- list_elem_of_In. by rewrite bool_decide_true.
Qed.

(** A group that decided before is reused. *)
Lemma deciding_again existing sigs lbs sigs' key groups groups' g r :
  groups_of key groups = groups_of key groups' -> deciding hash existing sigs key groups = Some g ->
  lbs !! key = Some r -> sigs' !! key = Some (lb_signature hash g) ->
  exists g', deciding hash lbs sigs' key groups' = Some g' /\ reusable hash lbs sigs' g' = true.
Proof.
  unfold deciding. intros -> Hd Hr Hs.
  assert (Hkeys : forall x, x ∈ rev (groups_of key groups') -> lb_key x = key).
  { intros x Hx%list_elem_of_In. apply in_rev, filter_In in Hx as [_ Hx].
    by apply bool_decide_eq_true in Hx. }
  assert (Hreuse : forall x, lb_key x = key -> lb_signature hash x = lb_signature hash g -> reusable hash lbs sigs' x = true).
  { intros x Hk Hx. unfold reusable. rewrite Hk, Hr, Hs, Hx, !bool_decide_true; eauto. }
  induction (rev (groups_of key groups')) as [|x l IH]; simpl in *; [done|].
  destruct (effective hash existing sigs x) eqn:He.
  - injection Hd as <-. exists x. unfold effective. rewrite (Hreuse x) by (done || apply Hkeys; by left). done.
  - destruct (effective hash lbs sigs' x) eqn:He'.
    + exists x. split; [done|]. unfold effective in *. apply orb_false_iff in He as [_ He]. rewrite He, orb_false_r in He'. done.
    + apply IH; [done|]. intros y Hy. apply Hkeys. by right.
Qed.

Lemma entries_again {C O} (objects : store -> gmap positive O) (setting : O -> C) want
  routes routes' key m m' s s1 :
  settings_ok objects setting want routes m s -> entries_ok objects setting want m s s1 routes' m' ->
  List.filter (fun r => bool_decide (backend_key r = key)) routes = List.filter (fun r => bool_decide (backend_key r = key)) routes' ->
  m' !! key = m !! key.
Proof.
  intros Hs [_ He] Hf. specialize (Hs key). specialize (He key).
  assert (first_want want key routes' = first_want want key routes) as Hw by (unfold first_want; by rewrite Hf).
  destruct (m !! key) as [r|] eqn:Hm.
  - destruct Hs as (o & Ho & Hset). destruct (m' !! key) as [r'|]; [|congruence].
    destruct He as (o' & _ & Hset' & Hre). f_equal. eapply Hre; [done..|congruence].
  - destruct (m' !! key) as [r'|]; [|done]. destruct He as (o' & _ & Hset' & _). congruence.
Qed.

(** C22: A change of the configuration leaves the rest alone.  A backend whose
    groups are the same in the new configuration keeps its pool object, with
    its rotation and the health of its endpoints; one whose routes are the same
    keeps its circuit breaker and its connection limiter. *)
Theorem unrelated_changes_keep_objects (history : list CompiledConfig) (config config' : CompiledConfig)
  (state state' : ProxyState Key) (s s' : store) (now : Z)
  (Hreach : reachable (config :: history) state s) (Hhash : signatures_distinct (config' :: config :: history))
  (Happly : apply_config hash parse_set gateway now config' state s = (state', s')) (key : BackendKey) :
  (groups_of key (cc_backends config) = groups_of key (cc_backends config') ->
   sp_lbs (px_snapshot state') !! key = sp_lbs (px_snapshot state) !! key) /\
  (List.filter (fun r => bool_decide (backend_key r = key)) (cc_routes config) =
     List.filter (fun r => bool_decide (backend_key r = key)) (cc_routes config') ->
   sp_circuit_breakers (px_snapshot state') !! key = sp_circuit_breakers (px_snapshot state) !! key /\
   sp_connection_limiters (px_snapshot state') !! key = sp_connection_limiters (px_snapshot state) !! key).
Proof.
  assert (Hinv : config_inv config state s).
  { apply (reachable_inv _ _ _ Hreach). intros c1 c2 Hc1 Hc2. apply Hhash; by right. }
  pose proof (config_inv_existing _ _ _ Hinv) as Hex. destruct Hinv as [(ex & sg & Hp) Hb Hl].
  destruct (apply_config_step (cc_backends config) now config' state s state' s' Hex) as (_ & Hp' & (s1 & Hb') & (s2 & Hl')); [|done|].
  { apply Hhash; [right; by left|by left]. }
  split; [|split; by eapply entries_again].
  intros Hgroups. specialize (Hp key). specialize (Hp' key). destruct (sp_lbs (px_snapshot state) !! key) as [r|] eqn:Hr.
  - destruct Hp as (g & p & Hd & Hs & _). destruct (deciding_again ex sg (sp_lbs (px_snapshot state))
      (sp_lb_signatures (px_snapshot state)) key _ _ g r Hgroups Hd Hr Hs) as (g' & Hd' & Hre).
    destruct (sp_lbs (px_snapshot state') !! key) as [r'|].
    + destruct Hp' as (g2 & p2 & Hd2 & _ & _ & _ & Hk). rewrite Hd' in Hd2. injection Hd2 as <-. rewrite <- (Hk Hre). done.
    + destruct Hp' as [Hd2 _]. congruence.
  - destruct Hp as [Hd Hs]. destruct (sp_lbs (px_snapshot state') !! key) as [r'|]; [|done]. exfalso.
    destruct Hp' as (g' & p' & Hd' & _ & _ & _ & Hk). pose proof (deciding_elem _ _ _ _ _ _ Hd') as [_ Hkey].
    unfold deciding in Hd, Hd'. rewrite Hgroups in Hd. apply find_some in Hd' as [Hin He].
    pose proof (find_none _ _ Hd g' Hin) as Hn. unfold effective in He, Hn. apply orb_false_iff in Hn as [_ Hn].
    rewrite Hn, orb_false_r in He. specialize (Hk He). congruence.
Qed.
End Reach.

(** ** Endpoints with IPv6 addresses *)

(** A parser that consumes no colon. *)
Definition colons (s : string) : nat := count_char ":" s.

Definition no_colon {A} (p : parser A) : Prop := forall s a r, p s = Some (a, r) -> colons r = colons s.

Lemma read_digits_colons radix max k acc n s v m r :
  radix <= 16 -> read_digits radix max k acc n s = Some (v, m, r) -> colons r = colons s.
Proof.
  intros Hr. revert acc n. induction s as [|c s IH]; intros acc n; simpl; [by intros [= <- <- <-]|].
  destruct (digit_radix radix c) as [d|] eqn:Hd; [|by intros [= <- <- <-]].
  destruct (max <? _); [done|]. destruct (match k with Some k => _ | None => _ end); [done|]. intros Hs%IH.
  unfold colons in *. simpl. destruct (decide (c = ":"%char)) as [->|]; [|done]. exfalso. revert Hd. unfold digit_radix. simpl.
  destruct (Z.ltb_spec 99 radix); [lia|done].
Qed.

Lemma read_number_colons radix max k z : radix <= 16 -> no_colon (read_number radix max k z).
Proof.
  intros Hr s a r. unfold read_number. destruct (read_digits _ _ _ _ _ s) as [[[v n] r']|] eqn:Hd; [|done].
  destruct (n =? 0)%nat; [done|]. destruct (_ && _); [done|]. intros [= <- <-]. by eapply read_digits_colons.
Qed.

Lemma read_given_char_colons c s u r : read_given_char c s = Some (u, r) -> s = String c r.
Proof. destruct s as [|d s]; simpl; [done|]. destruct (decide (d = c)) as [->|]; [|done]. by intros [= <- <-]. Qed.

Lemma read_octet_colons i : no_colon (read_octet i).
Proof.
  intros s a r. unfold read_octet, read_separator. destruct (i =? 0)%nat; [by apply read_number_colons|].
  destruct (read_given_char "." s) as [[u r']|] eqn:Hc; [|done]. apply read_given_char_colons in Hc as ->.
  intros Hn%read_number_colons; [|lia]. by rewrite Hn.
Qed.

Lemma read_ipv4_colons : no_colon read_ipv4_addr.
Proof.
  intros s v r. unfold read_ipv4_addr.
  destruct (read_octet 0 s) as [[a s1]|] eqn:H1; [|done]. destruct (read_octet 1 s1) as [[b s2]|] eqn:H2; [|done].
  destruct (read_octet 2 s2) as [[c s3]|] eqn:H3; [|done]. destruct (read_octet 3 s3) as [[d s4]|] eqn:H4; [|done].
  intros [= <- <-]. apply read_octet_colons in H1, H2, H3, H4. congruence.
Qed.

(** Only a bracketed socket address may have more than one colon. *)
Lemma parse_socket_one_colon s a : parse_socket_addr s = Some a -> colons s = 1%nat \/ exists r, s = String "[" r.
Proof.
  unfold parse_socket_addr, parse_with. destruct (read_socket_addr_v4 s) as [[x r]|] eqn:H4.
  - destruct r; [|done]. intros _. left. unfold read_socket_addr_v4 in H4.
    destruct (read_ipv4_addr s) as [[ip r]|] eqn:Hip; [|done]. apply read_ipv4_colons in Hip. rewrite <- Hip.
    unfold read_port in H4. destruct (read_given_char ":" r) as [[u r']|] eqn:Hc; [|done].
    apply read_given_char_colons in Hc as ->. destruct (read_number _ _ _ _ r') as [[p r'']|] eqn:Hn; [|done].
    apply read_number_colons in Hn; [|lia]. simplify_eq. unfold colons in *. simpl in *. lia.
  - unfold read_socket_addr_v6. destruct (read_given_char "[" s) as [[u r]|] eqn:Hc; [|done].
    apply read_given_char_colons in Hc as ->. intros _. right. by exists r.
Qed.

(** The text of an IPv6 address has a colon and no bracket in front. *)
Lemma read_groups_none limit i s :
  colons s = 0%nat -> (0 < i)%nat -> read_groups limit i s = ([], false, s).
Proof.
  intros Hs Hi. destruct limit as [|limit]; [done|]. simpl. unfold read_separator.
  rewrite (proj2 (Nat.eqb_neq i 0)) by lia.
  assert (read_given_char ":" s = None) as ->.
  { destruct (read_given_char ":" s) as [[u r]|] eqn:Hc; [|done]. apply read_given_char_colons in Hc as ->. done. }
  by destruct (0 <? limit)%nat.
Qed.

Lemma parse_ipv6_text s v : parse_ip s = Some (V6 v) -> (0 < colons s)%nat /\ forall r, s <> String "[" r.
Proof.
  unfold parse_ip, parse_with, read_ip_addr. destruct (read_ipv4_addr s) as [[v4 r4]|] eqn:H4; [by destruct r4|].
  intros Hv6. destruct (read_ipv6_addr s) as [[x r]|] eqn:H6; [|done]. clear Hv6. revert H6. unfold read_ipv6_addr. split.
  - destruct (Nat.eq_0_gt_0_cases (colons s)) as [Hs|]; [exfalso|done]. revert H6.
    assert (Hnone : forall t, colons t = 0%nat -> read_given_char ":" t = None).
    { intros t Ht. destruct (read_given_char ":" t) as [[u t']|] eqn:Hc; [|done]. by apply read_given_char_colons in Hc as ->. }
    change (read_groups 8 0 s) with
      (match read_ipv4_addr s with
       | Some (v4, r) => ([v4 / 65536; v4 mod 65536], true, r)
       | None => match read_number 16 65535 (Some 4%nat) true s with
                 | None => ([], false, s)
                 | Some (g, r) => let '(gs, b, r) := read_groups 7 1 r in (g :: gs, b, r)
                 end
       end).
    rewrite H4. destruct (read_number _ _ _ _ s) as [[g r']|] eqn:Hn.
    + apply read_number_colons in Hn; [|lia]. rewrite read_groups_none by lia. simpl. by rewrite Hnone by lia.
    + simpl. by rewrite Hnone.
  - intros r' ->. done.
Qed.

(** IPv6 endpoints are dropped.  The address and the port of an endpoint are
    joined by a colon without brackets, so an endpoint given as an IPv6
    address, as the cluster reports it, never parses, and a service that has
    only such endpoints gets no pool. *)
Theorem ipv6_endpoints_dropped (group : BackendGroup)
  (Hipv6 : forall ep, ep ∈ bg_endpoints group -> exists v, parse_ip (be_address ep) = Some (V6 v)) :
  group_addrs group = [].
Proof.
  unfold group_addrs. induction (bg_endpoints group) as [|ep eps IH]; [done|].
  cbn [omap list_omap]. destruct (Hipv6 ep ltac:(by left)) as [v Hv]. apply parse_ipv6_text in Hv as [Hc Hb].
  destruct (parse_socket_addr _) as [a|] eqn:Hp.
  - exfalso. apply parse_socket_one_colon in Hp as [Hone|[r Hr]].
    + unfold colons in *. rewrite count_char_app in Hone. simpl in Hone. lia.
    + destruct (be_address ep) as [|c t]; [done|]. injection Hr as -> _. by eapply Hb.
  - apply IH. intros ep' Hin. apply Hipv6. by right.
Qed.

(** ** A concrete data plane *)

Module Sample.

#[local] Instance http : HttpCrate := sample_http.
#[local] Instance config_crates : ConfigCrates := ConfigRoutes.Sample.crates.
#[local] Instance tls_crates : TlsCrates := L4.Sample.crates.

Definition parse_none (_ : string) : option (list (Jwk unit)) := None.
Definition gw : string * string := ("default", "gw").

Definition empty_state : ProxyState unit :=
  {| px_snapshot := {|
       sp_listeners_by_port := ∅; sp_any_port_listeners := []; sp_lbs := ∅; sp_circuit_breakers := ∅;
       sp_connection_limiters := ∅; sp_per_ip_limiters := []; sp_backend_tls := ∅; sp_backend_client_cert := None;
       sp_lb_signatures := ∅; sp_federations := ∅; sp_budget_policies := []; sp_jwks := ∅ |};
     px_lbs := ∅; px_l4_config := L4.Sample.two_listeners; px_tls_cert := None; px_tls_notified := false;
     px_health_check_min_interval := 10 |}.

Definition api_group : BackendGroup :=
  {| bg_service_name := "read"; bg_port := 80;
     bg_endpoints := [{| be_address := "10.0.0.1"; be_port := 8080 |}; {| be_address := "10.0.0.2"; be_port := 8080 |}];
     bg_health_check := None; bg_backend_tls := None |}.

Definition sample_config (version fingerprint : Z) (routes : list RouteConfig) : CompiledConfig :=
  {| cc_schema_version := "1.0.0"; cc_version := version; cc_fingerprint := fingerprint; cc_routes := routes;
     cc_backends := [api_group]; cc_listeners := []; cc_tls_passthrough_routes := []; cc_tcp_proxy_routes := [];
     cc_udp_proxy_routes := []; cc_tls_passthrough_listener_hostnames := []; cc_gateway_backend_tls := [];
     cc_mcp_federations := []; cc_issuer_keys := [] |}.

Definition config1 : CompiledConfig := sample_config 7 11 [ConfigRoutes.Sample.reads].
Definition config2 : CompiledConfig := sample_config 1 22 [ConfigRoutes.Sample.reads; ConfigRoutes.Sample.writes].

Definition sample_apply := apply_config (fun _ => 0) parse_none gw.

Definition after1 : ProxyState unit * store := sample_apply 0 config1 empty_state ConfigRoutes.Sample.empty_store.
Definition after2 : ProxyState unit * store := sample_apply 1 config2 after1.1 after1.2.

Lemma after1_reachable : reachable (fun _ => 0) parse_none gw [config1] after1.1 after1.2.
Proof.
  eapply (reach_apply _ _ _ [] empty_state ConfigRoutes.Sample.empty_store 0); [by apply reach_start|].
  symmetry. apply surjective_pairing.
Qed.

Lemma sample_distinct configs :
  Forall (fun c => cc_backends c = [api_group]) configs -> signatures_distinct (fun _ => 0) configs.
Proof.
  rewrite Forall_forall. intros Hall c1 c2 H1 H2 g1 g2. rewrite (Hall c1 H1), (Hall c2 H2).
  by intros ->%list_elem_of_singleton ->%list_elem_of_singleton.
Qed.

Lemma pools_reflect_config_witness :
  match sp_lbs (px_snapshot after1.1) !! ("read", 80) with
  | Some r => exists g p, g ∈ [api_group] /\ lb_key g = ("read", 80) /\ st_pools after1.2 !! r = Some p /\ same_pool g p
  | None => forall g, g ∈ [api_group] -> lb_key g = ("read", 80) -> group_addrs g = []
  end.
Proof.
  apply (pools_reflect_config (fun _ => 0) parse_none gw [] config1 after1.1 after1.2 after1_reachable).
  apply sample_distinct. repeat constructor.
Defined.

(** The pool exists, with both endpoints. *)
Lemma after1_pool :
  (map ep_addr ∘ endpoints <$> (sp_lbs (px_snapshot after1.1) !! ("read", 80) ≫= fun r => st_pools after1.2 !! r)) =
  Some [SocketV4 0x0a000001 8080; SocketV4 0x0a000002 8080].
Proof. vm_compute. reflexivity. Qed.

Lemma unrelated_changes_keep_objects_witness :
  sp_lbs (px_snapshot after2.1) !! ("read", 80) = sp_lbs (px_snapshot after1.1) !! ("read", 80).
Proof.
  apply (unrelated_changes_keep_objects (fun _ => 0) parse_none gw [] config1 config2 after1.1 after2.1 after1.2 after2.2 1 after1_reachable).
  - apply sample_distinct. repeat constructor.
  - apply surjective_pairing.
  - reflexivity.
Defined.

Lemma ipv6_endpoints_dropped_witness :
  group_addrs {| bg_service_name := "v6"; bg_port := 80; bg_endpoints := [{| be_address := "fd00::1"; be_port := 8080 |}];
                 bg_health_check := None; bg_backend_tls := None |} = [].
Proof.
  apply ipv6_endpoints_dropped. intros ep Hin. apply list_elem_of_singleton in Hin as ->. eexists. vm_compute. reflexivity.
Defined.

(** An old configuration with a high version, then a restarted controller. *)
Lemma stream_runs_last_message_witness :
  let '(applied, state', _) :=
    handle_messages (fun _ => 0) parse_none gw ([(0, config1)] ++ [(5, config2)]) (AppliedConfig_default, empty_state) ConfigRoutes.Sample.empty_store in
  ac_fingerprint applied = 22 /\ running (fun _ => 0) parse_none gw config2 state'.
Proof.
  apply (stream_runs_last_message (fun _ => 0) parse_none gw [(0, config1)] 5 config2 empty_state ConfigRoutes.Sample.empty_store).
  - done.
  - vm_compute. reflexivity.
  - done.
  - intros n c Hin Hfp. apply list_elem_of_singleton in Hin. injection Hin as -> ->. discriminate Hfp.
Defined.

End Sample.
