(* ===== verification/LedgerKeys.v ===== *)
(** * API keys: issued by the ledger, published to the data planes

    [portus-ledger/src/keys.rs], the key handlers and [publish_keys] of its
    [main.rs], and the receiving end in the data plane ([KeySet::from_snapshot]
    of [ai/keys.rs], [watch_keys_loop] of [ai/ledger.rs]).  The table
    [api_keys] is a map from row id to row, each SQL statement an update or a
    query of it; clock readings and random numbers are arguments; SHA-256 and
    the JSON text of labels are parameters. *)
From S2P Require Import Prelude Text Types Auth Keys Proto ConfigReceiver.
From Stdlib Require Import String.
Open Scope Z_scope.

(** ** Keys *)

Notation Labels := (gmap string string).

#[export] Instance IssuerKeys_eq_dec : EqDecision IssuerKeys.
Proof. solve_decision. Defined.

(** [serde_json] on labels. *)
Class LabelsJson := {
  labels_to_string : Labels -> option string;
  labels_from_str : string -> option Labels;
}.

Class LabelsJsonLaws `{LabelsJson} := {
  labels_printed l : exists text, labels_to_string l = Some text /\ labels_from_str text = Some l;
}.

(** A row of [api_keys]; its id is the key of the table. *)
Record ApiKey := {
  ak_hash : string;
  ak_tenant : string;
  ak_name : string;
  ak_allowed_models : string;
  ak_allowed_tools : string;
  ak_external : bool;
  ak_created_unix_micros : Z;
  ak_revoked_unix_micros : option Z;
  ak_expires_unix_secs : option Z;
  ak_token_limit : option Z;
  ak_call_limit : option Z;
  ak_labels : string;
}.

Notation ApiKeys := (gmap Z ApiKey).

(** [KeyRow] *)
Record KeyRow := {
  kr_id : Z;
  kr_tenant : string;
  kr_name : string;
  kr_allowed_models : list string;
  kr_allowed_tools : list string;
  kr_external : bool;
  kr_created_unix_micros : Z;
  kr_revoked_unix_micros : option Z;
  kr_expires_unix_secs : option Z;
  kr_token_limit : option Z;
  kr_call_limit : option Z;
  kr_labels : Labels;
}.

(** [NewKey] *)
Record NewKey := {
  nk_tenant : string;
  nk_name : string;
  nk_allowed_models : list string;
  nk_allowed_tools : list string;
  nk_plaintext : option string;
  nk_expires_in_secs : option Z;
  nk_token_limit : option Z;
  nk_call_limit : option Z;
  nk_labels : Labels;
}.

(** [KeyPatch] *)
Record KeyPatch := {
  kp_tenant : option string;
  kp_name : option string;
  kp_allowed_models : option (list string);
  kp_allowed_tools : option (list string);
  kp_expires_in_secs : option Z;
  kp_token_limit : option Z;
  kp_call_limit : option Z;
  kp_labels : option Labels;
}.

(** [KeyEntry] and [KeySnapshot] of ledger.proto *)
Record KeyEntry := {
  ke_id : Z;
  ke_hash_sha256 : string;
  ke_tenant : string;
  ke_name : string;
  ke_allowed_models : list string;
  ke_allowed_tools : list string;
  ke_expires_unix_secs : Z;
  ke_token_limit : Z;
  ke_call_limit : Z;
  ke_labels : gmap string string;
}.

Record KeySnapshot := {
  sn_version : Z;
  sn_keys : list KeyEntry;
  sn_issuers : list IssuerKeys;
}.

Definition MAX_LABELS : nat := 32%nat.
Definition MAX_LABEL_KEY : nat := 63%nat.
Definition MAX_LABEL_VALUE : nat := 253%nat.

Definition label_char (c : ascii) : bool :=
  is_ascii_alphanumeric c || bool_decide (c ∈ ["-"; "_"; "."; "/"]%char).

(** [validate_labels]: the pair at fault, or none for too many labels. *)
Inductive LabelError := TooManyLabels | BadLabelKey (k : string) | BadLabelValue (k : string).

Fixpoint validate_pairs (l : list (string * string)) : result unit LabelError :=
  match l with
  | [] => Ok tt
  | (k, v) :: l =>
      if negb (negb (is_empty k) && (String.length k <=? MAX_LABEL_KEY)%nat && forallb label_char (list_ascii_of_string k))
      then Err (BadLabelKey k)
      else if (MAX_LABEL_VALUE <? String.length v)%nat || has_control v then Err (BadLabelValue k)
      else validate_pairs l
  end.

(** A [BTreeMap] iterates in the order of its keys. *)
Definition labels_in_order (l : Labels) : list (string * string) :=
  sort_by (fun a b => String.compare a.1 b.1) (map_to_list l).

Definition validate_labels (l : Labels) : result unit LabelError :=
  if (MAX_LABELS <? size l)%nat then Err TooManyLabels else validate_pairs (labels_in_order l).

(** [expiry] and [limit] *)
Definition expiry (expires_in_secs : option Z) (now_secs : Z) : option Z :=
  match expires_in_secs with
  | Some s => if s >? 0 then Some (as_u 64 (now_secs + s)) else None
  | None => None
  end.

Definition limit (v : option Z) : option Z :=
  match v with Some b => if b >? 0 then Some b else None | None => None end.

Definition KEY_PREFIX : string := "portus_sk_".

Definition hex_digit (n : Z) : ascii := byte_of (if n <? 10 then 48 + n else 87 + n).

(** [{b:02x}] *)
Fixpoint hex_bytes (s : string) : string :=
  match s with
  | EmptyString => EmptyString
  | String c s => String (hex_digit (byte_val c / 16)) (String (hex_digit (byte_val c mod 16)) (hex_bytes s))
  end.

(** [generate_key], from its 20 random bytes *)
Definition generate_key (bytes : string) : string := KEY_PREFIX +:+ hex_bytes bytes.

(** [split_models] *)
Definition split_models (s : string) : list string := List.filter (fun m => negb (is_empty m)) (split_char "," s).

Inductive SqlError := UniqueViolation | OtherError.

Section Table.
Context `{LJ : LabelsJson} (hash_key : string -> string).

(** [labels_json], [labels_from] *)
Definition labels_json (l : Labels) : string := default "{}" (labels_to_string l).
Definition labels_from (text : string) : Labels := default ∅ (labels_from_str text).

(** [issue]: the insertion fails when the id or the hash is taken. *)
Definition issue (t : ApiKeys) (new : NewKey) (rand_bytes : string) (rand_id created now_secs : Z)
  : result (KeyRow * string * ApiKeys) SqlError :=
  let external := bool_decide (is_Some (nk_plaintext new)) in
  let key := default (generate_key rand_bytes) (nk_plaintext new) in
  let id := Z.shiftr rand_id 1 in
  let expires := expiry (nk_expires_in_secs new) now_secs in
  let token_limit := limit (nk_token_limit new) in
  let call_limit := limit (nk_call_limit new) in
  let row := {|
    ak_hash := hash_key key; ak_tenant := nk_tenant new; ak_name := nk_name new;
    ak_allowed_models := join "," (nk_allowed_models new);
    ak_allowed_tools := join "," (nk_allowed_tools new);
    ak_external := external; ak_created_unix_micros := as_i 64 created; ak_revoked_unix_micros := None;
    ak_expires_unix_secs := as_i 64 <$> expires; ak_token_limit := as_i 64 <$> token_limit;
    ak_call_limit := as_i 64 <$> call_limit; ak_labels := labels_json (nk_labels new) |} in
  if bool_decide (is_Some (t !! as_i 64 id)) || existsb (fun kv => bool_decide (ak_hash kv.2 = ak_hash row)) (map_to_list t)
  then Err UniqueViolation
  else Ok ({|
    kr_id := id; kr_tenant := nk_tenant new; kr_name := nk_name new;
    kr_allowed_models := nk_allowed_models new; kr_allowed_tools := nk_allowed_tools new;
    kr_external := external; kr_created_unix_micros := created; kr_revoked_unix_micros := None;
    kr_expires_unix_secs := expires; kr_token_limit := token_limit; kr_call_limit := call_limit;
    kr_labels := nk_labels new |}, key, <[as_i 64 id := row]> t).

(** A row as [list] reads it. *)
Definition read_row (e : Z * ApiKey) : KeyRow :=
  let '(id, k) := e in
  {| kr_id := as_u 64 id; kr_tenant := ak_tenant k; kr_name := ak_name k;
     kr_allowed_models := split_models (ak_allowed_models k); kr_allowed_tools := split_models (ak_allowed_tools k);
     kr_external := ak_external k; kr_created_unix_micros := as_u 64 (ak_created_unix_micros k);
     kr_revoked_unix_micros := as_u 64 <$> ak_revoked_unix_micros k;
     kr_expires_unix_secs := as_u 64 <$> ak_expires_unix_secs k;
     kr_token_limit := as_u 64 <$> ak_token_limit k; kr_call_limit := as_u 64 <$> ak_call_limit k;
     kr_labels := labels_from (ak_labels k) |}.

(** [ORDER BY created_unix_micros DESC, id] *)
Definition newest_first (a b : Z * ApiKey) : comparison :=
  then_with (Z.compare (ak_created_unix_micros b.2) (ak_created_unix_micros a.2)) (Z.compare a.1 b.1).

(** [list] *)
Definition list_keys (t : ApiKeys) : list KeyRow := map read_row (sort_by newest_first (map_to_list t)).

(** The row a patch makes of the current one, in [update]. *)
Definition patched (current : KeyRow) (patch : KeyPatch) (now_secs : Z) : KeyRow :=
  {| kr_id := kr_id current;
     kr_tenant := match kp_tenant patch with Some x => trim x | None => kr_tenant current end;
     kr_name := match kp_name patch with Some x => trim x | None => kr_name current end;
     kr_allowed_models := default (kr_allowed_models current) (kp_allowed_models patch);
     kr_allowed_tools := default (kr_allowed_tools current) (kp_allowed_tools patch);
     kr_external := kr_external current;
     kr_created_unix_micros := kr_created_unix_micros current;
     kr_revoked_unix_micros := kr_revoked_unix_micros current;
     kr_expires_unix_secs := match kp_expires_in_secs patch with
                             | Some secs => expiry (Some secs) now_secs
                             | None => kr_expires_unix_secs current
                             end;
     kr_token_limit := match kp_token_limit patch with Some b => limit (Some b) | None => kr_token_limit current end;
     kr_call_limit := match kp_call_limit patch with Some b => limit (Some b) | None => kr_call_limit current end;
     kr_labels := default (kr_labels current) (kp_labels patch) |}.

(** The columns the UPDATE statement of [update] sets. *)
Definition store_patch (next : KeyRow) (k : ApiKey) : ApiKey :=
  {| ak_hash := ak_hash k; ak_tenant := kr_tenant next; ak_name := kr_name next;
     ak_allowed_models := join "," (kr_allowed_models next); ak_allowed_tools := join "," (kr_allowed_tools next);
     ak_external := ak_external k; ak_created_unix_micros := ak_created_unix_micros k;
     ak_revoked_unix_micros := ak_revoked_unix_micros k;
     ak_expires_unix_secs := as_i 64 <$> kr_expires_unix_secs next;
     ak_token_limit := as_i 64 <$> kr_token_limit next; ak_call_limit := as_i 64 <$> kr_call_limit next;
     ak_labels := labels_json (kr_labels next) |}.

Definition is_live (k : ApiKey) : bool := bool_decide (ak_revoked_unix_micros k = None).

(** [update] *)
Definition update (t : ApiKeys) (id : Z) (patch : KeyPatch) (now_secs : Z) : option KeyRow * ApiKeys :=
  match List.find (fun k => (kr_id k =? id) && bool_decide (kr_revoked_unix_micros k = None)) (list_keys t) with
  | None => (None, t)
  | Some current =>
      let next := patched current patch now_secs in
      (Some next, alter (fun k => if is_live k then store_patch next k else k) (as_i 64 id) t)
  end.

Definition set_revoked (micros : Z) (k : ApiKey) : ApiKey :=
  {| ak_hash := ak_hash k; ak_tenant := ak_tenant k; ak_name := ak_name k;
     ak_allowed_models := ak_allowed_models k; ak_allowed_tools := ak_allowed_tools k;
     ak_external := ak_external k; ak_created_unix_micros := ak_created_unix_micros k;
     ak_revoked_unix_micros := Some micros; ak_expires_unix_secs := ak_expires_unix_secs k;
     ak_token_limit := ak_token_limit k; ak_call_limit := ak_call_limit k; ak_labels := ak_labels k |}.

(** The WHERE clause of [expire] *)
Definition has_expired (now_unix_secs : Z) (k : ApiKey) : bool :=
  is_live k && match ak_expires_unix_secs k with Some e => e <=? as_i 64 now_unix_secs | None => false end.

(** [expire]: how many keys it revoked, and the table *)
Definition expire (t : ApiKeys) (now_unix_secs : Z) : nat * ApiKeys :=
  (size (filter (fun kv => has_expired now_unix_secs kv.2 = true) t),
   (fun k => if has_expired now_unix_secs k then set_revoked (as_i 64 (as_u 64 (now_unix_secs * 1000000))) k else k) <$> t).

(** [revoke]: whether a live key was found, and the table *)
Definition revoke (t : ApiKeys) (id now_micros : Z) : bool * ApiKeys :=
  match t !! as_i 64 id with
  | Some k => if is_live k then (true, <[as_i 64 id := set_revoked (as_i 64 now_micros) k]> t) else (false, t)
  | None => (false, t)
  end.

(** The WHERE clause of [snapshot] *)
Definition in_snapshot (now_secs : Z) (k : ApiKey) : bool :=
  is_live k && match ak_expires_unix_secs k with None => true | Some e => e >? as_i 64 now_secs end.

Definition key_entry (e : Z * ApiKey) : KeyEntry :=
  let '(id, k) := e in
  {| ke_id := as_u 64 id; ke_hash_sha256 := ak_hash k; ke_tenant := ak_tenant k; ke_name := ak_name k;
     ke_allowed_models := split_models (ak_allowed_models k); ke_allowed_tools := split_models (ak_allowed_tools k);
     ke_expires_unix_secs := default 0 (as_u 64 <$> ak_expires_unix_secs k);
     ke_token_limit := default 0 (as_u 64 <$> ak_token_limit k);
     ke_call_limit := default 0 (as_u 64 <$> ak_call_limit k);
     ke_labels := labels_from (ak_labels k) |}.

(** [snapshot] *)
Definition snapshot (t : ApiKeys) (version now_secs : Z) : KeySnapshot :=
  {| sn_version := version;
     sn_keys := map key_entry (sort_by (fun a b => Z.compare a.1 b.1)
                  (List.filter (fun kv => in_snapshot now_secs kv.2) (map_to_list t)));
     sn_issuers := [] |}.
End Table.

(** ** The ledger's service *)

(** What an admin request is answered with. *)
Inductive Response :=
| StatusText (code : Z) (text : string)
| Created (row : KeyRow) (key : string)
| UpdatedRow (row : KeyRow)
| Listed (rows : list KeyRow)
| NoContent.

(** A change made by a request, between its storage operation and the
    publication of its snapshot: [publish_keys] first asks the storage thread
    for the next snapshot, then replaces the watched value. *)
Inductive Publishing := ToTake | ToSend (sn : KeySnapshot).

Record Service := {
  sv_keys : ApiKeys;
  (** the row [key_version] of the table [meta] *)
  sv_meta_version : option Z;
  sv_jwks : list IssuerKeys;
  (** the value of the watch channel *)
  sv_watch : KeySnapshot;
  sv_publishing : list Publishing;
}.

Definition with_table (t : ApiKeys) (s : Service) : Service :=
  {| sv_keys := t; sv_meta_version := sv_meta_version s; sv_jwks := sv_jwks s; sv_watch := sv_watch s;
     sv_publishing := sv_publishing s |}.
Definition with_publishing (l : list Publishing) (s : Service) : Service :=
  {| sv_keys := sv_keys s; sv_meta_version := sv_meta_version s; sv_jwks := sv_jwks s; sv_watch := sv_watch s;
     sv_publishing := l |}.
Definition with_meta_version (v : Z) (s : Service) : Service :=
  {| sv_keys := sv_keys s; sv_meta_version := Some v; sv_jwks := sv_jwks s; sv_watch := sv_watch s;
     sv_publishing := sv_publishing s |}.
Definition with_jwks (j : list IssuerKeys) (s : Service) : Service :=
  {| sv_keys := sv_keys s; sv_meta_version := sv_meta_version s; sv_jwks := j; sv_watch := sv_watch s;
     sv_publishing := sv_publishing s |}.
Definition with_watch (w : KeySnapshot) (s : Service) : Service :=
  {| sv_keys := sv_keys s; sv_meta_version := sv_meta_version s; sv_jwks := sv_jwks s; sv_watch := w;
     sv_publishing := sv_publishing s |}.

(** A change waits for its snapshot to be published. *)
Definition to_publish (s : Service) : Service := with_publishing (sv_publishing s ++ [ToTake]) s.

(** [Store::key_version] and [Store::bump_key_version] *)
Definition key_version (s : Service) : Z := as_u 64 (default 1 (sv_meta_version s)).

Definition bump_key_version (s : Service) : Z * Service :=
  let next := as_u 64 (key_version s + 1) in
  (next, with_meta_version (as_i 64 next) s).

Section Service.
Context `{LJ : LabelsJson} `{HC : HttpCrate} (sha256 : string -> string) (admin_token : option string).
Context {Hd : Type} `{RH : RequestHeaders Hd}.

(** The ledger over a table, as [main] starts it. *)
Definition Service_start (t : ApiKeys) (version : option Z) (now_secs : Z) : Service :=
  {| sv_keys := t; sv_meta_version := version; sv_jwks := [];
     sv_watch := snapshot t (as_u 64 (default 1 version)) now_secs; sv_publishing := [] |}.

(** [Op::NextKeySnapshot] *)
Definition next_key_snapshot (now_secs : Z) (s : Service) : KeySnapshot * Service :=
  let '(v, s) := bump_key_version s in (snapshot (sv_keys s) v now_secs, s).

(** The two halves of [publish_keys]; the issuers are attached to the
    snapshot once it is back. *)
Definition publish_take (now_secs : Z) (s : Service) : KeySnapshot * Service :=
  let '(sn, s) := next_key_snapshot now_secs s in
  ({| sn_version := sn_version sn; sn_keys := sn_keys sn; sn_issuers := sv_jwks s |}, s).

Definition publish_send (sn : KeySnapshot) (s : Service) : Service := with_watch sn s.

(** [admin_ok] *)
Definition admin_ok (headers : Hd) : result unit Response :=
  match admin_token with
  | None => Err (StatusText 403 "admin API disabled: set LEDGER_ADMIN_TOKEN")
  | Some expected =>
      let presented :=
        match header_get headers "authorization" with
        | Some v => if negb (value_text_ok v) then EmptyString else match strip_prefix "Bearer " (trim v) with Some x => trim x | None => EmptyString end
        | None => EmptyString
        end in
      if bool_decide (sha256 presented = sha256 expected) then Ok tt else Err (StatusText 401 "invalid admin token")
  end.

(** The text of a refused label. *)
Definition label_error_text (e : LabelError) : string :=
  match e with
  | TooManyLabels => "at most 32 labels"
  | BadLabelKey k => "label key " +:+ k +:+ " must be 1-63 of letters, digits, - _ . /"
  | BadLabelValue k => "label " +:+ k +:+ " value must be at most 253 printable characters"
  end.

(** [issue_key], up to the publication of its snapshot *)
Definition trimmed_new (new : NewKey) : NewKey :=
  {| nk_tenant := trim (nk_tenant new); nk_name := trim (nk_name new);
     nk_allowed_models := nk_allowed_models new; nk_allowed_tools := nk_allowed_tools new;
     nk_plaintext := trim <$> nk_plaintext new; nk_expires_in_secs := nk_expires_in_secs new;
     nk_token_limit := nk_token_limit new; nk_call_limit := nk_call_limit new; nk_labels := nk_labels new |}.

Definition issue_key (headers : Hd) (new : NewKey) (rand_bytes : string) (rand_id created now_secs : Z) (s : Service)
  : Response * Service :=
  match admin_ok headers with
  | Err r => (r, s)
  | Ok _ =>
      let new := trimmed_new new in
      if is_empty (nk_name new) then (StatusText 400 "name is required", s)
      else if match nk_plaintext new with Some k => (String.length k <? 16)%nat | None => false end
      then (StatusText 400 "an imported key must be at least 16 characters", s)
      else
        match validate_labels (nk_labels new) with
        | Err e => (StatusText 400 (label_error_text e), s)
        | Ok _ =>
            match issue sha256 (sv_keys s) new rand_bytes rand_id created now_secs with
            | Ok (row, key, t) => (Created row key, to_publish (with_table t s))
            | Err UniqueViolation => (StatusText 409 "a key with this value already exists", s)
            | Err OtherError => (StatusText 500 "storage error", s)
            end
        end
  end.

(** [list_keys] *)
Definition list_keys_handler (headers : Hd) (s : Service) : Response :=
  match admin_ok headers with Err r => r | Ok _ => Listed (list_keys (sv_keys s)) end.

(** [update_key], up to the publication of its snapshot *)
Definition update_key (headers : Hd) (id : Z) (patch : KeyPatch) (now_secs : Z) (s : Service) : Response * Service :=
  match admin_ok headers with
  | Err r => (r, s)
  | Ok _ =>
      if match kp_name patch with Some n => is_empty (trim n) | None => false end
      then (StatusText 400 "name cannot be empty", s)
      else
        match validate_labels <$> kp_labels patch with
        | Some (Err e) => (StatusText 400 (label_error_text e), s)
        | _ =>
            match update (sv_keys s) id patch now_secs with
            | (Some row, t) => (UpdatedRow row, to_publish (with_table t s))
            | (None, _) => (StatusText 404 "no live key with that id", s)
            end
        end
  end.

(** [revoke_key], up to the publication of its snapshot *)
Definition revoke_key (headers : Hd) (id now_micros : Z) (s : Service) : Response * Service :=
  match admin_ok headers with
  | Err r => (r, s)
  | Ok _ =>
      match revoke (sv_keys s) id now_micros with
      | (true, t) => (NoContent, to_publish (with_table t s))
      | (false, _) => (StatusText 404 "no live key with that id", s)
      end
  end.

(** The expiry task of [main], and its JWKS refresher with the sets as
    fetched, up to the publication *)
Definition expire_tick (now_secs : Z) (s : Service) : Service :=
  match expire (sv_keys s) now_secs with
  | (O, _) => s
  | (S _, t) => to_publish (with_table t s)
  end.

Definition jwks_tick (fresh : list IssuerKeys) (s : Service) : Service :=
  if decide (fresh = sv_jwks s) then s else to_publish (with_jwks fresh s).

(** What happens at the ledger, one storage operation or send at a time. *)
Inductive Action :=
| AIssue (headers : Hd) (new : NewKey) (rand_bytes : string) (rand_id created now_secs : Z)
| AUpdate (headers : Hd) (id : Z) (patch : KeyPatch) (now_secs : Z)
| ARevoke (headers : Hd) (id now_micros : Z)
| AExpire (now_secs : Z)
| AJwks (fresh : list IssuerKeys)
| ATake (i : nat) (now_secs : Z)
| ASend (i : nat).

Definition act (s : Service) (a : Action) : Service :=
  match a with
  | AIssue h new rb ri created now => (issue_key h new rb ri created now s).2
  | AUpdate h id patch now => (update_key h id patch now s).2
  | ARevoke h id now => (revoke_key h id now s).2
  | AExpire now => expire_tick now s
  | AJwks fresh => jwks_tick fresh s
  | ATake i now =>
      match sv_publishing s !! i with
      | Some ToTake => let '(sn, s) := publish_take now s in with_publishing (<[i := ToSend sn]> (sv_publishing s)) s
      | _ => s
      end
  | ASend i =>
      match sv_publishing s !! i with
      | Some (ToSend sn) => with_publishing (delete i (sv_publishing s)) (publish_send sn s)
      | _ => s
      end
  end.

Definition acts : list Action -> Service -> Service := fun l s => fold_left act l s.
End Service.

(** ** The data plane's side *)

(** [try_from] of [KeyHash]: 32 bytes. *)
Definition is_key_hash (h : string) : bool := (String.length h =? 32)%nat.

Definition key_info (k : KeyEntry) : KeyInfo :=
  {| ki_id := ke_id k; ki_tenant := ke_tenant k; ki_name := ke_name k;
     ki_allowed_models := ke_allowed_models k; ki_allowed_tools := ke_allowed_tools k;
     ki_expires_unix_secs := ke_expires_unix_secs k; ki_token_limit := ke_token_limit k;
     ki_call_limit := ke_call_limit k; ki_labels := labels_in_order (ke_labels k) |}.

Section Watch.
Context {Key : Type} (parse_set : string -> option (list (Jwk Key))).

(** [KeySet::from_snapshot] *)
Definition from_snapshot (sn : KeySnapshot) : KeySet Key :=
  {| ks_version := sn_version sn;
     ks_keys := fold_left (fun m k => if is_key_hash (ke_hash_sha256 k) then <[ke_hash_sha256 k := key_info k]> m else m)
                  (sn_keys sn) ∅;
     ks_jwks := Jwks_from_entries parse_set (sn_issuers sn) |}.

Definition KeySet_default : KeySet Key := {| ks_version := 0; ks_keys := ∅; ks_jwks := ∅ |}.

(** The loop of [watch_keys_loop]: the key set in use, and whether the next
    message is the first of its stream. *)
Record Watcher := { wt_set : KeySet Key; wt_first : bool }.

Definition Watcher_start : Watcher := {| wt_set := KeySet_default; wt_first := true |}.

Definition watch_connect (w : Watcher) : Watcher := {| wt_set := wt_set w; wt_first := true |}.

Definition watch_message (sn : KeySnapshot) (w : Watcher) : Watcher :=
  if wt_first w || (sn_version sn >? ks_version (wt_set w)) || bool_decide (ks_keys (wt_set w) = ∅)
  then {| wt_set := from_snapshot sn; wt_first := false |}
  else w.
End Watch.

(** ** Allow lists in the table *)

Lemma split_char_pieces c s m : m ∈ split_char c s -> find_char c m = None.
Proof.
  revert m. induction s as [|a s IH]; cbn [split_char]; intros m Hm.
  - apply list_elem_of_singleton in Hm as ->. done.
  - destruct (decide (a = c)) as [->|Hne].
    + apply elem_of_cons in Hm as [->|Hm]; [done|by apply IH].
    + destruct (split_char c s) as [|p ps] eqn:E; [by apply split_char_nonempty in E|].
      apply elem_of_cons in Hm as [->|Hm]; [|apply IH; by right].
      cbn [find_char]. rewrite decide_False by done. by rewrite (IH p) by left.
Qed.

Lemma split_char_whole c s : find_char c s = None -> split_char c s = [s].
Proof.
  induction s as [|a s IH]; cbn [split_char find_char]; [done|]. intros Hf.
  destruct (decide (a = c)); [done|]. destruct (find_char c s); [done|]. by rewrite IH.
Qed.

Definition storable (m : string) : Prop := m <> EmptyString /\ find_char "," m = None.

Lemma split_join l : Forall (fun m => find_char "," m = None) l -> l <> [] -> split_char "," (join "," l) = l.
Proof.
  induction l as [|m l IH]; [done|]. intros [Hm Hl]%Forall_cons _.
  destruct l as [|m' l]; [by apply split_char_whole|].
  change (join "," (m :: m' :: l)) with (m +:+ String "," (join "," (m' :: l))).
  rewrite split_char_app, IH, split_char_whole by done. done.
Qed.

Lemma split_models_join l : split_models (join "," l) = l <-> Forall storable l.
Proof.
  split.
  - intros <-. apply Forall_forall. intros m Hm. apply list_elem_of_In, filter_In in Hm as [Hm Hne].
    split; [by intros ->|]. by apply list_elem_of_In, split_char_pieces in Hm.
  - intros Hl. destruct (decide (l = [])) as [->|Hne]; [done|]. unfold split_models.
    rewrite split_join; [|by eapply Forall_impl; [exact Hl|intros m [_ Hm]]|done].
    apply forallb_filter_id, forallb_forall. intros m Hm%list_elem_of_In.
    rewrite Forall_forall in Hl. destruct (Hl m Hm) as [Hm' _]. by destruct m.
Qed.

(** ** The life of a key *)

Definition hashes_unique (t : ApiKeys) : Prop :=
  forall i j k k', t !! i = Some k -> t !! j = Some k' -> ak_hash k = ak_hash k' -> i = j.

(** An expiry is an [INTEGER] of the table. *)
Definition expiry_fits (k : ApiKey) : Prop :=
  match ak_expires_unix_secs k with Some e => e < 2 ^ 63 | None => True end.

Record table_ok (t : ApiKeys) : Prop := {
  table_unique : hashes_unique t;
  table_fits id k : t !! id = Some k -> expiry_fits k;
}.

(** Identity is kept, and a revoked row is final. *)
Definition same_key (k k' : ApiKey) : Prop :=
  ak_hash k' = ak_hash k /\ ak_created_unix_micros k' = ak_created_unix_micros k /\
  (ak_revoked_unix_micros k <> None -> k' = k) /\ (expiry_fits k -> expiry_fits k').

Definition evolves (t t' : ApiKeys) : Prop :=
  forall id k, t !! id = Some k -> exists k', t' !! id = Some k' /\ same_key k k'.

Definition keys_step (t t' : ApiKeys) : Prop := evolves t t' /\ (table_ok t -> table_ok t').

Lemma same_key_refl k : same_key k k.
Proof. done. Qed.

Lemma keys_step_refl t : keys_step t t.
Proof. split; [|done]. intros id k Hk. by exists k. Qed.

Lemma keys_step_trans t1 t2 t3 : keys_step t1 t2 -> keys_step t2 t3 -> keys_step t1 t3.
Proof.
  intros [H12 Hu12] [H23 Hu23]. split; [|auto]. intros id k Hk.
  destruct (H12 id k Hk) as (k2 & Hk2 & Hh2 & Hc2 & Hr2 & Hf2).
  destruct (H23 id k2 Hk2) as (k3 & Hk3 & Hh3 & Hc3 & Hr3 & Hf3).
  exists k3. split_and!; [done|]. split_and!; [congruence|congruence| |auto].
  intros Hrev. specialize (Hr2 Hrev) as ->. by apply Hr3.
Qed.

(** A change of each row for itself that keeps its identity. *)
Lemma keys_step_rows t t' :
  (forall id, match t !! id with
              | Some k => exists k', t' !! id = Some k' /\ same_key k k'
              | None => t' !! id = None
              end) -> keys_step t t'.
Proof.
  intros Hrows.
  assert (Hback : forall id k', t' !! id = Some k' -> exists k, t !! id = Some k /\ same_key k k').
  { intros id k' Hk'. specialize (Hrows id). destruct (t !! id) as [k|]; [|congruence].
    destruct Hrows as (k2 & Hk2 & Hs). exists k. split; [done|]. by simplify_eq. }
  split.
  - intros id k Hk. specialize (Hrows id). by rewrite Hk in Hrows.
  - intros [Hu Hf]. split.
    + intros i j k k' Hk Hk' Hh.
      apply Hback in Hk as (k0 & Hk0 & Hh0 & _). apply Hback in Hk' as (k1 & Hk1 & Hh1 & _).
      apply (Hu i j k0 k1); congruence.
    + intros id k' Hk'. apply Hback in Hk' as (k & Hk & _ & _ & _ & Hfit). eauto.
Qed.

Lemma keys_step_alter t id f : (forall k, same_key k (f k)) -> keys_step t (alter f id t).
Proof.
  intros Hf. apply keys_step_rows. intros i. destruct (decide (i = id)) as [->|Hne].
  - rewrite lookup_alter_eq. destruct (t !! id) as [k|]; [|done]. exists (f k). auto.
  - rewrite lookup_alter_ne by done. destruct (t !! i) as [k|]; [|done]. exists k. auto using same_key_refl.
Qed.

Lemma table_ok_empty : table_ok ∅.
Proof. split; [intros i j k k' Hk|intros i k Hk]; by rewrite lookup_empty in Hk. Qed.

Lemma stored_expiry_fits (o : option Z) : match as_i 64 <$> o with Some e => e < 2 ^ 63 | None => True end.
Proof. destruct o as [e|]; simpl; [|done]. unfold as_i. pose proof (Z.mod_pos_bound (e + 2 ^ (64 - 1)) (2 ^ 64)). lia. Qed.

Section Life.
Context `{LJ : LabelsJson} `{HC : HttpCrate} (sha256 : string -> string) (admin_token : option string).
Context {Hd : Type} `{RH : RequestHeaders Hd}.

Lemma issue_keys_step t new rb ri created now row key t' :
  issue sha256 t new rb ri created now = Ok (row, key, t') -> keys_step t t'.
Proof.
  unfold issue. cbv zeta. destruct (_ || _) eqn:E; [done|]. intros [= _ _ <-].
  apply orb_false_iff in E as [Hid Hhash]. apply bool_decide_eq_false, eq_None_not_Some in Hid.
  match goal with |- keys_step t (<[?i := ?r]> t) => set (nid := i) in *; set (nrow := r) in * end.
  assert (Hnew : forall j k', t !! j = Some k' -> ak_hash k' <> ak_hash nrow).
  { intros j k' Hk' Heq. apply not_true_iff_false in Hhash. apply Hhash, existsb_exists.
    exists (j, k'). split; [by apply list_elem_of_In, elem_of_map_to_list|]. by apply bool_decide_eq_true. }
  split; [|intros [Hu Hf]; split].
  - intros i k' Hk'. exists k'. split; [|done]. rewrite lookup_insert_ne; [done|congruence].
  - intros i j k1 k2 H1 H2 Heq.
    apply lookup_insert_Some in H1 as [[<- <-]|[Hi H1]], H2 as [[<- <-]|[Hj H2]];
      [done|by destruct (Hnew j k2)|by destruct (Hnew i k1)|by apply (Hu i j k1 k2)].
  - intros i k1 H1. apply lookup_insert_Some in H1 as [[_ <-]|[_ H1]]; [apply stored_expiry_fits|eauto].
Qed.

Lemma update_keys_step t id patch now row t' : update t id patch now = (row, t') -> keys_step t t'.
Proof.
  unfold update. destruct (List.find _ _); intros [= <- <-]; [|apply keys_step_refl].
  apply keys_step_alter. intros x. destruct (is_live x) eqn:El; [|apply same_key_refl].
  apply bool_decide_eq_true in El. split_and!; [done|done|done|]. intros _. apply stored_expiry_fits.
Qed.

Lemma set_revoked_same micros k : is_live k = true -> same_key k (set_revoked micros k).
Proof. intros El. apply bool_decide_eq_true in El. by split_and!. Qed.

Lemma expire_keys_step t now n t' : expire t now = (n, t') -> keys_step t t'.
Proof.
  intros [= <- <-]. apply keys_step_rows. intros i. rewrite lookup_fmap. destruct (t !! i) as [k|]; simpl; [|done].
  eexists. split; [done|]. destruct (has_expired now k) eqn:E; [|apply same_key_refl].
  apply andb_true_iff in E as [El _]. by apply set_revoked_same.
Qed.

Lemma revoke_keys_step t id now b t' : revoke t id now = (b, t') -> keys_step t t'.
Proof.
  unfold revoke. destruct (t !! as_i 64 id) as [k|] eqn:Ek; [|intros [= _ <-]; apply keys_step_refl].
  destruct (is_live k) eqn:El; intros [= _ <-]; [|apply keys_step_refl].
  rewrite <- (insert_id t (as_i 64 id) k Ek) at 1. apply keys_step_rows. intros i.
  destruct (decide (i = as_i 64 id)) as [->|Hne].
  - rewrite !lookup_insert_eq. eexists. split; [done|by apply set_revoked_same].
  - rewrite !lookup_insert_ne by done. destruct (t !! i) as [k'|]; [|done]. exists k'. auto using same_key_refl.
Qed.
End Life.

(** ** Snapshots *)

(** The keys a snapshot at [now_secs] is made of. *)
Definition published_row (t : ApiKeys) (now_secs : Z) (e : Z * ApiKey) : Prop :=
  t !! e.1 = Some e.2 /\ in_snapshot now_secs e.2 = true.

Lemma snapshot_elem `{LJ : LabelsJson} t v now e :
  e ∈ sn_keys (snapshot t v now) <-> exists x, published_row t now x /\ e = key_entry x.
Proof.
  simpl. rewrite list_elem_of_fmap. split.
  - intros (x & -> & Hx). exists x. split; [|done]. rewrite sort_by_perm in Hx.
    apply list_elem_of_In, filter_In in Hx as [Hx Hs]. destruct x as [i k].
    split; [|done]. by apply elem_of_map_to_list, list_elem_of_In.
  - intros (x & [Hx Hs] & ->). exists x. split; [done|]. rewrite sort_by_perm.
    apply list_elem_of_In, filter_In. split; [|done]. destruct x as [i k]. by apply list_elem_of_In, elem_of_map_to_list.
Qed.

Section Published.
Context `{LJ : LabelsJson} {Key : Type} (parse_set : string -> option (list (Jwk Key))).

Lemma from_snapshot_lookup t v now sn h info :
  hashes_unique t -> sn_keys sn = sn_keys (snapshot t v now) ->
  ks_keys (from_snapshot parse_set sn) !! h = Some info <->
  exists x, published_row t now x /\ is_key_hash h = true /\ ak_hash x.2 = h /\ key_info (key_entry x) = info.
Proof.
  intros Hu Hsn. unfold from_snapshot. cbn [ks_keys]. rewrite Hsn, fold_insert_lookup.
  - split.
    + intros (e & He & HP & Hh & Hi). apply snapshot_elem in He as (x & Hx & ->).
      exists x. destruct x as [i k]. split_and!; [done| |done|done]. by rewrite <- Hh.
    + intros (x & Hx & HP & Hh & Hi). exists (key_entry x). split; [apply snapshot_elem; by exists x|].
      destruct x as [i k]. simpl in *. rewrite Hh. done.
  - intros a b Ha Hb Hab. apply snapshot_elem in Ha as ([i k] & [Ha _] & ->), Hb as ([j k'] & [Hb _] & ->).
    simpl in *. assert (i = j) as -> by by apply (Hu i j k k'). by simplify_eq.
Qed.
End Published.

(** ** Requests one after the other *)

Section Serial.
Context `{LJ : LabelsJson} `{HC : HttpCrate} (sha256 : string -> string) (admin_token : option string).
Context {Hd : Type} `{RH : RequestHeaders Hd}.
Notation act := (act (Hd := Hd) sha256 admin_token).
Notation acts := (acts (Hd := Hd) sha256 admin_token).

Lemma act_keys_step s a : keys_step (sv_keys s) (sv_keys (act s a)).
Proof.
  destruct a as [h new rb ri created now|h id patch now|h id now|now|fresh|i now|i]; cbn [LedgerKeys.act].
  - unfold issue_key. destruct (admin_ok _ _ h); [|apply keys_step_refl]. cbv zeta.
    destruct (is_empty _); [apply keys_step_refl|]. destruct (match nk_plaintext _ with Some _ => _ | None => _ end); [apply keys_step_refl|].
    destruct (validate_labels _); [|apply keys_step_refl].
    destruct (issue _ _ _ _ _ _ _) as [[[row key] t']|[]] eqn:E; [|apply keys_step_refl..].
    by eapply issue_keys_step.
  - unfold update_key. destruct (admin_ok _ _ h); [|apply keys_step_refl].
    destruct (match kp_name patch with Some _ => _ | None => _ end); [apply keys_step_refl|].
    destruct (validate_labels <$> kp_labels patch) as [[]|]; try apply keys_step_refl;
      destruct (update _ _ _ _) as [[row|] t'] eqn:E; try apply keys_step_refl; by eapply update_keys_step.
  - unfold revoke_key. destruct (admin_ok _ _ h); [|apply keys_step_refl].
    destruct (revoke _ _ _) as [[] t'] eqn:E; [by eapply revoke_keys_step|apply keys_step_refl].
  - unfold expire_tick. destruct (expire _ _) as [[|n] t'] eqn:E; [apply keys_step_refl|by eapply expire_keys_step].
  - unfold jwks_tick. destruct (decide _); apply keys_step_refl.
  - destruct (sv_publishing s !! i) as [[]|]; apply keys_step_refl.
  - destruct (sv_publishing s !! i) as [[]|]; apply keys_step_refl.
Qed.

Lemma acts_keys_step l s : keys_step (sv_keys s) (sv_keys (acts l s)).
Proof.
  revert s. induction l as [|a l IH]; intros s; [apply keys_step_refl|].
  eapply keys_step_trans; [apply act_keys_step|apply IH].
Qed.

(** Actions that change the table or the issuers. *)
Definition is_change (a : Action (Hd := Hd)) : bool := match a with ATake _ _ | ASend _ => false | _ => true end.

(** What a change does to a quiet service: nothing, or it leaves a snapshot
    to be published. *)
Lemma change_cases s a :
  is_change a = true -> sv_publishing s = [] ->
  act s a = s \/
  (sv_publishing (act s a) = [ToTake] /\ sv_watch (act s a) = sv_watch s /\ sv_meta_version (act s a) = sv_meta_version s).
Proof.
  intros Ha Hq. destruct a as [h new rb ri created now|h id patch now|h id now|now|fresh|i now|i]; try done; cbn [LedgerKeys.act].
  - unfold issue_key. destruct (admin_ok _ _ h); [|by left]. cbv zeta.
    destruct (is_empty _); [by left|]. destruct (match nk_plaintext _ with Some _ => _ | None => _ end); [by left|].
    destruct (validate_labels _); [|by left].
    destruct (issue _ _ _ _ _ _ _) as [[[row key] t']|[]]; [right|by left..]. simpl. by rewrite Hq.
  - unfold update_key. destruct (admin_ok _ _ h); [|by left].
    destruct (match kp_name patch with Some _ => _ | None => _ end); [by left|].
    destruct (validate_labels <$> kp_labels patch) as [[]|]; try (by left);
      destruct (update _ _ _ _) as [[row|] t']; try (by left); right; simpl; by rewrite Hq.
  - unfold revoke_key. destruct (admin_ok _ _ h); [|by left].
    destruct (revoke _ _ _) as [[] t']; [right; simpl; by rewrite Hq|by left].
  - unfold expire_tick. destruct (expire _ _) as [[|n] t']; [by left|right; simpl; by rewrite Hq].
  - unfold jwks_tick. destruct (decide _); [by left|right; simpl; by rewrite Hq].
Qed.

(** A change and the publication of its snapshot, with no other in between. *)
Definition request (s : Service) (c : Action (Hd := Hd) * Z) : Service := acts [c.1; ATake 0 c.2; ASend 0] s.
Definition serve (history : list (Action (Hd := Hd) * Z)) (s : Service) : Service := fold_left request history s.

(** The values of the watch channel along the way. *)
Fixpoint watched (history : list (Action (Hd := Hd) * Z)) (s : Service) : list KeySnapshot :=
  sv_watch s :: match history with [] => [] | c :: history => watched history (request s c) end.

(** The published snapshot shows the table, as of some earlier clock. *)
Record settled (clock : Z) (s : Service) : Prop := {
  settled_quiet : sv_publishing s = [];
  settled_version : sn_version (sv_watch s) = key_version s;
  settled_range : in_u 64 (key_version s);
  settled_table : table_ok (sv_keys s);
  settled_shows : exists t0, 0 <= t0 <= clock /\
    sn_keys (sv_watch s) = sn_keys (snapshot (sv_keys s) (sn_version (sv_watch s)) t0);
}.

Lemma request_cases s c :
  is_change c.1 = true -> sv_publishing s = [] ->
  request s c = s \/
  (sv_publishing (request s c) = [] /\ sv_keys (request s c) = sv_keys (act s c.1) /\
   key_version (request s c) = as_u 64 (key_version s + 1) /\
   sn_version (sv_watch (request s c)) = as_u 64 (key_version s + 1) /\
   sn_keys (sv_watch (request s c)) = sn_keys (snapshot (sv_keys (act s c.1)) (as_u 64 (key_version s + 1)) c.2)).
Proof.
  intros Ha Hq. destruct (change_cases s c.1 Ha Hq) as [E|(Hp & Hw & Hm)]; [left|right]; unfold request, LedgerKeys.acts; cbn [fold_left].
  - rewrite E. cbn [LedgerKeys.act]. rewrite Hq. simpl. by rewrite Hq.
  - set (s1 := act s c.1) in *. cbn [LedgerKeys.act]. rewrite Hp. cbn -[as_u as_i].
    unfold key_version. rewrite Hm. cbn -[as_u as_i]. rewrite Hp. cbn -[as_u as_i]. split_and!; try done.
    rewrite as_u_as_i by lia. unfold as_u. apply Zmod_mod.
Qed.
Lemma request_settled clock s c :
  is_change c.1 = true -> 0 <= c.2 <= clock -> settled clock s -> settled clock (request s c).
Proof.
  intros Ha Hc [Hq Hv Hr Hu Hs]. destruct (request_cases s c Ha Hq) as [->|(Hq' & Hk & Hkv & Hwv & Hw)]; [done|].
  constructor; [done|congruence| | |].
  - rewrite Hkv. by apply as_u_range.
  - rewrite Hk. by apply act_keys_step.
  - exists c.2. split; [done|]. rewrite Hk, Hwv. done.
Qed.

Definition newer (a b : KeySnapshot) : Prop := sn_version a < sn_version b \/ a = b.

Lemma request_newer clock s c :
  is_change c.1 = true -> settled clock s -> key_version s + 1 < 2 ^ 64 ->
  newer (sv_watch s) (sv_watch (request s c)) /\ key_version (request s c) <= key_version s + 1.
Proof.
  intros Ha [Hq Hv Hr Hu Hs] Hb. destruct (request_cases s c Ha Hq) as [->|(Hq' & Hk & Hkv & Hwv & Hw)].
  - split; [by right|lia].
  - unfold in_u in Hr. rewrite as_u_small in Hkv, Hwv by (unfold in_u; lia). split; [left; lia|lia].
Qed.

Definition changes (clock : Z) (history : list (Action (Hd := Hd) * Z)) : Prop :=
  Forall (fun c => is_change c.1 = true /\ 0 <= c.2 <= clock) history.

Lemma watched_newer clock history : forall s,
  changes clock history -> settled clock s -> key_version s + Z.of_nat (List.length history) < 2 ^ 64 ->
  StronglySorted newer (watched history s) /\ Forall (newer (sv_watch s)) (watched history s).
Proof.
  induction history as [|c history IH]; intros s Hc Hs Hb; cbn [watched].
  - split; [|repeat constructor; by right]. repeat constructor.
  - apply Forall_cons in Hc as [[Ha Hck] Hc]. cbn [List.length] in Hb.
    destruct (request_newer clock s c Ha Hs) as [Hn Hv]; [lia|].
    destruct (IH (request s c)) as [Hsort Hall]; [done|by apply request_settled|lia|].
    assert (Hfront : Forall (newer (sv_watch s)) (watched history (request s c))).
    { eapply Forall_impl; [exact Hall|]. intros x [Hx| <-]; [|done]. destruct Hn as [Hn| ->]; left; lia. }
    split; constructor; [done|done|by right|done].
Qed.

Lemma serve_settled clock history s : changes clock history -> settled clock s -> settled clock (serve history s).
Proof.
  revert s. induction history as [|c history IH]; intros s Hc Hs; [done|].
  apply Forall_cons in Hc as [[Ha Hck] Hc]. apply IH; [done|]. by apply request_settled.
Qed.

Lemma start_settled t version clock :
  table_ok t -> 0 <= clock -> settled clock (Service_start t version clock).
Proof.
  intros Hu Hc. constructor; [done|done|by apply as_u_range|done|].
  exists clock. split; [lia|done].
Qed.
End Serial.

(** ** What a data plane that listens accepts *)

Section Hear.
Context {Key : Type} (parse_set : string -> option (list (Jwk Key))).

(** The messages a data plane receives; [true] opens a new stream first. *)
Definition hear (messages : list (bool * KeySnapshot)) (w : Watcher (Key := Key)) : Watcher :=
  fold_left (fun w m => watch_message parse_set m.2 (if m.1 : bool then watch_connect w else w)) messages w.

Lemma hear_step (m : bool * KeySnapshot) w a :
  wt_set w = from_snapshot parse_set a -> newer a m.2 ->
  wt_set (watch_message parse_set m.2 (if m.1 then watch_connect w else w)) = from_snapshot parse_set m.2.
Proof.
  intros Hw Hn. destruct m as [[] sn]; simpl in *; [done|]. unfold watch_message.
  destruct (_ || _) eqn:E; [done|]. rewrite Hw. destruct Hn as [Hn| ->]; [|done].
  apply orb_false_iff in E as [E _]. apply orb_false_iff in E as [_ E]. rewrite Hw in E. cbn [ks_version from_snapshot] in E. lia.
Qed.

Lemma hear_last messages : forall w a b,
  wt_set w = from_snapshot parse_set a -> StronglySorted newer (a :: map snd messages) ->
  last (a :: map snd messages) = Some b -> wt_set (hear messages w) = from_snapshot parse_set b.
Proof.
  induction messages as [|m messages IH]; intros w a b Hw Hs Hl; [by simplify_eq/=|].
  cbn [map] in Hs, Hl. inversion_clear Hs as [|? ? Hs' Ha]. apply Forall_cons in Ha as [Hn _].
  rewrite last_cons_cons in Hl. apply (IH _ m.2); [by eapply hear_step|done|done].
Qed.

(** A data plane that heard some of the published snapshots, in order, and
    the last one, holds the last one. *)
Lemma hear_sublist messages snapshots sn :
  StronglySorted newer snapshots -> sublist (map snd messages) snapshots -> last (map snd messages) = Some sn ->
  wt_set (hear messages Watcher_start) = from_snapshot parse_set sn.
Proof.
  intros Hs Hsub Hl. eapply sublist_sorted in Hs; [|done].
  destruct messages as [|m messages]; [done|]. cbn [map] in *.
  apply (hear_last messages _ m.2); [|done|done]. by destruct m as [[] ?].
Qed.
End Hear.

Section Theorems.
Context `{LJ : LabelsJson} `{HC : HttpCrate} (sha256 : string -> string) (admin_token : option string).
Context {Hd : Type} `{RH : RequestHeaders Hd}.
Context {Key : Type} (parse_set : string -> option (list (Jwk Key))).

(** The row of a key that is in force at [now_secs]. *)
Definition in_force (t : ApiKeys) (now_secs : Z) (key : string) (e : Z * ApiKey) : Prop :=
  t !! e.1 = Some e.2 /\ ak_hash e.2 = sha256 key /\ ak_revoked_unix_micros e.2 = None /\
  match ak_expires_unix_secs e.2 with Some expires => now_secs < expires | None => True end.

(** A row of a snapshot is live now exactly when it is in force. *)
Lemma published_live t t0 now e :
  table_ok t -> 0 <= t0 <= now -> now < 2 ^ 63 ->
  published_row t t0 e /\ live_at (key_info (key_entry e)) now = true <->
  t !! e.1 = Some e.2 /\ ak_revoked_unix_micros e.2 = None /\
  match ak_expires_unix_secs e.2 with Some expires => now < expires | None => True end.
Proof.
  intros Hok Ht0 Hnow. destruct e as [id k]. unfold published_row, live_at, in_snapshot, is_live. simpl.
  rewrite andb_true_iff, bool_decide_eq_true, as_i_small by lia.
  destruct (ak_expires_unix_secs k) as [e|] eqn:Ee; simpl.
  - split.
    + intros [(Hk & Hr & He) Hl]. pose proof (table_fits t Hok id k Hk) as Hf. unfold expiry_fits in Hf. rewrite Ee in Hf.
      rewrite as_u_small in Hl by (unfold in_u; lia). split_and!; [done|done|]. lia.
    + intros (Hk & Hr & He). pose proof (table_fits t Hok id k Hk) as Hf. unfold expiry_fits in Hf. rewrite Ee in Hf.
      rewrite as_u_small by (unfold in_u; lia). split_and!; [done|done|lia|lia].
  - split; [intros [(Hk & Hr & _) _]|intros (Hk & Hr & _)]; split_and!; done.
Qed.


(** C33: Revocation is final: whatever happens at the ledger afterwards, in any
    interleaving of requests and publications, every snapshot that is taken
    leaves a revoked key out, and its text cannot be issued again. *)
Theorem revocation_is_final (s : Service) (id : Z) (k : ApiKey) (actions : list (Action (Hd := Hd))) (v now : Z) :
  table_ok (sv_keys s) -> sv_keys s !! id = Some k -> ak_revoked_unix_micros k <> None ->
  let t := sv_keys (acts sha256 admin_token actions s) in
  t !! id = Some k /\
  (forall e, e ∈ sn_keys (snapshot t v now) -> ke_hash_sha256 e <> ak_hash k) /\
  (forall key new bytes rid created secs, nk_plaintext new = Some key -> sha256 key = ak_hash k ->
     issue sha256 t new bytes rid created secs = Err UniqueViolation).
Proof.
  intros Hok Hk Hr t. destruct (acts_keys_step sha256 admin_token actions s) as [Hev Hok'].
  destruct (Hev id k Hk) as (k' & Hk' & _ & _ & Hfinal & _). rewrite (Hfinal Hr) in Hk'. fold t in Hk'.
  specialize (Hok' Hok). fold t in Hok'. split_and!; [done|..].
  - intros e He Hh. apply snapshot_elem in He as ([j kj] & [Hj Hsnap] & ->). simpl in *.
    assert (j = id) as -> by by apply (table_unique t Hok' j id kj k). simplify_eq.
    apply andb_true_iff in Hsnap as [Hl _]. by apply bool_decide_eq_true in Hl.
  - intros key new bytes rid created secs Hkey Hsha. unfold issue. cbv zeta. rewrite Hkey. cbn [from_option ak_hash].
    rewrite (proj2 (existsb_exists _ _)); [by rewrite orb_true_r|].
    exists (id, k). split; [by apply list_elem_of_In, elem_of_map_to_list|]. by apply bool_decide_eq_true.
Qed.

(** The top bit is shifted out, so a row id is never negative. *)
Lemma issued_id rid : in_u 64 rid -> as_i 64 (Z.shiftr rid 1) = Z.shiftr rid 1.
Proof.
  unfold in_u. intros Hrid. rewrite Z.shiftr_div_pow2 by lia. apply as_i_small; [lia|].
  pose proof (Z.div_lt_upper_bound rid (2 ^ 1) (2 ^ 63)). pose proof (Z.div_pos rid (2 ^ 1)). lia.
Qed.

(** C40: A key's allow lists reach the data planes as they were given exactly when
    every entry is non-empty and free of commas. *)
Theorem allow_list_roundtrip (t t' : ApiKeys) (new : NewKey) (bytes key : string) (rid created secs : Z) (row : KeyRow) :
  in_u 64 rid -> issue sha256 t new bytes rid created secs = Ok (row, key, t') ->
  exists k, t' !! kr_id row = Some k /\
    (ke_allowed_models (key_entry (kr_id row, k)) = nk_allowed_models new <-> Forall storable (nk_allowed_models new)) /\
    (ke_allowed_tools (key_entry (kr_id row, k)) = nk_allowed_tools new <-> Forall storable (nk_allowed_tools new)).
Proof.
  intros Hrid. unfold issue. cbv zeta. destruct (_ || _); [done|]. intros [= <- _ <-]. cbn [kr_id].
  rewrite issued_id by done.
  eexists. rewrite lookup_insert_eq. split; [done|]. simpl. split; apply split_models_join.
Qed.

(** An allow list with a blank entry is stored as no list at all: the key may
    use every model. *)
Theorem blank_entry_lifts_allow_list (t t' : ApiKeys) (new : NewKey) (bytes key : string) (rid created secs : Z) (row : KeyRow)
  (model : option string) :
  in_u 64 rid -> nk_allowed_models new = [EmptyString] -> issue sha256 t new bytes rid created secs = Ok (row, key, t') ->
  kr_allowed_models row = [EmptyString] /\
  exists k, t' !! kr_id row = Some k /\ check_access (key_info (key_entry (kr_id row, k))) (AccessModel model) = Ok tt.
Proof.
  intros Hrid Hblank. unfold issue. cbv zeta. destruct (_ || _); [done|]. intros [= <- _ <-]. cbn [kr_id kr_allowed_models].
  rewrite issued_id by done.
  split; [done|]. eexists. rewrite lookup_insert_eq. split; [done|]. simpl. by rewrite Hblank.
Qed.
Lemma watch_empty sn (w : Watcher (Key := Key)) :
  ks_keys (wt_set w) = ∅ -> wt_set (watch_message parse_set sn w) = from_snapshot parse_set sn.
Proof. intros Hw. unfold watch_message. by rewrite bool_decide_true, orb_true_r. Qed.

Lemma snapshot_single id k v now : in_snapshot now k = true -> sn_keys (snapshot {[id := k]} v now) = [key_entry (id, k)].
Proof. intros Hk. simpl. rewrite map_to_list_singleton. simpl. by rewrite Hk. Qed.

Lemma snapshot_single_out id k v now : in_snapshot now k = false -> sn_keys (snapshot {[id := k]} v now) = [].
Proof. intros Hk. simpl. rewrite map_to_list_singleton. simpl. by rewrite Hk. Qed.

(** Publications that overlap can undo a revocation.  The issuer refresh takes
    its snapshot, the last key is revoked and that snapshot published, and
    only then the earlier one is: nothing is left to publish, the key is
    revoked, and a data plane that heard all three messages accepts it,
    because an empty key set takes any version. *)
Theorem late_publication_revives_key (id micros now : Z) (k : ApiKey) (key : string) (fresh : list IssuerKeys) (h : Hd)
  (H0 : Type) (H1 : RequestHeaders H0) (headers : H0) :
  in_u 63 id -> ak_revoked_unix_micros k = None -> ak_expires_unix_secs k = None ->
  String.length (ak_hash k) = 32%nat -> ak_hash k = sha256 key -> presented_key headers = Some key ->
  admin_ok sha256 admin_token h = Ok tt -> fresh <> [] ->
  let s0 := Service_start {[id := k]} None now in
  let s1 := acts sha256 admin_token [AJwks fresh; ATake 0 now; ARevoke h id micros; ATake 1 now; ASend 1] s0 in
  let s2 := acts sha256 admin_token [ASend 0] s1 in
  let w := hear parse_set [(true, sv_watch s0); (false, sv_watch s1); (false, sv_watch s2)] Watcher_start in
  sv_publishing s2 = [] /\
  sv_keys s2 !! id = Some (set_revoked (as_i 64 micros) k) /\
  authorize sha256 (wt_set w) headers AccessOther now = Ok (key_info (key_entry (id, k))).
Proof.
  intros Hid Hr He Hlen Hsha Hp Hadm Hf s0 s1 s2 w.
  assert (Hlive : is_live k = true) by by apply bool_decide_eq_true.
  assert (Hin : in_snapshot now k = true) by (unfold in_snapshot; by rewrite Hlive, He).
  assert (Hout : in_snapshot now (set_revoked (as_i 64 micros) k) = false) by done.
  assert (Hi : as_i 64 id = id) by (apply as_i_small; unfold in_u in Hid; lia).
  assert (Hs1 : s1 = {| sv_keys := {[id := set_revoked (as_i 64 micros) k]}; sv_meta_version := Some 3; sv_jwks := fresh;
    sv_watch := {| sn_version := 3; sn_keys := []; sn_issuers := fresh |};
    sv_publishing := [ToSend {| sn_version := 2; sn_keys := [key_entry (id, k)]; sn_issuers := fresh |}] |}).
  { unfold s1, acts. cbn [fold_left act]. unfold jwks_tick. rewrite decide_False by done. unfold revoke_key. rewrite Hadm.
    unfold revoke. cbn -[as_u as_i snapshot]. rewrite Hi, lookup_singleton_eq, Hlive. cbn -[as_u as_i snapshot].
    rewrite insert_singleton_eq, snapshot_single, snapshot_single_out by done. done. }
  assert (Hs2 : s2 = {| sv_keys := {[id := set_revoked (as_i 64 micros) k]}; sv_meta_version := Some 3; sv_jwks := fresh;
    sv_watch := {| sn_version := 2; sn_keys := [key_entry (id, k)]; sn_issuers := fresh |}; sv_publishing := [] |}).
  { unfold s2. by rewrite Hs1. }
  rewrite Hs2. split; [done|]. split; [apply lookup_singleton_eq|].
  assert (Hw : wt_set w = from_snapshot parse_set {| sn_version := 2; sn_keys := [key_entry (id, k)]; sn_issuers := fresh |}).
  { unfold w. rewrite Hs1, Hs2. apply watch_empty. cbn [fst snd sv_watch].
    pose proof (hear_step parse_set (false, {| sn_version := 3; sn_keys := []; sn_issuers := fresh |})
      {| wt_set := from_snapshot parse_set (sv_watch s0); wt_first := false |} (sv_watch s0) eq_refl (or_introl eq_refl)) as E.
    cbn [fst snd] in E. cbn [watch_message watch_connect wt_first orb]. by rewrite E. }
  rewrite Hw. unfold authorize. rewrite Hp. cbn [ok_or]. unfold KeySet_lookup, from_snapshot. cbn [ks_keys sn_keys fold_left].
  unfold is_key_hash. cbn [key_entry ke_hash_sha256]. rewrite Hlen, Hsha. cbn [Nat.eqb]. rewrite lookup_insert_eq.
  unfold live_at, key_info. cbn [ki_expires_unix_secs ke_expires_unix_secs key_entry]. by rewrite He.
Qed.
End Theorems.

(** ** Samples *)

Module Sample.
(** Labels printed as nothing but their absence, which the samples do not go
    beyond. *)
#[export] Instance sample_labels : LabelsJson := {|
  labels_to_string l := if decide (l = ∅) then Some "{}" else None;
  labels_from_str s := if decide (s = "{}") then Some ∅ else None;
|}.
#[export] Existing Instance sample_http.

(** A stand-in for SHA-256 that is 32 bytes long. *)
Definition sample_sha (s : string) : string := stake 32 (s +:+ srepeat "." 32).

Lemma srepeat_length c n : String.length (srepeat c n) = n.
Proof. induction n as [|n IH]; simpl; congruence. Qed.

Lemma sample_sha_length s : String.length (sample_sha s) = 32%nat.
Proof. unfold sample_sha. rewrite stake_length, slength_app, srepeat_length. lia. Qed.

Definition token : option string := Some "secret".
Definition admin : HeaderMap := [("authorization", "Bearer secret")].

Definition new_key (models : list string) : NewKey :=
  {| nk_tenant := "team"; nk_name := "ci"; nk_allowed_models := models; nk_allowed_tools := [];
     nk_plaintext := Some "0123456789abcdef"; nk_expires_in_secs := Some 100; nk_token_limit := None;
     nk_call_limit := None; nk_labels := ∅ |}.

Definition history : list (Action (Hd := HeaderMap) * Z) := [(AIssue admin (new_key ["m1"; "m2"]) "r" 14 15000000 15, 15)].
Definition s0 : Service := Service_start ∅ None 10.
Definition s1 : Service := serve sample_sha token history s0.

Definition no_keys (s : string) : option (list (Jwk unit)) := None.

(** The issued key, revoked; then the same text is offered again. *)
Definition s2 : Service := acts sample_sha token [ARevoke admin 7 16000000] s1.
Definition again : list (Action (Hd := HeaderMap)) := [AIssue admin (new_key []) "r" 20 17000000 17; ATake 0 17].

Definition revoked_row : ApiKey :=
  match sv_keys s2 !! 7 with
  | Some k => k
  | None => {| ak_hash := EmptyString; ak_tenant := EmptyString; ak_name := EmptyString; ak_allowed_models := EmptyString;
               ak_allowed_tools := EmptyString; ak_external := false; ak_created_unix_micros := 0;
               ak_revoked_unix_micros := None; ak_expires_unix_secs := None; ak_token_limit := None;
               ak_call_limit := None; ak_labels := EmptyString |}
  end.

Lemma revocation_is_final_witness :
  sv_keys (acts sample_sha token again s2) !! 7 = Some revoked_row /\
  ak_hash revoked_row ∉ map ke_hash_sha256 (sn_keys (snapshot (sv_keys (acts sample_sha token again s2)) 4 18)).
Proof.
  destruct (revocation_is_final sample_sha token s2 7 revoked_row again 4 18) as (Hk & Hout & _).
  - apply (proj2 (acts_keys_step sample_sha token [ARevoke admin 7 16000000] s1)).
    apply (proj2 (acts_keys_step sample_sha token [AIssue admin (new_key ["m1"; "m2"]) "r" 14 15000000 15; ATake 0 15; ASend 0] s0)).
    apply table_ok_empty.
  - vm_compute. reflexivity.
  - discriminate.
  - split; [exact Hk|]. intros Hin. apply list_elem_of_fmap in Hin as (e & He & Hin). by apply (Hout e Hin).
Defined.

Definition issued (models : list string) : result (KeyRow * string * ApiKeys) SqlError :=
  issue sample_sha ∅ (new_key models) "r" 14 15000000 15.

Lemma allow_list_roundtrip_witness :
  exists k, default ∅ (match issued ["m1"; "m2"] with Ok (_, _, t) => Some t | Err _ => None end) !! 7 = Some k /\
    ke_allowed_models (key_entry (7, k)) = ["m1"; "m2"].
Proof.
  destruct (issued ["m1"; "m2"]) as [[[row key] t']|e] eqn:E; [|done].
  pose proof E as E'. injection E' as Hrow _ Ht. cbn [from_option].
  destruct (allow_list_roundtrip sample_sha ∅ t' (new_key ["m1"; "m2"]) "r" key 14 15000000 15 row) as (k & Hk & Hm & _).
  - unfold in_u. lia.
  - exact E.
  - exists k. rewrite <- Hrow in Hk, Hm. split; [exact Hk|]. apply Hm. repeat constructor; done.
Defined.

Lemma blank_entry_lifts_allow_list_witness :
  exists k, default ∅ (match issued [EmptyString] with Ok (_, _, t) => Some t | Err _ => None end) !! 7 = Some k /\
    check_access (key_info (key_entry (7, k))) (AccessModel (Some "any-model")) = Ok tt.
Proof.
  destruct (issued [EmptyString]) as [[[row key] t']|e] eqn:E; [|done].
  pose proof E as E'. injection E' as Hrow _ Ht. cbn [from_option].
  destruct (blank_entry_lifts_allow_list sample_sha ∅ t' (new_key [EmptyString]) "r" key 14 15000000 15 row (Some "any-model"))
    as (_ & k & Hk & Hm).
  - unfold in_u. lia.
  - reflexivity.
  - exact E.
  - exists k. rewrite <- Hrow in Hk, Hm. split; [exact Hk|exact Hm].
Defined.

Definition sample_row : ApiKey :=
  {| ak_hash := sample_sha "0123456789abcdef"; ak_tenant := "team"; ak_name := "ci"; ak_allowed_models := EmptyString;
     ak_allowed_tools := EmptyString; ak_external := true; ak_created_unix_micros := 1; ak_revoked_unix_micros := None;
     ak_expires_unix_secs := None; ak_token_limit := None; ak_call_limit := None; ak_labels := "{}" |}.

Definition issuer : IssuerKeys := {| ik_issuer := "https://idp"; ik_jwks_json := "{}" |}.

Lemma late_publication_revives_key_witness :
  exists s w, sv_keys s !! 7 = Some (set_revoked 16 sample_row) /\ sv_publishing s = [] /\
    authorize (H := HeaderMap) sample_sha (wt_set (hear no_keys w Watcher_start)) [("x-api-key", "0123456789abcdef")] AccessOther 20
    = Ok (key_info (key_entry (7, sample_row))).
Proof.
  assert (Hid : in_u 63 7) by (split; [discriminate|reflexivity]).
  pose proof (late_publication_revives_key sample_sha token no_keys 7 16 20 sample_row "0123456789abcdef" [issuer] admin
    HeaderMap _ [("x-api-key", "0123456789abcdef")] Hid eq_refl eq_refl eq_refl eq_refl eq_refl eq_refl ltac:(discriminate)) as H.
  cbv zeta in H. destruct H as (Hq & Hk & Ha).
  eexists _, _. split; [exact Hk|]. split; [exact Hq|exact Ha].
Defined.
End Sample.
