(* ===== verification/Ledger.v ===== *)
(** * The ledger's store: spend, events and usage rows

    [portus-ledger/src/budget.rs], [events.rs] and the parts of [store.rs] and
    [main.rs] that write or read them.  A SQLite table is a map from its
    primary key to the row; each SQL statement of the source is an update or a
    query of it, and an operation that fails inside a transaction leaves the
    tables as they were.  An [INTEGER] is an [i64]; where SQLite's addition
    leaves that range it yields a [REAL], which the code cannot read back as
    an integer, so the operation fails.  Clock readings are arguments. *)
From S2P Require Import Prelude Text Types Calendar Keys Budget Proto LedgerKeys.
From Stdlib Require Import String.
Open Scope Z_scope.

(** ** Windows *)

(** [civil_from_days], [days_from_civil] and [window_end] of budget.rs *)
Definition ledger_civil_from_days (z : Z) : Z * Z * Z :=
  let z := z + 719468 in
  let era := z / 146097 in
  let doe := z mod 146097 in
  let yoe := (doe - doe / 1460 + doe / 36524 - doe / 146096) / 365 in
  let y := yoe + era * 400 in
  let doy := doe - (365 * yoe + yoe / 4 - yoe / 100) in
  let mp := (5 * doy + 2) / 153 in
  let d := as_u 32 (doy - (153 * mp + 2) / 5 + 1) in
  let m := as_u 32 (if mp <? 10 then mp + 3 else mp - 9) in
  (if m <=? 2 then y + 1 else y, m, d).

Definition ledger_days_from_civil (y m d : Z) : Z :=
  let y := if m <=? 2 then y - 1 else y in
  let era := y / 400 in
  let yoe := y mod 400 in
  let mp := if m >? 2 then m - 3 else m + 9 in
  let doy := (153 * mp + 2) / 5 + d - 1 in
  let doe := yoe * 365 + yoe / 4 - yoe / 100 + doy in
  era * 146097 + doe - 719468.

Definition window_end (window : string) (now_micros : Z) : option Z :=
  let secs := now_micros / 1000000 in
  let window := to_ascii_uppercase window in
  if decide (window = "HOURLY") then Some (as_u 64 ((secs / 3600 + 1) * 3600 * 1000000))
  else if decide (window = "DAILY") then Some (as_u 64 ((secs / 86400 + 1) * 86400 * 1000000))
  else if decide (window = "MONTHLY") then
    let days := secs / 86400 in
    let '(y, m, _) := ledger_civil_from_days days in
    let '(ny, nm) := if m =? 12 then (y + 1, 1) else (y, m + 1) in
    Some (as_u 64 (as_u 64 (ledger_days_from_civil ny nm 1) * 86400 * 1000000))
  else None.

(** ** The tables *)

(** A row of [spend], under (policy, subject, window end) *)
Record SpendRow := {
  sr_spent : Z;
  sr_subject_limit : Z;
  sr_alerted : Z;
}.

(** A row of [policies] *)
Record PolicyRow := {
  po_limit_units : Z;
  po_unit : string;
  po_window : string;
  po_per : string;
  po_fail_open : bool;
  po_updated_unix_micros : Z;
}.

(** A row of [outbox] *)
Record OutboxRow := {
  ob_created_unix_micros : Z;
  ob_body : string;
  ob_attempts : Z;
  ob_next_attempt_unix_micros : Z;
}.

(** [UsageRecord] of ledger.proto *)
Record UsageRecord := {
  ur_ts_unix_micros : Z;
  ur_duration_micros : Z;
  ur_status : Z;
  ur_dialect : string;
  ur_stream : bool;
  ur_provider : string;
  ur_route_host : string;
  ur_requested_model : string;
  ur_served_model : string;
  ur_has_usage : bool;
  ur_input_tokens : Z;
  ur_output_tokens : Z;
  ur_cache_read_tokens : Z;
  ur_cache_creation_tokens : Z;
  ur_request_bytes : Z;
  ur_response_bytes : Z;
  ur_key_id : Z;
  ur_request_id : Z;
  ur_refusal : string;
  ur_tenant : string;
  ur_subject : string;
  ur_rule : string;
  ur_client_request_id : string;
  ur_first_byte_micros : Z;
  ur_on_behalf_of : string;
}.

(** The 64-bit columns of a record, mapped. *)
Definition map_wide (f : Z -> Z) (r : UsageRecord) : UsageRecord :=
  {| ur_ts_unix_micros := f (ur_ts_unix_micros r); ur_duration_micros := f (ur_duration_micros r);
     ur_status := ur_status r; ur_dialect := ur_dialect r; ur_stream := ur_stream r; ur_provider := ur_provider r;
     ur_route_host := ur_route_host r; ur_requested_model := ur_requested_model r;
     ur_served_model := ur_served_model r; ur_has_usage := ur_has_usage r;
     ur_input_tokens := ur_input_tokens r; ur_output_tokens := ur_output_tokens r;
     ur_cache_read_tokens := ur_cache_read_tokens r; ur_cache_creation_tokens := ur_cache_creation_tokens r;
     ur_request_bytes := f (ur_request_bytes r); ur_response_bytes := f (ur_response_bytes r);
     ur_key_id := f (ur_key_id r); ur_request_id := f (ur_request_id r); ur_refusal := ur_refusal r;
     ur_tenant := ur_tenant r; ur_subject := ur_subject r; ur_rule := ur_rule r;
     ur_client_request_id := ur_client_request_id r; ur_first_byte_micros := f (ur_first_byte_micros r);
     ur_on_behalf_of := ur_on_behalf_of r |}.

(** A row of [usage]: the node that reported the record, and the record with
    its columns as stored. *)
Record UsageRow := { uw_node : string; uw_record : UsageRecord }.

Record Db := {
  db_spend : gmap (string * string * Z) SpendRow;
  db_policies : gmap string PolicyRow;
  db_outbox : gmap Z OutboxRow;
  (** the largest id the outbox ever gave out (AUTOINCREMENT) *)
  db_outbox_seq : Z;
  db_usage : gmap Z UsageRow;
  db_api_keys : ApiKeys;
}.

Definition set_spend (x : gmap (string * string * Z) SpendRow) (db : Db) : Db :=
  {| db_spend := x; db_policies := db_policies db; db_outbox := db_outbox db; db_outbox_seq := db_outbox_seq db;
     db_usage := db_usage db; db_api_keys := db_api_keys db |}.
Definition set_policies (x : gmap string PolicyRow) (db : Db) : Db :=
  {| db_spend := db_spend db; db_policies := x; db_outbox := db_outbox db; db_outbox_seq := db_outbox_seq db;
     db_usage := db_usage db; db_api_keys := db_api_keys db |}.
Definition set_outbox (x : gmap Z OutboxRow) (seq : Z) (db : Db) : Db :=
  {| db_spend := db_spend db; db_policies := db_policies db; db_outbox := x; db_outbox_seq := seq;
     db_usage := db_usage db; db_api_keys := db_api_keys db |}.
Definition set_usage (x : gmap Z UsageRow) (db : Db) : Db :=
  {| db_spend := db_spend db; db_policies := db_policies db; db_outbox := db_outbox db;
     db_outbox_seq := db_outbox_seq db; db_usage := x; db_api_keys := db_api_keys db |}.

(** ** The budget authority *)

(** [Shape], [Crossing], [Synced], [Declared] *)
Record Shape := {
  sh_limit : Z;
  sh_unit : string;
  sh_per : string;
  sh_fail_open : bool;
  sh_subject_limit : Z;
}.

Record Crossing := { cr_threshold_pct : Z; cr_spent : Z; cr_limit : Z }.

Record Synced := {
  sy_spent_total : Z;
  sy_window_end_unix_micros : Z;
  sy_crossed : list Crossing;
}.

Record Declared := { de_policy : string; de_window : string; de_shape : Shape }.

Definition fits_i64 (x : Z) : bool := (- 2 ^ 63 <=? x) && (x <? 2 ^ 63).

(** [upsert_policy] *)
Definition upsert_policy (policy window : string) (s : Shape) (now_micros : Z) (db : Db) : Db :=
  set_policies (<[policy := {| po_limit_units := as_i 64 (sh_limit s); po_unit := sh_unit s;
                               po_window := to_ascii_uppercase window; po_per := sh_per s;
                               po_fail_open := sh_fail_open s;
                               po_updated_unix_micros := as_i 64 now_micros |}]> (db_policies db)) db.

Definition shape_listed (s : Shape) : bool := (sh_limit s >? 0) && negb (is_empty (sh_unit s)).

(** [declare] *)
Definition declare (policies : list Declared) (now_micros : Z) (db : Db) : nat * Db :=
  let listed := List.filter (fun d => shape_listed (de_shape d) && bool_decide (is_Some (window_end (de_window d) now_micros))) policies in
  (List.length listed,
   fold_left (fun db d => upsert_policy (de_policy d) (de_window d) (de_shape d) now_micros db) listed db).

(** The upsert of [sync_alerting]: the sum must stay an [i64] to be read back. *)
Definition add_spend (key : string * string * Z) (delta subject_limit : Z) (db : Db) : result Db SqlError :=
  match db_spend db !! key with
  | None => Ok (set_spend (<[key := {| sr_spent := delta; sr_subject_limit := subject_limit; sr_alerted := 0 |}]> (db_spend db)) db)
  | Some row =>
      let spent := sr_spent row + delta in
      if fits_i64 spent
      then Ok (set_spend (<[key := {| sr_spent := spent;
                                      sr_subject_limit := if subject_limit >? 0 then subject_limit else sr_subject_limit row;
                                      sr_alerted := sr_alerted row |}]> (db_spend db)) db)
      else Err OtherError
  end.

Definition set_alerted (key : string * string * Z) (pct : Z) (db : Db) : Db :=
  set_spend (alter (fun row => {| sr_spent := sr_spent row; sr_subject_limit := sr_subject_limit row; sr_alerted := pct |})
               key (db_spend db)) db.

(** The thresholds a total crosses for the first time. *)
Definition crossings (thresholds : list Z) (total limit alerted : Z) : list Crossing :=
  if (limit >? 0) && negb (bool_decide (thresholds = [])) then
    let pct := saturating_mul 64 total 100 / limit in
    map (fun t => {| cr_threshold_pct := t; cr_spent := total; cr_limit := limit |})
      (List.filter (fun t => (t >? alerted) && (pct >=? t)) thresholds)
  else [].

(** [sync_alerting] *)
Definition sync_alerting (policy subject window : string) (delta now_micros : Z) (shape : option Shape)
  (thresholds : list Z) (db : Db) : result (option Synced * Db) SqlError :=
  match window_end window now_micros with
  | None => Ok (None, db)
  | Some stop =>
      let subject_limit :=
        match shape with
        | None => 0
        | Some s => if sh_subject_limit s >? 0 then sh_subject_limit s else sh_limit s
        end in
      let key := (policy, subject, as_i 64 stop) in
      try! db := add_spend key (as_i 64 delta) (as_i 64 subject_limit) db in
      let db := match shape with
                | Some s => if shape_listed s then upsert_policy policy window s now_micros db else db
                | None => db
                end in
      try! row := ok_or (db_spend db !! key) OtherError in
      let total := as_u 64 (Z.max (sr_spent row) 0) in
      let limit := as_u 64 (Z.max (sr_subject_limit row) 0) in
      let alerted := as_u 32 (Z.max (sr_alerted row) 0) in
      let crossed := crossings thresholds total limit alerted in
      let db := match last crossed with
                | Some top => set_alerted key (cr_threshold_pct top) db
                | None => db
                end in
      Ok (Some {| sy_spent_total := total; sy_window_end_unix_micros := stop; sy_crossed := crossed |}, db)
  end.

(** [prune]: how many windows it dropped, and the tables *)
Definition prune (now_micros : Z) (db : Db) : nat * Db :=
  let kept := filter (fun kv => as_i 64 now_micros <= kv.1.2) (db_spend db) in
  ((size (db_spend db) - size kept)%nat, set_spend kept db).

(** [PolicyLimits], [SubjectSpend] and [limits] *)
Record SubjectSpend := { su_subject : string; su_limit : Z; su_spent : Z; su_remaining : Z }.

Record PolicyLimits := {
  pm_policy : string;
  pm_limit : Z;
  pm_unit : string;
  pm_window : string;
  pm_per : string;
  pm_fail_open : bool;
  pm_window_end_unix_micros : Z;
  pm_updated_unix_micros : Z;
  pm_subjects : list SubjectSpend;
}.

Definition POLICY_FRESH_MICROS : Z := 10 * 60 * 1000000.

(** The query for the subjects of a policy, [ORDER BY spent DESC, subject] *)
Definition biggest_first (a b : (string * string * Z) * SpendRow) : comparison :=
  then_with (Z.compare (sr_spent b.2) (sr_spent a.2)) (String.compare a.1.1.2 b.1.1.2).

Definition subjects_of (policy : string) (policy_limit stop : Z) (db : Db) : list SubjectSpend :=
  map (fun kv =>
         let spent := as_u 64 (sr_spent kv.2) in
         let stored := as_u 64 (sr_subject_limit kv.2) in
         let limit := if stored >? 0 then stored else policy_limit in
         {| su_subject := kv.1.1.2; su_limit := limit; su_spent := spent;
            su_remaining := as_i 64 (as_i 64 limit - as_i 64 spent) |})
    (sort_by biggest_first
      (List.filter (fun kv => bool_decide (kv.1.1.1 = policy) && (kv.1.2 =? as_i 64 stop)) (map_to_list (db_spend db)))).

Definition limits (now_micros : Z) (db : Db) : list PolicyLimits :=
  let fresh := List.filter (fun kv => as_i 64 (saturating_sub now_micros POLICY_FRESH_MICROS) <=? po_updated_unix_micros kv.2)
                 (map_to_list (db_policies db)) in
  omap (fun kv =>
          let '(policy, p) := kv in
          stop ← window_end (po_window p) now_micros;
          Some {| pm_policy := policy; pm_limit := as_u 64 (po_limit_units p); pm_unit := po_unit p;
                  pm_window := po_window p; pm_per := po_per p; pm_fail_open := po_fail_open p;
                  pm_window_end_unix_micros := stop; pm_updated_unix_micros := as_u 64 (po_updated_unix_micros p);
                  pm_subjects := subjects_of policy (as_u 64 (po_limit_units p)) stop db |})
    (sort_by (fun a b => String.compare a.1 b.1) fresh).

(** ** Events *)

Definition MAX_ATTEMPTS : Z := 20.

(** [EventConfig] and [EventConfig::parse] *)
Record EventConfig := { ec_thresholds : list Z; ec_refusals : list string }.

Inductive EventConfigError := NotAPercent (part : string) | OutOfRange (n : Z) | UnknownRefusal (part : string).

Fixpoint parse_thresholds (parts : list string) : result (list Z) EventConfigError :=
  match parts with
  | [] => Ok []
  | part :: parts =>
      match parse_u 32 part with
      | None => Err (NotAPercent part)
      | Some n =>
          if (n =? 0) || (n >? 1000) then Err (OutOfRange n)
          else try! rest := parse_thresholds parts in Ok (n :: rest)
      end
  end.

Definition known_refusals : list string :=
  ["unauthenticated"; "model_not_allowed"; "tool_not_allowed"; "budget_exhausted"].

Fixpoint parse_refusals (parts : list string) : result (list string) EventConfigError :=
  match parts with
  | [] => Ok []
  | part :: parts =>
      if bool_decide (part ∈ known_refusals) then try! rest := parse_refusals parts in Ok (part :: rest)
      else Err (UnknownRefusal part)
  end.

(** [sort_unstable] then [dedup] of integers *)
Fixpoint dedup_z (l : list Z) : list Z :=
  match l with
  | x :: (y :: _) as rest => if x =? y then dedup_z rest else x :: dedup_z rest
  | _ => l
  end.

Definition EventConfig_parse (thresholds refusals : string) : result EventConfig EventConfigError :=
  let parts s := List.filter (fun p => negb (is_empty p)) (map trim (split_char "," s)) in
  try! t := parse_thresholds (parts thresholds) in
  try! r := parse_refusals (List.filter (fun p => negb (bool_decide (p = "none"))) (parts refusals)) in
  Ok {| ec_thresholds := dedup_z (sort_by Z.compare t); ec_refusals := r |}.

(** [SubjectKey] and [subject_key] *)
Definition subject_key (subject : string) : option (Z * option string) :=
  let '(id, user) := match split_once ":" subject with
                     | Some (id, user) => (id, Some user)
                     | None => (subject, None)
                     end in
  key_id ← parse_u 64 id; Some (key_id, user).

Definition json_u (n : Z) : json := JNumber (show_u n) (Some n).

(** A label map as [json!] builds it *)
Definition labels_object (l : Labels) : json := JObject (map (fun kv => (kv.1, JString kv.2)) (labels_in_order l)).

(** [threshold_event] *)
Definition threshold_event (policy subject window : string) (stop : Z) (unit_ : string) (c : Crossing)
  (key : option (KeyRow * option string)) (now_micros : Z) : list (string * json) :=
  [("type", JString "budget.threshold"); ("ts_unix_micros", json_u now_micros); ("policy", JString policy);
   ("subject", JString subject); ("window", JString (to_ascii_uppercase window));
   ("window_end_unix_micros", json_u stop); ("unit", JString unit_); ("threshold_pct", json_u (cr_threshold_pct c));
   ("spent", json_u (cr_spent c)); ("limit", json_u (cr_limit c))] ++
  match key with
  | None => []
  | Some (k, user) =>
      [("key_id", json_u (kr_id k)); ("tenant", JString (kr_tenant k)); ("key_name", JString (kr_name k));
       ("key_labels", labels_object (kr_labels k))] ++
      match user with Some u => [("user", JString u)] | None => [] end
  end.

(** [{:016x}] of a request id *)
Fixpoint hex_fixed (n : nat) (x : Z) : string :=
  match n with O => EmptyString | S n => hex_fixed n (x / 16) +:+ String (hex_digit (x mod 16)) EmptyString end.

(** [refusal_event] *)
Definition refusal_event (r : UsageRecord) (labels : option Labels) : list (string * json) :=
  [("type", JString "refusal"); ("ts_unix_micros", json_u (ur_ts_unix_micros r)); ("refusal", JString (ur_refusal r));
   ("rule", JString (ur_rule r)); ("status", json_u (ur_status r)); ("key_id", json_u (ur_key_id r));
   ("tenant", JString (ur_tenant r)); ("subject", JString (ur_subject r));
   ("on_behalf_of", JString (ur_on_behalf_of r)); ("route_host", JString (ur_route_host r));
   ("provider", JString (ur_provider r)); ("dialect", JString (ur_dialect r));
   ("request_id", JString (hex_fixed 16 (ur_request_id r)));
   ("client_request_id", JString (ur_client_request_id r))] ++
  (if bool_decide (ur_dialect r = "mcp")
   then [("method", JString (ur_requested_model r)); ("tool", JString (ur_served_model r))]
   else [("model", JString (ur_requested_model r))]) ++
  match labels with
  | Some l => if decide (l = ∅) then [] else [("key_labels", labels_object l)]
  | None => []
  end.

(** [Pending] *)
Record Pending := { pe_id : Z; pe_body : string; pe_attempts : Z }.

(** [serde_json] on events. *)
Class EventJson := {
  event_to_string : list (string * json) -> string;
  event_from_str : string -> option json;
}.

Section Outbox.
Context `{EJ : EventJson}.

(** [enqueue] *)
Definition enqueue (event : list (string * json)) (now_micros : Z) (db : Db) : Z * Db :=
  let id := db_outbox_seq db + 1 in
  (id, set_outbox (<[id := {| ob_created_unix_micros := as_i 64 now_micros; ob_body := event_to_string event;
                              ob_attempts := 0; ob_next_attempt_unix_micros := as_i 64 now_micros |}]> (db_outbox db)) id db).

(** [with_id]: [insert] replaces a field of that name. *)
Definition with_id (body : string) (id : Z) : string :=
  match event_from_str body with
  | Some (JObject m) => event_to_string (List.filter (fun kv => negb (bool_decide (kv.1 = "id"))) m ++ [("id", json_u id)])
  | _ => body
  end.

(** [due]: [ORDER BY id LIMIT ?2] *)
Definition due (now_micros : Z) (limit : nat) (db : Db) : list Pending :=
  map (fun kv => {| pe_id := kv.1; pe_body := with_id (ob_body kv.2) kv.1; pe_attempts := as_u 32 (ob_attempts kv.2) |})
    (firstn limit (sort_by (fun a b => Z.compare a.1 b.1)
      (List.filter (fun kv => ob_next_attempt_unix_micros kv.2 <=? as_i 64 now_micros) (map_to_list (db_outbox db))))).

(** [delivered] *)
Definition delivered (id : Z) (db : Db) : Db := set_outbox (delete id (db_outbox db)) (db_outbox_seq db) db.

(** [backoff_secs] *)
Definition backoff_secs (attempts : Z) : Z := Z.min (2 ^ Z.min attempts 9) 300.

(** [failed]: whether the event was dropped, and the tables *)
Definition failed (id attempts now_micros : Z) (db : Db) : bool * Db :=
  let attempts := attempts + 1 in
  if attempts >=? MAX_ATTEMPTS then (true, set_outbox (delete id (db_outbox db)) (db_outbox_seq db) db)
  else
    let next := as_u 64 (now_micros + backoff_secs attempts * 1000000) in
    (false, set_outbox (alter (fun row => {| ob_created_unix_micros := ob_created_unix_micros row; ob_body := ob_body row;
                                             ob_attempts := attempts; ob_next_attempt_unix_micros := as_i 64 next |})
                          id (db_outbox db)) (db_outbox_seq db) db).

(** One round of [deliver_events], over the receiver's answers (a 2xx or not)
    and the clock at each failure: the ids sent, in order, and the tables. *)
Fixpoint deliver (events : list Pending) (answers : Z -> bool) (now_micros : Z) (db : Db) : list Z * Db :=
  match events with
  | [] => ([], db)
  | e :: events =>
      if answers (pe_id e)
      then let '(sent, db) := deliver events answers now_micros (delivered (pe_id e) db) in (pe_id e :: sent, db)
      else ([pe_id e], (failed (pe_id e) (pe_attempts e) now_micros db).2)
  end.

Definition deliver_round (answers : Z -> bool) (now now' : Z) (db : Db) : list Z * Db :=
  deliver (due now 100 db) answers now' db.
End Outbox.

(** ** The store *)

Section Store.
Context `{EJ : EventJson} `{LJ : LabelsJson} (events : option EventConfig).

(** [keys::labels_by_id] *)
Definition labels_by_id (t : ApiKeys) (id : Z) : option Labels :=
  match t !! as_i 64 id with
  | Some k => if bool_decide (ak_labels k = "{}") then None else Some (labels_from (ak_labels k))
  | None => None
  end.

Definition enqueue_all (evs : list (list (string * json))) (now_micros : Z) (db : Db) : Db :=
  fold_left (fun db e => (enqueue e now_micros db).2) evs db.

(** [Store::sync_spend]: the events of a crossing land with it. *)
Definition sync_spend (policy subject window : string) (delta now_micros : Z) (shape : option Shape) (db : Db)
  : result (option Synced) SqlError * Db :=
  let thresholds := match events with Some e => ec_thresholds e | None => [] end in
  match sync_alerting policy subject window delta now_micros shape thresholds db with
  | Err e => (Err e, db)
  | Ok (None, db') => (Ok None, db')
  | Ok (Some s, db') =>
      let who := subject_key subject in
      let key := match who with
                 | Some w => List.find (fun k => kr_id k =? w.1) (list_keys (db_api_keys db'))
                 | None => None
                 end in
      let unit_ := match shape with Some s => sh_unit s | None => EmptyString end in
      (Ok (Some s),
       enqueue_all (map (fun c => threshold_event policy subject window (sy_window_end_unix_micros s) unit_ c
                                    (k ← key; Some (k, w ← who; w.2)) now_micros) (sy_crossed s)) now_micros db')
  end.

(** The rowid SQLite gives a new row of [usage]. *)
Definition next_rowid (t : gmap Z UsageRow) : Z := foldr (fun kv m => Z.max kv.1 m) 0 (map_to_list t) + 1.

Definition insert_row (node : string) (t : gmap Z UsageRow) (r : UsageRecord) : gmap Z UsageRow :=
  <[next_rowid t := {| uw_node := node; uw_record := map_wide (as_i 64) r |}]> t.

(** [Store::insert_batch] *)
Definition insert_batch (node : string) (records : list UsageRecord) (db : Db) : nat * Db :=
  let db := set_usage (fold_left (insert_row node) records (db_usage db)) db in
  let refused :=
    match events with
    | Some cfg => List.filter (fun r => negb (is_empty (ur_refusal r)) && bool_decide (ur_refusal r ∈ ec_refusals cfg)) records
    | None => []
    end in
  let now := foldr (fun r m => Z.max (ur_ts_unix_micros r) m) 0 refused in
  (List.length records,
   enqueue_all (map (fun r => refusal_event r (labels_by_id (db_api_keys db) (ur_key_id r))) refused) now db).

(** [Row], [Store::export] *)
Record Row := { rw_id : Z; rw_node : string; rw_record : UsageRecord; rw_key_labels : Labels }.

Definition read_usage (t : ApiKeys) (kv : Z * UsageRow) : Row :=
  let record := map_wide (as_u 64) (uw_record kv.2) in
  {| rw_id := kv.1; rw_node := uw_node kv.2; rw_record := record;
     rw_key_labels := default ∅ (labels_by_id t (ur_key_id record)) |}.

Definition export (since : Z) (after_id : option Z) (limit : nat) (db : Db) : list Row :=
  let rows := map_to_list (db_usage db) in
  let chosen :=
    match after_id with
    | Some id => sort_by (fun a b => Z.compare a.1 b.1) (List.filter (fun kv => kv.1 >? id) rows)
    | None =>
        sort_by (fun a b => then_with (Z.compare (ur_ts_unix_micros (uw_record a.2)) (ur_ts_unix_micros (uw_record b.2)))
                              (Z.compare a.1 b.1))
          (List.filter (fun kv => as_i 64 since <=? ur_ts_unix_micros (uw_record kv.2)) rows)
    end in
  map (read_usage (db_api_keys db)) (firstn limit chosen).

(** The [export] handler: the page, and the cursor of the next one. *)
Definition export_page (since_us : Z) (after_id : option Z) (limit : option Z) (db : Db) : list Row * Z :=
  let limit := Z.to_nat (Z.min (Z.max (default 10000 limit) 1) 100000) in
  let after_id := (fun a => Z.max a 0) <$> after_id in
  let rows := export since_us after_id limit db in
  (rows, default 0 (match last (map rw_id rows) with Some id => Some id | None => after_id end)).
End Store.

(** ** Windows of the two sides *)

(** The ledger and the data planes agree on when a window ends. *)
Lemma windows_agree s now :
  match Window_parse s with
  | Some w => window_end s now = Some (end_of w now)
  | None => window_end s now = None
  end.
Proof.
  unfold Window_parse, window_end. repeat destruct (decide _); try reflexivity. unfold end_of, MICROS.
  change (ledger_civil_from_days (now / 1000000 / 86400)) with (civil_from_days (now / 1000000 / 86400)).
  destruct (civil_from_days _) as [[y m] d]. by destruct (m =? 12).
Qed.

Lemma window_end_after s now stop :
  0 <= now -> now + window_room < 2 ^ 63 -> window_end s now = Some stop -> now < stop < 2 ^ 63.
Proof.
  intros H0 Hroom Hend. pose proof (windows_agree s now) as Hw. destruct (Window_parse s) as [w|]; [|congruence].
  assert (end_of w now = stop) as <- by congruence. rewrite end_of_stop by lia.
  pose proof (window_contains w now). pose proof (window_stop_near w now). lia.
Qed.

(** ** Runs of the store *)

Inductive StoreOp :=
| OpSync (policy subject window : string) (delta now : Z) (shape : option Shape)
| OpDeclare (policies : list Declared) (now : Z)
| OpPrune (now : Z)
| OpWrite (node : string) (records : list UsageRecord) (now : Z)
| OpRound (answers : Z -> bool) (now : Z).

Definition op_clock (op : StoreOp) : Z :=
  match op with
  | OpSync _ _ _ _ now _ | OpDeclare _ now | OpPrune now | OpWrite _ _ now | OpRound _ now => now
  end.

(** The clock of the ledger does not go back. *)
Fixpoint in_time (clock : Z) (ops : list StoreOp) (now : Z) : Prop :=
  match ops with
  | [] => clock <= now
  | op :: ops => clock <= op_clock op /\ in_time (op_clock op) ops now
  end.

(** What a sync to the counter [key] reports as spent. *)
Definition charge (key : string * string * Z) (op : StoreOp) : option (Z * option Shape) :=
  match op with
  | OpSync policy subject window delta now shape =>
      if bool_decide (window_end window now = Some key.2) && bool_decide ((policy, subject) = key.1) then Some (delta, shape) else None
  | _ => None
  end.

Definition charged (key : string * string * Z) (ops : list StoreOp) : Z :=
  foldr (fun op acc => match charge key op with Some (delta, _) => delta | None => 0 end + acc) 0 ops.

(** The limit a shape holds its subject to. *)
Definition shape_limit (shape : option Shape) : Z :=
  match shape with
  | None => 0
  | Some s => if sh_subject_limit s >? 0 then sh_subject_limit s else sh_limit s
  end.

(** What a counter should show: the sum of what was reported, the last limit
    heard, and the highest percentage seen. *)
Record Meter := { mt_spent : Z; mt_limit : Z; mt_peak : Z }.

Definition meter_op (key : string * string * Z) (m : Meter) (op : StoreOp) : Meter :=
  match charge key op with
  | None => m
  | Some (delta, shape) =>
      let spent := mt_spent m + delta in
      let limit := if shape_limit shape >? 0 then shape_limit shape else mt_limit m in
      {| mt_spent := spent; mt_limit := limit;
         mt_peak := if limit >? 0 then Z.max (mt_peak m) (spent * 100 / limit) else mt_peak m |}
  end.

Definition meter (key : string * string * Z) (ops : list StoreOp) : Meter :=
  fold_left (meter_op key) ops {| mt_spent := 0; mt_limit := 0; mt_peak := 0 |}.

(** The numbers the data planes send are far from the limits of an [i64]. *)
Definition FAR : Z := 2 ^ 56.

Definition op_ok (op : StoreOp) : Prop :=
  0 <= op_clock op /\ op_clock op + window_room < 2 ^ 63 /\
  match op with
  | OpSync _ _ _ delta _ shape => 0 <= delta /\ 0 <= shape_limit shape < 2 ^ 63
  | _ => True
  end.

Definition spent_in (op : StoreOp) : Z := match op with OpSync _ _ _ delta _ _ => delta | _ => 0 end.
Definition spent_total (ops : list StoreOp) : Z := foldr (fun op acc => spent_in op + acc) 0 ops.

Lemma meter_spent key ops : mt_spent (meter key ops) = charged key ops.
Proof.
  unfold meter. set (m0 := {| mt_spent := 0; mt_limit := 0; mt_peak := 0 |}).
  enough (forall m, mt_spent (fold_left (meter_op key) ops m) = mt_spent m + charged key ops) as -> by done.
  induction ops as [|op ops IH]; intros m; cbn [fold_left charged foldr]; [lia|].
  rewrite IH. unfold meter_op. destruct (charge key op) as [[delta shape]|]; simpl; fold (charged key ops); lia.
Qed.

(** ** Sorted thresholds *)

Lemma filter_none {A} (f : A -> bool) l : Forall (fun x => f x = false) l -> List.filter f l = [].
Proof. induction 1 as [|x l Hx Hl IH]; simpl; [done|]. by rewrite Hx. Qed.

Lemma filter_ext_Forall {A} (f g : A -> bool) l : Forall (fun x => f x = g x) l -> List.filter f l = List.filter g l.
Proof. induction 1 as [|x l Hx Hl IH]; simpl; [done|]. by rewrite Hx, IH. Qed.

Lemma filter_upto_app l a b :
  StronglySorted Z.lt l ->
  List.filter (fun t => t <=? a) l ++ List.filter (fun t => (t >? a) && (b >=? t)) l = List.filter (fun t => t <=? Z.max a b) l.
Proof.
  induction 1 as [|x l Hl IH Hx]; [done|]. cbn [List.filter].
  destruct (Z.leb_spec x a) as [Hxa|Hxa].
  - replace (x >? a) with false by lia. replace (x <=? Z.max a b) with true by lia. simpl. by rewrite IH.
  - rewrite (filter_none (fun t => t <=? a) l).
    2: { eapply Forall_impl; [exact Hx|]. intros y Hy. simpl in *. lia. }
    simpl. replace (x >? a) with true by lia. rewrite Z.geb_leb. simpl.
    rewrite (filter_ext_Forall (fun t => t <=? Z.max a b) (fun t => (t >? a) && (b >=? t)) l).
    2: { eapply Forall_impl; [exact Hx|]. intros y Hy. simpl in *. lia. }
    destruct (Z.leb_spec x b); [replace (x <=? Z.max a b) with true by lia; done|].
    replace (x <=? Z.max a b) with false by lia. done.
Qed.

(** The threshold a counter remembers: the last one at or below its peak. *)
Definition alert_of (thresholds : list Z) (peak : Z) : Z := default 0 (last (List.filter (fun t => t <=? peak) thresholds)).

Lemma alert_of_spec thresholds peak :
  StronglySorted Z.lt thresholds -> Forall (fun t => 1 <= t <= 1000) thresholds ->
  0 <= alert_of thresholds peak <= 1000 /\
  Forall (fun t => (t >? alert_of thresholds peak) = (t >? peak)) thresholds.
Proof.
  intros Hs Hr. unfold alert_of. induction Hs as [|x l Hl IH Hx]; [simpl; split; [lia|constructor]|].
  apply Forall_cons in Hr as [Hxr Hr]. specialize (IH Hr) as [Hb IH]. cbn [List.filter].
  destruct (Z.leb_spec x peak) as [Hxp|Hxp].
  - rewrite last_cons. destruct (last (List.filter _ l)) as [top|] eqn:El; simpl in *.
    + split; [lia|]. constructor; [|done].
      apply last_Some_elem_of, list_elem_of_In, filter_In in El as [Htop _]. rewrite Forall_forall in Hx.
      apply list_elem_of_In, Hx in Htop. lia.
    + split; [lia|]. constructor; [lia|]. rewrite Forall_forall in *. intros t Ht. specialize (IH t Ht). specialize (Hx t Ht). lia.
  - rewrite filter_none; [simpl|].
    + split; [lia|]. constructor; [lia|]. rewrite Forall_forall in *. intros t Ht. specialize (Hx t Ht). specialize (Hr t Ht). lia.
    + eapply Forall_impl; [exact Hx|]. intros t Ht. simpl in *. lia.
Qed.

Lemma crossings_new ts total limit peak :
  StronglySorted Z.lt ts -> Forall (fun t => 1 <= t <= 1000) ts ->
  0 <= total < FAR -> 0 <= limit -> 0 <= peak ->
  let peak' := if limit >? 0 then Z.max peak (total * 100 / limit) else peak in
  crossings ts total limit (alert_of ts peak) =
  map (fun t => {| cr_threshold_pct := t; cr_spent := total; cr_limit := limit |})
    (List.filter (fun t => (t >? peak) && (peak' >=? t)) ts).
Proof.
  intros Hs Hr Ht Hl Hp peak'. destruct (alert_of_spec ts peak Hs Hr) as [_ Halert]. unfold crossings, FAR in *.
  destruct (limit >? 0) eqn:El; simpl.
  - destruct (decide (ts = [])) as [->|Hne]; [done|]. rewrite bool_decide_false by done. simpl. f_equal.
    apply filter_ext_Forall. rewrite Forall_forall in *. intros t Hin. rewrite (Halert t Hin).
    unfold saturating_mul. rewrite Z.min_l by lia. unfold peak'. destruct (t >? peak) eqn:E; [|done]. simpl. lia.
  - symmetry. rewrite filter_none; [done|]. apply Forall_forall. intros t _. unfold peak'. lia.
Qed.

Lemma alert_of_crossed ts total limit peak peak' :
  StronglySorted Z.lt ts -> peak <= peak' ->
  let crossed := map (fun t => {| cr_threshold_pct := t; cr_spent := total; cr_limit := limit |})
                   (List.filter (fun t => (t >? peak) && (peak' >=? t)) ts) in
  alert_of ts peak' = match last crossed with Some top => cr_threshold_pct top | None => alert_of ts peak end.
Proof.
  intros Hs Hle crossed. unfold alert_of at 1. pose proof (filter_upto_app ts peak peak' Hs) as Happ.
  rewrite Z.max_r in Happ by lia. rewrite <- Happ, last_app. unfold crossed. rewrite fmap_last.
  by destruct (last (List.filter (fun t => (t >? peak) && (peak' >=? t)) ts)).
Qed.

(** ** The counters are the meters *)

Section Run.
Context `{EJ : EventJson} `{LJ : LabelsJson} (events : option EventConfig).

Definition store_op (db : Db) (op : StoreOp) : Db :=
  match op with
  | OpSync policy subject window delta now shape => (sync_spend events policy subject window delta now shape db).2
  | OpDeclare policies now => (declare policies now db).2
  | OpPrune now => (prune now db).2
  | OpWrite node records _ => (insert_batch events node records db).2
  | OpRound answers now => (deliver_round answers now now db).2
  end.

Definition store_run (ops : list StoreOp) (db : Db) : Db := fold_left store_op ops db.

Definition thresholds : list Z := match events with Some e => ec_thresholds e | None => [] end.

Definition zero_row : SpendRow := {| sr_spent := 0; sr_subject_limit := 0; sr_alerted := 0 |}.
Definition row_of (m : Meter) : SpendRow :=
  {| sr_spent := mt_spent m; sr_subject_limit := mt_limit m; sr_alerted := alert_of thresholds (mt_peak m) |}.

Definition row_at (db : Db) (key : string * string * Z) : SpendRow := default zero_row (db_spend db !! key).

Lemma enqueue_all_spend evs now db : db_spend (enqueue_all evs now db) = db_spend db.
Proof. unfold enqueue_all. revert db. induction evs as [|e evs IH]; intros db; [done|]. cbn [fold_left]. by rewrite IH. Qed.

Lemma declare_spend policies now db : db_spend (declare policies now db).2 = db_spend db.
Proof.
  unfold declare. cbn [snd]. generalize (List.filter (fun d => shape_listed (de_shape d) &&
    bool_decide (is_Some (window_end (de_window d) now))) policies). intros l. revert db.
  induction l as [|d l IH]; intros db; [done|]. cbn [fold_left]. by rewrite IH.
Qed.

Lemma deliver_spend evs answers now db : db_spend (deliver evs answers now db).2 = db_spend db.
Proof.
  revert db. induction evs as [|e evs IH]; intros db; [done|]. cbn [deliver]. destruct (answers (pe_id e)).
  - specialize (IH (delivered (pe_id e) db)). destruct (deliver _ _ _ _) as [sent db']. simpl in *. by rewrite IH.
  - unfold failed. by destruct (_ >=? _).
Qed.

Lemma add_spend_row key delta limit db :
  0 <= delta -> 0 <= limit -> 0 <= sr_spent (row_at db key) -> sr_spent (row_at db key) + delta < 2 ^ 63 ->
  exists db', add_spend key delta limit db = Ok db' /\
    db_spend db' = <[key := {| sr_spent := sr_spent (row_at db key) + delta;
                              sr_subject_limit := if limit >? 0 then limit else sr_subject_limit (row_at db key);
                              sr_alerted := sr_alerted (row_at db key) |}]> (db_spend db).
Proof.
  intros Hd Hl Hs Hb. unfold add_spend, row_at in *. destruct (db_spend db !! key) as [row|]; simpl in *.
  - unfold fits_i64. replace (_ && _) with true by lia. eexists. split; [done|]. done.
  - eexists. split; [done|]. simpl. f_equal. f_equal. destruct (limit >? 0) eqn:E; lia.
Qed.

(** What a sync answers and writes, from the row it finds. *)
Lemma sync_alerting_row key window delta now shape db m m' :
  window_end window now = Some key.2 -> 0 <= now -> now + window_room < 2 ^ 63 ->
  StronglySorted Z.lt thresholds -> Forall (fun t => 1 <= t <= 1000) thresholds ->
  row_at db key = row_of m -> 0 <= mt_spent m -> 0 <= mt_limit m < 2 ^ 63 -> 0 <= mt_peak m ->
  0 <= delta -> mt_spent m + delta < FAR -> 0 <= shape_limit shape < 2 ^ 63 ->
  m' = meter_op key m (OpSync key.1.1 key.1.2 window delta now shape) ->
  exists db', sync_alerting key.1.1 key.1.2 window delta now shape thresholds db =
      Ok (Some {| sy_spent_total := mt_spent m'; sy_window_end_unix_micros := key.2;
                  sy_crossed := map (fun t => {| cr_threshold_pct := t; cr_spent := mt_spent m'; cr_limit := mt_limit m' |})
                                  (List.filter (fun t => (t >? mt_peak m) && (mt_peak m' >=? t)) thresholds) |}, db') /\
    db_spend db' = <[key := row_of m']> (db_spend db).
Proof.
  intros Hend H0 Hroom Hsort Hrange Hrow Hs Hl Hp Hd Hb Hsl ->. pose proof (window_end_after _ _ _ H0 Hroom Hend) as Hstop.
  unfold FAR in Hb. destruct key as [[policy subject] stop]. cbn [fst snd] in *.
  unfold sync_alerting. rewrite Hend. fold (shape_limit shape). rewrite !as_i_small by lia.
  destruct (add_spend_row (policy, subject, stop) delta (shape_limit shape) db) as (db1 & -> & Hdb1);
    [lia|lia|rewrite Hrow; simpl; lia|rewrite Hrow; simpl; lia|].
  rewrite Hrow in Hdb1. cbn [row_of sr_spent sr_subject_limit sr_alerted] in Hdb1.
  set (db2 := match shape with Some s => _ | None => _ end).
  assert (Hdb2 : db_spend db2 = db_spend db1) by (unfold db2; destruct shape as [s|]; [destruct (shape_listed s)|]; done).
  rewrite Hdb2, Hdb1, lookup_insert_eq. cbn [ok_or sr_spent sr_subject_limit sr_alerted].
  assert (Hm' : meter_op (policy, subject, stop) m (OpSync policy subject window delta now shape) =
    {| mt_spent := mt_spent m + delta; mt_limit := if shape_limit shape >? 0 then shape_limit shape else mt_limit m;
       mt_peak := if (if shape_limit shape >? 0 then shape_limit shape else mt_limit m) >? 0
                  then Z.max (mt_peak m) ((mt_spent m + delta) * 100 / (if shape_limit shape >? 0 then shape_limit shape else mt_limit m))
                  else mt_peak m |}).
  { unfold meter_op, charge. cbn [fst snd]. rewrite !bool_decide_true by done. done. }
  rewrite Hm'. clear Hm'. set (limit := if shape_limit shape >? 0 then shape_limit shape else mt_limit m).
  assert (Hlim : 0 <= limit < 2 ^ 63) by (unfold limit; destruct (_ >? _); lia).
  set (peak' := if limit >? 0 then _ else _). assert (Hpeak : mt_peak m <= peak') by (unfold peak'; destruct (limit >? 0); [apply Z.le_max_l|reflexivity]).
  destruct (alert_of_spec thresholds (mt_peak m) Hsort Hrange) as [Halert _].
  rewrite !Z.max_l, (as_u_small 32), !(as_u_small 64) by (unfold in_u; lia).
  rewrite (crossings_new thresholds _ limit (mt_peak m)) by (unfold FAR; done || lia).
  eexists. split; [done|]. unfold row_of. cbn [mt_spent mt_limit mt_peak].
  rewrite (alert_of_crossed thresholds (mt_spent m + delta) limit (mt_peak m) peak' Hsort Hpeak).
  destruct (last _) as [top|]; [|by rewrite Hdb2, Hdb1].
  unfold set_alerted. cbn [db_spend set_spend]. by rewrite Hdb2, Hdb1, alter_insert_eq.
Qed.
Record meter_ok (bound : Z) (m : Meter) : Prop := {
  meter_spent_ok : 0 <= mt_spent m <= bound;
  meter_limit_ok : 0 <= mt_limit m < 2 ^ 63;
  meter_peak_ok : 0 <= mt_peak m;
}.

Lemma meter_snoc key ops op : meter key (ops ++ [op]) = meter_op key (meter key ops) op.
Proof. unfold meter. by rewrite fold_left_app. Qed.

Lemma spent_total_snoc ops op : spent_total (ops ++ [op]) = spent_total ops + spent_in op.
Proof. unfold spent_total. rewrite foldr_app. cbn [foldr]. induction ops as [|o ops IH]; cbn [foldr]; lia. Qed.

Lemma meter_in_range key ops : Forall op_ok ops -> meter_ok (spent_total ops) (meter key ops).
Proof.
  induction ops as [|op ops IH] using rev_ind; [constructor; simpl; lia|].
  intros [Hops (Hc & _ & Hop)%Forall_singleton]%Forall_app. specialize (IH Hops) as [Hs Hl Hp].
  rewrite meter_snoc, spent_total_snoc. unfold meter_op, charge.
  destruct op as [p s w d now sh| | | |]; try (constructor; simpl; lia). simpl in Hop.
  destruct (_ && _); [|constructor; simpl; lia].
  set (limit := if shape_limit sh >? 0 then shape_limit sh else mt_limit _).
  assert (0 <= limit < 2 ^ 63) by (unfold limit; destruct (_ >? _); lia).
  constructor; cbn [mt_spent mt_limit mt_peak spent_in]; [lia|done|]. destruct (limit >? 0); [|done].
  etransitivity; [exact Hp|apply Z.le_max_l].
Qed.

(** The counters of the windows still open show their meters. *)
Definition run_ok (history : list StoreOp) (clock : Z) (db : Db) : Prop :=
  Forall op_ok history /\ forall key, clock < key.2 -> row_at db key = row_of (meter key history).

Context (sorted : StronglySorted Z.lt thresholds) (ranged : Forall (fun t => 1 <= t <= 1000) thresholds).

(** A sync to a counter, and the counters around it. *)
Lemma sync_spend_row history clock db policy subject window delta now shape stop :
  let op := OpSync policy subject window delta now shape in
  let key := (policy, subject, stop) in
  run_ok history clock db -> op_ok op -> clock <= now -> spent_total history + delta < FAR ->
  window_end window now = Some stop ->
  exists db', sync_spend events policy subject window delta now shape db =
      (Ok (Some {| sy_spent_total := mt_spent (meter key (history ++ [op])); sy_window_end_unix_micros := stop;
                   sy_crossed := map (fun t => {| cr_threshold_pct := t; cr_spent := mt_spent (meter key (history ++ [op]));
                                                  cr_limit := mt_limit (meter key (history ++ [op])) |})
                     (List.filter (fun t => (t >? mt_peak (meter key history)) && (mt_peak (meter key (history ++ [op])) >=? t))
                        thresholds) |}), db') /\
    db_spend db' = <[key := row_of (meter key (history ++ [op]))]> (db_spend db).
Proof.
  intros op key [Hh Hrows] (Hc0 & Hroom & Hd & Hsl) Hc Hb Hend. cbn [op_clock op] in *.
  pose proof (window_end_after _ _ _ Hc0 Hroom Hend) as Hstop.
  destruct (meter_in_range key history Hh) as [Hs Hl Hp].
  destruct (sync_alerting_row key window delta now shape db (meter key history) _ Hend Hc0 Hroom sorted ranged
    (Hrows key ltac:(simpl; lia)) ltac:(lia) Hl Hp Hd ltac:(lia) Hsl eq_refl) as (db' & Hsync & Hdb').
  unfold sync_spend. fold thresholds. cbn [key fst snd] in Hsync. rewrite Hsync. cbv zeta. rewrite meter_snoc. fold op. fold key.
  eexists. split; [reflexivity|]. by rewrite enqueue_all_spend.
Qed.

Lemma meter_other key history policy subject window delta now shape :
  (policy, subject) <> key.1 \/ window_end window now <> Some key.2 ->
  meter key (history ++ [OpSync policy subject window delta now shape]) = meter key history.
Proof.
  intros Hne. rewrite meter_snoc. unfold meter_op, charge.
  destruct (bool_decide_reflect (window_end window now = Some key.2)), (bool_decide_reflect ((policy, subject) = key.1)); simpl; tauto.
Qed.

Lemma run_ok_step history clock db op :
  run_ok history clock db -> op_ok op -> clock <= op_clock op -> spent_total history + spent_in op < FAR ->
  run_ok (history ++ [op]) (op_clock op) (store_op db op).
Proof.
  intros Hrun Hop Hc Hb. pose proof Hrun as [Hh Hrows]. split; [by apply Forall_app; split; [|apply Forall_singleton]|].
  intros key Hkey. assert (Hold : row_at db key = row_of (meter key history)) by (apply Hrows; lia).
  destruct op as [policy subject window delta now shape|policies now|now|node records now|answers now]; cbn [store_op op_clock] in *.
  - destruct (window_end window now) as [stop|] eqn:Hend.
    + destruct (sync_spend_row history clock db policy subject window delta now shape stop Hrun Hop Hc Hb Hend) as (db' & -> & Hdb').
      unfold row_at. cbn [snd]. rewrite Hdb'. destruct (decide ((policy, subject, stop) = key)) as [<-|Hne].
      * by rewrite lookup_insert_eq.
      * rewrite lookup_insert_ne by done. fold (row_at db key). rewrite meter_other; [done|]. rewrite Hend.
        destruct key as [ps st]. simpl in *. destruct (decide ((policy, subject) = ps)) as [<-|]; [right|by left]. congruence.
    + rewrite meter_other by (right; by rewrite Hend). unfold sync_spend, sync_alerting. rewrite Hend. done.
  - rewrite meter_snoc. unfold row_at. by rewrite declare_spend.
  - rewrite meter_snoc. unfold row_at, prune. cbn [snd db_spend set_spend]. destruct Hop as (H0 & Hroom & _). simpl in *.
    assert (now < 2 ^ 63) by (unfold window_room, DAY, MICROS in Hroom; lia).
    rewrite as_i_small by lia. cbn [meter_op charge]. rewrite <- Hold. unfold row_at. f_equal.
    destruct (db_spend db !! key) as [row|] eqn:E; [apply map_lookup_filter_Some; split; [done|simpl; lia]|].
    apply map_lookup_filter_None. by left.
  - rewrite meter_snoc. unfold row_at, insert_batch. cbn [snd]. by rewrite enqueue_all_spend.
  - rewrite meter_snoc. unfold row_at, deliver_round. by rewrite deliver_spend.
Qed.

Lemma spent_total_app l k : spent_total (l ++ k) = spent_total l + spent_total k.
Proof. induction l as [|op l IH]; simpl; [done|]. fold (spent_total (l ++ k)). fold (spent_total l). lia. Qed.

Lemma spent_total_nonneg ops : Forall op_ok ops -> 0 <= spent_total ops.
Proof.
  induction 1 as [|op ops (_ & _ & Hop) Hops IH]; simpl; [lia|]. fold (spent_total ops). destruct op; simpl in *; lia.
Qed.

Lemma run_ok_run ops : forall history clock db now,
  run_ok history clock db -> Forall op_ok ops -> in_time clock ops now -> spent_total (history ++ ops) < FAR ->
  exists clock', clock' <= now /\ run_ok (history ++ ops) clock' (store_run ops db).
Proof.
  induction ops as [|op ops IH]; intros history clock db now Hrun Hops Ht Hb.
  - rewrite app_nil_r. by exists clock.
  - apply Forall_cons in Hops as [Hop Hops]. destruct Ht as [Hc Ht].
    pose proof (spent_total_nonneg ops Hops). rewrite spent_total_app in Hb. cbn [spent_total foldr] in Hb. fold (spent_total ops) in Hb.
    replace (history ++ op :: ops) with ((history ++ [op]) ++ ops) by by rewrite <- app_assoc.
    apply (IH (history ++ [op]) (op_clock op) (store_op db op) now);
      [apply (run_ok_step history clock); [done|done|done|lia]|done|done|].
    rewrite !spent_total_app. simpl. lia.
Qed.
End Run.

(** ** The configured thresholds *)

Lemma parse_digits_nonneg max s : forall acc n, 0 <= acc -> parse_digits max acc s = Some n -> 0 <= n.
Proof.
  induction s as [|c s IH]; intros acc n Hacc; cbn [parse_digits]; [intros [= <-]; done|].
  unfold digit_val. destruct (is_ascii_digit c) eqn:Ed; [|done]. destruct (_ <=? _); [|done]. apply IH.
  unfold is_ascii_digit, in_byte_range in Ed. lia.
Qed.

Lemma parse_u_nonneg w s n : parse_u w s = Some n -> 0 <= n.
Proof. unfold parse_u. destruct (is_empty _); [done|]. by apply parse_digits_nonneg. Qed.

Lemma parse_thresholds_range parts ts : parse_thresholds parts = Ok ts -> Forall (fun t => 1 <= t <= 1000) ts.
Proof.
  revert ts. induction parts as [|part parts IH]; intros ts; cbn [parse_thresholds]; [intros [= <-]; constructor|].
  destruct (parse_u 32 part) as [n|] eqn:En; [|done]. destruct (_ || _) eqn:Er; [done|].
  destruct (parse_thresholds parts) as [rest|]; [|done]. intros [= <-]. constructor; [|by apply IH].
  pose proof (parse_u_nonneg _ _ _ En). lia.
Qed.

Lemma dedup_z_sorted l : StronglySorted Z.le l -> StronglySorted Z.lt (dedup_z l) /\ forall x, x ∈ dedup_z l <-> x ∈ l.
Proof.
  induction 1 as [|x l Hl [IHs IHe] Hx]; [split; [constructor|done]|].
  destruct l as [|y l]; [split; [by repeat constructor|done]|]. cbn [dedup_z]. destruct (Z.eqb_spec x y) as [->|Hne].
  - split; [done|]. intros z. rewrite IHe. set_solver.
  - split; [|intros z; rewrite !elem_of_cons, IHe, elem_of_cons; tauto]. constructor; [done|].
    apply Forall_forall. intros z Hz. apply IHe, elem_of_cons in Hz. apply Forall_cons in Hx as [Hxy _].
    inversion_clear Hl as [|? ? _ Hy]. rewrite Forall_forall in Hy. destruct Hz as [->|Hz]; [lia|]. specialize (Hy z Hz). lia.
Qed.

Lemma sorted_impl {A} (R S : relation A) l : (forall x y, R x y -> S x y) -> StronglySorted R l -> StronglySorted S l.
Proof. intros Hi. induction 1 as [|x l Hl IH Hx]; constructor; [done|]. by eapply Forall_impl; [exact Hx|]; auto. Qed.

Lemma sort_z l : StronglySorted Z.le (sort_by Z.compare l).
Proof.
  assert (Hna : forall x y, not_after Z.compare x y = (x <=? y)).
  { intros x y. unfold not_after, Z.leb. by destruct (x ?= y). }
  eapply (sorted_impl (fun a b => not_after Z.compare a b = true)); [intros x y; rewrite Hna; lia|].
  apply sort_by_sorted.
  - intros x y. rewrite (Hna x y), (Hna y x). lia.
  - intros x y z. rewrite (Hna x y), (Hna y z), (Hna x z). lia.
Qed.

(** What [parse] accepts: ascending, each percentage once, 1 to 1000. *)
Definition config_ok (events : option EventConfig) : Prop :=
  match events with Some cfg => exists ts rs, EventConfig_parse ts rs = Ok cfg | None => True end.

Lemma config_thresholds events :
  config_ok events ->
  StronglySorted Z.lt (thresholds events) /\ Forall (fun t => 1 <= t <= 1000) (thresholds events).
Proof.
  destruct events as [cfg|]; [|by repeat constructor]. intros (ts & rs & Hparse). unfold EventConfig_parse in Hparse. cbv zeta in Hparse.
  destruct (parse_thresholds _) as [t|] eqn:Et; [|done]. destruct (parse_refusals _); [|done]. simplify_eq. simpl.
  destruct (dedup_z_sorted _ (sort_z t)) as [Hs He]. split; [done|]. apply parse_thresholds_range in Et.
  rewrite Forall_forall in *. intros x Hx. apply Et. apply He in Hx. by rewrite sort_by_perm in Hx.
Qed.

(** ** Theorems on spend *)

Section Spend.
Context `{EJ : EventJson} `{LJ : LabelsJson} (events : option EventConfig).

Lemma run_ok_start db : config_ok events -> db_spend db = ∅ -> run_ok events [] 0 db.
Proof.
  intros Hcfg Hdb. destruct (config_thresholds events Hcfg) as [_ Hr]. split; [done|]. intros key _. unfold row_at. rewrite Hdb, lookup_empty.
  unfold row_of, alert_of. simpl. rewrite filter_none; [done|]. eapply Forall_impl; [exact Hr|]. intros t Ht. simpl in *. lia.
Qed.

(** The total the ledger answers a sync with is everything reported for that
    policy and subject in the window, by whichever pods, with this report
    included: no sweep of closed windows, declaration, delivery of events or
    usage batch in between changes it. *)
Theorem spend_totals_exact (ops : list StoreOp) (policy subject window : string) (delta now stop : Z)
  (shape : option Shape) (db : Db) :
  config_ok events -> db_spend db = ∅ -> Forall op_ok ops -> op_ok (OpSync policy subject window delta now shape) ->
  in_time 0 ops now -> spent_total ops + delta < FAR -> window_end window now = Some stop ->
  exists synced, (sync_spend events policy subject window delta now shape (store_run events ops db)).1 = Ok (Some synced) /\
    sy_spent_total synced = charged (policy, subject, stop) ops + delta /\ sy_window_end_unix_micros synced = stop.
Proof.
  intros Hcfg Hdb Hops Hop Ht Hb Hend. destruct (config_thresholds events Hcfg) as [Hs Hr].
  assert (0 <= delta) by apply Hop.
  destruct (run_ok_run events Hs Hr ops [] 0 db now) as (clock & Hclock & Hrun); [by apply run_ok_start|done|done|simpl; lia|].
  destruct (sync_spend_row events Hs Hr ops clock _ policy subject window delta now shape stop Hrun Hop Hclock Hb Hend)
    as (db' & Hsync & _).
  rewrite Hsync. eexists. split; [done|]. split; [|done]. cbn [sy_spent_total].
  rewrite meter_snoc. unfold meter_op, charge. cbn [fst snd]. rewrite !bool_decide_true by done. cbn [mt_spent].
  by rewrite meter_spent.
Qed.

(** The thresholds reported to the webhook for a counter, by an operation and
    along a run. *)
Definition report_op (key : string * string * Z) (op : StoreOp) (db : Db) : list Z :=
  match op with
  | OpSync policy subject window delta now shape =>
      match charge key op, (sync_spend events policy subject window delta now shape db).1 with
      | Some _, Ok (Some s) => map cr_threshold_pct (sy_crossed s)
      | _, _ => []
      end
  | _ => []
  end.

Fixpoint reported (key : string * string * Z) (ops : list StoreOp) (db : Db) : list Z :=
  match ops with
  | [] => []
  | op :: ops => report_op key op db ++ reported key ops (store_op events db op)
  end.

Lemma peak_grows key history op : mt_peak (meter key history) <= mt_peak (meter key (history ++ [op])).
Proof.
  rewrite meter_snoc. unfold meter_op. destruct (charge key op) as [[d sh]|]; [|done]. cbn [mt_peak].
  destruct (_ >? 0); [apply Z.le_max_l|done].
Qed.

Lemma report_op_new key op history clock db :
  config_ok events -> run_ok events history clock db -> op_ok op -> clock <= op_clock op ->
  spent_total history + spent_in op < FAR ->
  report_op key op db =
  List.filter (fun t => (t >? mt_peak (meter key history)) && (mt_peak (meter key (history ++ [op])) >=? t)) (thresholds events).
Proof.
  intros Hcfg Hrun Hop Hc Hb. destruct (config_thresholds events Hcfg) as [Hs Hr].
  destruct (charge key op) as [x|] eqn:Ech.
  - destruct op as [policy subject window delta now shape| | | |]; try done. cbn [report_op]. rewrite Ech.
    cbn [charge] in Ech. destruct (bool_decide_reflect (window_end window now = Some key.2)) as [Hend|]; [|done].
    destruct (bool_decide_reflect ((policy, subject) = key.1)) as [Hkey|]; [|done].
    destruct key as [ps stop]. cbn [fst snd] in Hkey, Hend. subst ps.
    destruct (sync_spend_row events Hs Hr history clock db policy subject window delta now shape stop Hrun Hop Hc Hb Hend)
      as (db' & -> & _). cbn [fst sy_crossed]. rewrite map_map. apply map_id.
  - rewrite meter_snoc. unfold meter_op. rewrite Ech. rewrite filter_none.
    + destruct op; try done. cbn [report_op]. by rewrite Ech.
    + apply Forall_forall. intros t _. lia.
Qed.

Lemma reported_upto key ops : forall history clock db now,
  config_ok events -> run_ok events history clock db -> Forall op_ok ops -> in_time clock ops now -> now < key.2 ->
  spent_total history + spent_total ops < FAR ->
  List.filter (fun t => t <=? mt_peak (meter key history)) (thresholds events) ++ reported key ops db =
  List.filter (fun t => t <=? mt_peak (meter key (history ++ ops))) (thresholds events).
Proof.
  induction ops as [|op ops IH]; intros history clock db now Hcfg Hrun Hops Ht Hk Hb.
  - by rewrite !app_nil_r.
  - destruct (config_thresholds events Hcfg) as [Hs Hr].
    apply Forall_cons in Hops as [Hop Hops]. destruct Ht as [Hc Ht].
    pose proof (spent_total_nonneg ops Hops). cbn [spent_total foldr] in Hb. fold (spent_total ops) in Hb.
    pose proof (run_ok_step events Hs Hr history clock db op Hrun Hop Hc ltac:(lia)) as Hrun'.
    replace (history ++ op :: ops) with ((history ++ [op]) ++ ops) by by rewrite <- app_assoc.
    rewrite <- (IH (history ++ [op]) (op_clock op) (store_op events db op) now); [|done..|rewrite spent_total_snoc; lia].
    cbn [reported]. rewrite app_assoc. f_equal.
    rewrite <- (Z.max_r (mt_peak (meter key history)) (mt_peak (meter key (history ++ [op])))) by apply peak_grows.
    rewrite <- filter_upto_app by done. f_equal. apply (report_op_new key op history clock); [done..|lia].
Qed.

(** C26: Alerts fire exactly once.  Along any run within a window, the thresholds
    reported for a counter are, in order and each once, those of the
    configuration that its share of the limit ever reached, however many pods
    sync and whatever happens in between. *)
Theorem thresholds_reported_once (key : string * string * Z) (ops : list StoreOp) (now : Z) (db : Db) :
  config_ok events -> db_spend db = ∅ -> Forall op_ok ops -> in_time 0 ops now -> now < key.2 -> spent_total ops < FAR ->
  reported key ops db = List.filter (fun t => t <=? mt_peak (meter key ops)) (thresholds events).
Proof.
  intros Hcfg Hdb Hops Ht Hk Hb.
  pose proof (reported_upto key ops [] 0 db now Hcfg (run_ok_start db Hcfg Hdb) Hops Ht Hk Hb) as H.
  cbn [app] in H. rewrite <- H. rewrite filter_none; [done|].
  destruct (config_thresholds events Hcfg) as [_ Hr]. eapply Forall_impl; [exact Hr|]. intros t Hrt. simpl in *. lia.
Qed.
End Spend.

(** ** The outbox *)

Section Mail.
Context `{EJ : EventJson} `{LJ : LabelsJson} (events : option EventConfig).

(** [db'] has the event [id] as [db] has it, and gives out later ids. *)
Definition same_mail (id : Z) (db db' : Db) : Prop :=
  db_outbox db' !! id = db_outbox db !! id /\ db_outbox_seq db <= db_outbox_seq db'.

Lemma enqueue_all_mail id evs now db : id <= db_outbox_seq db -> same_mail id db (enqueue_all evs now db).
Proof.
  revert db. induction evs as [|e evs IH]; intros db Hid; [split; [done|reflexivity]|].
  change (enqueue_all (e :: evs) now db) with (enqueue_all evs now (enqueue e now db).2). set (db1 := (enqueue e now db).2).
  assert (Hm : same_mail id db db1).
  { split; [|simpl; lia]. unfold db1, enqueue. cbn [snd db_outbox set_outbox]. rewrite lookup_insert_ne by lia. done. }
  destruct Hm as [Hm1 Hm2]. destruct (IH db1) as [Hd1 Hd2]; [lia|]. split; [by rewrite Hd1|lia].
Qed.

Lemma sync_alerting_mail policy subject window delta now shape ts db r db' :
  sync_alerting policy subject window delta now shape ts db = Ok (r, db') ->
  db_outbox db' = db_outbox db /\ db_outbox_seq db' = db_outbox_seq db.
Proof.
  unfold sync_alerting. destruct (window_end window now) as [stop|]; [|by intros [= _ <-]]. cbv zeta. unfold add_spend.
  destruct (db_spend db !! _) as [row|].
  - destruct (fits_i64 _); [|done]. destruct (db_spend _ !! _); [|done]. cbn [ok_or]. intros [= _ <-].
    destruct (last _) as [top|]; destruct shape as [shp|]; try destruct (shape_listed shp); done.
  - destruct (db_spend _ !! _); [|done]. cbn [ok_or]. intros [= _ <-].
    destruct (last _) as [top|]; destruct shape as [shp|]; try destruct (shape_listed shp); done.
Qed.

Lemma declare_mail policies now db :
  db_outbox (declare policies now db).2 = db_outbox db /\ db_outbox_seq (declare policies now db).2 = db_outbox_seq db.
Proof.
  unfold declare. cbn [snd]. generalize (List.filter (fun d => shape_listed (de_shape d) &&
    bool_decide (is_Some (window_end (de_window d) now))) policies). intros l. revert db.
  induction l as [|d l IH]; intros db; [done|]. cbn [fold_left]. destruct (IH (upsert_policy (de_policy d) (de_window d) (de_shape d) now db)) as [-> ->]. done.
Qed.

(** Only a delivery round touches an event that is in the outbox. *)
Lemma op_mail id op db :
  id <= db_outbox_seq db -> match op with OpRound _ _ => True | _ => same_mail id db (store_op events db op) end.
Proof.
  intros Hid. destruct op as [policy subject window delta now shape|policies now|now|node records now|answers now]; [..|done]; cbn [store_op].
  - unfold sync_spend. destruct (sync_alerting _ _ _ _ _ _ _ _) as [[[s|] db']|e] eqn:E; cbn [snd]; [..|split; [done|reflexivity]].
    + apply sync_alerting_mail in E as [E1 E2].
      match goal with |- same_mail id db (enqueue_all ?evs now db') => destruct (enqueue_all_mail id evs now db') as [H1 H2] end; [lia|].
      split; [congruence|lia].
    + apply sync_alerting_mail in E as [E1 E2]. split; [congruence|lia].
  - destruct (declare_mail policies now db) as [E1 E2]. split; [by rewrite E1|by rewrite E2].
  - split; [done|reflexivity].
  - unfold insert_batch. cbn [snd].
    match goal with |- same_mail id db (enqueue_all ?evs ?n ?d) => destruct (enqueue_all_mail id evs n d) as [H1 H2]; [done|] end.
    split; [done|done].
Qed.

(** What a round sends for an event, and what becomes of it. *)
Lemma deliver_mail id evs answers now db :
  NoDup (map pe_id evs) ->
  let '(sent, db') := deliver evs answers now db in
  db_outbox_seq db' = db_outbox_seq db /\
  (((id ∉ sent) /\ db_outbox db' !! id = db_outbox db !! id) \/
   (exists e, e ∈ evs /\ pe_id e = id /\ id ∈ sent /\
     db_outbox db' !! id = (if answers id then None else db_outbox (failed id (pe_attempts e) now db).2 !! id))).
Proof.
  revert db. induction evs as [|e evs IH]; intros db Hnd; cbn [deliver].
  - split; [done|]. left. split; [apply not_elem_of_nil|done].
  - cbn [map] in Hnd. apply NoDup_cons in Hnd as [Hnew Hnd]. destruct (answers (pe_id e)) eqn:Ea.
    + specialize (IH (delivered (pe_id e) db) Hnd). destruct (deliver evs answers now _) as [sent db'].
      destruct IH as [Hseq IH]. split; [by rewrite Hseq|]. destruct (decide (pe_id e = id)) as [<-|Hne].
      * right. exists e. split_and!; [by left|done|by left|]. rewrite Ea. destruct IH as [[_ IH]|(e' & He' & Hid & _)].
        -- rewrite IH. simpl. apply lookup_delete_eq.
        -- destruct Hnew. rewrite <- Hid. by apply list_elem_of_fmap_2.
      * assert (Hsame : db_outbox (delivered (pe_id e) db) !! id = db_outbox db !! id) by (simpl; by rewrite lookup_delete_ne).
        destruct IH as [[Hout IH]|(e' & He' & Hid & Hin & IH)].
        -- left. split; [by apply not_elem_of_cons|]. congruence.
        -- right. exists e'. split_and!; [by right|done|by right|]. rewrite IH. destruct (answers id); [done|].
           unfold failed. destruct (_ >=? _); simpl; [by rewrite !lookup_delete_eq|].
           rewrite !lookup_alter_eq. by rewrite lookup_delete_ne.
    + assert (Hs : db_outbox_seq (failed (pe_id e) (pe_attempts e) now db).2 = db_outbox_seq db)
        by (unfold failed; by destruct (_ >=? _)).
      split; [done|]. destruct (decide (pe_id e = id)) as [<-|Hne].
      * right. exists e. split_and!; [by left|done|by left|]. by rewrite Ea.
      * left. split; [by apply not_elem_of_cons; split; [|apply not_elem_of_nil]|].
        unfold failed. destruct (_ >=? _); simpl; [by rewrite lookup_delete_ne|by rewrite lookup_alter_ne].
Qed.

Lemma due_elem now limit db e :
  e ∈ due now limit db -> exists row, db_outbox db !! pe_id e = Some row /\
    ob_next_attempt_unix_micros row <= as_i 64 now /\ pe_attempts e = as_u 32 (ob_attempts row).
Proof.
  unfold due. intros He. apply list_elem_of_fmap in He as ([i row] & -> & Hi). apply elem_of_take in Hi as (j & Hi & _).
  apply list_elem_of_lookup_2 in Hi. rewrite sort_by_perm in Hi. apply list_elem_of_In, filter_In in Hi as [Hi Hn].
  apply list_elem_of_In, elem_of_map_to_list in Hi. exists row. simpl in *. split_and!; [done|lia|done].
Qed.

Lemma NoDup_map_filter {A B} (g : A -> B) (f : A -> bool) l : NoDup (map g l) -> NoDup (map g (List.filter f l)).
Proof.
  induction l as [|x l IH]; [done|]. cbn [map List.filter]. intros [Hx Hl]%NoDup_cons.
  destruct (f x); cbn [map]; [|by apply IH]. apply NoDup_cons. split; [|by apply IH].
  intros Hin. apply Hx. apply list_elem_of_fmap in Hin as (y & -> & Hy). apply list_elem_of_In, filter_In in Hy as [Hy _].
  by apply list_elem_of_fmap_2, list_elem_of_In.
Qed.

Lemma due_nodup now limit db : NoDup (map pe_id (due now limit db)).
Proof.
  unfold due. rewrite map_map. cbn [pe_id].
  eapply sublist_NoDup; [|apply (fmap_sublist fst), sublist_take].
  rewrite sort_by_perm. apply NoDup_map_filter, NoDup_fst_map_to_list.
Qed.
(** The answers the receiver gives for an event, along a run. *)
Fixpoint answered (id : Z) (ops : list StoreOp) (db : Db) : list bool :=
  match ops with
  | [] => []
  | op :: ops =>
      match op with
      | OpRound answers now => if bool_decide (id ∈ (deliver_round answers now now db).1) then [answers id] else []
      | _ => []
      end ++ answered id ops (store_op events db op)
  end.

(** Microseconds of waiting after [n] failures. *)
Fixpoint waits (n : nat) : Z := match n with O => 0 | S n => waits n + backoff_secs (Z.of_nat (S n)) * 1000000 end.

(** What may have become of an event queued at [created]: it waits, unchanged,
    after fewer than twenty failures; the receiver acknowledged it; or it was
    refused twenty times over more than an hour. *)
Inductive fate (id created : Z) (body : string) (db : Db) (answers : list bool) (now : Z) : Prop :=
| Waiting row :
    db_outbox db !! id = Some row -> ob_body row = body -> answers = replicate (List.length answers) false ->
    ob_attempts row = Z.of_nat (List.length answers) -> (List.length answers < 20)%nat ->
    created + waits (List.length answers) <= ob_next_attempt_unix_micros row -> id <= db_outbox_seq db ->
    fate id created body db answers now
| Acknowledged n :
    db_outbox db !! id = None -> answers = replicate n false ++ [true] -> id <= db_outbox_seq db ->
    fate id created body db answers now
| Dropped :
    db_outbox db !! id = None -> answers = replicate 20 false -> created + 3810 * 1000000 <= now -> id <= db_outbox_seq db ->
    fate id created body db answers now.

Lemma fate_same id created body db db' answers now now' :
  same_mail id db db' -> now <= now' -> fate id created body db answers now -> fate id created body db' answers now'.
Proof.
  intros [Hm Hs] Hn [row H1 H2 H3 H4 H5 H6 H7|n H1 H2 H3|H1 H2 H3 H4].
  - eapply Waiting; eauto; [congruence|lia].
  - eapply Acknowledged; eauto; [congruence|lia].
  - apply Dropped; [congruence|done|lia|lia].
Qed.

Lemma replicate_snoc n (b : bool) : replicate n b ++ [b] = replicate (S n) b.
Proof. rewrite replicate_S_end. done. Qed.

(** One more failure of a waiting event. *)
Lemma fate_failed id created body db answers now db' row e :
  db_outbox db !! id = Some row -> ob_body row = body -> answers = replicate (List.length answers) false ->
  ob_attempts row = Z.of_nat (List.length answers) -> (List.length answers < 20)%nat ->
  created + waits (List.length answers) <= ob_next_attempt_unix_micros row -> id <= db_outbox_seq db ->
  ob_next_attempt_unix_micros row <= now -> 0 <= now -> now + window_room < 2 ^ 63 -> e = as_u 32 (ob_attempts row) ->
  db_outbox_seq db' = db_outbox_seq db -> db_outbox db' !! id = db_outbox (failed id e now db).2 !! id ->
  fate id created body db' (answers ++ [false]) now.
Proof.
  intros Hrow Hbody Hall Hatt Hlt Hwait Hid Hdue H0 Hroom -> Hseq Hlook. set (n := List.length answers) in *.
  assert (Hlen : List.length (answers ++ [false]) = S n) by (rewrite length_app; simpl; lia).
  rewrite Hatt, as_u_small in Hlook by (unfold in_u; lia). unfold failed, MAX_ATTEMPTS in Hlook.
  destruct (Z.of_nat n + 1 >=? 20) eqn:E; cbn [snd db_outbox set_outbox] in Hlook.
  - assert (n = 19%nat) by lia. rewrite lookup_delete_eq in Hlook. apply Dropped; [done| | |lia].
    + rewrite Hall. rewrite replicate_snoc. by replace n with 19%nat.
    + replace n with 19%nat in Hwait by lia. change (waits 19) with (3810 * 1000000) in Hwait. lia.
  - rewrite lookup_alter_eq, Hrow in Hlook. cbn [fmap option_fmap option_map] in Hlook.
    assert (Hb : 0 <= backoff_secs (Z.of_nat n + 1) <= 300).
    { unfold backoff_secs. pose proof (Z.pow_pos_nonneg 2 (Z.min (Z.of_nat n + 1) 9)). lia. }
    assert (Hsmall : now + backoff_secs (Z.of_nat n + 1) * 1000000 < 2 ^ 63) by (unfold window_room, DAY, MICROS in Hroom; lia).
    rewrite as_u_small in Hlook by (unfold in_u; lia). rewrite as_i_small in Hlook by lia.
    eapply Waiting; [exact Hlook|done|..]; rewrite ?Hlen; cbn [ob_attempts ob_next_attempt_unix_micros].
    + rewrite Hall at 1. by rewrite replicate_snoc.
    + lia.
    + lia.
    + cbn [waits]. replace (Z.of_nat (S n)) with (Z.of_nat n + 1) by lia. lia.
    + lia.
Qed.
Lemma fate_step id created body db answers op clock :
  fate id created body db answers clock -> clock <= op_clock op -> op_ok op ->
  fate id created body (store_op events db op)
    (answers ++ answered id [op] db) (op_clock op).
Proof.
  intros Hf Hc (H0 & Hroom & _). assert (Hid : id <= db_outbox_seq db) by by destruct Hf.
  pose proof (op_mail id op db Hid) as Hm. cbn [answered]. rewrite app_nil_r.
  destruct op as [policy subject window delta now shape|policies now|now|node records now|oracle now];
    try (rewrite app_nil_r; eapply fate_same; [exact Hm|exact Hc|exact Hf]).
  cbn [store_op op_clock] in *. unfold deliver_round. pose proof (deliver_mail id (due now 100 db) oracle now db (due_nodup _ _ _)) as Hd.
  destruct (deliver (due now 100 db) oracle now db) as [sent db']. cbn [fst snd].
  destruct Hd as [Hseq [[Hout Hsame]|(e & He & Heid & Hin & Hlook)]].
  - rewrite bool_decide_false by done. rewrite app_nil_r. eapply fate_same; [|exact Hc|exact Hf]. split; [done|lia].
  - rewrite bool_decide_true by done. apply due_elem in He as (row & Hrow & Hdue & Hatt). rewrite Heid in Hrow.
    assert (now < 2 ^ 63) by (unfold window_room, DAY, MICROS in Hroom; lia). rewrite as_i_small in Hdue by lia.
    destruct Hf as [row' H1 H2 H3 H4 H5 H6 H7|n H1 _ _|H1 _ _ _]; [|congruence..].
    assert (row' = row) as -> by congruence. destruct (oracle id).
    + apply (Acknowledged _ _ _ _ _ _ (List.length answers)); [done|by rewrite <- H3|lia].
    + by eapply (fate_failed id created body db answers now db' row).
Qed.

Lemma answered_app id ops k db : answered id (ops ++ k) db = answered id ops db ++ answered id k (store_run events ops db).
Proof. revert db. induction ops as [|op ops IH]; intros db; [done|]. cbn [app answered]. by rewrite IH, app_assoc. Qed.

Lemma fate_run id created body ops : forall db answers clock now,
  fate id created body db answers clock -> in_time clock ops now -> Forall op_ok ops ->
  fate id created body (store_run events ops db) (answers ++ answered id ops db) now.
Proof.
  induction ops as [|op ops IH]; intros db answers clock now Hf Ht Hops.
  - cbn [answered]. rewrite app_nil_r. eapply fate_same; [|exact Ht|exact Hf]. split; [done|reflexivity].
  - apply Forall_cons in Hops as [Hop Hops]. destruct Ht as [Hc Ht].
    change (op :: ops) with ([op] ++ ops). rewrite answered_app, app_assoc.
    apply (IH (store_op events db op) _ (op_clock op)); [|done|done]. by eapply fate_step.
Qed.

(** C34: No event is lost.  Whatever the store does after an event was queued, it
    is in the outbox, with its body and one attempt counted per failure; or
    the receiver's last answer was a 2xx; or it was refused twenty times, over
    at least 3810 seconds. *)
Theorem event_kept_until_answered (event : list (string * json)) (created now : Z) (ops : list StoreOp) (db : Db) :
  0 <= created < 2 ^ 63 -> Forall op_ok ops -> in_time created ops now ->
  let '(id, db') := enqueue event created db in
  fate id created (event_to_string event) (store_run events ops db') (answered id ops db') now.
Proof.
  intros Hc Hops Ht. unfold enqueue. rewrite as_i_small by lia.
  apply (fate_run _ _ _ ops _ [] created now); [|done|done].
  eapply Waiting; simpl; [apply lookup_insert_eq|done|done|done|lia|simpl; lia|lia].
Qed.
End Mail.

(** ** Reading the usage rows page by page *)

Fixpoint number_from {A} (k : Z) (l : list A) : list (Z * A) :=
  match l with [] => [] | x :: l => (k, x) :: number_from (k + 1) l end.

Lemma number_from_app {A} k (l1 l2 : list A) :
  number_from k (l1 ++ l2) = number_from k l1 ++ number_from (k + Z.of_nat (List.length l1)) l2.
Proof.
  revert k. induction l1 as [|x l1 IH]; intros k; cbn [app number_from List.length]; [f_equal; lia|].
  rewrite IH. do 3 f_equal. lia.
Qed.

Lemma number_from_elem {A} k (l : list A) e : e ∈ number_from k l -> k <= e.1 < k + Z.of_nat (List.length l).
Proof.
  revert k. induction l as [|x l IH]; intros k He; cbn [number_from List.length] in *; [by apply not_elem_of_nil in He|].
  apply elem_of_cons in He as [->|He]; [simpl; lia|]. apply IH in He. lia.
Qed.

Lemma number_from_sorted {A} k (l : list A) : StronglySorted (fun a b => a.1 < b.1) (number_from k l).
Proof.
  revert k. induction l as [|x l IH]; intros k; cbn [number_from]; constructor; [done|].
  apply Forall_forall. intros e He. apply number_from_elem in He. simpl. lia.
Qed.

Lemma sorted_keys_nodup {A} (l : list (Z * A)) : StronglySorted (fun a b => a.1 < b.1) l -> NoDup l.*1.
Proof.
  induction 1 as [|x l Hl IH Hx]; [constructor|]. cbn [fmap list_fmap]. apply NoDup_cons. split; [|done].
  intros Hin. apply list_elem_of_fmap in Hin as (y & Hy & Hin). rewrite Forall_forall in Hx. specialize (Hx y Hin). lia.
Qed.

Lemma number_from_drop {A} k (l : list A) n :
  List.filter (fun kv => kv.1 >? k + Z.of_nat n - 1) (number_from k l) = number_from (k + Z.of_nat n) (drop n l).
Proof.
  revert k l. induction n as [|n IH]; intros k l.
  - rewrite Z.add_0_r. apply forallb_filter_id, forallb_forall. intros e He%list_elem_of_In. apply number_from_elem in He. lia.
  - destruct l as [|x l]; [done|]. cbn [number_from List.filter drop fst]. rewrite Z.gtb_ltb, (proj2 (Z.ltb_ge _ _)) by lia.
    specialize (IH (k + 1) l). replace (k + 1 + Z.of_nat n) with (k + Z.of_nat (S n)) in IH by lia. done.
Qed.

Lemma number_from_take {A} k (l : list A) n : firstn n (number_from k l) = number_from k (firstn n l).
Proof. revert k n. induction l as [|x l IH]; intros k [|n]; cbn [number_from firstn]; [done..|]. by rewrite IH. Qed.

#[export] Instance filter_bool_perm {A} (f : A -> bool) : Proper (Permutation ==> Permutation) (List.filter f).
Proof.
  induction 1 as [|x l k _ IH|x y l|l k m _ IH1 _ IH2]; simpl; [done| | |by rewrite IH1].
  - destruct (f x); by rewrite IH.
  - destruct (f x), (f y); try done. apply Permutation_swap.
Qed.

Lemma sorted_filter {A} (R : relation A) (f : A -> bool) l : StronglySorted R l -> StronglySorted R (List.filter f l).
Proof.
  induction 1 as [|x l _ IH Hx]; [constructor|]. simpl. destruct (f x); [|done]. constructor; [done|].
  rewrite Forall_forall in *. intros y Hy. apply Hx. by apply list_elem_of_In, filter_In in Hy as [Hy%list_elem_of_In _].
Qed.

(** Sorting by id recovers the order of the numbers. *)
Lemma sort_ids {A} (l k : list (Z * A)) :
  l ≡ₚ k -> StronglySorted (fun a b => a.1 < b.1) k -> sort_by (fun a b => Z.compare a.1 b.1) l = k.
Proof.
  intros Hp Hk. assert (Hs : StronglySorted (fun a b => a.1 < b.1) (sort_by (fun a b => Z.compare a.1 b.1) l)).
  { assert (Hna : forall a b : Z * A, not_after (fun a b => Z.compare a.1 b.1) a b = (a.1 <=? b.1)).
    { intros a b. unfold not_after, Z.leb. by destruct (a.1 ?= b.1). }
    assert (Hle : StronglySorted (fun a b : Z * A => not_after (fun a b => Z.compare a.1 b.1) a b = true)
                    (sort_by (fun a b => Z.compare a.1 b.1) l)).
    { apply sort_by_sorted; [intros x y; rewrite (Hna x y), (Hna y x); lia|].
      intros x y z. rewrite (Hna x y), (Hna y z), (Hna x z). lia. }
    assert (Hnd : NoDup (sort_by (fun a b => Z.compare a.1 b.1) l).*1).
    { rewrite sort_by_perm, Hp. by apply sorted_keys_nodup. }
    clear Hp Hk. induction Hle as [|x m Hm IH Hx]; [constructor|]. cbn [fmap list_fmap] in Hnd. apply NoDup_cons in Hnd as [Hnew Hnd].
    constructor; [by apply IH|]. rewrite Forall_forall in *. intros y Hy. specialize (Hx y Hy). rewrite Hna in Hx.
    assert (x.1 <> y.1) by (intros Heq; apply Hnew; rewrite Heq; by apply list_elem_of_fmap_2). lia. }
  apply (StronglySorted_unique_strong (fun a b : Z * A => a.1 < b.1)); [|done|done|by rewrite sort_by_perm].
  intros a b _ _ Ha Hb. lia.
Qed.

Section Exporting.
Context `{EJ : EventJson} `{LJ : LabelsJson} (events : option EventConfig).

(** A record as it arrives: its wide fields are [u64]. *)
Definition record_ok (r : UsageRecord) : Prop := map_wide (as_u 64) r = r.

(** The stored rows in the order they came. *)
Definition usage_rows (rows : list UsageRow) : gmap Z UsageRow := list_to_map (number_from 1 rows).

Lemma usage_rows_list rows : map_to_list (usage_rows rows) ≡ₚ number_from 1 rows.
Proof. apply map_to_list_to_map, sorted_keys_nodup, number_from_sorted. Qed.

Lemma max_keys (l : list (Z * UsageRow)) m :
  (forall e, e ∈ l -> e.1 <= m) -> 0 <= m -> (m = 0 \/ exists e, e ∈ l /\ e.1 = m) -> foldr (fun kv m => Z.max kv.1 m) 0 l = m.
Proof.
  assert (Hlow : forall e, e ∈ l -> e.1 <= foldr (fun kv m => Z.max kv.1 m) 0 l).
  { induction l as [|x l IH]; intros e He; [by apply not_elem_of_nil in He|]. cbn [foldr].
    apply elem_of_cons in He as [->|He]; [lia|]. specialize (IH e He). lia. }
  assert (H0 : 0 <= foldr (fun kv m => Z.max kv.1 m) 0 l) by (clear Hlow; induction l; cbn [foldr]; lia).
  intros Hup Hm Hmax.
  assert (Hle : foldr (fun kv m => Z.max kv.1 m) 0 l <= m).
  { clear Hlow H0 Hmax. induction l as [|x l IH]; cbn [foldr]; [done|].
    pose proof (Hup x ltac:(by left)). specialize (IH (fun e He => Hup e ltac:(by right))). lia. }
  destruct Hmax as [->|(e & He & <-)]; [lia|]. specialize (Hlow e He). lia.
Qed.

Lemma next_rowid_rows rows : next_rowid (usage_rows rows) = Z.of_nat (List.length rows) + 1.
Proof.
  unfold next_rowid. f_equal. apply max_keys.
  - intros e He. rewrite usage_rows_list in He. apply number_from_elem in He. lia.
  - lia.
  - destruct rows as [|r rows _] using rev_ind; [by left|right].
    exists (Z.of_nat (List.length (rows ++ [r])), r). split; [|done]. rewrite usage_rows_list, number_from_app.
    apply elem_of_app. right. rewrite length_app. simpl. apply list_elem_of_singleton. f_equal. lia.
Qed.

Lemma insert_row_rows node rows r :
  insert_row node (usage_rows rows) r = usage_rows (rows ++ [{| uw_node := node; uw_record := map_wide (as_i 64) r |}]).
Proof.
  unfold insert_row, usage_rows at 3. rewrite number_from_app. cbn [number_from]. rewrite list_to_map_snoc.
  - rewrite next_rowid_rows. by replace (1 + Z.of_nat (List.length rows)) with (Z.of_nat (List.length rows) + 1) by lia.
  - intros Hin. apply list_elem_of_fmap in Hin as (e & He & Hin). apply number_from_elem in Hin. lia.
Qed.

Definition stored (node : string) (r : UsageRecord) : UsageRow := {| uw_node := node; uw_record := map_wide (as_i 64) r |}.

Lemma insert_rows node records rows :
  fold_left (insert_row node) records (usage_rows rows) = usage_rows (rows ++ map (stored node) records).
Proof.
  revert rows. induction records as [|r records IH]; intros rows; cbn [fold_left map]; [by rewrite app_nil_r|].
  rewrite insert_row_rows, IH, <- app_assoc. done.
Qed.

Lemma enqueue_all_usage evs now db : db_usage (enqueue_all evs now db) = db_usage db.
Proof. unfold enqueue_all. revert db. induction evs as [|e evs IH]; intros db; [done|]. cbn [fold_left]. by rewrite IH. Qed.

Lemma export_after rows db cursor limit :
  db_usage db = usage_rows rows -> (cursor <= List.length rows)%nat ->
  export 0 (Some (Z.of_nat cursor)) limit db =
  map (read_usage (db_api_keys db)) (number_from (Z.of_nat cursor + 1) (firstn limit (drop cursor rows))).
Proof.
  intros Hdb Hc. unfold export. cbv zeta. f_equal. rewrite <- number_from_take. f_equal. rewrite Hdb.
  apply sort_ids; [|apply number_from_sorted].
  rewrite (Z.add_comm (Z.of_nat cursor) 1), <- number_from_drop. replace (1 + Z.of_nat cursor - 1) with (Z.of_nat cursor) by lia.
  by rewrite usage_rows_list.
Qed.
(** A reader that follows the cursor while batches keep arriving. *)
Inductive Reading :=
| Arrive (node : string) (records : list UsageRecord)
| ReadPage (limit : option Z).

Definition reading_step (s : Db * Z * list Row) (e : Reading) : Db * Z * list Row :=
  let '(db, cursor, got) := s in
  match e with
  | Arrive node records => ((insert_batch events node records db).2, cursor, got)
  | ReadPage limit => let '(rows, next) := export_page 0 (Some cursor) limit db in (db, next, got ++ rows)
  end.

Definition arrived (es : list Reading) : list (string * UsageRecord) :=
  List.concat (map (fun e => match e with Arrive node records => map (pair node) records | ReadPage _ => [] end) es).

Definition row_content (r : Row) : Z * (string * UsageRecord) := (rw_id r, (rw_node r, rw_record r)).

Definition store_pair (p : string * UsageRecord) : UsageRow := stored p.1 p.2.

Lemma read_stored (db : Db) l k :
  Forall (fun p => record_ok p.2) l ->
  map row_content (map (read_usage (db_api_keys db)) (number_from k (map store_pair l))) = number_from k l.
Proof.
  revert k. induction l as [|[node r] l IH]; intros k [Hr Hl]%Forall_cons || intros k _; [done|].
  cbn [map number_from]. rewrite IH by done. f_equal. unfold row_content, read_usage. cbn [fst snd rw_id rw_node rw_record].
  do 2 f_equal. rewrite <- Hr at 2. unfold map_wide. simpl. by rewrite !as_u_as_i by lia.
Qed.

Lemma export_page_after rows db cursor limit :
  db_usage db = usage_rows rows -> (cursor <= List.length rows)%nat ->
  exists n, (n <= List.length rows - cursor)%nat /\ ((cursor < List.length rows)%nat -> (0 < n)%nat) /\
    export_page 0 (Some (Z.of_nat cursor)) limit db =
    (map (read_usage (db_api_keys db)) (number_from (Z.of_nat cursor + 1) (firstn n (drop cursor rows))), Z.of_nat (cursor + n)).
Proof.
  intros Hdb Hc. unfold export_page. 
  generalize (default 10000 limit). intros z. assert (Hlim : (1 <= Z.to_nat (Z.min (Z.max z 1) 100000))%nat) by lia.
  revert Hlim. generalize (Z.to_nat (Z.min (Z.max z 1) 100000)). intros lim Hlim. exists (Nat.min lim (List.length rows - cursor)). split; [lia|]. split; [lia|].
  cbn [fmap option_fmap option_map]. rewrite Z.max_l by lia. rewrite (export_after rows) by done.
  assert (Hn : List.length (firstn lim (drop cursor rows)) = Nat.min lim (List.length rows - cursor))
    by (rewrite length_take, length_drop; done).
  assert (Hf : firstn (Nat.min lim (List.length rows - cursor)) (drop cursor rows) = firstn lim (drop cursor rows)).
  { destruct (Nat.le_gt_cases lim (List.length rows - cursor)); [by rewrite Nat.min_l by lia|].
    rewrite Nat.min_r by lia. by rewrite !take_ge by (rewrite length_drop; lia). }
  rewrite Hf, <- Hn. f_equal. clear Hf Hn. generalize (firstn lim (drop cursor rows)). intros l.
  rewrite map_map. cbn [read_usage rw_id].
  destruct l as [|r l _] using rev_ind; [simpl; f_equal; lia|].
  rewrite number_from_app, map_app. cbn [number_from map]. rewrite last_snoc. cbn [fst from_option]. rewrite length_app. simpl. lia.
Qed.
(** What the reader has, after the rows [all] have arrived. *)
Definition reading_ok (all : list (string * UsageRecord)) (s : Db * Z * list Row) : Prop :=
  let '(db, cursor, got) := s in
  Forall (fun p => record_ok p.2) all /\ db_usage db = usage_rows (map store_pair all) /\
  exists c, cursor = Z.of_nat c /\ (c <= List.length all)%nat /\ map row_content got = number_from 1 (firstn c all).

Lemma reading_step_ok all s e :
  reading_ok all s -> Forall (fun p => record_ok p.2) (arrived [e]) -> reading_ok (all ++ arrived [e]) (reading_step s e).
Proof.
  destruct s as [[db cursor] got]. intros (Hall & Hdb & c & -> & Hc & Hgot) He. unfold arrived in *. cbn [map List.concat] in *.
  rewrite app_nil_r in *. destruct e as [node records|limit]; cbn [reading_step].
  - split; [by apply Forall_app|]. split.
    + unfold insert_batch. cbn [snd]. rewrite enqueue_all_usage. cbn [db_usage set_usage].
      rewrite Hdb, insert_rows, map_app, map_map. done.
    + exists c. rewrite length_app. split; [done|]. split; [lia|]. by rewrite take_app_le by done.
  - rewrite app_nil_r. destruct (export_page_after (map store_pair all) db c limit Hdb) as (n & Hn & _ & ->); [by rewrite length_map|].
    rewrite length_map in Hn. split; [done|]. split; [done|]. exists (c + n)%nat. split; [done|]. split; [lia|].
    rewrite map_app, Hgot, skipn_map, firstn_map, read_stored; [|by apply Forall_take, Forall_drop].
    rewrite <- take_take_drop, number_from_app, length_take_le by done. f_equal. f_equal. lia.
Qed.

(** A reader that follows the cursor gets every row once, in order, as it was
    reported: however the pages and the arriving batches interleave, what it
    has read is the first rows of the log, numbered without a gap, and as
    long as there is more to read a page brings some of it. *)
Theorem export_cursor_complete (es : list Reading) (db : Db) :
  db_usage db = ∅ -> Forall (fun p => record_ok p.2) (arrived es) ->
  let '(db', cursor, got) := fold_left reading_step es (db, 0, []) in
  0 <= cursor <= Z.of_nat (List.length (arrived es)) /\
  map row_content got = number_from 1 (firstn (Z.to_nat cursor) (arrived es)) /\
  (cursor < Z.of_nat (List.length (arrived es)) -> forall limit, (export_page 0 (Some cursor) limit db').1 <> []).
Proof.
  intros Hdb Hall.
  assert (Hok : reading_ok (arrived es) (fold_left reading_step es (db, 0, []))).
  { revert Hall. induction es as [|e es IH] using rev_ind; intros Hall.
    - split; [done|]. split; [done|]. by exists 0%nat.
    - assert (Happ : arrived (es ++ [e]) = arrived es ++ arrived [e]) by (unfold arrived; by rewrite map_app, concat_app).
      rewrite Happ in *. apply Forall_app in Hall as [H1 H2]. rewrite fold_left_app. by apply reading_step_ok; [apply IH|]. }
  destruct (fold_left reading_step es (db, 0, [])) as [[db' cursor] got].
  destruct Hok as (_ & Hdb' & c & -> & Hc & Hgot). split; [lia|]. split; [by rewrite Nat2Z.id|].
  intros Hmore limit. destruct (export_page_after _ db' c limit Hdb') as (n & Hn & Hpos & ->); [by rewrite length_map|].
  rewrite length_map in Hn, Hpos. intros Hnil. apply (f_equal List.length) in Hnil. cbn [fst] in Hnil.
  rewrite length_map in Hnil.
  assert (Hlen : forall {A} k (l : list A), List.length (number_from k l) = List.length l).
  { intros A k l. revert k. induction l as [|x l IH]; intros k; [done|]. simpl. by rewrite IH. }
  rewrite Hlen, length_take, length_drop, length_map in Hnil. simpl in Hnil. lia.
Qed.
End Exporting.

(** ** Where the code does not keep its word *)

Lemma due_rows `{EJ : EventJson} now limit db l :
  map_to_list (db_outbox db) ≡ₚ l -> StronglySorted (fun a b => a.1 < b.1) l ->
  due now limit db =
  map (fun kv => {| pe_id := kv.1; pe_body := with_id (ob_body kv.2) kv.1; pe_attempts := as_u 32 (ob_attempts kv.2) |})
    (firstn limit (List.filter (fun kv => ob_next_attempt_unix_micros kv.2 <=? as_i 64 now) l)).
Proof. intros Hl Hs. unfold due. do 2 f_equal. apply sort_ids; [by rewrite Hl|by apply sorted_filter]. Qed.

Lemma due_two `{EJ : EventJson} now (a b : Z) (r1 r2 : OutboxRow) db :
  a < b -> db_outbox db = <[b := r2]> (<[a := r1]> ∅) ->
  due now 100 db =
  map (fun kv => {| pe_id := kv.1; pe_body := with_id (ob_body kv.2) kv.1; pe_attempts := as_u 32 (ob_attempts kv.2) |})
    (firstn 100 (List.filter (fun kv => ob_next_attempt_unix_micros kv.2 <=? as_i 64 now) [(a, r1); (b, r2)])).
Proof.
  intros Hab Hdb. apply due_rows; [|repeat constructor; simpl; lia]. rewrite Hdb.
  rewrite map_to_list_insert, map_to_list_insert, map_to_list_empty; [apply Permutation_swap|done|].
  by rewrite lookup_insert_ne by lia.
Qed.

(** A webhook event that fails is overtaken: the next round, a second later,
    skips it until its back-off is over and sends the younger event first. *)
Theorem delivery_order_not_kept `{EJ : EventJson} (old young : list (string * json)) (created : Z) (db : Db) :
  0 <= created -> created + window_room < 2 ^ 63 -> db_outbox db = ∅ ->
  let '(id1, db1) := enqueue old created db in
  let '(id2, db2) := enqueue young created db1 in
  let '(sent1, db3) := deliver_round (fun _ => false) created created db2 in
  let '(sent2, db4) := deliver_round (fun _ => true) (created + 1000000) (created + 1000000) db3 in
  id1 < id2 /\ sent1 = [id1] /\ sent2 = [id2] /\ db_outbox db4 !! id2 = None /\ is_Some (db_outbox db4 !! id1).
Proof.
  intros H0 Hroom Hdb. unfold window_room, DAY, MICROS in Hroom. unfold enqueue. cbn [db_outbox_seq set_outbox db_outbox]. rewrite Hdb.
  rewrite (as_i_small 64 created) by lia. set (id1 := db_outbox_seq db + 1). set (id2 := id1 + 1).
  match goal with |- context [deliver_round _ created created ?d] => set (db2 := d) end.
  unfold deliver_round at 1. rewrite (due_two created id1 id2 _ _ db2 ltac:(lia) eq_refl).
  cbn [List.filter snd ob_next_attempt_unix_micros]. rewrite as_i_small, Z.leb_refl by lia.
  cbn [firstn map deliver fst snd pe_id pe_attempts ob_attempts]. rewrite (as_u_small 32 0) by (unfold in_u; lia).
  set (row1 := {| ob_created_unix_micros := created; ob_body := event_to_string old; ob_attempts := 1;
                  ob_next_attempt_unix_micros := created + 2000000 |}).
  set (row2 := {| ob_created_unix_micros := created; ob_body := event_to_string young; ob_attempts := 0;
                  ob_next_attempt_unix_micros := created |}).
  assert (Hdb3 : db_outbox (failed id1 0 created db2).2 = <[id2 := row2]> (<[id1 := row1]> ∅)).
  { unfold failed. change (0 + 1 >=? MAX_ATTEMPTS) with false. change (backoff_secs (0 + 1) * 1000000) with 2000000.
    cbn [snd db_outbox set_outbox db2]. rewrite as_u_small by (unfold in_u; lia). rewrite as_i_small by lia.
    rewrite alter_insert_ne by lia. by rewrite alter_insert_eq. }
  unfold deliver_round. rewrite (due_two (created + 1000000) id1 id2 row1 row2 _ ltac:(lia) Hdb3).
  cbn [List.filter snd ob_next_attempt_unix_micros row1 row2]. rewrite as_i_small by lia.
  rewrite (proj2 (Z.leb_gt (created + 2000000) (created + 1000000))), (proj2 (Z.leb_le created (created + 1000000))) by lia.
  cbn [firstn map deliver fst snd pe_id]. unfold delivered. cbn [db_outbox set_outbox]. rewrite Hdb3. split_and!; [lia|done|done|..].
  - apply lookup_delete_eq.
  - rewrite lookup_delete_ne, lookup_insert_ne, lookup_insert_eq by lia. by eexists.
Qed.

(** Counters are told apart by when their window ends, not by its length: a
    policy that is changed from daily to hourly in the last hour of the day
    starts with the whole day's spend. *)
Theorem shorter_window_inherits_spend `{EJ : EventJson} `{LJ : LabelsJson} (policy subject : string) (spent now now' stop : Z) (db : Db) :
  0 <= now -> now <= now' -> now' + window_room < 2 ^ 63 -> 0 <= spent < FAR -> db_spend db = ∅ ->
  window_end "DAILY" now = Some stop -> window_end "HOURLY" now' = Some stop ->
  let db' := (sync_spend None policy subject "DAILY" spent now None db).2 in
  exists synced, (sync_spend None policy subject "HOURLY" 0 now' None db').1 = Ok (Some synced) /\ sy_spent_total synced = spent.
Proof.
  intros H0 Hle Hroom Hs Hdb Hday Hhour db'. unfold FAR in Hs.
  set (ops := [OpSync policy subject "DAILY" spent now None]).
  destruct (config_thresholds None I) as [Hsort Hr].
  assert (Hops : Forall op_ok ops) by (repeat constructor; simpl; lia).
  destruct (run_ok_run None Hsort Hr ops [] 0 db now') as (clock & Hc & Hrun);
    [by apply run_ok_start|done|simpl; lia|simpl; unfold FAR; lia|].
  destruct (sync_spend_row None Hsort Hr ops clock db' policy subject "HOURLY" 0 now' None stop Hrun) as (db2 & Hsync & _);
    [repeat split; simpl; lia|done|simpl; unfold FAR; lia|done|].
  rewrite Hsync. eexists. split; [done|]. cbn [sy_spent_total]. rewrite meter_spent. unfold charged. cbn [app ops foldr charge fst snd].
  rewrite !bool_decide_true by done. simpl. lia.
Qed.

(** ** Samples *)

Module Sample.
#[export] Existing Instance LedgerKeys.Sample.sample_labels.

(** Events as the list of their field names. *)
#[export] Instance sample_events : EventJson := {|
  event_to_string e := join "," (map fst e);
  event_from_str _ := None;
|}.

Definition db0 : Db :=
  {| db_spend := ∅; db_policies := ∅; db_outbox := ∅; db_outbox_seq := 0; db_usage := ∅; db_api_keys := ∅ |}.

Definition config : option EventConfig := match EventConfig_parse "100, 50,80" "none" with Ok c => Some c | Err _ => None end.

Lemma config_parsed : config_ok config.
Proof. exists "100, 50,80", "none". reflexivity. Qed.

Definition shape : Shape :=
  {| sh_limit := 1000; sh_unit := "TOKENS"; sh_per := "KEY"; sh_fail_open := false; sh_subject_limit := 0 |}.

(** Two pods, a sweep and a delivery round within the first hour of 1970. *)
Definition ops : list StoreOp :=
  [OpSync "p" "7" "hourly" 300 1000000 (Some shape); OpPrune 2000000; OpSync "p" "7" "hourly" 550 3000000 (Some shape);
   OpRound (fun _ => false) 4000000].

Lemma ops_ok : Forall op_ok ops.
Proof. repeat constructor; vm_compute; try discriminate; done. Qed.

Lemma spend_totals_exact_witness :
  exists synced, (sync_spend config "p" "7" "HOURLY" 50 5000000 None (store_run config ops db0)).1 = Ok (Some synced) /\
    sy_spent_total synced = 900.
Proof.
  destruct (spend_totals_exact config ops "p" "7" "HOURLY" 50 5000000 3600000000 None db0) as (synced & Hs & Ht & _).
  - exact config_parsed.
  - reflexivity.
  - exact ops_ok.
  - vm_compute. repeat split; discriminate.
  - vm_compute. repeat split; discriminate.
  - reflexivity.
  - reflexivity.
  - exists synced. split; [exact Hs|]. rewrite Ht. reflexivity.
Defined.

Lemma thresholds_reported_once_witness : reported config ("p", "7", 3600000000) ops db0 = [50; 80].
Proof.
  rewrite (thresholds_reported_once config ("p", "7", 3600000000) ops 5000000 db0).
  - reflexivity.
  - exact config_parsed.
  - reflexivity.
  - exact ops_ok.
  - vm_compute. repeat split; discriminate.
  - reflexivity.
  - reflexivity.
Defined.

Definition event : list (string * json) := [("type", JString "refusal")].

Lemma event_kept_until_answered_witness :
  fate 1 500 "type" (store_run config ops (enqueue event 500 db0).2) [false] 5000000.
Proof.
  assert (Ha : answered config 1 ops (enqueue event 500 db0).2 = [false]) by reflexivity.
  rewrite <- Ha. refine (event_kept_until_answered config event 500 5000000 ops db0 _ ops_ok _).
  - lia.
  - vm_compute. repeat split; discriminate.
Defined.

Definition sample_record (ts : Z) : UsageRecord :=
  {| ur_ts_unix_micros := ts; ur_duration_micros := 2 ^ 64 - 1; ur_status := 200; ur_dialect := "openai"; ur_stream := false;
     ur_provider := "p"; ur_route_host := "h"; ur_requested_model := "m"; ur_served_model := "m"; ur_has_usage := true;
     ur_input_tokens := 1; ur_output_tokens := 2; ur_cache_read_tokens := 0; ur_cache_creation_tokens := 0;
     ur_request_bytes := 10; ur_response_bytes := 20; ur_key_id := 7; ur_request_id := 2 ^ 63; ur_refusal := EmptyString;
     ur_tenant := "t"; ur_subject := "s"; ur_rule := EmptyString; ur_client_request_id := EmptyString;
     ur_first_byte_micros := 5; ur_on_behalf_of := EmptyString |}.

Definition readings : list Reading :=
  [Arrive "a" [sample_record 3; sample_record 1]; ReadPage (Some 1); Arrive "b" [sample_record 2]; ReadPage (Some 1); ReadPage None].

Lemma export_cursor_complete_witness :
  map row_content (fold_left (reading_step config) readings (db0, 0, [])).2 =
  [(1, ("a", sample_record 3)); (2, ("a", sample_record 1)); (3, ("b", sample_record 2))].
Proof.
  pose proof (export_cursor_complete config readings db0 eq_refl) as H.
  destruct (fold_left (reading_step config) readings (db0, 0, [])) as [[db cursor] got] eqn:E.
  assert (cursor = 3) as -> by (apply (f_equal (fun x => x.1.2)) in E; vm_compute in E; congruence).
  apply H. repeat constructor.
Defined.

Lemma delivery_order_not_kept_witness :
  let db2 := (enqueue event 500 (enqueue event 500 db0).2).2 in
  (deliver_round (fun _ => true) 1000500 1000500 (deliver_round (fun _ => false) 500 500 db2).2).1 = [2].
Proof.
  pose proof (delivery_order_not_kept event event 500 db0 ltac:(lia) ltac:(reflexivity) eq_refl) as H.
  apply H.
Defined.

Lemma shorter_window_inherits_spend_witness :
  exists synced, (sync_spend None "p" "7" "HOURLY" 0 (86400000000 - 5) None
      (sync_spend None "p" "7" "DAILY" 900 1000000 None db0).2).1 = Ok (Some synced) /\ sy_spent_total synced = 900.
Proof.
  apply (shorter_window_inherits_spend "p" "7" 900 1000000 (86400000000 - 5) 86400000000 db0).
  - lia.
  - lia.
  - reflexivity.
  - split; [lia|reflexivity].
  - reflexivity.
  - reflexivity.
  - reflexivity.
Defined.
End Sample.
