(* ===== verification/BudgetSystem.v ===== *)
(** * Pods and ledger together

    The data planes' counters ([Budget]) and the ledger's totals ([Ledger]) as
    one system: pods check requests, settle them and exchange their spend with
    the ledger's [Sync] handler ([portus-ledger/src/main.rs]).  The theorem is
    that nothing settled in a window is lost or counted twice, as long as no
    response ends during an exchange of its own counter. *)
From S2P Require Import Prelude Text Types Calendar Keys Budget LedgerKeys Ledger.
From Stdlib Require Import String.
Open Scope Z_scope.

#[local] Notation update := Budget.update.

(** ** The exchange *)

(** [SyncRequest] of ledger.proto *)
Record SyncRequest := {
  rq_policy : string;
  rq_subject : string;
  rq_window : string;
  rq_spent_delta : Z;
  rq_limit : Z;
  rq_unit : string;
  rq_per : string;
  rq_fail_open : bool;
  rq_subject_limit : Z;
}.

(** The request [sync_loop] builds from a counter whose spend it has taken. *)
Definition sync_request (a : SyncAsk) (delta : Z) (c : Counter) : SyncRequest :=
  {| rq_policy := ask_policy_id a; rq_subject := ask_subject a; rq_window := Window_as_str (c_window c);
     rq_spent_delta := delta; rq_limit := c_route_limit c; rq_unit := Unit_as_str (c_unit c);
     rq_per := Scope_as_str (c_per c); rq_fail_open := c_fail_open c; rq_subject_limit := c_budget c |}.

(** The shape a request carries, in [storage_thread]. *)
Definition request_shape (req : SyncRequest) : option Shape :=
  if rq_limit req >? 0
  then Some {| sh_limit := rq_limit req; sh_unit := rq_unit req; sh_per := rq_per req;
               sh_fail_open := rq_fail_open req; sh_subject_limit := rq_subject_limit req |}
  else None.

Section System.
Context `{EJ : EventJson} `{LJ : LabelsJson} (events : option EventConfig).

(** [Spend::sync]: the response, if it is one *)
Definition ledger_sync (req : SyncRequest) (now : Z) (db : Db) : option (Z * Z) * Db :=
  if is_empty (rq_policy req) || is_empty (rq_subject req) then (None, db)
  else
    match sync_spend events (rq_policy req) (rq_subject req) (rq_window req) (rq_spent_delta req) now (request_shape req) db with
    | (Ok (Some s), db) => (Some (sy_spent_total s, sy_window_end_unix_micros s), db)
    | (Ok None, db) => (None, db)
    | (Err _, db) => (None, db)
    end.

(** One question of a pod's [sync_loop], put to the ledger and answered. *)
Definition exchange (p : Pod) (now now' : Z) (db : Db) : Pod * Db :=
  let p := sync_ship p in
  match p_inflight p with
  | None => (p, db)
  | Some (a, delta) =>
      match b_heap (p_budgets p) !! ask_counter a with
      | None => (p, db)
      | Some c =>
          match ledger_sync (sync_request a delta c) now db with
          | (Some (total, stop), db) => (step p (Answered total stop now'), db)
          | (None, db) => (step p Failed, db)
          end
      end
  end.

(** ** The system *)

Record System := { sys_pods : list Pod; sys_db : Db }.

Definition System_start (n : nat) (db : Db) : System := {| sys_pods := replicate n Pod_start; sys_db := db |}.

Inductive SysEvent :=
| Local (i : nat) (e : Event)
| Exchange (i : nat) (now now' : Z).

Definition sys_step (s : System) (e : SysEvent) : System :=
  match e with
  | Local i e =>
      match sys_pods s !! i with
      | Some p => {| sys_pods := <[i := step p e]> (sys_pods s); sys_db := sys_db s |}
      | None => s
      end
  | Exchange i now now' =>
      match sys_pods s !! i with
      | Some p => let '(p, db) := exchange p now now' (sys_db s) in
                  {| sys_pods := <[i := p]> (sys_pods s); sys_db := db |}
      | None => s
      end
  end.

Definition sys_run (s : System) (es : list SysEvent) : System := fold_left sys_step es s.
End System.

(** ** One counter of a pod *)

Section View.
Context (key : string * string) (w : Window) (stop : Z).

(** What matters of the counter for [key]: what it has not shipped, the end of
    its window, its window and its unit. *)
Definition counter_view (c : Counter) : Z * Z * Window * BudgetUnit :=
  (c_unsynced_spent c, c_window_end c, c_window c, c_unit c).

Definition view (b : Budgets) : option (Z * Z * Window * BudgetUnit) :=
  match b_counters b !! key with
  | Some r => counter_view <$> b_heap b !! r
  | None => None
  end.

(** The table names distinct counters that exist, and so do the questions. *)
Record table_fine (b : Budgets) : Prop := {
  fine_inj k k' r : b_counters b !! k = Some r -> b_counters b !! k' = Some r -> k = k';
  fine_dom k r : b_counters b !! k = Some r -> is_Some (b_heap b !! r);
  fine_asks : Forall (fun a => b_counters b !! (ask_policy_id a, ask_subject a) = Some (ask_counter a)) (b_asks b);
}.

Definition quiet (f : Counter -> Counter) : Prop := forall c, counter_view (f c) = counter_view c.

Lemma update_fine r f b : table_fine b -> table_fine (update r f b).
Proof.
  intros [Hi Hd Ha]. split; [exact Hi| |exact Ha]. intros k r' Hk. simpl. rewrite lookup_alter_is_Some. eauto.
Qed.

Lemma view_update r f b :
  (forall c, b_counters b !! key = Some r -> b_heap b !! r = Some c -> counter_view (f c) = counter_view c) ->
  view (update r f b) = view b.
Proof.
  intros Hf. unfold view. simpl. destruct (b_counters b !! key) as [r'|]; [|done].
  destruct (decide (r = r')) as [<-|Hne]; [rewrite lookup_alter_eq|by rewrite lookup_alter_ne].
  destruct (b_heap b !! r) as [c|]; simpl; [|done]. by rewrite Hf.
Qed.

Lemma view_update_quiet r f b : quiet f -> view (update r f b) = view b.
Proof. intros Hf. apply view_update. auto. Qed.

Lemma view_update_other r f b : b_counters b !! key <> Some r -> view (update r f b) = view b.
Proof. intros Hne. by apply view_update. Qed.

Lemma quiet_flags sy sg : quiet (set_flags sy sg).
Proof. by intros []. Qed.
Lemma quiet_limits bu rl : quiet (set_limits bu rl).
Proof. by intros []. Qed.
Lemma quiet_reserve est : quiet (reserve est).
Proof. by intros []. Qed.

Lemma ask_spec policy subject r b :
  table_fine b -> b_counters b !! (policy, subject) = Some r ->
  table_fine (ask policy subject r b) /\ view (ask policy subject r b) = view b.
Proof.
  intros Hb Hr. unfold ask. destruct (b_heap b !! r) as [c|] eqn:Hc; [|done]. destruct (c_syncing c); [done|].
  destruct (_ <? _)%nat.
  - split.
    + destruct Hb as [Hi Hd Ha]. split; [exact Hi| |].
      * intros k r' Hk. simpl. rewrite lookup_insert_is_Some'. eauto.
      * simpl. apply Forall_app. split; [done|]. by apply Forall_singleton.
    + unfold view. simpl. destruct (b_counters b !! key) as [r'|]; [|done].
      destruct (decide (r = r')) as [<-|Hne]; [rewrite lookup_insert_eq, Hc; simpl; by rewrite quiet_flags|by rewrite lookup_insert_ne].
  - split; [by apply update_fine|]. apply view_update_quiet. intros c'. apply quiet_flags.
Qed.
(** A step leaves the counter alone, or makes it. *)
Definition grows (b b' : Budgets) : Prop :=
  view b' = view b \/ (view b = None /\ exists u, view b' = Some (0, 0, w, u)).

Lemma grows_refl b : grows b b.
Proof. by left. Qed.

Lemma grows_then b b' b'' : grows b b' -> view b'' = view b' -> grows b b''.
Proof. unfold grows. intros [H|(H & u & H')] ->; eauto. Qed.

Definition policy_fine (policy : BudgetPolicy) : Prop := bp_id policy = key.1 -> bp_window policy = w.

Lemma counter_spec b policy subject :
  table_fine b -> policy_fine policy ->
  let '(r, b') := counter b policy subject in
  table_fine b' /\ b_counters b' !! (bp_id policy, subject) = Some r /\ grows b b'.
Proof.
  intros Hb Hp. unfold counter, counter_entry. destruct (b_counters b !! (bp_id policy, subject)) as [r|] eqn:Hk.
  - split; [by apply update_fine|]. split; [done|]. left. apply view_update_quiet, quiet_limits.
  - pose proof (is_fresh (dom (b_heap b))) as Hf. set (r := fresh (dom (b_heap b))) in *. rewrite not_elem_of_dom in Hf.
    assert (Hnew : forall k, b_counters b !! k <> Some r).
    { intros k Hkr. destruct (fine_dom b Hb k r Hkr) as [c Hc]. congruence. }
    split; [apply update_fine; split; simpl|].
    + intros k k' r'. rewrite !lookup_insert_Some.
      intros [[<- <-]|[Hne H1]] [[<- Hr]|[Hne' H2]]; [done|by destruct (Hnew k')|subst; by destruct (Hnew k)|by eapply (fine_inj b Hb)].
    + intros k r' [[_ <-]|[_ Hk']]%lookup_insert_Some; [rewrite lookup_insert_eq; eauto|].
      rewrite lookup_insert_is_Some'. right. by eapply fine_dom.
    + eapply Forall_impl; [exact (fine_asks b Hb)|]. intros a Ha. simpl in *. rewrite lookup_insert_ne; [done|congruence].
    + split; [apply lookup_insert_eq|]. eapply grows_then; [|apply view_update_quiet, quiet_limits].
      unfold grows, view. simpl. destruct (decide ((bp_id policy, subject) = key)) as [Heq|Hne].
      * right. rewrite <- Heq, Hk. split; [done|]. rewrite !lookup_insert_eq. exists (bp_unit policy). simpl.
        rewrite <- Hp; [done|]. by rewrite <- Heq.
      * left. rewrite lookup_insert_ne by done. destruct (b_counters b !! key) as [r'|] eqn:Hkr; [|done].
        rewrite lookup_insert_ne; [done|]. intros <-. by apply (Hnew key).
Qed.

(** The counter's window is the one that ends at [stop], if it has one. *)
Definition in_window (b : Budgets) : Prop :=
  match view b with Some (_, we, w', _) => (we = 0 \/ we = stop) /\ w' = w | None => True end.

Lemma grows_in_window b b' : grows b b' -> in_window b -> in_window b'.
Proof. unfold in_window. intros [->|(_ & u & ->)] Hb; [done|]. split; [by left|done]. Qed.

Lemma roll_if_ended_spec r now b :
  table_fine b -> in_window b -> now < stop -> table_fine (roll_if_ended r now b) /\ view (roll_if_ended r now b) = view b.
Proof.
  intros Hb Hw Hn. unfold roll_if_ended. destruct (b_heap b !! r) as [c|] eqn:Hc; [|done].
  destruct (window_ended c now) eqn:Hend; [|done]. split; [by apply update_fine|]. apply view_update_other. intros Hk.
  unfold in_window, view in Hw. rewrite Hk, Hc in Hw. simpl in Hw. unfold window_ended in Hend. lia.
Qed.

Lemma check_spec b policy subject est now :
  table_fine b -> in_window b -> now < stop -> policy_fine policy ->
  table_fine (check b policy subject est now).2 /\ grows b (check b policy subject est now).2.
Proof.
  intros Hb Hw Hn Hp. unfold check, check_decide. pose proof (counter_spec b policy subject Hb Hp) as Hc.
  destruct (counter b policy subject) as [r b1]. destruct Hc as (Hb1 & Hr & Hg).
  destruct (roll_if_ended_spec r now b1) as [Hb2 Hv2]; [done|by eapply grows_in_window|done|].
  assert (Hr2 : b_counters (roll_if_ended r now b1) !! (bp_id policy, subject) = Some r).
  { unfold roll_if_ended. destruct (b_heap b1 !! r) as [c|]; [destruct (window_ended c now)|]; done. }
  set (b2 := roll_if_ended r now b1) in *. assert (Hg2 : grows b b2) by by eapply grows_then.
  destruct (b_heap b2 !! r) as [c|]; [|done]. destruct (negb (c_synced c)).
  { destruct (ask_spec (bp_id policy) subject r b2 Hb2 Hr2) as [Hb3 Hv3]. split; [done|by eapply grows_then]. }
  cbv zeta. destruct (_ || _); [done|]. unfold check_reserve.
  assert (Hb3 : table_fine (update r (reserve est) b2)) by by apply update_fine.
  assert (Hv3 : view (update r (reserve est) b2) = view b2) by apply view_update_quiet, quiet_reserve.
  set (b3 := update r (reserve est) b2) in *. assert (Hg3 : grows b b3) by by eapply grows_then.
  destruct (b_heap b3 !! r) as [c'|]; [|done]. destruct (_ >? _); [|done].
  destruct (ask_spec (bp_id policy) subject r b3 Hb3 Hr2) as [Hb4 Hv4]. split; [done|by eapply grows_then].
Qed.

Lemma refresh_spec b policy subject now :
  table_fine b -> policy_fine policy ->
  table_fine (refresh_if_stale b policy subject now).2 /\ grows b (refresh_if_stale b policy subject now).2.
Proof.
  intros Hb Hp. unfold refresh_if_stale. pose proof (counter_spec b policy subject Hb Hp) as Hc.
  destruct (counter b policy subject) as [r b1]. destruct Hc as (Hb1 & Hr & Hg).
  destruct (b_heap b1 !! r) as [c|]; [|done]. destruct (negb (c_synced c)); [done|]. destruct (_ <? _); [done|].
  destruct (ask_spec (bp_id policy) subject r b1 Hb1 Hr) as [Hb2 Hv2]. split; [done|by eapply grows_then].
Qed.

Lemma ask_counters policy subject r b : b_counters (ask policy subject r b) = b_counters b.
Proof. unfold ask. destruct (b_heap b !! r) as [c|]; [|done]. destruct (c_syncing c); [done|]. by destruct (_ <? _)%nat. Qed.

Lemma sync_all_spec now b : table_fine b -> table_fine (sync_all now b) /\ view (sync_all now b) = view b.
Proof.
  unfold sync_all.
  assert (Hl : Forall (fun e => b_counters b !! e.1 = Some e.2) (map_to_list (b_counters b))).
  { apply Forall_forall. intros [k r] Hin. by apply elem_of_map_to_list in Hin. }
  revert Hl. generalize (map_to_list (b_counters b)). intros l. revert b. induction l as [|[[pid sub] r] l IH]; intros b Hl Hb; [done|].
  apply Forall_cons in Hl as [Hr Hl]. cbn [foldl sync_entry]. destruct (b_heap b !! r) as [c|]; [|by apply IH].
  destruct (_ || _ || _); [|by apply IH]. destruct (ask_spec pid sub r b Hb Hr) as [Hb' Hv'].
  destruct (IH (ask pid sub r b)) as [Hb2 Hv2]; [|done|by rewrite Hv2].
  by rewrite ask_counters.
Qed.
(** ** A pod *)

Definition unsynced (b : Budgets) : Z := match view b with Some (u, _, _, _) => u | None => 0 end.

Record pod_fine (p : Pod) : Prop := {
  pf_table : table_fine (p_budgets p);
  pf_window : in_window (p_budgets p);
  pf_idle : p_inflight p = None;
  pf_unsynced : 0 <= unsynced (p_budgets p);
}.

(** What an event settles on the counter. *)
Definition settled_by (p : Pod) (e : Event) : Z :=
  match e with
  | Settle i tokens =>
      match p_reservations p !! i with
      | Some rv =>
          if rv_settled rv then 0
          else if bool_decide (b_counters (p_budgets p) !! key = Some (rv_counter rv)) then
            match b_heap (p_budgets p) !! rv_counter rv with Some c => settle_actual (c_unit c) tokens | None => 0 end
          else 0
      | None => 0
      end
  | _ => 0
  end.

Definition local_ok (e : Event) : Prop :=
  match e with
  | Check_ policy _ _ now => policy_fine policy /\ now < stop
  | Refresh policy _ _ => policy_fine policy
  | Settle _ tokens => tokens_u32 tokens
  | Tick _ | NoClient => True
  | Ship | Answered _ _ _ | Failed => False
  end.

Lemma settled_by_nonneg p e : local_ok e -> 0 <= settled_by p e.
Proof.
  intros He. destruct e as [| |i tokens| | | | |]; try done. unfold settled_by. simpl in He.
  destruct (p_reservations p !! i) as [rv|]; [|done]. destruct (rv_settled rv); [done|]. destruct (bool_decide _); [|done].
  destruct (b_heap _ !! _) as [c|]; [|done]. unfold settle_actual. destruct (c_unit c), tokens as [t|]; try lia.
  unfold tokens_u32, in_u in He. lia.
Qed.

Lemma pod_fine_grows p b' rs :
  pod_fine p -> table_fine b' -> grows (p_budgets p) b' ->
  let p' := {| p_budgets := b'; p_reservations := rs; p_inflight := p_inflight p |} in
  pod_fine p' /\ unsynced (p_budgets p') = unsynced (p_budgets p).
Proof.
  intros [Ht Hw Hi Hu] Hb' Hg. cbn [p_budgets]. assert (Hun : unsynced b' = unsynced (p_budgets p)).
  { unfold unsynced. destruct Hg as [->|(-> & u & ->)]; done. }
  split; [|done]. split; cbn [p_budgets p_inflight]; [done|by eapply grows_in_window|done|lia].
Qed.

Lemma settle_spec p i tokens :
  pod_fine p -> tokens_u32 tokens -> unsynced (p_budgets p) + settled_by p (Settle i tokens) < 2 ^ 64 ->
  pod_fine (settle p i tokens) /\
  unsynced (p_budgets (settle p i tokens)) = unsynced (p_budgets p) + settled_by p (Settle i tokens).
Proof.
  intros Hp Ht Hb. pose proof Hp as [Hf Hw Hi Hu]. pose proof (settled_by_nonneg p (Settle i tokens) Ht) as Hpos.
  unfold settle, settled_by in *. destruct (p_reservations p !! i) as [rv|]; [|split; [done|lia]].
  destruct (rv_settled rv); [split; [done|lia]|].
  set (f := settle_counter (rv_estimate rv) tokens). destruct (bool_decide_reflect (b_counters (p_budgets p) !! key = Some (rv_counter rv))) as [Hk|Hk].
  - destruct (fine_dom _ Hf key _ Hk) as [c Hc]. rewrite Hc in Hb, Hpos |- *.
    assert (Hv : view (p_budgets p) = Some (counter_view c)) by (unfold view; by rewrite Hk, Hc).
    assert (Hv' : view (update (rv_counter rv) f (p_budgets p)) =
                  Some (c_unsynced_spent c + settle_actual (c_unit c) tokens, c_window_end c, c_window c, c_unit c)).
    { unfold view. simpl. rewrite Hk, lookup_alter_eq, Hc. unfold unsynced in Hb, Hu. rewrite Hv in Hb, Hu. simpl in *.
      unfold f, settle_counter, counter_view. destruct c; simpl in *. unfold wrapping_add. rewrite Z.mod_small by lia. done. }
    assert (Hun : unsynced (update (rv_counter rv) f (p_budgets p)) = unsynced (p_budgets p) + settle_actual (c_unit c) tokens)
      by (unfold unsynced; by rewrite Hv, Hv').
    split; [|done]. split; cbn [p_budgets p_inflight]; [by apply update_fine| |done|lia].
    unfold in_window in *. rewrite Hv in Hw. by rewrite Hv'.
  - destruct (pod_fine_grows p (update (rv_counter rv) f (p_budgets p))
      (<[i := {| rv_counter := rv_counter rv; rv_estimate := rv_estimate rv; rv_settled := true |}]> (p_reservations p))) as [H1 H2];
      [done|by apply update_fine|left; by apply view_update_other|]. split; [exact H1|]. rewrite Z.add_0_r. exact H2.
Qed.

Lemma take_ask_spec p a b :
  pod_fine p -> take_ask p = Some (a, b) ->
  table_fine b /\ view b = view (p_budgets p) /\ b_counters b !! (ask_policy_id a, ask_subject a) = Some (ask_counter a).
Proof.
  intros [[Hi Hd Ha] Hw Hidle Hu]. unfold take_ask. rewrite Hidle. destruct (b_asks (p_budgets p)) as [|a' rest]; [done|]. intros [= <- <-].
  apply Forall_cons in Ha as [Ha Hrest]. split; [by split|]. done.
Qed.

Lemma local_step p e :
  pod_fine p -> local_ok e -> unsynced (p_budgets p) + settled_by p e < 2 ^ 64 ->
  pod_fine (step p e) /\ unsynced (p_budgets (step p e)) = unsynced (p_budgets p) + settled_by p e.
Proof.
  intros Hp He Hb. pose proof Hp as [Hf Hw Hi Hu].
  destruct e as [policy subject est now|policy subject now|i tokens|now| | | |]; try done; cbn [step settled_by] in *; rewrite ?Z.add_0_r in *.
  - destruct He as [Hpol Hn]. destruct (check_spec (p_budgets p) policy subject est now Hf Hw Hn Hpol) as [Hf' Hg].
    unfold pod_check. destruct (check (p_budgets p) policy subject est now) as [v b]. by apply pod_fine_grows.
  - destruct (refresh_spec (p_budgets p) policy subject now Hf He) as [Hf' Hg]. by apply pod_fine_grows.
  - by apply settle_spec.
  - destruct (sync_all_spec now (p_budgets p) Hf) as [Hf' Hv]. apply pod_fine_grows; [done|done|by left].
  - unfold sync_no_client. destruct (take_ask p) as [[a b]|] eqn:Ea; [|done].
    destruct (take_ask_spec p a b Hp Ea) as (Hfb & Hvb & Hka).
    apply pod_fine_grows; [done|by apply update_fine|left]. rewrite view_update; [done|]. intros c Hk Hc.
    assert (Hcv : view b = Some (counter_view c)) by (unfold view; by rewrite Hk, Hc).
    unfold unsynced in Hu, Hb. rewrite <- Hvb, Hcv in Hu, Hb. simpl in Hu, Hb. unfold sync_failed, counter_view.
    destruct c; simpl in *. unfold wrapping_add. rewrite Z.add_0_r, Z.mod_small by lia. done.
Qed.
End View.

(** ** The ledger's side of an exchange *)

Section Accounting.
Context `{EJ : EventJson} `{LJ : LabelsJson} (events : option EventConfig).
Context (key : string * string) (w : Window) (stop : Z).

Definition spent_at (db : Db) : Z := sr_spent (row_at db (key.1, key.2, stop)).

Lemma sync_spend_other policy subject window delta now shape db :
  (policy, subject) <> key -> spent_at (sync_spend events policy subject window delta now shape db).2 = spent_at db.
Proof.
  intros Hne. unfold sync_spend. destruct (sync_alerting _ _ _ _ _ _ _ _) as [[[s|] db']|] eqn:E; cbn [snd]; [..|done].
  - unfold spent_at, row_at. rewrite enqueue_all_spend. f_equal. f_equal. revert E. unfold sync_alerting.
    destruct (window_end window now) as [end_|]; [|done]. cbv zeta. unfold add_spend.
    assert (Hkey : (policy, subject, as_i 64 end_) <> (key.1, key.2, stop)) by (intros [= Hp Hs _]; apply Hne; destruct key; simpl in *; congruence).
    destruct (db_spend db !! (policy, subject, as_i 64 end_)) as [row|]; [destruct (fits_i64 _); [|done]|];
      (destruct (db_spend _ !! _); [|done]); cbn [ok_or]; intros [= _ <-];
      (destruct (last _) as [top|]; destruct shape as [shp|]; try destruct (shape_listed shp); simpl;
       rewrite ?lookup_alter_ne, ?lookup_insert_ne by done; done).
  - revert E. unfold sync_alerting. destruct (window_end window now); [|by intros [= <-]].
    cbv zeta. destruct (add_spend _ _ _ _); [|done]. destruct (ok_or _ _); done.
Qed.

Lemma add_spend_spent k delta limit db :
  0 <= delta -> 0 <= sr_spent (row_at db k) -> sr_spent (row_at db k) + delta < 2 ^ 63 ->
  exists db' row, add_spend k delta limit db = Ok db' /\ db_spend db' !! k = Some row /\
    sr_spent row = sr_spent (row_at db k) + delta.
Proof.
  unfold add_spend, row_at. intros Hd Hs Hb. destruct (db_spend db !! k) as [row|]; simpl in *.
  - unfold fits_i64. replace (_ && _) with true by lia. eexists _, _. split; [done|]. split; [apply lookup_insert_eq|done].
  - eexists _, _. split; [done|]. split; [apply lookup_insert_eq|done].
Qed.

Lemma sync_spend_key window delta now shape db :
  window_end window now = Some stop -> 0 <= now -> now + window_room < 2 ^ 63 ->
  0 <= delta -> 0 <= spent_at db -> spent_at db + delta < 2 ^ 63 ->
  exists s db', sync_spend events key.1 key.2 window delta now shape db = (Ok (Some s), db') /\
    sy_spent_total s = spent_at db + delta /\ sy_window_end_unix_micros s = stop /\ spent_at db' = spent_at db + delta.
Proof.
  intros Hend H0 Hroom Hd Hs Hb. pose proof (window_end_after _ _ _ H0 Hroom Hend) as Hstop.
  unfold sync_spend, sync_alerting. rewrite Hend. rewrite (as_i_small 64 stop), (as_i_small 64 delta) by lia.
  destruct (add_spend_spent (key.1, key.2, stop) delta (as_i 64 (shape_limit shape)) db Hd Hs Hb) as (db1 & row & Hadd & Hrow & Hspent).
  fold (shape_limit shape). rewrite Hadd.
  set (db2 := match shape with Some s => if shape_listed s then upsert_policy key.1 window s now db1 else db1 | None => db1 end).
  assert (Hdb2 : db_spend db2 = db_spend db1) by (unfold db2; destruct shape as [shp|]; [destruct (shape_listed shp)|]; done).
  rewrite Hdb2, Hrow. cbn [ok_or]. cbv zeta. eexists _, _. split; [reflexivity|]. cbn [sy_spent_total sy_window_end_unix_micros].
  fold (spent_at db) in Hspent. split; [rewrite Hspent, Z.max_l by lia; apply as_u_small; unfold in_u; lia|]. split; [done|].
  rewrite <- Hspent. unfold spent_at, row_at. rewrite enqueue_all_spend.
  destruct (last _) as [top|]; [|by rewrite Hdb2, Hrow]. simpl. by rewrite lookup_alter_eq, Hdb2, Hrow.
Qed.

(** ** The exchange keeps the sum *)

Lemma Window_as_str_end v now : window_end (Window_as_str v) now = Some (end_of v now).
Proof. pose proof (windows_agree (Window_as_str v) now) as Hw. by destruct v. Qed.

(** The pod after the answer to a question about the counter [r]. *)
Definition answered_pod (p : Pod) (r : positive) (b : Budgets) (f : Counter -> Counter) : Pod :=
  {| p_budgets := update r f (update r clear_unsynced b); p_reservations := p_reservations p; p_inflight := None |}.

Lemma answered_other p r b f :
  pod_fine key w stop p -> table_fine b -> view key b = view key (p_budgets p) -> b_counters b !! key <> Some r ->
  pod_fine key w stop (answered_pod p r b f) /\ unsynced key (p_budgets (answered_pod p r b f)) = unsynced key (p_budgets p).
Proof.
  intros [Hf Hw Hi Hu] Hfb Hvb Hne. unfold answered_pod. cbn [p_budgets].
  assert (Hv : view key (update r f (update r clear_unsynced b)) = view key (p_budgets p)).
  { rewrite !view_update_other; [done|done|exact Hne]. }
  unfold unsynced in *. split; [|by rewrite Hv]. split; cbn [p_budgets p_inflight]; [by apply update_fine, update_fine| |done|].
  - unfold in_window. by rewrite Hv.
  - unfold unsynced. by rewrite Hv.
Qed.

Lemma answered_key p r b c total now :
  pod_fine key w stop p -> table_fine b -> b_counters b !! key = Some r -> b_heap b !! r = Some c -> c_window c = w ->
  0 <= c_unsynced_spent c ->
  let p' := answered_pod p r b (apply_sync total stop (c_unsynced_spent c) now) in
  pod_fine key w stop p' /\ unsynced key (p_budgets p') = 0.
Proof.
  intros [Hf Hw Hi Hu] Hfb Hk Hc Hcw Hpos. cbv zeta. unfold answered_pod. cbn [p_budgets].
  set (f := apply_sync total stop (c_unsynced_spent c) now).
  assert (Hv : view key (update r f (update r clear_unsynced b)) = Some (0, stop, w, c_unit c)).
  { unfold view. simpl. rewrite Hk, !lookup_alter_eq, Hc. simpl. unfold f, apply_sync, counter_view. destruct c; simpl in *. subst.
    unfold saturating_sub. destruct (_ =? _); repeat f_equal; lia. }
  assert (Hun : unsynced key (update r f (update r clear_unsynced b)) = 0) by (unfold unsynced; by rewrite Hv).
  split; [|done]. split; cbn [p_budgets p_inflight]; [by apply update_fine, update_fine| |done|by rewrite Hun].
  unfold in_window. rewrite Hv. split; [by right|done].
Qed.

(** An exchange moves what the pod has not shipped to the ledger. *)
Lemma exchange_spec p now now' db :
  pod_fine key w stop p -> is_empty key.1 = false -> is_empty key.2 = false ->
  end_of w now = stop -> 0 <= now -> now + window_room < 2 ^ 63 ->
  0 <= spent_at db -> spent_at db + unsynced key (p_budgets p) < 2 ^ 63 ->
  let '(p', db') := exchange events p now now' db in
  pod_fine key w stop p' /\ 0 <= spent_at db' /\
  spent_at db' + unsynced key (p_budgets p') = spent_at db + unsynced key (p_budgets p).
Proof.
  intros Hp Hk1 Hk2 Hend H0 Hroom Hs Hb. unfold exchange, sync_ship.
  destruct (take_ask p) as [[a b]|] eqn:Ea; [|by rewrite (pf_idle _ _ _ _ Hp)].
  destruct (take_ask_spec key w stop p a b Hp Ea) as (Hfb & Hvb & Hka).
  destruct (fine_dom _ Hfb _ _ Hka) as [c Hc]. rewrite Hc. cbn [p_inflight p_budgets update b_heap]. rewrite lookup_alter_eq, Hc.
  cbn [fmap option_fmap option_map]. set (req := sync_request a (c_unsynced_spent c) (clear_unsynced c)).
  destruct (decide ((ask_policy_id a, ask_subject a) = key)) as [Hkey|Hkey].
  - assert (Hv : view key b = Some (counter_view c)) by (unfold view; by rewrite <- Hkey, Hka, Hc).
    assert (Hcw : c_window c = w).
    { pose proof (pf_window _ _ _ _ Hp) as Hw. unfold in_window in Hw. rewrite <- Hvb, Hv in Hw. apply Hw. }
    assert (Hun : unsynced key (p_budgets p) = c_unsynced_spent c) by (unfold unsynced; by rewrite <- Hvb, Hv).
    pose proof (pf_unsynced _ _ _ _ Hp) as Hu. rewrite Hun in Hu, Hb |- *.
    assert (Hreq : rq_policy req = key.1 /\ rq_subject req = key.2 /\ rq_window req = Window_as_str w).
    { unfold req. destruct c. simpl in *. subst. by rewrite <- Hkey. }
    destruct Hreq as (E1 & E2 & E3). unfold ledger_sync. rewrite E1, E2, E3, Hk1, Hk2. cbn [orb].
    destruct (sync_spend_key (Window_as_str w) (c_unsynced_spent c) now (request_shape req) db) as (sy & db' & Hsync & Ht & Hst & Hs');
      [by rewrite Window_as_str_end, Hend|done|done|done|done|done|].
    change (rq_spent_delta req) with (c_unsynced_spent c). rewrite Hsync, Ht, Hst.
    destruct (answered_key p (ask_counter a) b c (spent_at db + c_unsynced_spent c) now' Hp Hfb) as [Hp' Hu'];
      [by rewrite <- Hkey|done|done|done|]. split; [exact Hp'|]. split; [lia|]. rewrite Hs'. etransitivity; [|apply Z.add_0_r]. f_equal. exact Hu'.
  - assert (Hr : b_counters b !! key <> Some (ask_counter a)).
    { intros Hr. by apply Hkey, (fine_inj _ Hfb _ _ _ Hka Hr). }
    assert (Hl : spent_at (ledger_sync events req now db).2 = spent_at db).
    { unfold ledger_sync. destruct (_ || _); [done|].
      pose proof (sync_spend_other (rq_policy req) (rq_subject req) (rq_window req) (rq_spent_delta req) now (request_shape req) db Hkey) as Ho.
      destruct (sync_spend _ _ _ _ _ _ _ _) as [[[sy|]|] db']; exact Ho. }
    destruct (ledger_sync events req now db) as [[[total st]|] db']; cbn [snd] in Hl; rewrite Hl.
    + destruct (answered_other p (ask_counter a) b (apply_sync total st (c_unsynced_spent c) now') Hp Hfb Hvb Hr) as [Hp' Hu'].
      split; [exact Hp'|]. split; [done|]. f_equal. exact Hu'.
    + destruct (answered_other p (ask_counter a) b (sync_failed (c_unsynced_spent c)) Hp Hfb Hvb Hr) as [Hp' Hu'].
      split; [exact Hp'|]. split; [done|]. f_equal. exact Hu'.
Qed.
(** ** The system's books *)

Definition unsynced_sum (pods : list Pod) : Z := foldr (fun p acc => unsynced key (p_budgets p) + acc) 0 pods.

Lemma unsynced_sum_insert pods i p p' :
  pods !! i = Some p ->
  unsynced_sum (<[i := p']> pods) = unsynced_sum pods - unsynced key (p_budgets p) + unsynced key (p_budgets p').
Proof. revert i. induction pods as [|x pods IH]; intros [|i] Hi; simplify_eq/=; [lia|]. fold unsynced_sum. rewrite (IH i Hi). lia. Qed.

Lemma unsynced_sum_elem pods i p :
  Forall (pod_fine key w stop) pods -> pods !! i = Some p -> 0 <= unsynced key (p_budgets p) <= unsynced_sum pods.
Proof.
  intros Hf. assert (Hpos : forall l, Forall (pod_fine key w stop) l -> 0 <= unsynced_sum l).
  { induction 1 as [|x l Hx Hl IH]; [done|]. cbn [unsynced_sum foldr]. fold (unsynced_sum l). pose proof (pf_unsynced _ _ _ _ Hx). lia. }
  revert i. induction Hf as [|x l Hx Hl IH]; intros [|i] Hi; simplify_eq/=.
  - pose proof (pf_unsynced _ _ _ _ Hx). pose proof (Hpos l Hl). unfold unsynced_sum in *. lia.
  - specialize (IH i Hi). pose proof (pf_unsynced _ _ _ _ Hx). unfold unsynced_sum in *. lia.
Qed.

(** All times are in the window, and exchanges are not cut in two. *)
Definition sys_ok (e : SysEvent) : Prop :=
  match e with
  | Local _ e => local_ok key w stop e
  | Exchange _ now _ => 0 <= now /\ now + window_room < 2 ^ 63 /\ end_of w now = stop
  end.

Definition event_settles (s : System) (e : SysEvent) : Z :=
  match e with
  | Local i e => match sys_pods s !! i with Some p => settled_by key p e | None => 0 end
  | Exchange _ _ _ => 0
  end.

(** Everything settled on the counter along a run. *)
Fixpoint sys_settled (s : System) (es : list SysEvent) : Z :=
  match es with [] => 0 | e :: es => event_settles s e + sys_settled (sys_step events s e) es end.

Record books (total : Z) (s : System) : Prop := {
  bk_pods : Forall (pod_fine key w stop) (sys_pods s);
  bk_spent : 0 <= spent_at (sys_db s);
  bk_sum : spent_at (sys_db s) + unsynced_sum (sys_pods s) = total;
}.

Lemma books_step total s e :
  is_empty key.1 = false -> is_empty key.2 = false ->
  books total s -> sys_ok e -> total + event_settles s e < 2 ^ 63 ->
  0 <= event_settles s e /\ books (total + event_settles s e) (sys_step events s e).
Proof.
  intros Hk1 Hk2 [Hf Hs Hsum] He Hb. destruct e as [i e|i now now']; simpl in *.
  - destruct (sys_pods s !! i) as [p|] eqn:Hi; [|rewrite Z.add_0_r; by split].
    pose proof (unsynced_sum_elem _ _ _ Hf Hi) as Hle. pose proof (settled_by_nonneg key w stop p e He).
    destruct (local_step key w stop p e) as [Hp' Hu']; [by eapply Forall_lookup_1|done|lia|]. split; [done|]. split; simpl.
    + by apply Forall_insert.
    + done.
    + rewrite (unsynced_sum_insert _ _ _ _ Hi). lia.
  - destruct He as (H0 & Hroom & Hend). rewrite Z.add_0_r in *. split; [done|].
    destruct (sys_pods s !! i) as [p|] eqn:Hi; [|by split].
    pose proof (unsynced_sum_elem _ _ _ Hf Hi) as Hle.
    pose proof (exchange_spec p now now' (sys_db s) (Forall_lookup_1 _ _ _ _ Hf Hi) Hk1 Hk2 Hend H0 Hroom Hs ltac:(lia)) as Hx.
    destruct (exchange events p now now' (sys_db s)) as [p' db']. destruct Hx as (Hp' & Hs' & Hx). split; simpl.
    + by apply Forall_insert.
    + done.
    + rewrite (unsynced_sum_insert _ _ _ _ Hi). lia.
Qed.

Lemma sys_settled_nonneg es : forall s, Forall sys_ok es -> 0 <= sys_settled s es.
Proof.
  induction es as [|e es IH]; intros s Hes; [done|]. apply Forall_cons in Hes as [He Hes]. cbn [sys_settled].
  specialize (IH (sys_step events s e) Hes). enough (0 <= event_settles s e) by lia.
  destruct e as [i e|]; simpl in *; [|done]. destruct (sys_pods s !! i) as [p|]; [|done]. by eapply settled_by_nonneg.
Qed.

Lemma books_run es : forall total s,
  is_empty key.1 = false -> is_empty key.2 = false -> books total s -> Forall sys_ok es ->
  total + sys_settled s es < 2 ^ 63 -> books (total + sys_settled s es) (sys_run events s es).
Proof.
  induction es as [|e es IH]; intros total s Hk1 Hk2 Hs Hes Hb; [by rewrite Z.add_0_r|].
  apply Forall_cons in Hes as [He Hes]. cbn [sys_settled sys_run fold_left] in *.
  pose proof (sys_settled_nonneg es (sys_step events s e) Hes).
  destruct (books_step total s e) as [_ Hs']; [done..|lia|]. rewrite Z.add_assoc. apply IH; [done..|]. lia.
Qed.

Lemma books_start n db : db_spend db = ∅ -> books 0 (System_start n db).
Proof.
  intros Hdb. assert (Hz : spent_at db = 0) by (unfold spent_at, row_at; by rewrite Hdb).
  split; simpl; rewrite ?Hz; [|done|].
  - apply Forall_replicate. split; simpl; [|done..]. by split.
  - rewrite Z.add_0_l. unfold unsynced_sum. induction n as [|n IH]; [done|]. simpl. by rewrite IH.
Qed.

End Accounting.

(** ** A run of two pods *)

Module Sample.
Import Ledger.Sample.

Definition policy : BudgetPolicy :=
  {| bp_id := "p"; bp_limit := 1000; bp_route_limit := 1000; bp_unit := UnitTokens; bp_window := Hourly;
     bp_per := ScopeKey; bp_fail_open := true; bp_fallback := None |}.
Definition tokens (n : Z) : option Tokens :=
  Some {| tok_input := n; tok_output := 0; tok_cache_read := 0; tok_cache_creation := 0 |}.

(** Both pods learn the total, spend 200 and 150, and one of them reports. *)
Definition run_events : list SysEvent :=
  [Local 0 (Check_ policy "7" 300 1000); Local 1 (Check_ policy "7" 300 1001); Exchange 0 1002 1003; Exchange 1 1004 1005;
   Local 0 (Check_ policy "7" 300 1006); Local 1 (Check_ policy "7" 400 1007); Local 0 (Settle 0 (tokens 200));
   Local 1 (Settle 0 (tokens 150)); Local 0 (Tick 9000000); Exchange 0 9000001 9000002].

Lemma run_events_ok : Forall (sys_ok ("p", "7") Hourly 3600000000) run_events.
Proof. repeat constructor; vm_compute; congruence. Qed.

Definition final : System := sys_run config (System_start 2 db0) run_events.

End Sample.
