(* ===== verification/Resources.v ===== *)
(** * The controller's resource store

    The state records of [portus-controller/src/store.rs]: what the
    reconcilers have validated and what the compiler reads.  A [DashMap] is a
    [gmap]; walking one visits every entry once, in an order that is not
    specified, so it is a parameter ([IterOrder]) of the definitions that walk
    a map.  Timestamps are ordered numbers.  What the data planes have applied
    and the compiler has published is in [Programmed]. *)
From S2P Require Import Prelude Text Proto.
From Stdlib Require Import String.
Open Scope Z_scope.

(** ** Maps and their iteration *)

(** The order in which the entries of a hash map are visited. *)
Class IterOrder := {
  iter_order {A} : list A -> list A;
  iter_order_perm {A} (l : list A) : iter_order l ≡ₚ l;
}.

(** One such order, for concrete runs. *)
Definition listed_order : IterOrder := {| iter_order _ l := l; iter_order_perm _ l := Permutation_refl l |}.

Lemma iter_small (o : IterOrder) {A} (l : list A) : (List.length l <= 1)%nat -> @iter_order o A l = l.
Proof.
  intros Hl. pose proof (@iter_order_perm o A l) as Hp. destruct l as [|x [|y l]]; [by apply Permutation_nil_r in Hp| |simpl in Hl; lia].
  by apply Permutation_singleton_r.
Qed.

Section Entries.
Context `{IO : IterOrder} `{Countable K} {V : Type}.

(** [iter] of a map *)
Definition entries (m : gmap K V) : list (K * V) := iter_order (map_to_list m).

Lemma entries_elem m k v : (k, v) ∈ entries m <-> m !! k = Some v.
Proof. unfold entries. rewrite iter_order_perm. apply elem_of_map_to_list. Qed.

Lemma entries_nodup m : NoDup (map fst (entries m)).
Proof. unfold entries. rewrite iter_order_perm. apply NoDup_fst_map_to_list. Qed.

Lemma entries_empty (m : gmap K V) : m = ∅ -> entries m = [].
Proof. intros ->. unfold entries. rewrite map_to_list_empty. apply iter_small. simpl. lia. Qed.

Lemma entries_single (m : gmap K V) k v : m = {[ k := v ]} -> entries m = [(k, v)].
Proof. intros ->. unfold entries. rewrite map_to_list_singleton. apply iter_small. simpl. lia. Qed.

(** Rewriting a list of entries one after another. *)
Lemma fold_alter (f : K -> V -> V) (l : list K) (m : gmap K V) k :
  NoDup l ->
  fold_left (fun m k => alter (f k) k m) l m !! k = (if bool_decide (k ∈ l) then f k <$> m !! k else m !! k).
Proof.
  intros Hnd. revert m. induction Hnd as [|x l Hx _ IH]; intros m; simpl.
  - by destruct (bool_decide_reflect (k ∈ [])) as [[]%elem_of_nil|].
  - rewrite IH. destruct (decide (k = x)) as [->|Hk].
    + rewrite lookup_alter_eq. by rewrite (bool_decide_eq_false_2 (x ∈ l) Hx), (bool_decide_eq_true_2 (x ∈ x :: l)) by (by left).
    + rewrite lookup_alter_ne by done. 
      rewrite (bool_decide_ext (k ∈ x :: l) (k ∈ l)); [done|]. rewrite elem_of_cons. naive_solver.
Qed.
End Entries.

(** The running best of a list: with a total and transitive comparison it is
    an element no other element beats. *)
Section RunningBest.
Context {A : Type} (R : A -> A -> bool).
Hypothesis total : forall x y, R x y = false -> R y x = true.
Hypothesis trans : forall x y z, R x y = true -> R y z = true -> R x z = true.

Definition running_best (l : list A) (h : A) : A := fold_left (fun w c => if R w c then w else c) l h.

Lemma running_best_best l h : running_best l h ∈ h :: l /\ forall c, c ∈ h :: l -> R (running_best l h) c = true.
Proof.
  assert (refl : forall x, R x x = true) by (intros x; destruct (R x x) eqn:E; [done|by rewrite <- (total x x E), E]).
  revert h. induction l as [|c l IH]; intros h; simpl.
  - split; [by left|]. intros c ->%list_elem_of_singleton. apply refl.
  - destruct (R h c) eqn:Hc.
    + destruct (IH h) as [Hin Hb]. split; [set_solver|]. intros x [->|[->|Hx]%elem_of_cons]%elem_of_cons.
      * apply Hb. by left.
      * eapply trans; [|exact Hc]. apply Hb. by left.
      * apply Hb. by right.
    + destruct (IH c) as [Hin Hb]. split; [set_solver|]. intros x [->|[->|Hx]%elem_of_cons]%elem_of_cons.
      * eapply trans; [apply Hb; by left|]. by apply total.
      * apply Hb. by left.
      * apply Hb. by right.
Qed.
End RunningBest.

Record NamespacedName := { nn_namespace : string; nn_name : string }.

#[export] Instance NamespacedName_eq : EqDecision NamespacedName.
Proof. solve_decision. Defined.

#[export] Instance NamespacedName_countable : Countable NamespacedName.
Proof.
  apply (inj_countable' (fun k => (nn_namespace k, nn_name k)) (fun p => {| nn_namespace := p.1; nn_name := p.2 |})).
  by intros [].
Defined.

(** [Display] *)
Definition show_name (k : NamespacedName) : string := nn_namespace k +:+ "/" +:+ nn_name k.

Record ServiceKey := { sk_namespace : string; sk_name : string; sk_port : Z }.

#[export] Instance ServiceKey_eq : EqDecision ServiceKey.
Proof. solve_decision. Defined.

#[export] Instance ServiceKey_countable : Countable ServiceKey.
Proof.
  apply (inj_countable' (fun k => (sk_namespace k, sk_name k, sk_port k))
                        (fun p => {| sk_namespace := p.1.1; sk_name := p.1.2; sk_port := p.2 |})).
  by intros [].
Defined.

(** ** Gateways and listeners *)

Record AllowedRoutesState := {
  ar_namespaces_from : string;
  ar_namespace_selector : option (list (string * string));
}.

Record ListenerState := {
  lst_name : string;
  lst_port : Z;
  lst_protocol : string;
  lst_hostname : option string;
  lst_accepted : bool;
  lst_conflicted : bool;
  lst_resolved_refs : bool;
  lst_allowed_routes : AllowedRoutesState;
  lst_tls_cert_refs : list (string * string);
  lst_tls_mode : option string;
}.

Record GatewayState := {
  gs_name : string;
  gs_namespace : string;
  gs_listeners : list ListenerState;
  gs_generation : Z;
  gs_allowed_listener_namespaces_from : option string;
  gs_allowed_listener_match_labels : list (string * string);
}.

Record ListenerSetState := {
  lss_name : string;
  lss_namespace : string;
  lss_parent_gateway : NamespacedName;
  lss_listeners : list ListenerState;
  lss_accepted : bool;
  lss_generation : Z;
  lss_not_accepted_reason : option string;
  lss_creation_timestamp : Z;
}.

Record ClientValidationRefs := {
  cvr_ca_config_maps : list NamespacedName;
  cvr_mode : string;
  cvr_ref_error : option (string * string);
}.

Inductive ClientValidationOutcome :=
| Valid (v : ClientValidationRefs)
| Invalid (reason message : string).

Record GatewayTlsState := {
  gts_frontend_default : option ClientValidationOutcome;
  gts_frontend_per_port : gmap Z ClientValidationOutcome;
  gts_backend_client_cert_ref : option NamespacedName;
}.

(** [frontend_validation_for_port] *)
Definition frontend_validation_for_port (tls : GatewayTlsState) (port : Z) : option ClientValidationOutcome :=
  match gts_frontend_per_port tls !! port with
  | Some v => Some v
  | None => gts_frontend_default tls
  end.

(** ** Routes *)

Inductive ParentKind := ParentGateway | ParentListenerSet.

#[export] Instance ParentKind_eq : EqDecision ParentKind.
Proof. solve_decision. Defined.

Record ParentRefState := {
  pref_parent_kind : ParentKind;
  pref_gateway_namespace : string;
  pref_gateway_name : string;
  pref_section_name : option string;
  pref_port : option Z;
  pref_accepted : bool;
  pref_resolved_refs : bool;
  pref_reject_reason : option string;
}.

Inductive HTTPFilterState :=
| FRequestHeaderModifier (add set : list (string * string)) (remove : list string)
| FResponseHeaderModifier (add set : list (string * string)) (remove : list string)
| FRequestRedirect (scheme hostname : option string) (port : option Z) (path path_type : option string) (status_code : Z)
| FURLRewrite (hostname path path_type : option string)
| FRequestMirror (backend_namespace backend_name : string) (backend_port percent : Z)
| FCORS (allow_origins allow_methods allow_headers expose_headers : list string) (allow_credentials : bool) (max_age : option Z).

Record BackendRefState := {
  brs_namespace : string;
  brs_name : string;
  brs_port : Z;
  brs_weight : Z;
  brs_filters : list HTTPFilterState;
}.

Record HTTPRouteMatchState := {
  hrm_path : option (string * string);
  hrm_headers : list (string * string * string);
  hrm_method : option string;
  hrm_query_params : list (string * string * string);
}.

Record RouteRetryState := { rrs_codes : list Z; rrs_attempts : Z }.

Record HTTPRouteRuleState := {
  hrr_matches : list HTTPRouteMatchState;
  hrr_filters : list HTTPFilterState;
  hrr_backend_refs : list BackendRefState;
  hrr_request_timeout_ms : option Z;
  hrr_backend_request_timeout_ms : option Z;
  hrr_retry : option RouteRetryState;
}.

Record HTTPRouteState := {
  hrs_namespace : string;
  hrs_hostnames : list string;
  hrs_parent_refs : list ParentRefState;
  hrs_rules : list HTTPRouteRuleState;
  hrs_generation : Z;
}.

Record GRPCRouteMatchState := {
  grm_service : option string;
  grm_method : option string;
  grm_match_type : string;
  grm_headers : list (string * string * string);
}.

Record GRPCRouteRuleState := {
  grr_matches : list GRPCRouteMatchState;
  grr_backend_refs : list BackendRefState;
}.

Record GRPCRouteState := {
  grs_namespace : string;
  grs_hostnames : list string;
  grs_parent_refs : list ParentRefState;
  grs_rules : list GRPCRouteRuleState;
  grs_generation : Z;
}.

Record TLSRouteState := {
  trs_namespace : string;
  trs_hostnames : list string;
  trs_parent_refs : list ParentRefState;
  trs_backend_refs : list BackendRefState;
  trs_generation : Z;
  trs_resolved_reason : string;
}.

Record L4RouteState := {
  lrs_namespace : string;
  lrs_parent_refs : list ParentRefState;
  lrs_backend_refs : list BackendRefState;
  lrs_generation : Z;
  lrs_creation_timestamp : option Z;
  lrs_resolved_refs_reason : option string;
}.

(** ** AI resources *)

Record AICredentialState := {
  acs_secret_name : string;
  acs_secret_key : string;
  acs_header : string;
  acs_prefix : string;
}.

Record AIFederationMember := {
  afm_name : string;
  afm_provider : string;
  afm_path : string;
}.

Record AIProviderState := {
  aps_namespace : string;
  aps_name : string;
  aps_kind : string;
  aps_tls : bool;
  aps_host : string;
  aps_port : Z;
  aps_credential : option AICredentialState;
  aps_session_affinity : bool;
  aps_members : list AIFederationMember;
  aps_generation : Z;
}.

Definition AI_PROVIDER_SERVICE_PREFIX : string := "aiprovider/".

Definition ai_provider_service_name (namespace name : string) : string :=
  AI_PROVIDER_SERVICE_PREFIX +:+ namespace +:+ "/" +:+ name.

(** [AIProviderState::service_name] *)
Definition provider_service_name (p : AIProviderState) : string := ai_provider_service_name (aps_namespace p) (aps_name p).

Record AIRouteRuleState := {
  arr_matches : list HTTPRouteMatchState;
  arr_backend_refs : list BackendRefState;
  arr_provider : NamespacedName;
  arr_filters : list HTTPFilterState;
}.

Record AIJwtState := {
  ajs_issuer : string;
  ajs_audience : option string;
  ajs_tenant_claim : string;
  ajs_tools_claim : string;
  ajs_scopes : string;
  ajs_groups_claim : string;
  ajs_tools_by_group : list (string * list string);
}.

Record AIRouteState := {
  ars_namespace : string;
  ars_hostnames : list string;
  ars_parent_refs : list ParentRefState;
  ars_rules : list AIRouteRuleState;
  ars_require_api_key : bool;
  ars_jwt : option AIJwtState;
  ars_on_behalf_of : option (string * list string);
  ars_generation : Z;
}.

(** ** Policies *)

Record PolicyTargetKey := {
  ptk_group : string;
  ptk_kind : string;
  ptk_namespace : string;
  ptk_name : string;
  ptk_section_name : option string;
}.

#[export] Instance PolicyTargetKey_eq : EqDecision PolicyTargetKey.
Proof. solve_decision. Defined.

(** What every policy has beside its settings. *)
Record PolicyMeta := {
  pm_target : PolicyTargetKey;
  pm_generation : Z;
  pm_creation_timestamp : option Z;
  pm_accepted : bool;
}.

#[export] Instance PolicyMeta_eq : EqDecision PolicyMeta.
Proof. solve_decision. Defined.

Record RateLimitPolicyState := { rlps_meta : PolicyMeta; rlps_requests_per_second : Z; rlps_per_client : bool }.
Record CircuitBreakerPolicyState := {
  cbps_meta : PolicyMeta; cbps_failure_threshold : Z; cbps_success_threshold : Z; cbps_timeout_secs : Z }.
Record ConnectionPolicyState := { cnps_meta : PolicyMeta; cnps_max_connections : Z }.
Record BasicAuthPolicyState := {
  baps_meta : PolicyMeta; baps_secret_namespace : string; baps_secret_name : string; baps_realm : string }.
Record ApiKeyAuthPolicyState := {
  akps_meta : PolicyMeta; akps_secret_namespace : string; akps_secret_name : string; akps_header_name : string }.
Record JwtProviderState := {
  jps_issuer : string; jps_audiences : list string; jps_jwks_uri : option string; jps_claim_to_headers : list (string * string) }.
Record JwtAuthPolicyState := { japs_meta : PolicyMeta; japs_providers : list JwtProviderState }.
Record ExtAuthPolicyState := {
  eaps_meta : PolicyMeta; eaps_service_namespace : string; eaps_service_name : string; eaps_port : Z; eaps_path : string;
  eaps_timeout_ms : Z; eaps_fail_open : bool; eaps_request_headers : list string; eaps_response_headers : list string }.
Record IssuerKeysState := {
  iks_jwks_uri : option string; iks_jwks_json : option string; iks_error : option string; iks_fetched_at : Z }.
Record RetryPolicyState := { rtps_meta : PolicyMeta; rtps_max_retries : Z; rtps_retry_on : list string }.
Record IPAllowlistPolicyState := {
  ipps_meta : PolicyMeta; ipps_allow_cidrs : list string; ipps_deny_cidrs : list string; ipps_trusted_proxy_cidrs : list string }.
Record RequestBodySizeLimitPolicyState := { bsps_meta : PolicyMeta; bsps_max_bytes : Z }.
Record HealthCheckPolicyState := {
  hcps_meta : PolicyMeta; hcps_path : string; hcps_interval_secs : Z; hcps_timeout_secs : Z; hcps_healthy_threshold : Z;
  hcps_unhealthy_threshold : Z }.
Record CORSPolicyState := {
  cops_meta : PolicyMeta; cops_allow_origins : list string; cops_allow_methods : list string; cops_allow_headers : list string;
  cops_expose_headers : list string; cops_allow_credentials : bool; cops_max_age : Z }.
Record TimeoutPolicyState := {
  tops_meta : PolicyMeta; tops_request_timeout_ms : Z; tops_backend_request_timeout_ms : Z; tops_connect_timeout_ms : Z }.
Record BackendTLSPolicyState := {
  btps_meta : PolicyMeta; btps_ca_cert_pem : string; btps_hostname : string; btps_subject_alt_names : list (string * string) }.
Record AIUsagePolicyState := {
  aups_meta : PolicyMeta; aups_limit : Z; aups_unit : string; aups_window : string; aups_per : string; aups_fail_open : bool;
  aups_fallback_model : string; aups_overflow_limit : Z }.

(** [PolicyState]: the interface every policy of the store implements. *)
Class PolicyState (P : Type) := {
  policy_meta : P -> PolicyMeta;
  set_accepted : bool -> P -> P;
}.

Definition meta_accepted (v : bool) (m : PolicyMeta) : PolicyMeta :=
  {| pm_target := pm_target m; pm_generation := pm_generation m; pm_creation_timestamp := pm_creation_timestamp m;
     pm_accepted := v |}.

Definition policy_target `{PolicyState P} (p : P) : PolicyTargetKey := pm_target (policy_meta p).
Definition policy_accepted `{PolicyState P} (p : P) : bool := pm_accepted (policy_meta p).

(** What a reconciler relies on: accepting changes the flag and nothing else
    of what conflicts are decided by. *)
Class PolicyLaws (P : Type) `{PolicyState P} := {
  set_accepted_meta v p : policy_meta (set_accepted v p) = meta_accepted v (policy_meta p);
  set_accepted_id p : set_accepted (policy_accepted p) p = p;
}.

#[export] Instance RateLimitPolicyState_policy : PolicyState RateLimitPolicyState := {|
  policy_meta := rlps_meta;
  set_accepted v p := {| rlps_meta := meta_accepted v (rlps_meta p); rlps_requests_per_second := rlps_requests_per_second p;
                         rlps_per_client := rlps_per_client p |};
|}.

#[export] Instance RateLimitPolicyState_laws : PolicyLaws RateLimitPolicyState.
Proof. split; [done|by intros [[]]]. Qed.

#[export] Instance CircuitBreakerPolicyState_policy : PolicyState CircuitBreakerPolicyState := {|
  policy_meta := cbps_meta;
  set_accepted v p := {| cbps_meta := meta_accepted v (cbps_meta p); cbps_failure_threshold := cbps_failure_threshold p;
                         cbps_success_threshold := cbps_success_threshold p; cbps_timeout_secs := cbps_timeout_secs p |};
|}.

#[export] Instance ConnectionPolicyState_policy : PolicyState ConnectionPolicyState := {|
  policy_meta := cnps_meta;
  set_accepted v p := {| cnps_meta := meta_accepted v (cnps_meta p); cnps_max_connections := cnps_max_connections p |};
|}.

#[export] Instance BasicAuthPolicyState_policy : PolicyState BasicAuthPolicyState := {|
  policy_meta := baps_meta;
  set_accepted v p := {| baps_meta := meta_accepted v (baps_meta p); baps_secret_namespace := baps_secret_namespace p;
                         baps_secret_name := baps_secret_name p; baps_realm := baps_realm p |};
|}.

#[export] Instance ApiKeyAuthPolicyState_policy : PolicyState ApiKeyAuthPolicyState := {|
  policy_meta := akps_meta;
  set_accepted v p := {| akps_meta := meta_accepted v (akps_meta p); akps_secret_namespace := akps_secret_namespace p;
                         akps_secret_name := akps_secret_name p; akps_header_name := akps_header_name p |};
|}.

#[export] Instance JwtAuthPolicyState_policy : PolicyState JwtAuthPolicyState := {|
  policy_meta := japs_meta;
  set_accepted v p := {| japs_meta := meta_accepted v (japs_meta p); japs_providers := japs_providers p |};
|}.

#[export] Instance ExtAuthPolicyState_policy : PolicyState ExtAuthPolicyState := {|
  policy_meta := eaps_meta;
  set_accepted v p := {| eaps_meta := meta_accepted v (eaps_meta p); eaps_service_namespace := eaps_service_namespace p;
                         eaps_service_name := eaps_service_name p; eaps_port := eaps_port p; eaps_path := eaps_path p;
                         eaps_timeout_ms := eaps_timeout_ms p; eaps_fail_open := eaps_fail_open p;
                         eaps_request_headers := eaps_request_headers p; eaps_response_headers := eaps_response_headers p |};
|}.

#[export] Instance RetryPolicyState_policy : PolicyState RetryPolicyState := {|
  policy_meta := rtps_meta;
  set_accepted v p := {| rtps_meta := meta_accepted v (rtps_meta p); rtps_max_retries := rtps_max_retries p;
                         rtps_retry_on := rtps_retry_on p |};
|}.

#[export] Instance IPAllowlistPolicyState_policy : PolicyState IPAllowlistPolicyState := {|
  policy_meta := ipps_meta;
  set_accepted v p := {| ipps_meta := meta_accepted v (ipps_meta p); ipps_allow_cidrs := ipps_allow_cidrs p;
                         ipps_deny_cidrs := ipps_deny_cidrs p; ipps_trusted_proxy_cidrs := ipps_trusted_proxy_cidrs p |};
|}.

#[export] Instance RequestBodySizeLimitPolicyState_policy : PolicyState RequestBodySizeLimitPolicyState := {|
  policy_meta := bsps_meta;
  set_accepted v p := {| bsps_meta := meta_accepted v (bsps_meta p); bsps_max_bytes := bsps_max_bytes p |};
|}.

#[export] Instance HealthCheckPolicyState_policy : PolicyState HealthCheckPolicyState := {|
  policy_meta := hcps_meta;
  set_accepted v p := {| hcps_meta := meta_accepted v (hcps_meta p); hcps_path := hcps_path p;
                         hcps_interval_secs := hcps_interval_secs p; hcps_timeout_secs := hcps_timeout_secs p;
                         hcps_healthy_threshold := hcps_healthy_threshold p;
                         hcps_unhealthy_threshold := hcps_unhealthy_threshold p |};
|}.

#[export] Instance CORSPolicyState_policy : PolicyState CORSPolicyState := {|
  policy_meta := cops_meta;
  set_accepted v p := {| cops_meta := meta_accepted v (cops_meta p); cops_allow_origins := cops_allow_origins p;
                         cops_allow_methods := cops_allow_methods p; cops_allow_headers := cops_allow_headers p;
                         cops_expose_headers := cops_expose_headers p; cops_allow_credentials := cops_allow_credentials p;
                         cops_max_age := cops_max_age p |};
|}.

#[export] Instance TimeoutPolicyState_policy : PolicyState TimeoutPolicyState := {|
  policy_meta := tops_meta;
  set_accepted v p := {| tops_meta := meta_accepted v (tops_meta p); tops_request_timeout_ms := tops_request_timeout_ms p;
                         tops_backend_request_timeout_ms := tops_backend_request_timeout_ms p;
                         tops_connect_timeout_ms := tops_connect_timeout_ms p |};
|}.

#[export] Instance BackendTLSPolicyState_policy : PolicyState BackendTLSPolicyState := {|
  policy_meta := btps_meta;
  set_accepted v p := {| btps_meta := meta_accepted v (btps_meta p); btps_ca_cert_pem := btps_ca_cert_pem p;
                         btps_hostname := btps_hostname p; btps_subject_alt_names := btps_subject_alt_names p |};
|}.

#[export] Instance AIUsagePolicyState_policy : PolicyState AIUsagePolicyState := {|
  policy_meta := aups_meta;
  set_accepted v p := {| aups_meta := meta_accepted v (aups_meta p); aups_limit := aups_limit p; aups_unit := aups_unit p;
                         aups_window := aups_window p; aups_per := aups_per p; aups_fail_open := aups_fail_open p;
                         aups_fallback_model := aups_fallback_model p; aups_overflow_limit := aups_overflow_limit p |};
|}.

#[export] Instance CircuitBreakerPolicyState_laws : PolicyLaws CircuitBreakerPolicyState.
Proof. split; [done|by intros [[]]]. Qed.
#[export] Instance ConnectionPolicyState_laws : PolicyLaws ConnectionPolicyState.
Proof. split; [done|by intros [[]]]. Qed.
#[export] Instance BasicAuthPolicyState_laws : PolicyLaws BasicAuthPolicyState.
Proof. split; [done|by intros [[]]]. Qed.
#[export] Instance ApiKeyAuthPolicyState_laws : PolicyLaws ApiKeyAuthPolicyState.
Proof. split; [done|by intros [[]]]. Qed.
#[export] Instance JwtAuthPolicyState_laws : PolicyLaws JwtAuthPolicyState.
Proof. split; [done|by intros [[]]]. Qed.
#[export] Instance ExtAuthPolicyState_laws : PolicyLaws ExtAuthPolicyState.
Proof. split; [done|by intros [[]]]. Qed.
#[export] Instance RetryPolicyState_laws : PolicyLaws RetryPolicyState.
Proof. split; [done|by intros [[]]]. Qed.
#[export] Instance IPAllowlistPolicyState_laws : PolicyLaws IPAllowlistPolicyState.
Proof. split; [done|by intros [[]]]. Qed.
#[export] Instance RequestBodySizeLimitPolicyState_laws : PolicyLaws RequestBodySizeLimitPolicyState.
Proof. split; [done|by intros [[]]]. Qed.
#[export] Instance HealthCheckPolicyState_laws : PolicyLaws HealthCheckPolicyState.
Proof. split; [done|by intros [[]]]. Qed.
#[export] Instance CORSPolicyState_laws : PolicyLaws CORSPolicyState.
Proof. split; [done|by intros [[]]]. Qed.
#[export] Instance TimeoutPolicyState_laws : PolicyLaws TimeoutPolicyState.
Proof. split; [done|by intros [[]]]. Qed.
#[export] Instance BackendTLSPolicyState_laws : PolicyLaws BackendTLSPolicyState.
Proof. split; [done|by intros [[]]]. Qed.
#[export] Instance AIUsagePolicyState_laws : PolicyLaws AIUsagePolicyState.
Proof. split; [done|by intros [[]]]. Qed.

(** [PartialEq] of the policies whose reconciles are compared. *)
#[export] Instance JwtProviderState_eq : EqDecision JwtProviderState.
Proof. solve_decision. Defined.
#[export] Instance RateLimitPolicyState_eq : EqDecision RateLimitPolicyState.
Proof. solve_decision. Defined.
#[export] Instance CircuitBreakerPolicyState_eq : EqDecision CircuitBreakerPolicyState.
Proof. solve_decision. Defined.
#[export] Instance ConnectionPolicyState_eq : EqDecision ConnectionPolicyState.
Proof. solve_decision. Defined.
#[export] Instance BasicAuthPolicyState_eq : EqDecision BasicAuthPolicyState.
Proof. solve_decision. Defined.
#[export] Instance ApiKeyAuthPolicyState_eq : EqDecision ApiKeyAuthPolicyState.
Proof. solve_decision. Defined.
#[export] Instance JwtAuthPolicyState_eq : EqDecision JwtAuthPolicyState.
Proof. solve_decision. Defined.
#[export] Instance ExtAuthPolicyState_eq : EqDecision ExtAuthPolicyState.
Proof. solve_decision. Defined.
#[export] Instance RetryPolicyState_eq : EqDecision RetryPolicyState.
Proof. solve_decision. Defined.
#[export] Instance IPAllowlistPolicyState_eq : EqDecision IPAllowlistPolicyState.
Proof. solve_decision. Defined.
#[export] Instance RequestBodySizeLimitPolicyState_eq : EqDecision RequestBodySizeLimitPolicyState.
Proof. solve_decision. Defined.
#[export] Instance HealthCheckPolicyState_eq : EqDecision HealthCheckPolicyState.
Proof. solve_decision. Defined.
#[export] Instance CORSPolicyState_eq : EqDecision CORSPolicyState.
Proof. solve_decision. Defined.
#[export] Instance TimeoutPolicyState_eq : EqDecision TimeoutPolicyState.
Proof. solve_decision. Defined.
#[export] Instance BackendTLSPolicyState_eq : EqDecision BackendTLSPolicyState.
Proof. solve_decision. Defined.
#[export] Instance AIUsagePolicyState_eq : EqDecision AIUsagePolicyState.
Proof. solve_decision. Defined.

(** ** Grants and the store *)

Record ReferenceGrantFrom := { rgf_group : string; rgf_kind : string; rgf_namespace : string }.
Record ReferenceGrantTo := { rgt_group : string; rgt_kind : string; rgt_name : option string }.
Record ReferenceGrantState := {
  rgs_namespace : string;
  rgs_from : list ReferenceGrantFrom;
  rgs_to : list ReferenceGrantTo;
}.

(** The data of a Secret or a ConfigMap. *)
Notation SecretState := (gmap string string).

Record GatewayClassState := { gcs_accepted : bool; gcs_generation : Z }.

Record ConfigStore := {
  st_gateway_classes : gmap string GatewayClassState;
  st_gateways : gmap NamespacedName GatewayState;
  st_listener_sets : gmap NamespacedName ListenerSetState;
  st_http_routes : gmap NamespacedName HTTPRouteState;
  st_grpc_routes : gmap NamespacedName GRPCRouteState;
  st_tls_routes : gmap NamespacedName TLSRouteState;
  st_tcp_routes : gmap NamespacedName L4RouteState;
  st_udp_routes : gmap NamespacedName L4RouteState;
  st_reference_grants : gmap NamespacedName ReferenceGrantState;
  st_endpoints : gmap ServiceKey (list BackendEndpoint);
  st_rate_limit_policies : gmap NamespacedName RateLimitPolicyState;
  st_circuit_breaker_policies : gmap NamespacedName CircuitBreakerPolicyState;
  st_connection_policies : gmap NamespacedName ConnectionPolicyState;
  st_basic_auth_policies : gmap NamespacedName BasicAuthPolicyState;
  st_api_key_auth_policies : gmap NamespacedName ApiKeyAuthPolicyState;
  st_jwt_auth_policies : gmap NamespacedName JwtAuthPolicyState;
  st_ext_auth_policies : gmap NamespacedName ExtAuthPolicyState;
  st_issuer_keys : gmap string IssuerKeysState;
  st_retry_policies : gmap NamespacedName RetryPolicyState;
  st_ip_allowlist_policies : gmap NamespacedName IPAllowlistPolicyState;
  st_request_body_size_limit_policies : gmap NamespacedName RequestBodySizeLimitPolicyState;
  st_health_check_policies : gmap NamespacedName HealthCheckPolicyState;
  st_cors_policies : gmap NamespacedName CORSPolicyState;
  st_timeout_policies : gmap NamespacedName TimeoutPolicyState;
  st_backend_tls_policies : gmap NamespacedName BackendTLSPolicyState;
  st_ai_providers : gmap NamespacedName AIProviderState;
  st_ai_routes : gmap NamespacedName AIRouteState;
  st_ai_usage_policies : gmap NamespacedName AIUsagePolicyState;
  st_secrets : gmap NamespacedName SecretState;
  st_config_maps : gmap NamespacedName SecretState;
  st_gateway_tls : gmap NamespacedName GatewayTlsState;
  st_service_port_map : gmap ServiceKey Z;
  st_service_app_protocols : gmap ServiceKey string;
  st_service_port_names : gmap ServiceKey string;
  st_namespace_labels : gmap string (gmap string string);
}.

(** [ConfigStore::new] *)
Definition ConfigStore_new : ConfigStore :=
  {| st_gateway_classes := ∅; st_gateways := ∅; st_listener_sets := ∅; st_http_routes := ∅; st_grpc_routes := ∅;
     st_tls_routes := ∅; st_tcp_routes := ∅;
     st_udp_routes := ∅; st_reference_grants := ∅; st_endpoints := ∅; st_rate_limit_policies := ∅;
     st_circuit_breaker_policies := ∅; st_connection_policies := ∅; st_basic_auth_policies := ∅; st_api_key_auth_policies := ∅;
     st_jwt_auth_policies := ∅; st_ext_auth_policies := ∅; st_issuer_keys := ∅; st_retry_policies := ∅;
     st_ip_allowlist_policies := ∅; st_request_body_size_limit_policies := ∅; st_health_check_policies := ∅;
     st_cors_policies := ∅; st_timeout_policies := ∅; st_backend_tls_policies := ∅; st_ai_providers := ∅; st_ai_routes := ∅;
     st_ai_usage_policies := ∅; st_secrets := ∅; st_config_maps := ∅; st_gateway_tls := ∅; st_service_port_map := ∅;
     st_service_app_protocols := ∅; st_service_port_names := ∅; st_namespace_labels := ∅ |}.


(** ** Writing one map of the store *)

(** The store rebuilt from its fields; a setter replaces one of them. *)
Ltac set_field f v :=
  let e := constr:(fun s : ConfigStore =>
    {| st_gateway_classes := st_gateway_classes s; st_gateways := st_gateways s; st_listener_sets := st_listener_sets s;
       st_http_routes := st_http_routes s; st_grpc_routes := st_grpc_routes s; st_tls_routes := st_tls_routes s;
       st_tcp_routes := st_tcp_routes s; st_udp_routes := st_udp_routes s; st_reference_grants := st_reference_grants
       s; st_endpoints := st_endpoints s; st_rate_limit_policies := st_rate_limit_policies s;
       st_circuit_breaker_policies := st_circuit_breaker_policies s; st_connection_policies := st_connection_policies
       s; st_basic_auth_policies := st_basic_auth_policies s; st_api_key_auth_policies := st_api_key_auth_policies s;
       st_jwt_auth_policies := st_jwt_auth_policies s; st_ext_auth_policies := st_ext_auth_policies s; st_issuer_keys
       := st_issuer_keys s; st_retry_policies := st_retry_policies s; st_ip_allowlist_policies :=
       st_ip_allowlist_policies s; st_request_body_size_limit_policies := st_request_body_size_limit_policies s;
       st_health_check_policies := st_health_check_policies s; st_cors_policies := st_cors_policies s;
       st_timeout_policies := st_timeout_policies s; st_backend_tls_policies := st_backend_tls_policies s;
       st_ai_providers := st_ai_providers s; st_ai_routes := st_ai_routes s; st_ai_usage_policies :=
       st_ai_usage_policies s; st_secrets := st_secrets s; st_config_maps := st_config_maps s; st_gateway_tls :=
       st_gateway_tls s; st_service_port_map := st_service_port_map s; st_service_app_protocols :=
       st_service_app_protocols s; st_service_port_names := st_service_port_names s; st_namespace_labels :=
       st_namespace_labels s |}) in
  lazymatch eval pattern f in e with
  | ?g _ => let r := eval cbv beta in (g (fun _ => v)) in exact r
  end.

Definition set_gateway_classes (v : gmap string GatewayClassState) : ConfigStore -> ConfigStore := ltac:(set_field st_gateway_classes v).
Definition set_gateways (v : gmap NamespacedName GatewayState) : ConfigStore -> ConfigStore := ltac:(set_field st_gateways v).
Definition set_listener_sets (v : gmap NamespacedName ListenerSetState) : ConfigStore -> ConfigStore := ltac:(set_field st_listener_sets v).
Definition set_http_routes (v : gmap NamespacedName HTTPRouteState) : ConfigStore -> ConfigStore := ltac:(set_field st_http_routes v).
Definition set_grpc_routes (v : gmap NamespacedName GRPCRouteState) : ConfigStore -> ConfigStore := ltac:(set_field st_grpc_routes v).
Definition set_tls_routes (v : gmap NamespacedName TLSRouteState) : ConfigStore -> ConfigStore := ltac:(set_field st_tls_routes v).
Definition set_tcp_routes (v : gmap NamespacedName L4RouteState) : ConfigStore -> ConfigStore := ltac:(set_field st_tcp_routes v).
Definition set_udp_routes (v : gmap NamespacedName L4RouteState) : ConfigStore -> ConfigStore := ltac:(set_field st_udp_routes v).
Definition set_reference_grants (v : gmap NamespacedName ReferenceGrantState) : ConfigStore -> ConfigStore := ltac:(set_field st_reference_grants v).
Definition set_endpoints (v : gmap ServiceKey (list BackendEndpoint)) : ConfigStore -> ConfigStore := ltac:(set_field st_endpoints v).
Definition set_rate_limit_policies (v : gmap NamespacedName RateLimitPolicyState) : ConfigStore -> ConfigStore := ltac:(set_field st_rate_limit_policies v).
Definition set_circuit_breaker_policies (v : gmap NamespacedName CircuitBreakerPolicyState) : ConfigStore -> ConfigStore := ltac:(set_field st_circuit_breaker_policies v).
Definition set_connection_policies (v : gmap NamespacedName ConnectionPolicyState) : ConfigStore -> ConfigStore := ltac:(set_field st_connection_policies v).
Definition set_basic_auth_policies (v : gmap NamespacedName BasicAuthPolicyState) : ConfigStore -> ConfigStore := ltac:(set_field st_basic_auth_policies v).
Definition set_api_key_auth_policies (v : gmap NamespacedName ApiKeyAuthPolicyState) : ConfigStore -> ConfigStore := ltac:(set_field st_api_key_auth_policies v).
Definition set_jwt_auth_policies (v : gmap NamespacedName JwtAuthPolicyState) : ConfigStore -> ConfigStore := ltac:(set_field st_jwt_auth_policies v).
Definition set_ext_auth_policies (v : gmap NamespacedName ExtAuthPolicyState) : ConfigStore -> ConfigStore := ltac:(set_field st_ext_auth_policies v).
Definition set_issuer_keys (v : gmap string IssuerKeysState) : ConfigStore -> ConfigStore := ltac:(set_field st_issuer_keys v).
Definition set_retry_policies (v : gmap NamespacedName RetryPolicyState) : ConfigStore -> ConfigStore := ltac:(set_field st_retry_policies v).
Definition set_ip_allowlist_policies (v : gmap NamespacedName IPAllowlistPolicyState) : ConfigStore -> ConfigStore := ltac:(set_field st_ip_allowlist_policies v).
Definition set_request_body_size_limit_policies (v : gmap NamespacedName RequestBodySizeLimitPolicyState) : ConfigStore -> ConfigStore := ltac:(set_field st_request_body_size_limit_policies v).
Definition set_health_check_policies (v : gmap NamespacedName HealthCheckPolicyState) : ConfigStore -> ConfigStore := ltac:(set_field st_health_check_policies v).
Definition set_cors_policies (v : gmap NamespacedName CORSPolicyState) : ConfigStore -> ConfigStore := ltac:(set_field st_cors_policies v).
Definition set_timeout_policies (v : gmap NamespacedName TimeoutPolicyState) : ConfigStore -> ConfigStore := ltac:(set_field st_timeout_policies v).
Definition set_backend_tls_policies (v : gmap NamespacedName BackendTLSPolicyState) : ConfigStore -> ConfigStore := ltac:(set_field st_backend_tls_policies v).
Definition set_ai_providers (v : gmap NamespacedName AIProviderState) : ConfigStore -> ConfigStore := ltac:(set_field st_ai_providers v).
Definition set_ai_routes (v : gmap NamespacedName AIRouteState) : ConfigStore -> ConfigStore := ltac:(set_field st_ai_routes v).
Definition set_ai_usage_policies (v : gmap NamespacedName AIUsagePolicyState) : ConfigStore -> ConfigStore := ltac:(set_field st_ai_usage_policies v).
Definition set_secrets (v : gmap NamespacedName SecretState) : ConfigStore -> ConfigStore := ltac:(set_field st_secrets v).
Definition set_config_maps (v : gmap NamespacedName SecretState) : ConfigStore -> ConfigStore := ltac:(set_field st_config_maps v).
Definition set_gateway_tls (v : gmap NamespacedName GatewayTlsState) : ConfigStore -> ConfigStore := ltac:(set_field st_gateway_tls v).
Definition set_service_port_map (v : gmap ServiceKey Z) : ConfigStore -> ConfigStore := ltac:(set_field st_service_port_map v).
Definition set_service_app_protocols (v : gmap ServiceKey string) : ConfigStore -> ConfigStore := ltac:(set_field st_service_app_protocols v).
Definition set_service_port_names (v : gmap ServiceKey string) : ConfigStore -> ConfigStore := ltac:(set_field st_service_port_names v).
Definition set_namespace_labels (v : gmap string (gmap string string)) : ConfigStore -> ConfigStore := ltac:(set_field st_namespace_labels v).
