(* ===== verification/Hostnames.v ===== *)
(** * Hostnames and references of the controller

    The checks the reconcilers and the compiler share
    ([portus-controller/src/reconcilers/mod.rs], [http_route.rs] and
    [compute_effective_hostnames_inner] of [compiler.rs]): hostname
    intersection, route attachment and reference grants.  Hostnames are related
    to [listener_hostname_claims], the predicate the data plane routes by. *)
From S2P Require Import Prelude Text Net Types Router Proto Resources.
From Stdlib Require Import String.
Open Scope Z_scope.

(** ** Hostnames *)

(** [hostname_matches] *)
Definition hostname_matches (listener route : string) : bool :=
  let l := to_ascii_lowercase listener in
  let r := to_ascii_lowercase route in
  if bool_decide (l = r) then true
  else
    let route_wildcard :=
      match strip_prefix "*." r with
      | Some r_suffix =>
          match strip_suffix r_suffix l with
          | Some p => match strip_suffix "." p with Some prefix => negb (is_empty prefix) | None => false end
          | None => false
          end
      | None => false
      end in
    match strip_prefix "*." l with
    | Some l_suffix =>
        match strip_prefix "*." r with
        | Some r_suffix =>
            bool_decide (l_suffix = r_suffix) || ends_with ("." +:+ l_suffix) r_suffix || ends_with ("." +:+ r_suffix) l_suffix
        | None =>
            match strip_suffix l_suffix r with
            | Some p => match strip_suffix "." p with Some prefix => negb (is_empty prefix) | None => route_wildcard end
            | None => route_wildcard
            end
        end
    | None => route_wildcard
    end.

(** [intersect_hostnames] *)
Definition intersect_hostnames (listener route : string) : option string :=
  let l_lower := to_ascii_lowercase listener in
  let r_lower := to_ascii_lowercase route in
  match starts_with "*." listener, starts_with "*." route with
  | false, false => if bool_decide (l_lower = r_lower) then Some l_lower else None
  | true, false =>
      let suffix := sdrop 1 l_lower in
      if ends_with suffix r_lower && (String.length suffix <? String.length r_lower)%nat then Some r_lower else None
  | false, true =>
      let suffix := sdrop 1 r_lower in
      if ends_with suffix l_lower && (String.length suffix <? String.length l_lower)%nat then Some l_lower else None
  | true, true =>
      let l_suffix := sdrop 1 l_lower in
      let r_suffix := sdrop 1 r_lower in
      if bool_decide (l_suffix = r_suffix) then Some l_lower
      else if ends_with l_suffix r_suffix then Some r_lower
      else if ends_with r_suffix l_suffix then Some l_lower
      else None
  end.

(** A [BTreeSet] of strings, as its elements in order. *)
Fixpoint bset_insert (x : string) (s : list string) : list string :=
  match s with
  | [] => [x]
  | y :: s' => match String.compare x y with Lt => x :: s | Eq => s | Gt => y :: bset_insert x s' end
  end.

Definition bset_extend (xs s : list string) : list string := fold_left (fun s x => bset_insert x s) xs s.

(** The hostnames one listener contributes in
    [compute_effective_hostnames_inner]. *)
Definition effective_of (listener_hostname : option string) (route_hostnames : list string) : list string :=
  match listener_hostname with
  | None => match route_hostnames with [] => ["*"] | _ => map to_ascii_lowercase route_hostnames end
  | Some lh =>
      match route_hostnames with
      | [] => [to_ascii_lowercase lh]
      | _ => omap (intersect_hostnames lh) route_hostnames
      end
  end.

(** [compute_effective_hostnames_inner] *)
Definition compute_effective_hostnames_inner (listener_hostnames : list (option string)) (route_hostnames : list string)
  : list string :=
  fold_left (fun effective lh => bset_extend (effective_of lh route_hostnames) effective) listener_hostnames [].

(** [hostnames_compatible] *)
Definition hostnames_compatible (listener_hostname : option string) (route_hostnames : list string) : bool :=
  match listener_hostname with
  | None => true
  | Some h => match route_hostnames with [] => true | _ => existsb (hostname_matches h) route_hostnames end
  end.

(** ** Namespaces and grants *)

(** [namespace_allowed] *)
Definition namespace_allowed (allowed : AllowedRoutesState) (route_namespace gateway_namespace : string)
  (route_ns_labels : gmap string string) : bool :=
  if bool_decide (ar_namespaces_from allowed = "Same") then bool_decide (route_namespace = gateway_namespace)
  else if bool_decide (ar_namespaces_from allowed = "All") then true
  else if bool_decide (ar_namespaces_from allowed = "Selector") then
    match ar_namespace_selector allowed with
    | None => false
    | Some labels => forallb (fun kv => bool_decide (route_ns_labels !! kv.1 = Some kv.2)) labels
    end
  else false.

Section Grants.
Context `{IO : IterOrder}.

Definition grant_to_ok (to_kind : string) (to_name : option string) (to : ReferenceGrantTo) : bool :=
  is_empty (rgt_group to) && bool_decide (rgt_kind to = to_kind) &&
  (bool_decide (rgt_name to = None) || bool_decide (rgt_name to = to_name)).

Definition grant_from_ok (from_group from_namespace from_kind : string) (from : ReferenceGrantFrom) : bool :=
  bool_decide (rgf_group from = from_group) && bool_decide (rgf_namespace from = from_namespace) &&
  bool_decide (rgf_kind from = from_kind).

(** [is_reference_allowed_from] *)
Definition is_reference_allowed_from (grants : gmap NamespacedName ReferenceGrantState)
  (from_group from_namespace from_kind to_namespace to_kind : string) (to_name : option string) : bool :=
  if bool_decide (from_namespace = to_namespace) then true
  else
    existsb (fun e =>
      let grant := e.2 in
      bool_decide (rgs_namespace grant = to_namespace) &&
      existsb (fun from => grant_from_ok from_group from_namespace from_kind from &&
                           existsb (grant_to_ok to_kind to_name) (rgs_to grant)) (rgs_from grant)) (entries grants).

(** [is_reference_allowed] *)
Definition is_reference_allowed (grants : gmap NamespacedName ReferenceGrantState)
  (from_namespace from_kind to_namespace to_kind : string) (to_name : option string) : bool :=
  is_reference_allowed_from grants "gateway.networking.k8s.io" from_namespace from_kind to_namespace to_kind to_name.
End Grants.

(** ** Intersections *)

(** A name below a domain. *)
Definition under (domain name : string) : bool :=
  ends_with ("." +:+ to_ascii_lowercase domain) (to_ascii_lowercase name) &&
  (String.length ("." +:+ to_ascii_lowercase domain) <? String.length (to_ascii_lowercase name))%nat.

Lemma claims_view l host :
  l <> EmptyString ->
  listener_hostname_claims l host =
  match wildcard_of l with Some a => under a host | None => bool_decide (to_ascii_lowercase host = to_ascii_lowercase l) end.
Proof.
  intros Hl. unfold listener_hostname_claims, wildcard_of, under. destruct l as [|c l]; [done|]. cbn [is_empty].
  by destruct (strip_prefix "*." (String c l)).
Qed.

Lemma wildcard_lower l a :
  wildcard_of l = Some a -> to_ascii_lowercase l = "*." +:+ to_ascii_lowercase a /\ sdrop 1 (to_ascii_lowercase l) = "." +:+ to_ascii_lowercase a.
Proof. intros H%strip_prefix_Some. by subst l. Qed.

Lemma wildcard_of_lower l : wildcard_of (to_ascii_lowercase l) = to_ascii_lowercase <$> wildcard_of l.
Proof. apply strip_wildcard_lowercase. Qed.

Lemma claims_lower l host : l <> EmptyString -> listener_hostname_claims (to_ascii_lowercase l) host = listener_hostname_claims l host.
Proof.
  intros Hl. rewrite !claims_view; [|done|by destruct l]. rewrite wildcard_of_lower.
  destruct (wildcard_of l) as [a|]; simpl; [unfold under|]; by rewrite to_ascii_lowercase_idem.
Qed.

Lemma intersect_view l r :
  intersect_hostnames l r =
  match wildcard_of l, wildcard_of r with
  | None, None => if bool_decide (to_ascii_lowercase l = to_ascii_lowercase r) then Some (to_ascii_lowercase l) else None
  | Some a, None => if under a r then Some (to_ascii_lowercase r) else None
  | None, Some b => if under b l then Some (to_ascii_lowercase l) else None
  | Some a, Some b =>
      let l_suffix := "." +:+ to_ascii_lowercase a in
      let r_suffix := "." +:+ to_ascii_lowercase b in
      if bool_decide (l_suffix = r_suffix) then Some (to_ascii_lowercase l)
      else if ends_with l_suffix r_suffix then Some (to_ascii_lowercase r)
      else if ends_with r_suffix l_suffix then Some (to_ascii_lowercase l)
      else None
  end.
Proof.
  unfold intersect_hostnames, starts_with, under. fold (wildcard_of l) (wildcard_of r).
  destruct (wildcard_of l) as [a|] eqn:Hl, (wildcard_of r) as [b|] eqn:Hr.
  all: repeat match goal with H : wildcard_of _ = Some _ |- _ => apply wildcard_lower in H as [_ ->] end; done.
Qed.

(** Below a domain that is below another one. *)
Lemma under_suffix a b host :
  ends_with ("." +:+ to_ascii_lowercase a) ("." +:+ to_ascii_lowercase b) = true -> under b host = true -> under a host = true.
Proof.
  intros Hab. unfold under. rewrite !andb_true_iff, !Nat.ltb_lt. intros [Hb Hl].
  pose proof (ends_with_length _ _ Hab). split; [by eapply ends_with_trans|lia].
Qed.

Lemma under_comparable a b host :
  under a host = true -> under b host = true ->
  ends_with ("." +:+ to_ascii_lowercase a) ("." +:+ to_ascii_lowercase b) = true \/
  ends_with ("." +:+ to_ascii_lowercase b) ("." +:+ to_ascii_lowercase a) = true.
Proof. unfold under. rewrite !andb_true_iff. intros [Ha _] [Hb _]. by eapply ends_with_comparable. Qed.

Lemma under_lower a s t : to_ascii_lowercase s = to_ascii_lowercase t -> under a s = under a t.
Proof. intros H. unfold under. by rewrite H. Qed.

Lemma intersect_comm l r : intersect_hostnames l r = intersect_hostnames r l.
Proof.
  rewrite !intersect_view. destruct (wildcard_of l) as [a|] eqn:Hl, (wildcard_of r) as [b|] eqn:Hr; [|done..|].
  - apply wildcard_lower in Hl as [Hl _]. apply wildcard_lower in Hr as [Hr _]. cbv zeta.
    set (x := "." +:+ to_ascii_lowercase a). set (y := "." +:+ to_ascii_lowercase b).
    destruct (decide (x = y)) as [Hxy|Hxy].
    + rewrite !bool_decide_true by done. f_equal. rewrite Hl, Hr. injection Hxy as ->. done.
    + rewrite !bool_decide_false by congruence. destruct (ends_with x y) eqn:E1, (ends_with y x) eqn:E2; try done.
      by destruct (Hxy (ends_with_both _ _ E1 E2)).
  - destruct (decide (to_ascii_lowercase l = to_ascii_lowercase r)) as [->|Hne]; [done|].
    rewrite !bool_decide_false by congruence. done.
Qed.

(** What [intersect_hostnames] answers, in the terms requests are routed by. *)
Lemma intersect_exact l r :
  l <> EmptyString -> r <> EmptyString ->
  match intersect_hostnames l r with
  | Some e => e <> EmptyString /\
      forall host, listener_hostname_claims e host = listener_hostname_claims l host && listener_hostname_claims r host
  | None => forall host, listener_hostname_claims l host && listener_hostname_claims r host = false
  end.
Proof.
  intros Hl Hr. assert (Hnl : to_ascii_lowercase l <> EmptyString) by by destruct l.
  assert (Hnr : to_ascii_lowercase r <> EmptyString) by by destruct r.
  rewrite intersect_view. destruct (wildcard_of l) as [a|] eqn:El, (wildcard_of r) as [b|] eqn:Er; cbv zeta.
  - destruct (bool_decide_reflect ("." +:+ to_ascii_lowercase a = "." +:+ to_ascii_lowercase b)) as [Hab|Hab].
    { split; [done|]. intros host. rewrite claims_lower, !claims_view, El, Er by done. unfold under. rewrite Hab. by rewrite andb_diag. }
    destruct (ends_with _ _) eqn:E1; [|destruct (ends_with ("." +:+ to_ascii_lowercase b) _) eqn:E2].
    + split; [done|]. intros host. rewrite claims_lower, !claims_view, El, Er by done.
      destruct (under b host) eqn:Hb; [|by rewrite andb_false_r]. by rewrite (under_suffix a b).
    + split; [done|]. intros host. rewrite claims_lower, !claims_view, El, Er by done.
      destruct (under a host) eqn:Ha; [|done]. by rewrite (under_suffix b a).
    + intros host. rewrite !claims_view, El, Er by done. apply andb_false_iff.
      destruct (under a host) eqn:Ha; [right|by left]. destruct (under b host) eqn:Hb; [|done].
      destruct (under_comparable a b host Ha Hb); congruence.
  - destruct (under a r) eqn:Hu; [split; [done|]|]; intros host; rewrite ?claims_lower, !claims_view, El, Er by done.
    + destruct (bool_decide_reflect (to_ascii_lowercase host = to_ascii_lowercase r)) as [Hh|]; [|by rewrite andb_false_r].
      by rewrite (under_lower a host r), Hu.
    + destruct (bool_decide_reflect (to_ascii_lowercase host = to_ascii_lowercase r)) as [Hh|]; [|by rewrite andb_false_r].
      by rewrite (under_lower a host r), Hu.
  - destruct (under b l) eqn:Hu; [split; [done|]|]; intros host; rewrite ?claims_lower, !claims_view, El, Er by done.
    + destruct (bool_decide_reflect (to_ascii_lowercase host = to_ascii_lowercase l)) as [Hh|]; [|done].
      by rewrite (under_lower b host l), Hu.
    + destruct (bool_decide_reflect (to_ascii_lowercase host = to_ascii_lowercase l)) as [Hh|]; [|done].
      by rewrite (under_lower b host l), Hu.
  - destruct (bool_decide_reflect (to_ascii_lowercase l = to_ascii_lowercase r)) as [Hlr|Hlr].
    + split; [done|]. intros host. rewrite claims_lower, !claims_view, El, Er, Hlr by done. by rewrite andb_diag.
    + intros host. rewrite !claims_view, El, Er by done. apply andb_false_iff.
      destruct (decide (to_ascii_lowercase host = to_ascii_lowercase l)) as [Hh|Hh]; [right|left]; apply bool_decide_false; congruence.
Qed.

(** The two strips of [hostname_matches] *)
Lemma strip_below x s :
  match strip_suffix x s with
  | Some p => match strip_suffix "." p with Some prefix => negb (is_empty prefix) | None => false end
  | None => false
  end = ends_with ("." +:+ x) s && (String.length ("." +:+ x) <? String.length s)%nat.
Proof.
  apply eq_true_iff_eq. rewrite andb_true_iff, Nat.ltb_lt, ends_with_spec. split.
  - destruct (strip_suffix x s) as [p|] eqn:E1; [|done]. apply strip_suffix_Some in E1 as ->.
    destruct (strip_suffix "." p) as [q|] eqn:E2; [|done]. apply strip_suffix_Some in E2 as ->.
    intros Hq. rewrite sapp_assoc. split; [by exists q|]. rewrite (slength_app q). destruct q; [done|]. simpl. lia.
  - intros [[q ->] Hl].
    assert (E1 : strip_suffix x (q +:+ "." +:+ x) = Some (q +:+ ".")) by (apply strip_suffix_Some; by rewrite sapp_assoc).
    assert (E2 : strip_suffix "." (q +:+ ".") = Some q) by by apply strip_suffix_Some.
    rewrite E1, E2. destruct q; [simpl in Hl; lia|done].
Qed.

Lemma ends_with_dot x y :
  bool_decide (x = y) || ends_with ("." +:+ x) y = ends_with ("." +:+ x) ("." +:+ y).
Proof.
  apply eq_true_iff_eq. rewrite orb_true_iff, bool_decide_eq_true, !ends_with_spec. split.
  - intros [->|[p ->]]; [by exists EmptyString|by exists ("." +:+ p)].
  - intros [[|c p] Hp]; simpl in Hp; injection Hp; [by left|]. intros -> _. right. by exists p.
Qed.

(** A route may attach to a listener exactly when the compiler finds a
    hostname they share. *)
Lemma matches_intersect l r : hostname_matches l r = bool_decide (is_Some (intersect_hostnames l r)).
Proof.
  unfold hostname_matches. cbv zeta. rewrite !strip_wildcard_lowercase. fold (wildcard_of l) (wildcard_of r). rewrite intersect_view.
  destruct (wildcard_of l) as [a|] eqn:El, (wildcard_of r) as [b|] eqn:Er; simpl fmap; cbv iota zeta; rewrite ?strip_below.
  - destruct (wildcard_lower _ _ El) as [-> _], (wildcard_lower _ _ Er) as [-> _].
    set (x := to_ascii_lowercase a). set (y := to_ascii_lowercase b). rewrite ends_with_dot.
    destruct (decide (x = y)) as [<-|Hxy].
    { by rewrite !(bool_decide_true (_ = _)) by done. }
    assert (Hd : "." +:+ x <> "." +:+ y) by (intros [= H]; done).
    rewrite !(bool_decide_false (_ = _)) by (intros [= H]; done). pose proof (ends_with_dot y x) as Hyx.
    rewrite bool_decide_false in Hyx by congruence. cbn [orb] in Hyx. rewrite Hyx.
    by destruct (ends_with ("." +:+ x) _), (ends_with ("." +:+ y) ("." +:+ x)).
  - fold (under a r). destruct (bool_decide_reflect (to_ascii_lowercase l = to_ascii_lowercase r)) as [Hlr|Hlr].
    { apply (f_equal wildcard_of) in Hlr. by rewrite !wildcard_of_lower, El, Er in Hlr. }
    by destruct (under a r).
  - fold (under b l). destruct (bool_decide_reflect (to_ascii_lowercase l = to_ascii_lowercase r)) as [Hlr|Hlr].
    { apply (f_equal wildcard_of) in Hlr. by rewrite !wildcard_of_lower, El, Er in Hlr. }
    by destruct (under b l).
  - destruct (bool_decide_reflect (to_ascii_lowercase l = to_ascii_lowercase r)) as [Hlr|Hlr]; done.
Qed.

(** ** Effective hostnames *)

Lemma bset_insert_elem x y s : y ∈ bset_insert x s <-> y = x \/ y ∈ s.
Proof.
  induction s as [|z s IH]; simpl; [set_solver|]. destruct (String.compare x z) eqn:E; [|set_solver..].
  apply String.compare_eq_iff in E as ->. set_solver.
Qed.

Lemma bset_extend_elem xs s y : y ∈ bset_extend xs s <-> y ∈ xs \/ y ∈ s.
Proof.
  unfold bset_extend. revert s. induction xs as [|x xs IH]; intros s; simpl; [set_solver|].
  rewrite IH, bset_insert_elem. set_solver.
Qed.

Lemma effective_elem lhs rhs y :
  y ∈ compute_effective_hostnames_inner lhs rhs <-> exists lh, lh ∈ lhs /\ y ∈ effective_of lh rhs.
Proof.
  unfold compute_effective_hostnames_inner. rewrite <- (or_r (y ∈ []) (exists lh, _)) by set_solver. generalize (@nil string).
  induction lhs as [|lh lhs IH]; intros s; simpl; [set_solver|]. rewrite IH, bset_extend_elem. set_solver.
Qed.

(** A [BTreeSet] is determined by its elements. *)
Definition string_lt (x y : string) : Prop := String.compare x y = Lt.

Lemma bset_insert_sorted x s : StronglySorted string_lt s -> StronglySorted string_lt (bset_insert x s).
Proof.
  induction 1 as [|y s Hs IH Hy]; simpl; [repeat constructor|]. destruct (String.compare x y) eqn:E.
  - by constructor.
  - constructor; [by constructor|]. constructor; [done|]. eapply Forall_impl; [exact Hy|]. intros z Hz.
    by eapply scompare_lt_trans.
  - constructor; [done|]. apply Forall_forall. intros z [->|Hz]%bset_insert_elem.
    + unfold string_lt. rewrite String.compare_antisym, E. done.
    + by eapply Forall_forall in Hz.
Qed.

Lemma bset_extend_sorted xs s : StronglySorted string_lt s -> StronglySorted string_lt (bset_extend xs s).
Proof. unfold bset_extend. revert s. induction xs as [|x xs IH]; intros s Hs; [done|]. simpl. by apply IH, bset_insert_sorted. Qed.

Lemma effective_sorted lhs rhs : StronglySorted string_lt (compute_effective_hostnames_inner lhs rhs).
Proof.
  unfold compute_effective_hostnames_inner. assert (H : StronglySorted string_lt []) by constructor. revert H.
  generalize (@nil string). induction lhs as [|lh lhs IH]; intros s Hs; [done|]. simpl. by apply IH, bset_extend_sorted.
Qed.

Lemma bset_unique s t :
  StronglySorted string_lt s -> StronglySorted string_lt t -> (forall x, x ∈ s <-> x ∈ t) -> s = t.
Proof.
  intros Hs. revert t. induction Hs as [|x s Hs IH Hx]; intros t Ht Hst.
  - destruct t as [|y t]; [done|]. exfalso. apply (not_elem_of_nil y), Hst. by left.
  - destruct Ht as [|y t Ht Hy]; [exfalso; apply (not_elem_of_nil x), Hst; by left|]. rewrite Forall_forall in Hx, Hy.
    assert (x = y) as ->.
    { assert (H1 : x ∈ y :: t) by (apply Hst; by left). assert (H2 : y ∈ x :: s) by (apply Hst; by left).
      apply elem_of_cons in H1 as [->|H1]; [done|]. apply elem_of_cons in H2 as [->|H2]; [done|].
      pose proof (scompare_lt_trans _ _ _ (Hy x H1) (Hx y H2)) as H. by rewrite scompare_refl in H. }
    assert (Hnx : forall z (l : list string), (forall u, u ∈ l -> string_lt z u) -> z ∉ l).
    { intros z l Hz Hin. pose proof (Hz z Hin) as H. unfold string_lt in H. by rewrite scompare_refl in H. }
    f_equal. apply IH; [done|]. intros z. specialize (Hst z). rewrite !elem_of_cons in Hst.
    pose proof (Hnx y s Hx). pose proof (Hnx y t Hy). split; intros Hz.
    + destruct (proj1 Hst (or_intror Hz)) as [->|]; done.
    + destruct (proj2 Hst (or_intror Hz)) as [->|]; done.
Qed.

(** A hostname as Kubernetes admits it: not empty, and no bare star. *)
Definition proper (h : string) : Prop := h <> EmptyString /\ h <> "*".

(** A request host a compiled route with this hostname serves. *)
Definition host_serves (e host : string) : bool := bool_decide (e = "*") || listener_hostname_claims e host.

Lemma lower_star h : to_ascii_lowercase h = "*" -> h = "*".
Proof.
  destruct h as [|c [|d h]]; cbn; try done. intros [= H]. by apply lower_byte_star in H as ->.
Qed.

Lemma serves_claims e host : e <> "*" -> host_serves e host = listener_hostname_claims e host.
Proof. intros H. unfold host_serves. by rewrite bool_decide_false. Qed.

Lemma serves_lower h host : proper h -> host_serves (to_ascii_lowercase h) host = listener_hostname_claims h host.
Proof.
  intros [Hn Hs]. rewrite serves_claims by (intros H; by apply Hs, lower_star). by apply claims_lower.
Qed.

Lemma intersect_lower l r e :
  intersect_hostnames l r = Some e -> e = to_ascii_lowercase l \/ e = to_ascii_lowercase r.
Proof. rewrite intersect_view. cbv zeta. intros H. repeat (case_match; try discriminate H); simplify_eq; auto. Qed.

(** What the route asks for. *)
Definition route_asks (rhs : list string) (host : string) : Prop :=
  rhs = [] \/ exists r, r ∈ rhs /\ listener_hostname_claims r host = true.

Lemma effective_some l rhs host :
  rhs <> [] -> proper l -> Forall proper rhs ->
  (exists e, e ∈ omap (intersect_hostnames l) rhs /\ host_serves e host = true) <->
  listener_hostname_claims l host = true /\ exists r, r ∈ rhs /\ listener_hostname_claims r host = true.
Proof.
  intros Hne Hl Hr. rewrite Forall_forall in Hr. split.
  - intros (e & (r & Hin & Hi)%list_elem_of_omap & Hs). pose proof (intersect_exact l r (proj1 Hl) (proj1 (Hr r Hin))) as Hx.
    rewrite Hi in Hx. destruct Hx as [_ Hx]. rewrite serves_claims in Hs.
    + rewrite Hx in Hs. apply andb_true_iff in Hs as [H1 H2]. eauto.
    + intros ->. destruct (intersect_lower _ _ _ Hi) as [H|H]; symmetry in H; apply lower_star in H; [by apply Hl|by apply (Hr r Hin)].
  - intros (Hc & r & Hin & Hcr). pose proof (intersect_exact l r (proj1 Hl) (proj1 (Hr r Hin))) as Hx.
    destruct (intersect_hostnames l r) as [e|] eqn:Hi.
    + exists e. split; [by apply list_elem_of_omap; eauto|]. unfold host_serves. rewrite (proj2 Hx), Hc, Hcr. apply orb_true_r.
    + specialize (Hx host). by rewrite Hc, Hcr in Hx.
Qed.

(** The compiler emits a route for a listener under hostnames that serve
    exactly the hosts the listener claims and the route asks for. *)
Lemma effective_hosts_exact lh rhs host :
  (forall l, lh = Some l -> proper l) -> Forall proper rhs ->
  (exists e, e ∈ compute_effective_hostnames_inner [lh] rhs /\ host_serves e host = true) <->
  listener_hostname_claims (default EmptyString lh) host = true /\ route_asks rhs host.
Proof.
  intros Hl Hr. assert (He : forall e, e ∈ compute_effective_hostnames_inner [lh] rhs <-> e ∈ effective_of lh rhs).
  { intros e. rewrite effective_elem. set_solver. }
  setoid_rewrite He. clear He. unfold route_asks. destruct lh as [l|]; simpl; destruct rhs as [|r0 rhs'].
  - specialize (Hl l eq_refl). split.
    + intros (e & ->%list_elem_of_singleton & H). rewrite serves_lower in H by done. auto.
    + intros [H _]. exists (to_ascii_lowercase l). rewrite serves_lower by done. set_solver.
  - rewrite (effective_some l (r0 :: rhs') host) by auto. naive_solver.
  - split; [auto|]. intros _. exists "*". set_solver.
  - rewrite Forall_forall in Hr. change (to_ascii_lowercase r0 :: map to_ascii_lowercase rhs') with (to_ascii_lowercase <$> (r0 :: rhs')).
    split.
    + intros (e & (r & -> & Hin)%list_elem_of_fmap & Hs). rewrite serves_lower in Hs by by apply Hr. eauto.
    + intros [_ [?|(r & Hin & Hc)]]; [done|]. exists (to_ascii_lowercase r). rewrite serves_lower by by apply Hr.
      split; [|done]. by apply list_elem_of_fmap_2.
Qed.

(** The reconciler finds a hostname compatible exactly when the compiler finds
    one to serve. *)
Lemma compatible_effective lh rhs :
  hostnames_compatible lh rhs = negb (bool_decide (compute_effective_hostnames_inner [lh] rhs = [])).
Proof.
  assert (He : compute_effective_hostnames_inner [lh] rhs = [] <-> effective_of lh rhs = []).
  { assert (Heq : forall e, e ∈ compute_effective_hostnames_inner [lh] rhs <-> e ∈ effective_of lh rhs)
      by (intros e; rewrite effective_elem; set_solver).
    split; intros H; apply elem_of_nil_inv; intros e; [rewrite <- Heq|rewrite Heq]; rewrite H; apply not_elem_of_nil. }
  rewrite (bool_decide_ext _ _ He). clear He. destruct lh as [l|], rhs as [|r rhs]; try done. unfold effective_of, hostnames_compatible.
  generalize (r :: rhs). intros xs. induction xs as [|x xs IH]; [done|]. simpl. rewrite matches_intersect.
  destruct (intersect_hostnames l x); [done|]. exact IH.
Qed.

(** Only the set of a route's hostnames matters, not their order: the same
    routes compile to the same configuration. *)
Lemma effective_perm lhs rhs lhs' rhs' :
  lhs ≡ₚ lhs' -> rhs ≡ₚ rhs' -> compute_effective_hostnames_inner lhs rhs = compute_effective_hostnames_inner lhs' rhs'.
Proof.
  intros Hl Hr. apply bset_unique; [apply effective_sorted..|]. intros x. rewrite !effective_elem.
  assert (He : forall lh, effective_of lh rhs ≡ₚ effective_of lh rhs').
  { intros [l|]; simpl; destruct rhs as [|r rhs0], rhs' as [|r' rhs0'];
      try (by apply Permutation_nil_cons in Hr); try (symmetry in Hr; by apply Permutation_nil_cons in Hr); [done| |done|].
    - by apply omap_Permutation.
    - by apply Permutation_map. }
  setoid_rewrite He. by setoid_rewrite Hl.
Qed.

(** ** Grants *)

Section GrantLaws.
Context `{IO : IterOrder}.

(** A reference into another namespace is allowed exactly by a grant there. *)
Lemma reference_allowed_iff grants from_group from_namespace from_kind to_namespace to_kind to_name :
  is_reference_allowed_from grants from_group from_namespace from_kind to_namespace to_kind to_name = true <->
  from_namespace = to_namespace \/
  exists k grant from to, grants !! k = Some grant /\ rgs_namespace grant = to_namespace /\ from ∈ rgs_from grant /\
    to ∈ rgs_to grant /\ grant_from_ok from_group from_namespace from_kind from = true /\ grant_to_ok to_kind to_name to = true.
Proof.
  unfold is_reference_allowed_from. destruct (bool_decide_reflect (from_namespace = to_namespace)) as [H|H]; [naive_solver|].
  rewrite existsb_exists. setoid_rewrite <- list_elem_of_In. split.
  - intros ([k g] & Hin%entries_elem & Hg). right. apply andb_true_iff in Hg as [Hns%bool_decide_eq_true Hg].
    apply existsb_exists in Hg as (from & Hf%list_elem_of_In & Hg). apply andb_true_iff in Hg as [Hok Hg].
    apply existsb_exists in Hg as (to & Ht%list_elem_of_In & Hto). exists k, g, from, to. done.
  - intros [?|(k & g & from & to & Hk & Hns & Hf & Ht & Hfo & Hto)]; [done|]. exists (k, g). split; [by apply entries_elem|].
    simpl. rewrite Hns, bool_decide_true by done. simpl. apply existsb_exists. exists from. split; [by apply list_elem_of_In|].
    rewrite Hfo. simpl. apply existsb_exists. exists to. split; [by apply list_elem_of_In|done].
Qed.
End GrantLaws.
