(* ===== verification/Policies.v ===== *)
(** * Policies of the controller

    Conflict resolution and the reconcilers of the policies that attach to a
    route or a Gateway ([portus-controller/src/reconcilers/policy_common.rs],
    [is_policy_winner] of [policy_types.rs] and the [*_policy.rs] reconcilers
    whose specs need no validation), with the events that make siblings run
    again ([triggers.rs], [gone_policy] of [main.rs]).  The kinds that validate
    their spec are in [PolicyKinds]. *)
From S2P Require Import Prelude Text Proto Resources.
From Stdlib Require Import String.
Open Scope Z_scope.

(** ** Kubernetes objects *)

Record ObjectMeta := {
  om_name : option string;
  om_namespace : option string;
  om_generation : option Z;
  om_creation_timestamp : option Z;
  om_deletion_timestamp : option Z;
  om_labels : option (gmap string string);
}.

Record PolicyTargetRef := {
  tr_group : string;
  tr_kind : string;
  tr_name : string;
  tr_section_name : option string;
}.

(** A policy object: every kind has metadata, a target and its own settings. *)
Record PolicyObject (Spec : Type) := {
  po_metadata : ObjectMeta;
  po_target_ref : PolicyTargetRef;
  po_spec : Spec;
}.
Arguments po_metadata {Spec} _.
Arguments po_target_ref {Spec} _.
Arguments po_spec {Spec} _.

(** A status condition; the transition time, which comparisons ignore, is left
    out. *)
Record Condition := {
  cond_type : string;
  cond_status : string;
  cond_reason : string;
  cond_message : string;
  cond_observed_generation : option Z;
}.

Inductive ReconcileError := MissingField (field : string).

(** [build_condition] *)
Definition build_condition (type_ : string) (status : bool) (reason message : string) (generation : Z) : Condition :=
  {| cond_type := type_; cond_status := if status then "True" else "False"; cond_reason := reason;
     cond_message := message; cond_observed_generation := Some generation |}.

(** The [Programmed] condition every policy reports. *)
Definition programmed_condition (programmed : bool) (generation : Z) : Condition :=
  build_condition "Programmed" programmed (if programmed then "Programmed" else "NotProgrammed")
    (if programmed then "Configuration programmed in data plane" else "Waiting for data plane to apply configuration")
    generation.

(** ** Conflict resolution *)

(** [<=] of strings *)
Definition string_le (a b : string) : bool := match String.compare a b with Gt => false | _ => true end.

(** [is_policy_winner] *)
Definition is_policy_winner (existing_timestamp : option Z) (existing_key : NamespacedName)
    (new_timestamp : option Z) (new_key : NamespacedName) : bool :=
  match existing_timestamp, new_timestamp with
  | Some e, Some n => if e =? n then string_le (show_name existing_key) (show_name new_key) else e <? n
  | Some _, None => true
  | None, Some _ => false
  | None, None => string_le (show_name existing_key) (show_name new_key)
  end.

(** The comparison of the five fields of a target. *)
Definition same_target (t target : PolicyTargetKey) : bool :=
  String.eqb (ptk_group t) (ptk_group target) && String.eqb (ptk_kind t) (ptk_kind target) &&
  String.eqb (ptk_namespace t) (ptk_namespace target) && String.eqb (ptk_name t) (ptk_name target) &&
  bool_decide (ptk_section_name t = ptk_section_name target).

Section Conflicts.
Context `{IO : IterOrder} {P : Type} `{PS : PolicyState P}.

Definition policy_created (p : P) : option Z := pm_creation_timestamp (policy_meta p).

(** The policies on [target], with their creation times. *)
Definition contenders (target : PolicyTargetKey) (policies : gmap NamespacedName P) : list (NamespacedName * option Z) :=
  omap (fun e => if same_target (policy_target e.2) target then Some (e.1, policy_created e.2) else None)
       (entries policies).

(** [resolve_conflicts] *)
Definition resolve_conflicts (current_key : NamespacedName) (target : PolicyTargetKey) (policies : gmap NamespacedName P)
    : gmap NamespacedName P :=
  match contenders target policies with
  | [] | [_] => alter (set_accepted true) current_key policies
  | first :: rest =>
      let winner := running_best (fun w c => is_policy_winner w.2 w.1 c.2 c.1) rest first in
      fold_left (fun m k => alter (set_accepted (bool_decide (k = winner.1))) k m) (map fst (first :: rest)) policies
  end.

(** [find_winner_key] *)
Definition find_winner_key (target : PolicyTargetKey) (exclude : NamespacedName) (policies : gmap NamespacedName P)
    : option NamespacedName :=
  fst <$> List.find (fun e => same_target (policy_target e.2) target && policy_accepted e.2 && negb (bool_decide (e.1 = exclude)))
                    (entries policies).
End Conflicts.

(** ** Reconciling a policy *)

(** The key of an object, or the field it lacks. *)
Definition policy_key (m : ObjectMeta) : result NamespacedName ReconcileError :=
  try! name := ok_or (om_name m) (MissingField "metadata.name") in
  try! namespace := ok_or (om_namespace m) (MissingField "metadata.namespace") in
  Ok {| nn_namespace := namespace; nn_name := name |}.

Definition target_in (namespace : string) (r : PolicyTargetRef) : PolicyTargetKey :=
  {| ptk_group := tr_group r; ptk_kind := tr_kind r; ptk_namespace := namespace; ptk_name := tr_name r;
     ptk_section_name := tr_section_name r |}.

(** What every state keeps of its object. *)
Definition meta_of {Spec} (namespace : string) (o : PolicyObject Spec) (accepted : bool) : PolicyMeta :=
  {| pm_target := target_in namespace (po_target_ref o); pm_generation := default 0 (om_generation (po_metadata o));
     pm_creation_timestamp := om_creation_timestamp (po_metadata o); pm_accepted := accepted |}.

Section Reconcile.
Context `{IO : IterOrder} {P : Type} `{PS : PolicyState P}.

(** The accepted part of every reconciler: store the state, let the oldest
    policy of the target win, and say in the condition who did. *)
Definition store_and_resolve (kind : string) (my_key : NamespacedName) (state : P) (generation : Z) (accepted_message : string)
    (policies : gmap NamespacedName P) : gmap NamespacedName P * Condition :=
  let target := policy_target state in
  let policies := resolve_conflicts my_key target (<[my_key := state]> policies) in
  let accepted := match policies !! my_key with Some s => policy_accepted s | None => false end in
  (policies,
   if accepted then build_condition "Accepted" true "Accepted" accepted_message generation
   else build_condition "Accepted" false "Conflicted"
          (match find_winner_key target my_key policies with
           | Some k => "Older " +:+ kind +:+ " " +:+ show_name k +:+ " takes precedence"
           | None => "Conflicted with another policy"
           end) generation).
End Reconcile.

(** ** The kinds without validation *)

(** A policy kind whose spec is taken as it is: its name and the state built
    from an object. *)
Class PolicyKind (Spec P : Type) `{PolicyState P} := {
  kind_name : string;
  kind_state : PolicyMeta -> Spec -> P;
}.
Arguments kind_name Spec P {_ _}.

(** [reconcile_inner] of such a kind. *)
Definition reconcile_inner `{IterOrder} {Spec P} `{PolicyKind Spec P} (policy : PolicyObject Spec) (programmed : bool)
    (policies : gmap NamespacedName P) : result (gmap NamespacedName P * list Condition) ReconcileError :=
  try! my_key := policy_key (po_metadata policy) in
  let meta := meta_of (nn_namespace my_key) policy true in
  let '(policies, accepted) :=
    store_and_resolve (kind_name Spec P) my_key (kind_state meta (po_spec policy)) (pm_generation meta) "Policy accepted" policies in
  Ok (policies, [accepted; programmed_condition programmed (pm_generation meta)]).

Record RateLimitSpec := { rl_requests_per_second : Z; rl_per_client : bool }.
#[export] Instance rate_limit_policy : PolicyKind RateLimitSpec RateLimitPolicyState := {|
  kind_name := "RateLimitPolicy";
  kind_state m s := {| rlps_meta := m; rlps_requests_per_second := rl_requests_per_second s; rlps_per_client := rl_per_client s |};
|}.

Record CircuitBreakerSpec := { cb_failure_threshold : Z; cb_success_threshold : Z; cb_timeout_secs : Z }.
#[export] Instance circuit_breaker_policy : PolicyKind CircuitBreakerSpec CircuitBreakerPolicyState := {|
  kind_name := "CircuitBreakerPolicy";
  kind_state m s := {| cbps_meta := m; cbps_failure_threshold := cb_failure_threshold s;
                       cbps_success_threshold := cb_success_threshold s; cbps_timeout_secs := cb_timeout_secs s |};
|}.

Record ConnectionSpec := { cn_max_connections : Z }.
#[export] Instance connection_policy : PolicyKind ConnectionSpec ConnectionPolicyState := {|
  kind_name := "ConnectionPolicy";
  kind_state m s := {| cnps_meta := m; cnps_max_connections := cn_max_connections s |};
|}.

Record RequestBodySizeLimitSpec := { bs_max_bytes : Z }.
#[export] Instance request_body_size_limit_policy : PolicyKind RequestBodySizeLimitSpec RequestBodySizeLimitPolicyState := {|
  kind_name := "RequestBodySizeLimitPolicy";
  kind_state m s := {| bsps_meta := m; bsps_max_bytes := bs_max_bytes s |};
|}.

Record HealthCheckSpec := {
  hc_path : string; hc_interval_secs : Z; hc_timeout_secs : Z; hc_healthy_threshold : Z; hc_unhealthy_threshold : Z }.
#[export] Instance health_check_policy : PolicyKind HealthCheckSpec HealthCheckPolicyState := {|
  kind_name := "HealthCheckPolicy";
  kind_state m s := {| hcps_meta := m; hcps_path := hc_path s; hcps_interval_secs := hc_interval_secs s;
                       hcps_timeout_secs := hc_timeout_secs s; hcps_healthy_threshold := hc_healthy_threshold s;
                       hcps_unhealthy_threshold := hc_unhealthy_threshold s |};
|}.

Record CORSSpec := {
  co_allow_origins : list string; co_allow_methods : list string; co_allow_headers : list string;
  co_expose_headers : list string; co_allow_credentials : bool; co_max_age : Z }.
#[export] Instance cors_policy : PolicyKind CORSSpec CORSPolicyState := {|
  kind_name := "CORSPolicy";
  kind_state m s := {| cops_meta := m; cops_allow_origins := co_allow_origins s; cops_allow_methods := co_allow_methods s;
                       cops_allow_headers := co_allow_headers s; cops_expose_headers := co_expose_headers s;
                       cops_allow_credentials := co_allow_credentials s; cops_max_age := co_max_age s |};
|}.

Record TimeoutSpec := { to_request_timeout_ms : Z; to_backend_request_timeout_ms : Z; to_connect_timeout_ms : Z }.
#[export] Instance timeout_policy : PolicyKind TimeoutSpec TimeoutPolicyState := {|
  kind_name := "TimeoutPolicy";
  kind_state m s := {| tops_meta := m; tops_request_timeout_ms := to_request_timeout_ms s;
                       tops_backend_request_timeout_ms := to_backend_request_timeout_ms s;
                       tops_connect_timeout_ms := to_connect_timeout_ms s |};
|}.

(** The seven reconcilers. *)
Section Kinds.
Context `{IO : IterOrder}.

Definition reconcile_rate_limit_policy : PolicyObject RateLimitSpec -> bool -> gmap NamespacedName RateLimitPolicyState ->
    result (gmap NamespacedName RateLimitPolicyState * list Condition) ReconcileError := reconcile_inner.
Definition reconcile_circuit_breaker_policy : PolicyObject CircuitBreakerSpec -> bool -> gmap NamespacedName CircuitBreakerPolicyState ->
    result (gmap NamespacedName CircuitBreakerPolicyState * list Condition) ReconcileError := reconcile_inner.
Definition reconcile_connection_policy : PolicyObject ConnectionSpec -> bool -> gmap NamespacedName ConnectionPolicyState ->
    result (gmap NamespacedName ConnectionPolicyState * list Condition) ReconcileError := reconcile_inner.
Definition reconcile_request_body_size_limit_policy : PolicyObject RequestBodySizeLimitSpec -> bool -> gmap NamespacedName RequestBodySizeLimitPolicyState ->
    result (gmap NamespacedName RequestBodySizeLimitPolicyState * list Condition) ReconcileError := reconcile_inner.
Definition reconcile_health_check_policy : PolicyObject HealthCheckSpec -> bool -> gmap NamespacedName HealthCheckPolicyState ->
    result (gmap NamespacedName HealthCheckPolicyState * list Condition) ReconcileError := reconcile_inner.
Definition reconcile_cors_policy : PolicyObject CORSSpec -> bool -> gmap NamespacedName CORSPolicyState ->
    result (gmap NamespacedName CORSPolicyState * list Condition) ReconcileError := reconcile_inner.
Definition reconcile_timeout_policy : PolicyObject TimeoutSpec -> bool -> gmap NamespacedName TimeoutPolicyState ->
    result (gmap NamespacedName TimeoutPolicyState * list Condition) ReconcileError := reconcile_inner.
End Kinds.

(** What the theorems below need of a kind; each kind has it. *)
Class PolicyKindLaws (Spec P : Type) `{PolicyKind Spec P} := {
  kind_state_meta m s : policy_meta (kind_state m s) = m;
  kind_state_accepted v m s : set_accepted v (kind_state m s) = kind_state (meta_accepted v m) s;
}.

#[export] Instance rate_limit_laws : PolicyKindLaws RateLimitSpec RateLimitPolicyState.
Proof. by split. Qed.
#[export] Instance circuit_breaker_laws : PolicyKindLaws CircuitBreakerSpec CircuitBreakerPolicyState.
Proof. by split. Qed.
#[export] Instance connection_laws : PolicyKindLaws ConnectionSpec ConnectionPolicyState.
Proof. by split. Qed.
#[export] Instance request_body_size_limit_laws : PolicyKindLaws RequestBodySizeLimitSpec RequestBodySizeLimitPolicyState.
Proof. by split. Qed.
#[export] Instance health_check_laws : PolicyKindLaws HealthCheckSpec HealthCheckPolicyState.
Proof. by split. Qed.
#[export] Instance cors_laws : PolicyKindLaws CORSSpec CORSPolicyState.
Proof. by split. Qed.
#[export] Instance timeout_laws : PolicyKindLaws TimeoutSpec TimeoutPolicyState.
Proof. by split. Qed.

(** ** Events *)

Inductive RouteKind := RouteHttp | RouteGrpc | RouteTls | RouteTcp | RouteUdp | RouteAi.

Inductive StoreEvent :=
| EvGatewayClass (name : string)
| EvGateway (key : NamespacedName)
| EvListenerSet (key parent : NamespacedName)
| EvRoute (kind : RouteKind) (key : NamespacedName) (parents : list (ParentKind * NamespacedName)) (backends : list NamespacedName)
| EvReferenceGrant (namespace : string)
| EvService (key : NamespacedName)
| EvNamespace (name : string)
| EvPolicy (kind : string) (key : NamespacedName) (target : PolicyTargetKey)
| EvProgrammed (gateway : NamespacedName).

Definition key_of (m : ObjectMeta) : NamespacedName :=
  {| nn_namespace := default EmptyString (om_namespace m); nn_name := default EmptyString (om_name m) |}.

(** [PolicyRefs::target] *)
Definition object_target {Spec} (o : PolicyObject Spec) : PolicyTargetKey :=
  target_in (nn_namespace (key_of (po_metadata o))) (po_target_ref o).

Section Publishing.
Context `{IO : IterOrder} {P : Type} `{PS : PolicyState P} `{!EqDecision P}.

(** [reconcile_publishing]: the event goes out when the stored state changed. *)
Definition reconcile_publishing (kind : string) (meta : ObjectMeta)
    (reconcile : gmap NamespacedName P -> result (gmap NamespacedName P * list Condition) ReconcileError)
    (policies : gmap NamespacedName P) : result (gmap NamespacedName P * list Condition * option StoreEvent) ReconcileError :=
  let key := key_of meta in
  let before := policies !! key in
  try! r := reconcile policies in
  let after := r.1 !! key in
  let event :=
    if bool_decide (before = after) then None
    else match after, before with
         | Some s, _ | None, Some s => Some (EvPolicy kind key (policy_target s))
         | None, None => None
         end in
  Ok (r.1, r.2, event).

(** [gone_policy], with [remove_and_notify] *)
Definition gone_policy (kind : string) (key : NamespacedName) (policies : gmap NamespacedName P)
    : gmap NamespacedName P * option StoreEvent :=
  match policies !! key with
  | Some gone => (delete key policies, Some (EvPolicy kind key (policy_target gone)))
  | None => (policies, None)
  end.

(** [policies_for] *)
Definition policies_for {Spec} (kind : string) (event : StoreEvent) (objects : gmap NamespacedName (PolicyObject Spec))
    : list NamespacedName :=
  let affected (o : PolicyObject Spec) :=
    match event with
    | EvProgrammed _ => true
    | EvPolicy k key target =>
        String.eqb k kind && negb (bool_decide (key_of (po_metadata o) = key)) && bool_decide (object_target o = target)
    | _ => false
    end in
  map (fun e => key_of (po_metadata e.2)) (List.filter (fun e => affected e.2) (entries objects)).
End Publishing.

(** ** Who wins *)

Lemma string_le_total a b : string_le a b = false -> string_le b a = true.
Proof.
  unfold string_le. rewrite (String.compare_antisym a b). by destruct (String.compare b a).
Qed.

Lemma string_le_trans a b c : string_le a b = true -> string_le b c = true -> string_le a c = true.
Proof.
  unfold string_le. destruct (String.compare a b) eqn:Hab; try done.
  - apply String.compare_eq_iff in Hab as ->. done.
  - destruct (String.compare b c) eqn:Hbc; try done.
    + apply String.compare_eq_iff in Hbc as ->. by rewrite Hab.
    + by rewrite (scompare_lt_trans _ _ _ Hab Hbc).
Qed.

Lemma string_le_antisym a b : string_le a b = true -> string_le b a = true -> a = b.
Proof.
  unfold string_le. rewrite (String.compare_antisym b a). destruct (String.compare a b) eqn:H; try done.
  by apply String.compare_eq_iff in H.
Qed.

Lemma winner_total t1 k1 t2 k2 : is_policy_winner t1 k1 t2 k2 = false -> is_policy_winner t2 k2 t1 k1 = true.
Proof.
  unfold is_policy_winner. destruct t1 as [a|], t2 as [b|]; try done; [|apply string_le_total].
  rewrite (Z.eqb_sym b a). destruct (Z.eqb_spec a b); [apply string_le_total|]. rewrite Z.ltb_ge, Z.ltb_lt. lia.
Qed.

Lemma winner_trans t1 k1 t2 k2 t3 k3 :
  is_policy_winner t1 k1 t2 k2 = true -> is_policy_winner t2 k2 t3 k3 = true -> is_policy_winner t1 k1 t3 k3 = true.
Proof.
  unfold is_policy_winner. destruct t1 as [a|], t2 as [b|], t3 as [c|]; try done; [|apply string_le_trans].
  destruct (Z.eqb_spec a b), (Z.eqb_spec b c), (Z.eqb_spec a c); subst; try done; rewrite ?Z.ltb_lt; try lia.
  apply string_le_trans.
Qed.

Lemma winner_refl t k : is_policy_winner t k t k = true.
Proof. destruct (is_policy_winner t k t k) eqn:H; [done|]. by rewrite <- (winner_total _ _ _ _ H), H. Qed.

Lemma winner_antisym t1 k1 t2 k2 :
  nn_namespace k1 = nn_namespace k2 ->
  is_policy_winner t1 k1 t2 k2 = true -> is_policy_winner t2 k2 t1 k1 = true -> k1 = k2.
Proof.
  intros Hns H1 H2. assert (Heq : show_name k1 = show_name k2).
  { revert H1 H2. unfold is_policy_winner. destruct t1 as [a|], t2 as [b|]; try done; [|apply string_le_antisym].
    rewrite (Z.eqb_sym b a). destruct (Z.eqb_spec a b); [apply string_le_antisym|]. rewrite !Z.ltb_lt. lia. }
  destruct k1 as [ns1 n1], k2 as [ns2 n2]; simpl in *; subst. unfold show_name in Heq; simpl in Heq.
  apply (inj (String.append ns2)) in Heq. by simplify_eq.
Qed.

Lemma same_target_spec t u : same_target t u = true <-> t = u.
Proof.
  unfold same_target. rewrite !andb_true_iff, !String.eqb_eq, bool_decide_eq_true. destruct t, u; simpl.
  split; [intros [[[[-> ->] ->] ->] ->]|intros [=]]; by subst.
Qed.

Section Election.
Context `{IO : IterOrder} {P : Type} `{PL : PolicyLaws P}.
Implicit Types (m policies : gmap NamespacedName P) (p q : P).

(** [k] is the oldest policy on [target]: none on it comes before. *)
Definition oldest (target : PolicyTargetKey) (policies : gmap NamespacedName P) (k : NamespacedName) (p : P) : bool :=
  forallb (fun e => implb (same_target (policy_target e.2) target)
                          (is_policy_winner (policy_created p) k (policy_created e.2) e.1)) (map_to_list policies).

(** The contract of conflict resolution: of the policies on [target] exactly
    the oldest is accepted, and no other policy changes. *)
Definition elect (target : PolicyTargetKey) (policies : gmap NamespacedName P) : gmap NamespacedName P :=
  map_imap (fun k p => Some (if same_target (policy_target p) target then set_accepted (oldest target policies k p) p else p))
           policies.

(** Every policy targets its own namespace. *)
Definition local_targets (policies : gmap NamespacedName P) : Prop :=
  forall k p, policies !! k = Some p -> ptk_namespace (policy_target p) = nn_namespace k.

Lemma oldest_spec target m k p :
  oldest target m k p = true <->
  forall j q, m !! j = Some q -> policy_target q = target -> is_policy_winner (policy_created p) k (policy_created q) j = true.
Proof.
  unfold oldest. rewrite forallb_forall. split.
  - intros Hall j q Hj Ht. specialize (Hall (j, q)). rewrite <- list_elem_of_In, elem_of_map_to_list in Hall.
    specialize (Hall Hj). simpl in Hall. by rewrite (proj2 (same_target_spec _ _) Ht) in Hall.
  - intros Hall [j q] Hj%list_elem_of_In%elem_of_map_to_list. simpl.
    destruct (same_target (policy_target q) target) eqn:Ht; [|done]. apply Hall; [done|]. by apply same_target_spec.
Qed.

Lemma contenders_elem target m k ts :
  (k, ts) ∈ contenders target m <-> exists p, m !! k = Some p /\ policy_target p = target /\ ts = policy_created p.
Proof.
  unfold contenders. rewrite list_elem_of_omap. split.
  - intros ([j q] & Hj%entries_elem & Hq); simpl in Hq. destruct (same_target _ _) eqn:Ht; simplify_eq.
    exists q. split; [done|]. split; [by apply same_target_spec|done].
  - intros (p & Hp & Ht & ->). exists (k, p). split; [by apply entries_elem|]. simpl.
    by rewrite (proj2 (same_target_spec _ _) Ht).
Qed.

Lemma contenders_nodup target m : NoDup (map fst (contenders target m)).
Proof.
  unfold contenders. pose proof (entries_nodup m) as Hnd. induction (entries m) as [|[k p] l IH]; simpl; [constructor|].
  simpl in Hnd. apply NoDup_cons in Hnd as [Hk Hnd]. destruct (same_target _ _); simpl; [|auto].
  constructor; [|auto]. intros ([k' ts] & -> & ([j q] & Hj & Hq)%list_elem_of_omap)%list_elem_of_fmap.
  apply Hk. apply list_elem_of_fmap. exists (j, q). destruct (same_target _ _); by simplify_eq/=.
Qed.

Lemma elect_lookup target m k :
  elect target m !! k =
  (fun p => if same_target (policy_target p) target then set_accepted (oldest target m k p) p else p) <$> m !! k.
Proof. unfold elect. rewrite map_lookup_imap. by destruct (m !! k). Qed.

Lemma target_set v p : policy_target (set_accepted v p) = policy_target p.
Proof. unfold policy_target. by rewrite set_accepted_meta. Qed.

Lemma created_set v p : policy_created (set_accepted v p) = policy_created p.
Proof. unfold policy_created. by rewrite set_accepted_meta. Qed.

Lemma accepted_set v p : policy_accepted (set_accepted v p) = v.
Proof. unfold policy_accepted. by rewrite set_accepted_meta. Qed.

(** Two policies on one target that both come first are the same. *)
Lemma oldest_unique target m k1 p1 k2 p2 :
  local_targets m -> m !! k1 = Some p1 -> m !! k2 = Some p2 -> policy_target p1 = target -> policy_target p2 = target ->
  oldest target m k1 p1 = true -> oldest target m k2 p2 = true -> k1 = k2.
Proof.
  intros Hloc H1 H2 Ht1 Ht2 Ho1 Ho2. eapply winner_antisym.
  - by rewrite <- (Hloc _ _ H1), <- (Hloc _ _ H2), Ht1, Ht2.
  - by eapply oldest_spec.
  - by eapply oldest_spec.
Qed.

Lemma contends_iff target m k q :
  m !! k = Some q -> bool_decide (k ∈ map fst (contenders target m)) = same_target (policy_target q) target.
Proof.
  intros Hq. destruct (same_target _ _) eqn:Hs.
  - apply bool_decide_eq_true_2, list_elem_of_fmap. exists (k, policy_created q). split; [done|].
    apply contenders_elem. apply same_target_spec in Hs. eauto.
  - apply bool_decide_eq_false_2. intros ([j ts] & -> & (r & Hr & Hrt & _)%contenders_elem)%list_elem_of_fmap.
    simplify_eq/=. by rewrite (proj2 (same_target_spec _ _) eq_refl) in Hs.
Qed.

Lemma running_winner target m first rest :
  contenders target m = first :: rest ->
  exists wp, m !! (running_best (fun w c => is_policy_winner w.2 w.1 c.2 c.1) rest first).1 = Some wp /\
             policy_target wp = target /\
             oldest target m (running_best (fun w c => is_policy_winner w.2 w.1 c.2 c.1) rest first).1 wp = true.
Proof.
  intros Hc. destruct (running_best_best (fun w c : NamespacedName * option Z => is_policy_winner w.2 w.1 c.2 c.1))
    with (l := rest) (h := first) as [Hin Hbest].
  { intros [] []; apply winner_total. }
  { intros [] [] []; apply winner_trans. }
  destruct (running_best _ _ _) as [wk wt]. rewrite <- Hc in Hin, Hbest. apply contenders_elem in Hin as (wp & Hwp & Hwt & ->).
  exists wp. split; [done|]. split; [done|]. apply oldest_spec. intros j r Hj Hr. apply (Hbest (j, policy_created r)).
  apply contenders_elem. eauto.
Qed.

Lemma resolve_elect current target m p :
  local_targets m -> m !! current = Some p -> policy_target p = target ->
  resolve_conflicts current target m = elect target m.
Proof.
  intros Hloc Hp Ht. apply map_eq. intros k. rewrite elect_lookup. unfold resolve_conflicts.
  assert (Hcur : (current, policy_created p) ∈ contenders target m) by (apply contenders_elem; eauto).
  pose proof (contenders_nodup target m) as Hnd. pose proof (contends_iff target m) as Hmem.
  pose proof (running_winner target m) as Hrun.
  destruct (contenders target m) as [|first [|second rest]]; [by apply elem_of_nil in Hcur|..].
  - apply list_elem_of_singleton in Hcur as <-. destruct (Hrun _ _ eq_refl) as (wp & Hwp & _ & Hw); simpl in *; simplify_eq.
    destruct (decide (k = current)) as [->|Hk].
    + rewrite lookup_alter_eq, Hp; simpl. by rewrite (proj2 (same_target_spec _ _) eq_refl), Hw.
    + rewrite lookup_alter_ne by done. destruct (m !! k) as [q|] eqn:Hq; [|done]; simpl. rewrite <- (Hmem k q Hq).
      rewrite bool_decide_eq_false_2; [done|]. by rewrite list_elem_of_singleton.
  - destruct (Hrun _ _ eq_refl) as (wp & Hwp & Hwt & Hwo). set (w := running_best _ _ _) in *.
    rewrite (fold_alter (fun k => set_accepted (bool_decide (k = w.1)))) by done.
    destruct (m !! k) as [q|] eqn:Hq; [|by destruct (bool_decide _)]. rewrite (Hmem k q Hq). simpl.
    destruct (same_target (policy_target q) target) eqn:Hs; [|done]. apply same_target_spec in Hs.
    do 2 f_equal. destruct (bool_decide_reflect (k = w.1)) as [->|Hne]; [by simplify_eq|].
    destruct (oldest target m k q) eqn:Ho; [|done]. destruct Hne. by eapply oldest_unique.
Qed.
End Election.

(** ** The reconcilers of one kind at work *)

Section System.
Context `{IO : IterOrder} {Spec P : Type} `{PK : PolicyKind Spec P} `{!EqDecision P}.

(** The objects of the kind in the cluster, the stored states, the objects
    waiting to be reconciled and the conditions last written to each object. *)
Record PolicySystem := {
  sys_objects : gmap NamespacedName (PolicyObject Spec);
  sys_policies : gmap NamespacedName P;
  sys_queue : gset NamespacedName;
  sys_status : gmap NamespacedName (list Condition);
}.

Definition sys_empty : PolicySystem :=
  {| sys_objects := ∅; sys_policies := ∅; sys_queue := ∅; sys_status := ∅ |}.

(** The objects an event makes run again join the queue. *)
Definition requeue (event : option StoreEvent) (objects : gmap NamespacedName (PolicyObject Spec)) (queue : gset NamespacedName)
    : gset NamespacedName :=
  match event with
  | Some e => list_to_set (policies_for (kind_name Spec P) e objects) ∪ queue
  | None => queue
  end.

(** An object is created or updated: its controller runs it. *)
Definition sys_applied (o : PolicyObject Spec) (s : PolicySystem) : PolicySystem :=
  let k := key_of (po_metadata o) in
  {| sys_objects := <[k := o]> (sys_objects s); sys_policies := sys_policies s;
     sys_queue := {[k]} ∪ sys_queue s; sys_status := sys_status s |}.

(** An object is deleted: the eviction hook drops its state. *)
Definition sys_deleted (k : NamespacedName) (s : PolicySystem) : PolicySystem :=
  let objects := delete k (sys_objects s) in
  let gone := gone_policy (kind_name Spec P) k (sys_policies s) in
  {| sys_objects := objects; sys_policies := gone.1; sys_queue := requeue gone.2 objects (sys_queue s ∖ {[k]});
     sys_status := delete k (sys_status s) |}.

(** One reconcile of a queued object: the store update with its event, then the
    status write.  A failed reconcile is run again later. *)
Definition sys_reconciled (programmed : bool) (k : NamespacedName) (s : PolicySystem) : PolicySystem :=
  match sys_objects s !! k with
  | None => {| sys_objects := sys_objects s; sys_policies := sys_policies s; sys_queue := sys_queue s ∖ {[k]};
               sys_status := sys_status s |}
  | Some o =>
      match reconcile_publishing (kind_name Spec P) (po_metadata o) (reconcile_inner o programmed) (sys_policies s) with
      | Err _ => s
      | Ok (policies, conditions, event) =>
          {| sys_objects := sys_objects s; sys_policies := policies;
             sys_queue := requeue event (sys_objects s) (sys_queue s ∖ {[k]});
             sys_status := <[k := conditions]> (sys_status s) |}
      end
  end.

(** The object has a name and a namespace, as every object of the API has. *)
Definition identified (o : PolicyObject Spec) : Prop :=
  is_Some (om_name (po_metadata o)) /\ is_Some (om_namespace (po_metadata o)).

(** An update leaves the target of a policy as it was. *)
Definition target_kept (o : PolicyObject Spec) (s : PolicySystem) : Prop :=
  forall o', sys_objects s !! key_of (po_metadata o) = Some o' -> object_target o' = object_target o.

(** A reconcile that runs. *)
Inductive runs : PolicySystem -> PolicySystem -> Prop :=
| runs_reconcile programmed k s : k ∈ sys_queue s -> runs s (sys_reconciled programmed k s).

Inductive policy_step : PolicySystem -> PolicySystem -> Prop :=
| step_applied o s : identified o -> target_kept o s -> policy_step s (sys_applied o s)
| step_deleted k s : policy_step s (sys_deleted k s)
| step_runs s s' : runs s s' -> policy_step s s'.

(** The stored flags on [target] say who is oldest. *)
Definition settled_target (target : PolicyTargetKey) (policies : gmap NamespacedName P) : Prop :=
  forall k p, policies !! k = Some p -> policy_target p = target -> policy_accepted p = oldest target policies k p.

(** The stored state is what the object asks for. *)
Definition fresh (policies : gmap NamespacedName P) (k : NamespacedName) (o : PolicyObject Spec) : Prop :=
  exists v, policies !! k = Some (kind_state (meta_of (nn_namespace k) o v) (po_spec o)).

(** The last status written says whether the policy is accepted. *)
Definition reports (status : gmap NamespacedName (list Condition)) (k : NamespacedName) (accepted : bool) : Prop :=
  exists c rest, status !! k = Some (c :: rest) /\ cond_type c = "Accepted" /\
                 cond_status c = if accepted then "True" else "False".

Record policies_ok (s : PolicySystem) : Prop := {
  ok_objects k o : sys_objects s !! k = Some o -> identified o /\ key_of (po_metadata o) = k;
  ok_policies k p : sys_policies s !! k = Some p ->
    exists o, sys_objects s !! k = Some o /\ policy_target p = object_target o;
  ok_fresh k o : sys_objects s !! k = Some o -> k ∈ sys_queue s \/ fresh (sys_policies s) k o;
  ok_settled t : settled_target t (sys_policies s) \/
    forall k o, sys_objects s !! k = Some o -> object_target o = t -> k ∈ sys_queue s;
  ok_status k o : sys_objects s !! k = Some o ->
    k ∈ sys_queue s \/ exists p, sys_policies s !! k = Some p /\ reports (sys_status s) k (policy_accepted p);
}.

(** *** Settling *)

Context `{PL : !PolicyLaws P} `{PKL : !PolicyKindLaws Spec P}.
Implicit Types (m : gmap NamespacedName P) (o : PolicyObject Spec) (s : PolicySystem).

Lemma elect_back target m k p' :
  elect target m !! k = Some p' -> exists p, m !! k = Some p /\ policy_target p' = policy_target p /\ policy_created p' = policy_created p.
Proof.
  rewrite elect_lookup. destruct (m !! k) as [p|]; simpl; [|done]. intros [= <-]. exists p. split; [done|].
  destruct (same_target _ _); [|done]. by rewrite target_set, created_set.
Qed.

Lemma elect_forth target m k p :
  m !! k = Some p ->
  exists p', elect target m !! k = Some p' /\ policy_target p' = policy_target p /\ policy_created p' = policy_created p.
Proof.
  intros Hp. rewrite elect_lookup, Hp. simpl. eexists. split; [done|].
  destruct (same_target _ _); [|done]. by rewrite target_set, created_set.
Qed.

Lemma oldest_elect t target m k p p' :
  policy_created p' = policy_created p -> oldest t (elect target m) k p' = oldest t m k p.
Proof.
  intros Hc. apply eq_true_iff_eq. rewrite !oldest_spec, Hc. split; intros Hall j q Hj Ht.
  - destruct (elect_forth target m j q Hj) as (q' & Hq' & Ht' & <-). apply Hall; [done|by rewrite Ht'].
  - destruct (elect_back _ _ _ _ Hj) as (q' & Hq' & Ht' & ->). apply Hall; [done|by rewrite <- Ht'].
Qed.

Lemma elect_settled target m : settled_target target (elect target m).
Proof.
  intros k p'. rewrite elect_lookup. destruct (m !! k) as [p|] eqn:Hp; simpl; [|done]. intros [= <-] Ht.
  destruct (same_target (policy_target p) target) eqn:Hs.
  - rewrite accepted_set. symmetry. apply oldest_elect, created_set.
  - by rewrite (proj2 (same_target_spec _ _) Ht) in Hs.
Qed.

Lemma settled_elect target m : settled_target target m -> elect target m = m.
Proof.
  intros Hset. apply map_eq. intros k. rewrite elect_lookup. destruct (m !! k) as [p|] eqn:Hp; simpl; [|done].
  destruct (same_target (policy_target p) target) eqn:Hs; [|done]. apply same_target_spec in Hs.
  by rewrite <- (Hset k p Hp Hs), set_accepted_id.
Qed.

(** Policies on other targets do not matter. *)
Lemma settled_ext t m m' :
  (forall k p, policy_target p = t -> m !! k = Some p <-> m' !! k = Some p) -> settled_target t m -> settled_target t m'.
Proof.
  intros Hext Hset k p Hp Ht. rewrite (Hset k p (proj2 (Hext k p Ht) Hp) Ht). apply eq_true_iff_eq. rewrite !oldest_spec.
  split; intros Hall j q Hj Htq; (apply Hall; [|done]); by apply (Hext j q Htq).
Qed.

Lemma settled_elect_other t target m : t <> target -> settled_target t m -> settled_target t (elect target m).
Proof.
  intros Hne. apply settled_ext. intros k p Ht. rewrite elect_lookup. destruct (m !! k) as [q|]; simpl; [|done].
  destruct (same_target (policy_target q) target) eqn:Hs; [|done]. apply same_target_spec in Hs.
  split; intros [= <-]; exfalso; apply Hne; [|rewrite target_set in Ht]; by rewrite <- Ht.
Qed.

(** What the object asks for, before the conflicts are resolved. *)
Definition wanted_state (k : NamespacedName) (o : PolicyObject Spec) : P := kind_state (meta_of (nn_namespace k) o true) (po_spec o).

Lemma wanted_target o : policy_target (wanted_state (key_of (po_metadata o)) o) = object_target o.
Proof. unfold wanted_state, policy_target. by rewrite kind_state_meta. Qed.

Lemma insert_local_targets m o :
  local_targets m -> local_targets (<[key_of (po_metadata o) := wanted_state (key_of (po_metadata o)) o]> m).
Proof.
  intros Hloc k p. destruct (decide (k = key_of (po_metadata o))) as [->|Hk].
  - rewrite lookup_insert_eq. intros [= <-]. by rewrite wanted_target.
  - rewrite lookup_insert_ne by done. apply Hloc.
Qed.

Lemma reconcile_outcome o programmed m :
  identified o -> local_targets m ->
  let k := key_of (po_metadata o) in
  let m' := elect (object_target o) (<[k := wanted_state k o]> m) in
  exists c c' p, reconcile_inner o programmed m = Ok (m', [c; c']) /\ m' !! k = Some p /\
    cond_type c = "Accepted" /\ cond_status c = if policy_accepted p then "True" else "False".
Proof.
  intros [[n Hn] [ns Hns]] Hloc k m'. pose proof (insert_local_targets m o Hloc) as Hloc'.
  pose proof (wanted_target o) as Ht. fold k in Hloc', Ht.
  destruct (elect_forth (object_target o) (<[k := wanted_state k o]> m) k _ (lookup_insert_eq _ _ _)) as (p & Hp & _ & _).
  assert (Hkey : policy_key (po_metadata o) = Ok k).
  { unfold policy_key, k, key_of. by rewrite Hn, Hns. }
  unfold reconcile_inner, store_and_resolve. rewrite Hkey. fold (wanted_state k o). rewrite Ht.
  rewrite (resolve_elect k _ _ (wanted_state k o) Hloc' (lookup_insert_eq _ _ _) Ht). fold m' in Hp |- *. rewrite Hp.
  do 3 eexists. split; [reflexivity|]. split; [done|]. by destruct (policy_accepted p).
Qed.

Lemma ok_local s : policies_ok s -> local_targets (sys_policies s).
Proof.
  intros Hok k p Hp. destruct (ok_policies s Hok k p Hp) as (o & Ho & ->).
  by destruct (ok_objects s Hok k o Ho) as [_ <-].
Qed.

(** The siblings an event about [k] reaches. *)
Lemma policies_for_siblings k t (objects : gmap NamespacedName (PolicyObject Spec)) j :
  (forall j o, objects !! j = Some o -> key_of (po_metadata o) = j) ->
  j ∈ policies_for (kind_name Spec P) (EvPolicy (kind_name Spec P) k t) objects <->
  exists o, objects !! j = Some o /\ j <> k /\ object_target o = t.
Proof.
  intros Hkeys. unfold policies_for. rewrite list_elem_of_fmap. setoid_rewrite list_elem_of_In. setoid_rewrite filter_In.
  setoid_rewrite <- list_elem_of_In. split.
  - intros ([j' o] & -> & Ho%entries_elem & Ha); simpl in *. pose proof (Hkeys _ _ Ho) as Hk.
    rewrite String.eqb_refl, andb_true_l, andb_true_iff, negb_true_iff, bool_decide_eq_false, bool_decide_eq_true in Ha.
    exists o. split; [by rewrite Hk|]. done.
  - intros (o & Ho & Hne & Ht). pose proof (Hkeys _ _ Ho) as Hk. exists (j, o). split; [done|].
    split; [by apply entries_elem|]. simpl.
    rewrite String.eqb_refl, andb_true_l, andb_true_iff, negb_true_iff, bool_decide_eq_false, bool_decide_eq_true.
    split; [by rewrite Hk|done].
Qed.

Lemma ok_keys s : policies_ok s -> forall j o, sys_objects s !! j = Some o -> key_of (po_metadata o) = j.
Proof. intros Hok j o Ho. by apply (ok_objects s Hok j o). Qed.

(** One reconcile, spelled out: the target is settled, and when the stored
    state changed every sibling runs again. *)
Lemma reconciled_outcome programmed k o s :
  policies_ok s -> sys_objects s !! k = Some o ->
  let m' := elect (object_target o) (<[k := wanted_state k o]> (sys_policies s)) in
  let s' := sys_reconciled programmed k s in
  sys_objects s' = sys_objects s /\ sys_policies s' = m' /\
  (exists p, m' !! k = Some p /\ reports (sys_status s') k (policy_accepted p)) /\
  (forall j, j <> k -> sys_status s' !! j = sys_status s !! j) /\
  (forall j, j ∈ sys_queue s' <->
     (j ∈ sys_queue s /\ j <> k) \/
     (sys_policies s !! k <> m' !! k /\ j <> k /\ exists o', sys_objects s !! j = Some o' /\ object_target o' = object_target o)).
Proof.
  intros Hok Ho m' s'. destruct (ok_objects s Hok k o Ho) as [Hid Hkey]. unfold s', sys_reconciled. rewrite Ho.
  destruct (reconcile_outcome o programmed (sys_policies s) Hid (ok_local s Hok)) as (c & c' & p & Hr & Hp & Hc1 & Hc2).
  rewrite Hkey in Hr, Hp. fold m' in Hr, Hp. unfold reconcile_publishing. rewrite Hr, Hkey; simpl. rewrite Hp.
  split; [done|]. split; [done|]. split.
  { exists p. split; [done|]. exists c, [c']. by rewrite lookup_insert_eq. }
  split; [intros j Hj; by rewrite lookup_insert_ne|]. intros j.
  assert (Htp : policy_target p = object_target o).
  { destruct (elect_back _ _ _ _ Hp) as (q & Hq & -> & _). rewrite lookup_insert_eq in Hq.
    injection Hq as <-. rewrite <- Hkey. apply wanted_target. }
  clear s' Hr. destruct (bool_decide_reflect (sys_policies s !! k = Some p)) as [Heq|Hne]; simpl.
  - rewrite elem_of_difference, not_elem_of_singleton. split; [by left|]. by intros [?|[? _]].
  - rewrite elem_of_union, elem_of_list_to_set, (policies_for_siblings k _ _ j (ok_keys s Hok)), Htp.
    rewrite elem_of_difference, not_elem_of_singleton.
    split; [intros [(o' & Ho' & Hj & Ht)|?]; [right; eauto|by left]|].
    intros [?|(_ & Hj & o' & Ho' & Ht)]; [by right|left; eauto].
Qed.

(** Resolving a conflict leaves every state what its object asks for. *)
Lemma elect_fresh t m k o : fresh m k o -> fresh (elect t m) k o.
Proof.
  intros [v Hv]. unfold fresh. rewrite elect_lookup, Hv; simpl. destruct (same_target _ _); [|eauto].
  rewrite kind_state_accepted. by eexists.
Qed.

Lemma insert_fresh m k o : fresh (<[k := wanted_state k o]> m) k o.
Proof. exists true. by rewrite lookup_insert_eq. Qed.

(** Writing a state that was already there only resets its flag. *)
Lemma elect_insert t m k o :
  policy_target (wanted_state k o) = t -> fresh m k o -> elect t (<[k := wanted_state k o]> m) = elect t m.
Proof.
  intros Htw [v Hv].
  assert (Ho : forall j p p', policy_created p = policy_created p' ->
               oldest t (<[k := wanted_state k o]> m) j p = oldest t m j p').
  { intros j p p' Hc. apply eq_true_iff_eq. rewrite !oldest_spec, Hc.
    assert (Hsame : policy_target (wanted_state k o) = policy_target (kind_state (meta_of (nn_namespace k) o v) (po_spec o)) /\
                    policy_created (wanted_state k o) = policy_created (kind_state (meta_of (nn_namespace k) o v) (po_spec o))).
    { unfold wanted_state, policy_target, policy_created. by rewrite !kind_state_meta. }
    destruct Hsame as [Ht Hcr]. split; intros Hall i q Hi Hq.
    - destruct (decide (i = k)) as [->|Hik]; [|apply Hall; [by rewrite lookup_insert_ne|done]].
      simplify_eq. rewrite <- Hcr. apply Hall; [by rewrite lookup_insert_eq|congruence].
    - destruct (decide (i = k)) as [->|Hik]; [|apply Hall; [by rewrite lookup_insert_ne in Hi|done]].
      rewrite lookup_insert_eq in Hi. simplify_eq. rewrite Hcr. apply Hall; [done|congruence]. }
  apply map_eq. intros j. rewrite !elect_lookup. destruct (decide (j = k)) as [->|Hj].
  - rewrite lookup_insert_eq, Hv; simpl. unfold policy_target, wanted_state in *. rewrite !kind_state_meta in *. simpl in *. rewrite ! (proj2 (same_target_spec _ _) Htw).
    rewrite !kind_state_accepted. unfold meta_accepted. simpl. do 3 f_equal. apply Ho. unfold policy_created. by rewrite !kind_state_meta.
  - rewrite lookup_insert_ne by done. destruct (m !! j) as [q|]; simpl; [|done]. by rewrite (Ho j q q).
Qed.

(** A state other than [k]'s is touched by a reconcile of [k] only when it
    shares the target. *)
Lemma elect_insert_other t m k o j :
  j <> k -> (forall p, m !! j = Some p -> policy_target p <> t) -> elect t (<[k := wanted_state k o]> m) !! j = m !! j.
Proof.
  intros Hj Hne. rewrite elect_lookup, lookup_insert_ne by done. destruct (m !! j) as [p|] eqn:Hp; simpl; [|done].
  destruct (same_target _ _) eqn:Hs; [|done]. apply same_target_spec in Hs. by destruct (Hne p).
Qed.

Lemma settled_insert_other t m k o :
  policy_target (wanted_state k o) <> t -> (forall p, m !! k = Some p -> policy_target p <> t) ->
  settled_target t m -> settled_target t (<[k := wanted_state k o]> m).
Proof.
  intros Hw Hk. apply settled_ext. intros j p Ht. destruct (decide (j = k)) as [->|Hj]; [|by rewrite lookup_insert_ne].
  rewrite lookup_insert_eq. split; [intros Hp; by destruct (Hk p)|]. intros [= <-]. done.
Qed.

Section Reconciled.
Context (programmed : bool) (k : NamespacedName) (o : PolicyObject Spec) (s : PolicySystem).
Hypothesis Hok : policies_ok s.
Hypothesis Ho : sys_objects s !! k = Some o.
Let t := object_target o.
Let m := sys_policies s.
Let m' := elect t (<[k := wanted_state k o]> m).

Lemma wanted_on_target : policy_target (wanted_state k o) = t.
Proof. rewrite <- (ok_keys s Hok k o Ho). apply wanted_target. Qed.

Lemma stored_on_target p : m !! k = Some p -> policy_target p = t.
Proof. intros Hp. destruct (ok_policies s Hok k p Hp) as (o' & Ho' & ->). by simplify_eq. Qed.

Lemma reconciled_fresh j o' : sys_objects s !! j = Some o' -> j = k \/ fresh m j o' -> fresh m' j o'.
Proof.
  intros Hj Hf. apply elect_fresh. destruct (decide (j = k)) as [->|Hne]; [simplify_eq; apply insert_fresh|].
  destruct Hf as [|[v Hv]]; [done|]. exists v. by rewrite lookup_insert_ne.
Qed.

Lemma reconciled_settled t' : t' = t \/ settled_target t' m -> settled_target t' m'.
Proof.
  intros Hs. destruct (decide (t' = t)) as [->|Hne]; [apply elect_settled|]. destruct Hs as [|Hs]; [done|].
  apply settled_elect_other; [done|]. apply settled_insert_other; [by rewrite wanted_on_target| |done].
  intros p Hp. by rewrite (stored_on_target p Hp).
Qed.

(** When the target was settled and [k]'s state is unchanged, so is everything. *)
Lemma reconciled_same : fresh m k o -> settled_target t m -> m' = m.
Proof.
  intros Hf Hs. unfold m'. rewrite elect_insert; [by apply settled_elect|apply wanted_on_target|done].
Qed.

Lemma unchanged_fresh : m !! k = m' !! k -> fresh m k o.
Proof. intros Heq. destruct (reconciled_fresh k o Ho (or_introl eq_refl)) as [v Hv]. exists v. by rewrite Heq. Qed.

Lemma reconciled_flag j o' p :
  sys_objects s !! j = Some o' -> j <> k -> m !! j = Some p ->
  m !! k <> m' !! k /\ object_target o' = t \/ j ∈ sys_queue s \/ m' !! j = Some p.
Proof.
  intros Hj Hne Hp. destruct (ok_policies s Hok j p Hp) as (o'' & Ho'' & Htp). simplify_eq.
  destruct (decide (object_target o' = t)) as [Ht|Ht].
  - destruct (decide (m !! k = m' !! k)) as [Heq|]; [|by left]. right.
    destruct (ok_settled s Hok t) as [Hs|Hq]; [|left; by eapply Hq].
    right. by rewrite (reconciled_same (unchanged_fresh Heq) Hs).
  - right. right. unfold m'. rewrite elect_insert_other; [done|done|]. intros q Hq. fold m in Hq. simplify_eq. congruence.
Qed.

Lemma reconciled_ok : policies_ok (sys_reconciled programmed k s).
Proof.
  destruct (reconciled_outcome programmed k o s Hok Ho) as (Hobj & Hpol & (pk & Hpk & Hrep) & Hst & Hq).
  fold t m m' in Hpol, Hpk, Hq. split; intros *; rewrite ?Hobj, ?Hpol.
  - apply (ok_objects s Hok).
  - intros Hp. destruct (elect_back _ _ _ _ Hp) as (q & Hqq & -> & _). destruct (decide (k0 = k)) as [->|Hne].
    + rewrite lookup_insert_eq in Hqq. injection Hqq as <-. exists o. split; [done|apply wanted_on_target].
    + rewrite lookup_insert_ne in Hqq by done. by apply (ok_policies s Hok).
  - intros Hj. destruct (decide (k0 = k)) as [->|Hne]; [right; apply reconciled_fresh; [done|by left]|].
    destruct (ok_fresh s Hok _ _ Hj); [left; apply Hq; by left|right; apply reconciled_fresh; [done|by right]].
  - destruct (decide (t0 = t)) as [->|Hne]; [left; apply reconciled_settled; by left|].
    destruct (ok_settled s Hok t0) as [Hs|Hall]; [left; apply reconciled_settled; by right|]. right. intros j o' Hj Ht.
    apply Hq. left. split; [by eapply Hall|]. intros ->. simplify_eq.
  - intros Hj. destruct (decide (k0 = k)) as [->|Hne]; [right; by exists pk|].
    destruct (ok_status s Hok _ _ Hj) as [Hin|(p & Hp & Hr)]; [left; apply Hq; by left|].
    destruct (reconciled_flag _ _ p Hj Hne Hp) as [[Hch Ht]|[Hin|Hp']].
    + left. apply Hq. right. eauto.
    + left. apply Hq. by left.
    + right. exists p. split; [done|]. destruct Hr as (c & rest & Hc & Hcs). exists c, rest. by rewrite Hst.
Qed.
End Reconciled.

Lemma sys_empty_ok : policies_ok sys_empty.
Proof. split; simpl; try done. intros t. left. intros k p Hp. by rewrite lookup_empty in Hp. Qed.

Lemma policy_applied_ok o s : policies_ok s -> identified o -> target_kept o s -> policies_ok (sys_applied o s).
Proof.
  intros Hok Hid Hkept. set (k := key_of (po_metadata o)). split; simpl; fold k; intros *.
  - destruct (decide (k0 = k)) as [->|Hne]; [rewrite lookup_insert_eq; by intros [= <-]|].
    rewrite lookup_insert_ne by done. apply (ok_objects s Hok).
  - intros Hp. destruct (ok_policies s Hok _ _ Hp) as (o' & Ho' & Ht). destruct (decide (k0 = k)) as [->|Hne].
    + exists o. rewrite lookup_insert_eq. split; [done|]. by rewrite Ht, (Hkept o' Ho').
    + exists o'. by rewrite lookup_insert_ne.
  - destruct (decide (k0 = k)) as [->|Hne]; [set_solver|]. rewrite lookup_insert_ne by done.
    intros Hj. destruct (ok_fresh s Hok _ _ Hj); [set_solver|by right].
  - destruct (ok_settled s Hok t) as [Hs|Hall]; [by left|]. right. intros j o'.
    destruct (decide (j = k)) as [->|Hne]; [set_solver|]. rewrite lookup_insert_ne by done. intros Hj Ht.
    specialize (Hall j o' Hj Ht). set_solver.
  - destruct (decide (k0 = k)) as [->|Hne]; [set_solver|]. rewrite lookup_insert_ne by done.
    intros Hj. destruct (ok_status s Hok _ _ Hj); [set_solver|by right].
Qed.

(** A deleted policy leaves no state behind, and its siblings run again. *)
Lemma deleted_queue k s j :
  policies_ok s ->
  j ∈ sys_queue (sys_deleted k s) <->
  (j ∈ sys_queue s /\ j <> k) \/
  (j <> k /\ exists o p, sys_objects s !! j = Some o /\ sys_policies s !! k = Some p /\ object_target o = policy_target p).
Proof.
  intros Hok. unfold sys_deleted, gone_policy. simpl. destruct (sys_policies s !! k) as [p|] eqn:Hp; simpl.
  - rewrite elem_of_union, elem_of_list_to_set, elem_of_difference, not_elem_of_singleton, policies_for_siblings.
    + split.
      * intros [(o & Ho & Hj & Ht)|?]; [|by left]. rewrite lookup_delete_ne in Ho by done. right. split; [done|]. eauto.
      * intros [?|(Hj & o & q & Ho & [= <-] & Ht)]; [by right|]. left. exists o. by rewrite lookup_delete_ne.
    + intros i o Ho. apply lookup_delete_Some in Ho as [_ Ho]. by eapply ok_keys.
  - rewrite elem_of_difference, not_elem_of_singleton. split; [by left|]. by intros [?|(_ & ? & ? & _ & ? & _)].
Qed.

Lemma deleted_policies k s : sys_policies (sys_deleted k s) = delete k (sys_policies s).
Proof.
  unfold sys_deleted, gone_policy. simpl. destruct (sys_policies s !! k) eqn:Hp; simpl; [done|]. by rewrite delete_id.
Qed.

Lemma deleted_ok k s : policies_ok s -> policies_ok (sys_deleted k s).
Proof.
  intros Hok. pose proof (deleted_queue k s) as Hq.
  split; intros *; rewrite ?deleted_policies; simpl sys_objects; simpl sys_status; rewrite ?lookup_delete_Some.
  - intros [_ Ho]. by apply (ok_objects s Hok).
  - intros [Hne Hp]. destruct (ok_policies s Hok _ _ Hp) as (o & Ho & Ht). exists o. by rewrite lookup_delete_ne.
  - intros [Hne Hj]. destruct (ok_fresh s Hok _ _ Hj) as [?|[v Hv]]; [left; apply Hq; [done|by left]|].
    right. exists v. by rewrite lookup_delete_ne.
  - destruct (sys_policies s !! k) as [p|] eqn:Hp.
    + destruct (decide (policy_target p = t)) as [Ht|Ht].
      * right. intros j o [Hne Hj]%lookup_delete_Some Hto. apply Hq; [done|]. right. split; [done|]. exists o, p. by rewrite Hto.
      * destruct (ok_settled s Hok t) as [Hs|Hall].
        -- left. eapply settled_ext; [|exact Hs]. intros j q Htq. rewrite lookup_delete_Some. split; [|by intros [_ ?]].
           intros Hj. split; [|done]. intros <-. by simplify_eq.
        -- right. intros j o [Hne Hj]%lookup_delete_Some Hto. apply Hq; [done|]. left. split; [by eapply Hall|done].
    + destruct (ok_settled s Hok t) as [Hs|Hall]; [left; by rewrite delete_id|].
      right. intros j o [Hne Hj]%lookup_delete_Some Hto. apply Hq; [done|]. left. split; [by eapply Hall|done].
  - intros [Hne Hj]. destruct (ok_status s Hok _ _ Hj) as [?|(p & Hp & c & rest & Hc)]; [left; apply Hq; [done|by left]|].
    right. exists p. rewrite lookup_delete_ne by done. split; [done|]. exists c, rest. by rewrite lookup_delete_ne.
Qed.

Lemma runs_ok s s' : policies_ok s -> runs s s' -> policies_ok s'.
Proof.
  intros Hok Hr. destruct Hr as [programmed k s Hk]. destruct (sys_objects s !! k) as [o|] eqn:Ho; [by eapply reconciled_ok|].
  unfold sys_reconciled. rewrite Ho. split; simpl; intros *.
  - apply (ok_objects s Hok).
  - apply (ok_policies s Hok).
  - intros Hj. destruct (ok_fresh s Hok _ _ Hj); [|by right]. left. rewrite elem_of_difference, not_elem_of_singleton.
    split; [done|congruence].
  - destruct (ok_settled s Hok t) as [Hs|Hall]; [by left|]. right. intros j o Hj Ht.
    rewrite elem_of_difference, not_elem_of_singleton. split; [by eapply Hall|congruence].
  - intros Hj. destruct (ok_status s Hok _ _ Hj); [|by right]. left. rewrite elem_of_difference, not_elem_of_singleton.
    split; [done|congruence].
Qed.

Lemma steps_ok s s' : policies_ok s -> rtc policy_step s s' -> policies_ok s'.
Proof.
  intros Hok Hr. revert Hok. induction Hr as [|s1 s2 s3 Hs _ IH]; [done|]. intros Hok. apply IH.
  destruct Hs; [by apply policy_applied_ok|by apply deleted_ok|by eapply runs_ok].
Qed.

(** *** The work left

    An object whose state is not the stored one, and a target whose flags are
    out of date, each can make the siblings run again once; every other
    reconcile shortens the queue. *)

Definition is_stale (policies : gmap NamespacedName P) (e : NamespacedName * PolicyObject Spec) : bool :=
  negb (bool_decide (policies !! e.1 = Some (kind_state (meta_of (nn_namespace e.1) e.2 true) (po_spec e.2))) ||
        bool_decide (policies !! e.1 = Some (kind_state (meta_of (nn_namespace e.1) e.2 false) (po_spec e.2)))).

Definition is_unsettled (policies : gmap NamespacedName P) (t : PolicyTargetKey) : bool :=
  negb (forallb (fun e => implb (same_target (policy_target e.2) t)
                                (Bool.eqb (policy_accepted e.2) (oldest t policies e.1 e.2))) (map_to_list policies)).

Definition work_left (s : PolicySystem) : nat :=
  ((1 + size (sys_objects s)) *
   (count (is_stale (sys_policies s)) (map_to_list (sys_objects s)) +
    count (is_unsettled (sys_policies s)) (map (fun e => object_target e.2) (map_to_list (sys_objects s)))) +
   size (sys_queue s))%nat.

Lemma is_stale_spec m k o : is_stale m (k, o) = false <-> fresh m k o.
Proof.
  unfold is_stale, fresh; simpl. rewrite negb_false_iff, orb_true_iff, !bool_decide_eq_true. split.
  - intros [Hv|Hv]; eauto.
  - intros [[] Hv]; auto.
Qed.

Lemma is_unsettled_spec m t : is_unsettled m t = false <-> settled_target t m.
Proof.
  unfold is_unsettled, settled_target. rewrite negb_false_iff, forallb_forall. split.
  - intros Hall k p Hp Ht. specialize (Hall (k, p)). rewrite <- list_elem_of_In, elem_of_map_to_list in Hall.
    specialize (Hall Hp). simpl in Hall. rewrite (proj2 (same_target_spec _ _) Ht) in Hall. by apply eqb_prop in Hall.
  - intros Hset [k p] Hp%list_elem_of_In%elem_of_map_to_list. simpl.
    destruct (same_target (policy_target p) t) eqn:Ht; [|done]. apply same_target_spec in Ht.
    simpl. rewrite (Hset k p Hp Ht). apply eqb_reflx.
Qed.

Section Work.
Context (programmed : bool) (k : NamespacedName) (o : PolicyObject Spec) (s : PolicySystem).
Hypothesis Hok : policies_ok s.
Hypothesis Ho : sys_objects s !! k = Some o.
Let m' := elect (object_target o) (<[k := wanted_state k o]> (sys_policies s)).

Lemma stale_le e : e ∈ map_to_list (sys_objects s) -> is_stale m' e = true -> is_stale (sys_policies s) e = true.
Proof.
  destruct e as [j oj]. intros Hj%elem_of_map_to_list. rewrite <- !not_false_iff_true, !is_stale_spec.
  intros Hf Hn. apply Hf. apply reconciled_fresh; auto.
Qed.

Lemma unsettled_le t : is_unsettled m' t = true -> is_unsettled (sys_policies s) t = true.
Proof.
  rewrite <- !not_false_iff_true, !is_unsettled_spec. intros Hf Hn. apply Hf. apply reconciled_settled; auto.
Qed.

(** A reconcile that publishes has used up one of the two. *)
Lemma changed_progress :
  sys_policies s !! k <> m' !! k ->
  (count (is_stale m') (map_to_list (sys_objects s)) +
   count (is_unsettled m') (map (fun e => object_target e.2) (map_to_list (sys_objects s))) <
   count (is_stale (sys_policies s)) (map_to_list (sys_objects s)) +
   count (is_unsettled (sys_policies s)) (map (fun e => object_target e.2) (map_to_list (sys_objects s))))%nat.
Proof.
  intros Hch. pose proof (elem_of_map_to_list (sys_objects s) k o) as Hin.
  pose proof (count_le _ _ _ stale_le) as Hst.
  pose proof (count_le _ _ (map (fun e => object_target e.2) (map_to_list (sys_objects s))) (fun t _ => unsettled_le t)) as Hun.
  destruct (is_stale (sys_policies s) (k, o)) eqn:Hk.
  - enough (count (is_stale m') (map_to_list (sys_objects s)) < count (is_stale (sys_policies s)) (map_to_list (sys_objects s)))%nat by lia.
    apply (count_lt _ _ _ (k, o)); [apply stale_le|by apply Hin| |done]. apply is_stale_spec, reconciled_fresh; auto.
  - apply is_stale_spec in Hk.
    pose proof (count_lt (is_unsettled m') (is_unsettled (sys_policies s)) (map (fun e => object_target e.2) (map_to_list (sys_objects s)))
                  (object_target o) (fun t _ => unsettled_le t)) as Hlt.
    enough (is_unsettled (sys_policies s) (object_target o) = true) as Hu.
    { enough (object_target o ∈ map (fun e => object_target e.2) (map_to_list (sys_objects s))) as Hmem.
      { specialize (Hlt Hmem (proj2 (is_unsettled_spec _ _) (elect_settled _ _)) Hu). lia. }
      apply list_elem_of_fmap. exists (k, o). split; [done|by apply Hin]. }
    apply not_false_iff_true. rewrite is_unsettled_spec. intros Hset. apply Hch. unfold m'. by rewrite reconciled_same.
Qed.
End Work.

Lemma runs_progress s s' : policies_ok s -> runs s s' -> (work_left s' < work_left s)%nat.
Proof.
  intros Hok Hr. destruct Hr as [programmed k s Hk].
  assert (Hpos : (size (sys_queue s ∖ {[k]}) < size (sys_queue s))%nat).
  { assert (Hs : {[k]} ⊆ sys_queue s) by set_solver. rewrite size_difference, size_singleton by done.
    pose proof (subseteq_size _ _ Hs) as Hle. rewrite size_singleton in Hle. lia. }
  destruct (sys_objects s !! k) as [o|] eqn:Ho.
  - destruct (reconciled_outcome programmed k o s Hok Ho) as (Hobj & Hpol & _ & _ & Hq). unfold work_left. rewrite Hobj, Hpol.
    destruct (decide (sys_policies s !! k = elect (object_target o) (<[k := wanted_state k o]> (sys_policies s)) !! k)) as [Heq|Hch].
    + pose proof (count_le _ _ _ (stale_le k o s Ho)) as Hst.
      pose proof (count_le _ _ (map (fun e => object_target e.2) (map_to_list (sys_objects s))) (fun t _ => unsettled_le k o s Hok Ho t)) as Hun.
      assert (Hsub : sys_queue (sys_reconciled programmed k s) ⊆ sys_queue s ∖ {[k]}).
      { intros j [[? ?]|[? _]]%Hq; [set_solver|done]. }
      apply subseteq_size in Hsub. nia.
    + pose proof (changed_progress k o s Hok Ho Hch) as Hp.
      assert (Hsub : sys_queue (sys_reconciled programmed k s) ⊆ (sys_queue s ∖ {[k]}) ∪ dom (sys_objects s)).
      { intros j [[? ?]|(_ & _ & o' & Ho' & _)]%Hq; [set_solver|]. apply elem_of_union_r, elem_of_dom. eauto. }
      apply subseteq_size in Hsub. rewrite size_union_alt in Hsub.
      assert (Hd : (size (dom (sys_objects s) ∖ (sys_queue s ∖ {[k]})) <= size (sys_objects s))%nat).
      { rewrite <- (size_dom (D := gset NamespacedName) (sys_objects s)). apply subseteq_size. set_solver. }
      nia.
  - unfold work_left, sys_reconciled. rewrite Ho. simpl. lia.
Qed.
End System.
Arguments PolicySystem Spec P : clear implicits.

(** ** Properties *)


Definition demo_key (name : string) : NamespacedName := {| nn_namespace := "shop"; nn_name := name |}.

Definition demo_limit (name target : string) (created rps : Z) : PolicyObject RateLimitSpec :=
  {| po_metadata := {| om_name := Some name; om_namespace := Some "shop"; om_generation := Some 1;
                       om_creation_timestamp := Some created; om_deletion_timestamp := None; om_labels := None |};
     po_target_ref := {| tr_group := "gateway.networking.k8s.io"; tr_kind := "HTTPRoute"; tr_name := target;
                         tr_section_name := None |};
     po_spec := {| rl_requests_per_second := rps; rl_per_client := false |} |}.

Definition demo_stored : gmap NamespacedName RateLimitPolicyState :=
  {[ demo_key "late" := kind_state (meta_of "shop" (demo_limit "late" "cart" 20 5) true) {| rl_requests_per_second := 5; rl_per_client := false |} ]}.


Section Settling.
Context `{IO : IterOrder} {Spec P : Type} `{PKL : PolicyKindLaws Spec P} `{PL : !PolicyLaws P} `{!EqDecision P}.

(** C14: However the policies of a kind are created, changed and deleted, and in
    whatever order their reconciles run: once nothing waits to be reconciled,
    exactly the policies of the cluster are stored, each as its object asks,
    accepted when and only when it is the oldest on its target, and the status
    written last on each says so.  (An update keeps the target; see
    [moved_policy_strands_sibling].) *)
Theorem quiet_policies_settled (s : PolicySystem Spec P) :
  rtc policy_step sys_empty s -> sys_queue s = ∅ ->
  dom (sys_policies s) = dom (sys_objects s) /\
  forall k o, sys_objects s !! k = Some o ->
    exists p, sys_policies s !! k = Some p /\
      p = kind_state (meta_of (nn_namespace k) o (oldest (object_target o) (sys_policies s) k p)) (po_spec o) /\
      reports (sys_status s) k (policy_accepted p).
Proof.
  intros Hr Hq. pose proof (steps_ok _ _ sys_empty_ok Hr) as Hok. split.
  - apply set_eq. intros k. rewrite !elem_of_dom. split; intros [x Hx].
    + destruct (ok_policies s Hok k x Hx) as (o & Ho & _). eauto.
    + destruct (ok_fresh s Hok k x Hx) as [Hin|[v Hv]]; [set_solver|eauto].
  - intros k o Ho. destruct (ok_status s Hok k o Ho) as [Hin|(p & Hp & Hrep)]; [set_solver|].
    destruct (ok_fresh s Hok k o Ho) as [Hin|[v Hv]]; [set_solver|]. rewrite Hp in Hv. injection Hv as Hv.
    destruct (ok_policies s Hok k p Hp) as (o' & Ho' & Ht). rewrite Ho in Ho'. injection Ho' as <-.
    exists p. split; [done|]. split; [|done]. destruct (ok_settled s Hok (object_target o)) as [Hs|Hall].
    + rewrite <- (Hs k p Hp Ht). rewrite Hv at 2. unfold policy_accepted. by rewrite kind_state_meta.
    + specialize (Hall k o Ho eq_refl). set_solver.
Qed.

(** C15: Reconciles that make each other run again come to an end: from any state
    the controller can be in, no more than [work_left] of them run before the
    next change to the cluster, and whichever run, the queue can be emptied. *)
Theorem policy_reconciles_terminate (s : PolicySystem Spec P) :
  rtc policy_step sys_empty s ->
  (forall n s', nsteps runs n s s' -> (n <= work_left s)%nat) /\
  (exists s', rtc runs s s' /\ sys_queue s' = ∅).
Proof.
  intros Hr. pose proof (steps_ok _ _ sys_empty_ok Hr) as Hok. clear Hr. split.
  - intros n s' Hn. induction Hn as [|n s1 s2 s3 Hs _ IH]; [lia|].
    pose proof (runs_progress _ _ Hok Hs). specialize (IH (runs_ok _ _ Hok Hs)). lia.
  - remember (work_left s) as n eqn:Hn. revert s Hok Hn. induction (lt_wf n) as [n _ IH]. intros s Hok ->.
    destruct (decide (sys_queue s = ∅)) as [Hq|[k Hk]%set_choose_L]; [by exists s|].
    pose proof (runs_reconcile true k s Hk) as Hs.
    destruct (IH _ (runs_progress _ _ Hok Hs) _ (runs_ok _ _ Hok Hs) eq_refl) as (s' & Hs' & Hq). exists s'.
    split; [by eapply rtc_l|done].
Qed.
End Settling.

(** Two limits on one route: the later one is reconciled first. *)
Definition demo_applied : PolicySystem RateLimitSpec RateLimitPolicyState :=
  sys_applied (demo_limit "late" "cart" 20 5) (sys_applied (demo_limit "early" "cart" 10 50) sys_empty).

Definition demo_run (ks : list NamespacedName) (s : PolicySystem RateLimitSpec RateLimitPolicyState)
    : PolicySystem RateLimitSpec RateLimitPolicyState :=
  fold_left (fun s k => @sys_reconciled listed_order _ _ _ _ _ true k s) ks s.

Definition demo_quiet : PolicySystem RateLimitSpec RateLimitPolicyState :=
  demo_run [demo_key "late"; demo_key "early"; demo_key "late"] demo_applied.

Lemma demo_applied_reached : rtc (@policy_step listed_order _ _ _ _ _) sys_empty demo_applied.
Proof.
  eapply rtc_l; [eapply (step_applied (demo_limit "early" "cart" 10 50))|eapply rtc_once, step_applied].
  - split; eexists; reflexivity.
  - intros o' Ho. discriminate.
  - split; eexists; reflexivity.
  - intros o' Ho. vm_compute in Ho. discriminate.
Qed.

Ltac demo_step k := eapply rtc_l; [apply step_runs, (runs_reconcile true k), (bool_decide_unpack _); vm_compute; exact I|].

Lemma demo_quiet_reached : rtc (@policy_step listed_order _ _ _ _ _) demo_applied demo_quiet.
Proof.
  unfold demo_quiet, demo_run. simpl fold_left.
  demo_step (demo_key "late"). demo_step (demo_key "early"). demo_step (demo_key "late"). apply rtc_refl.
Qed.

Lemma quiet_policies_settled_witness :
  sys_queue demo_quiet = ∅ /\ dom (sys_policies demo_quiet) = dom (sys_objects demo_quiet) /\
  (policy_accepted <$> sys_policies demo_quiet !! demo_key "early") = Some true /\
  (policy_accepted <$> sys_policies demo_quiet !! demo_key "late") = Some false.
Proof.
  assert (Hq : sys_queue demo_quiet = ∅) by (vm_compute; reflexivity).
  pose proof (@quiet_policies_settled listed_order _ _ _ _ _ _ _ demo_quiet
                (transitivity demo_applied_reached demo_quiet_reached) Hq) as [Hd _].
  split; [exact Hq|]. split; [exact Hd|]. split; vm_compute; reflexivity.
Defined.

Lemma policy_reconciles_terminate_witness :
  work_left demo_applied = 8%nat /\ exists s', rtc (@runs listed_order _ _ _ _ _) demo_applied s' /\ sys_queue s' = ∅.
Proof.
  split; [vm_compute; reflexivity|].
  exact (proj2 (@policy_reconciles_terminate listed_order _ _ _ _ _ _ _ demo_applied demo_applied_reached)).
Defined.

(** An update that moves a policy to another target is announced to the new
    target only ([reconcile_publishing] names the state after the change): the
    policy it had beaten stays rejected, although it is alone on its target and
    nothing is left to reconcile. *)
Example moved_policy_strands_sibling :
  let s := demo_run [demo_key "early"] (sys_applied (demo_limit "early" "checkout" 10 50) demo_quiet) in
  sys_queue s = ∅ /\
  (policy_accepted <$> sys_policies s !! demo_key "late") = Some false /\
  (policy_target <$> sys_policies s !! demo_key "late") = Some (object_target (demo_limit "late" "cart" 20 5)) /\
  (policy_target <$> sys_policies s !! demo_key "early") = Some (object_target (demo_limit "early" "checkout" 10 50)).
Proof. repeat split; vm_compute; reflexivity. Qed.
