(* ===== verification/Objects.v ===== *)
(** * Kubernetes objects and the store they are reconciled into

    What the reconcilers of routes, Gateways and caches share: references of
    the Gateway API ([gateway_types.rs]), status conditions ([status.rs]), the
    store with its dirty flag and the events it has published ([store.rs]),
    and the writing of a route's state ([reconcilers/mod.rs]).  A write to the
    Kubernetes API is output: a reconcile returns the status it would write,
    or nothing where the code finds it unchanged. *)
From S2P Require Import Prelude Text Proto Resources Policies.
From Stdlib Require Import String.
Open Scope Z_scope.

(** ** Order and equality of the store's data *)

(** [Ord] of [NamespacedName] *)
Definition name_compare (a b : NamespacedName) : comparison :=
  then_with (String.compare (nn_namespace a) (nn_namespace b)) (String.compare (nn_name a) (nn_name b)).

Definition parent_kind_compare (a b : ParentKind) : comparison :=
  match a, b with
  | ParentGateway, ParentListenerSet => Lt
  | ParentListenerSet, ParentGateway => Gt
  | _, _ => Eq
  end.

Definition parent_compare (a b : ParentKind * NamespacedName) : comparison :=
  then_with (parent_kind_compare a.1 b.1) (name_compare a.2 b.2).

#[export] Instance GatewayClassState_eq : EqDecision GatewayClassState.
Proof. solve_decision. Defined.
#[export] Instance AllowedRoutesState_eq : EqDecision AllowedRoutesState.
Proof. solve_decision. Defined.
#[export] Instance ListenerState_eq : EqDecision ListenerState.
Proof. solve_decision. Defined.
#[export] Instance GatewayState_eq : EqDecision GatewayState.
Proof. solve_decision. Defined.
#[export] Instance ListenerSetState_eq : EqDecision ListenerSetState.
Proof. solve_decision. Defined.
#[export] Instance ClientValidationRefs_eq : EqDecision ClientValidationRefs.
Proof. solve_decision. Defined.
#[export] Instance ClientValidationOutcome_eq : EqDecision ClientValidationOutcome.
Proof. solve_decision. Defined.
#[export] Instance GatewayTlsState_eq : EqDecision GatewayTlsState.
Proof. solve_decision. Defined.
#[export] Instance ParentRefState_eq : EqDecision ParentRefState.
Proof. solve_decision. Defined.
#[export] Instance HTTPFilterState_eq : EqDecision HTTPFilterState.
Proof. solve_decision. Defined.
#[export] Instance BackendRefState_eq : EqDecision BackendRefState.
Proof. solve_decision. Defined.
#[export] Instance HTTPRouteMatchState_eq : EqDecision HTTPRouteMatchState.
Proof. solve_decision. Defined.
#[export] Instance RouteRetryState_eq : EqDecision RouteRetryState.
Proof. solve_decision. Defined.
#[export] Instance HTTPRouteRuleState_eq : EqDecision HTTPRouteRuleState.
Proof. solve_decision. Defined.
#[export] Instance HTTPRouteState_eq : EqDecision HTTPRouteState.
Proof. solve_decision. Defined.
#[export] Instance GRPCRouteMatchState_eq : EqDecision GRPCRouteMatchState.
Proof. solve_decision. Defined.
#[export] Instance GRPCRouteRuleState_eq : EqDecision GRPCRouteRuleState.
Proof. solve_decision. Defined.
#[export] Instance GRPCRouteState_eq : EqDecision GRPCRouteState.
Proof. solve_decision. Defined.
#[export] Instance TLSRouteState_eq : EqDecision TLSRouteState.
Proof. solve_decision. Defined.
#[export] Instance L4RouteState_eq : EqDecision L4RouteState.
Proof. solve_decision. Defined.
#[export] Instance ReferenceGrantFrom_eq : EqDecision ReferenceGrantFrom.
Proof. solve_decision. Defined.
#[export] Instance ReferenceGrantTo_eq : EqDecision ReferenceGrantTo.
Proof. solve_decision. Defined.
#[export] Instance ReferenceGrantState_eq : EqDecision ReferenceGrantState.
Proof. solve_decision. Defined.
#[export] Instance BackendEndpoint_eq : EqDecision BackendEndpoint.
Proof. solve_decision. Defined.
#[export] Instance AICredentialState_eq : EqDecision AICredentialState.
Proof. solve_decision. Defined.
#[export] Instance AIFederationMember_eq : EqDecision AIFederationMember.
Proof. solve_decision. Defined.
#[export] Instance AIProviderState_eq : EqDecision AIProviderState.
Proof. solve_decision. Defined.
#[export] Instance AIRouteRuleState_eq : EqDecision AIRouteRuleState.
Proof. solve_decision. Defined.
#[export] Instance AIJwtState_eq : EqDecision AIJwtState.
Proof. solve_decision. Defined.
#[export] Instance AIRouteState_eq : EqDecision AIRouteState.
Proof. solve_decision. Defined.
#[export] Instance Condition_eq : EqDecision Condition.
Proof. solve_decision. Defined.

(** ** The store as reconcilers write it *)

(** The store, the flag that wakes the compiler, and the events published so
    far, oldest first. *)
Record World := {
  w_store : ConfigStore;
  w_dirty : bool;
  w_events : list StoreEvent;
}.

(** One map of the store, as an argument. *)
Record Slot (K V : Type) `{Countable K} := {
  slot_get : ConfigStore -> gmap K V;
  slot_set : gmap K V -> ConfigStore -> ConfigStore;
}.
Arguments slot_get {K V _ _} _ _.
Arguments slot_set {K V _ _} _ _ _.

Definition write (f : ConfigStore -> ConfigStore) (w : World) : World :=
  {| w_store := f (w_store w); w_dirty := w_dirty w; w_events := w_events w |}.

(** [notify_change] *)
Definition notify_change (w : World) : World := {| w_store := w_store w; w_dirty := true; w_events := w_events w |}.

(** [take_dirty] *)
Definition take_dirty (w : World) : bool * World :=
  (w_dirty w, {| w_store := w_store w; w_dirty := false; w_events := w_events w |}).

(** [publish] *)
Definition publish (e : StoreEvent) (w : World) : World :=
  {| w_store := w_store w; w_dirty := w_dirty w; w_events := w_events w ++ [e] |}.

Section Slots.
Context `{Countable K} {V : Type} (slot : Slot K V).

(** [insert_and_notify]: the world and whether the map changed. *)
Definition insert_and_notify `{!EqDecision V} (key : K) (value : V) (w : World) : World * bool :=
  let m := slot_get slot (w_store w) in
  let changed := match m !! key with Some existing => negb (bool_decide (existing = value)) | None => true end in
  if changed then (notify_change (write (slot_set slot (<[key := value]> m)) w), true) else (w, false).

(** [remove_and_notify] *)
Definition remove_and_notify (key : K) (w : World) : World * option V :=
  let m := slot_get slot (w_store w) in
  match m !! key with
  | Some gone => (notify_change (write (slot_set slot (delete key m)) w), Some gone)
  | None => (w, None)
  end.

(** [gone_map] *)
Definition gone_map (key : K) (w : World) : World * bool :=
  let '(w, gone) := remove_and_notify key w in (w, bool_decide (is_Some gone)).
End Slots.

Definition gateway_classes : Slot string GatewayClassState := {| slot_get := st_gateway_classes; slot_set := set_gateway_classes |}.
Definition gateways : Slot NamespacedName GatewayState := {| slot_get := st_gateways; slot_set := set_gateways |}.
Definition listener_sets : Slot NamespacedName ListenerSetState := {| slot_get := st_listener_sets; slot_set := set_listener_sets |}.
Definition http_routes : Slot NamespacedName HTTPRouteState := {| slot_get := st_http_routes; slot_set := set_http_routes |}.
Definition grpc_routes : Slot NamespacedName GRPCRouteState := {| slot_get := st_grpc_routes; slot_set := set_grpc_routes |}.
Definition tls_routes : Slot NamespacedName TLSRouteState := {| slot_get := st_tls_routes; slot_set := set_tls_routes |}.
Definition tcp_routes : Slot NamespacedName L4RouteState := {| slot_get := st_tcp_routes; slot_set := set_tcp_routes |}.
Definition udp_routes : Slot NamespacedName L4RouteState := {| slot_get := st_udp_routes; slot_set := set_udp_routes |}.
Definition reference_grants : Slot NamespacedName ReferenceGrantState :=
  {| slot_get := st_reference_grants; slot_set := set_reference_grants |}.
Definition secrets : Slot NamespacedName SecretState := {| slot_get := st_secrets; slot_set := set_secrets |}.
Definition config_maps : Slot NamespacedName SecretState := {| slot_get := st_config_maps; slot_set := set_config_maps |}.

Definition endpoints : Slot ServiceKey (list BackendEndpoint) := {| slot_get := st_endpoints; slot_set := set_endpoints |}.
Definition ai_providers : Slot NamespacedName AIProviderState := {| slot_get := st_ai_providers; slot_set := set_ai_providers |}.
Definition ai_routes : Slot NamespacedName AIRouteState := {| slot_get := st_ai_routes; slot_set := set_ai_routes |}.

(** ** Routes of every kind *)

(** [RouteState] *)
Class RouteState (S : Type) := {
  route_parent_refs : S -> list ParentRefState;
  route_backend_refs : S -> list BackendRefState;
}.

#[export] Instance HTTPRouteState_route : RouteState HTTPRouteState :=
  {| route_parent_refs := hrs_parent_refs; route_backend_refs r := flat_map hrr_backend_refs (hrs_rules r) |}.
#[export] Instance AIRouteState_route : RouteState AIRouteState :=
  {| route_parent_refs := ars_parent_refs; route_backend_refs r := flat_map arr_backend_refs (ars_rules r) |}.
#[export] Instance GRPCRouteState_route : RouteState GRPCRouteState :=
  {| route_parent_refs := grs_parent_refs; route_backend_refs r := flat_map grr_backend_refs (grs_rules r) |}.
#[export] Instance TLSRouteState_route : RouteState TLSRouteState :=
  {| route_parent_refs := trs_parent_refs; route_backend_refs := trs_backend_refs |}.
#[export] Instance L4RouteState_route : RouteState L4RouteState :=
  {| route_parent_refs := lrs_parent_refs; route_backend_refs := lrs_backend_refs |}.

Definition pref_key (p : ParentRefState) : NamespacedName :=
  {| nn_namespace := pref_gateway_namespace p; nn_name := pref_gateway_name p |}.

Section Routes.
Context {S : Type} `{RS : RouteState S}.

(** [RouteState::parents] *)
Definition parents (s : S) : list (ParentKind * NamespacedName) :=
  map (fun p => (pref_parent_kind p, pref_key p)) (route_parent_refs s).

(** [RouteState::backends] *)
Definition backends (s : S) : list NamespacedName :=
  dedup_adjacent (sort_by name_compare
    (map (fun b => {| nn_namespace := brs_namespace b; nn_name := brs_name b |}) (route_backend_refs s))).

(** [store_route] *)
Definition store_route `{!EqDecision S} (slot : Slot NamespacedName S) (kind : RouteKind) (key : NamespacedName) (state : S)
    (w : World) : World * bool :=
  let previous := slot_get slot (w_store w) !! key in
  let '(w, changed) := insert_and_notify slot key state w in
  if negb changed then (w, false)
  else
    let event :=
      match previous with
      | Some p => EvRoute kind key (dedup_adjacent (sort_by parent_compare (parents state ++ parents p)))
                          (dedup_adjacent (sort_by name_compare (backends state ++ backends p)))
      | None => EvRoute kind key (parents state) (backends state)
      end in
    (publish event w, true).

(** [remove_route]; also the eviction hook [gone_route]. *)
Definition remove_route (slot : Slot NamespacedName S) (kind : RouteKind) (key : NamespacedName) (w : World) : World * bool :=
  match remove_and_notify slot key w with
  | (w, Some gone) => (publish (EvRoute kind key (parents gone) (backends gone)) w, true)
  | (w, None) => (w, false)
  end.
End Routes.

(** [parent_known] *)
Definition parent_known (store : ConfigStore) (pref : ParentRefState) : bool :=
  match pref_parent_kind pref with
  | ParentGateway => bool_decide (is_Some (st_gateways store !! pref_key pref))
  | ParentListenerSet => bool_decide (is_Some (st_listener_sets store !! pref_key pref))
  end.

(** [any_parent_known] *)
Definition any_parent_known (store : ConfigStore) (prefs : list ParentRefState) : bool := existsb (parent_known store) prefs.

(** ** Parent references and the status of a route *)

Record ParentReference := {
  pr_group : option string;
  pr_kind : option string;
  pr_namespace : option string;
  pr_name : string;
  pr_section_name : option string;
  pr_port : option Z;
}.

#[export] Instance ParentReference_eq : EqDecision ParentReference.
Proof. solve_decision. Defined.

Record RouteParentStatus := {
  rps_parent_ref : ParentReference;
  rps_controller_name : string;
  rps_conditions : list Condition;
}.

#[export] Instance RouteParentStatus_eq : EqDecision RouteParentStatus.
Proof. solve_decision. Defined.

Definition CONTROLLER_NAME : string := "github.com/Portus-Gateway/Portus".
Definition GATEWAY_GROUP : string := "gateway.networking.k8s.io".

(** [conditions_equal] *)
Definition conditions_equal (a b : list Condition) : bool :=
  (List.length a =? List.length b)%nat &&
  forallb (fun p =>
    let '(ca, cb) := p in
    String.eqb (cond_type ca) (cond_type cb) && String.eqb (cond_status ca) (cond_status cb) &&
    String.eqb (cond_reason ca) (cond_reason cb) && String.eqb (cond_message ca) (cond_message cb) &&
    bool_decide (cond_observed_generation ca = cond_observed_generation cb)) (combine a b).

(** [merge_route_parents] *)
Definition merge_route_parents (existing ours : list RouteParentStatus) : list RouteParentStatus :=
  List.filter (fun p => negb (String.eqb (rps_controller_name p) CONTROLLER_NAME)) existing ++ ours.

(** [own_parent_conditions] *)
Definition own_parent_conditions (existing : list RouteParentStatus) : list Condition :=
  flat_map rps_conditions (List.filter (fun p => String.eqb (rps_controller_name p) CONTROLLER_NAME) existing).

(** [patch_status_if_changed]: the status that is written, if one is. *)
Definition patch_status_if_changed {A} (desired_status : A) (current desired : list Condition) : option A :=
  if conditions_equal current desired then None else Some desired_status.
