(* ===== verification/HttpRoute.v ===== *)
(** * The HTTPRoute reconciler

    [portus-controller/src/reconcilers/http_route.rs]: binding a route to the
    listeners of its parents, converting its matches, filters, timeouts and
    retries, resolving its backends, and the state and status that result.
    The [regex] crate is a variable ([regex_ok]: whether a pattern compiles
    within the size limit). *)
From Stdlib Require Import SpecFloat.
From S2P Require Import Prelude Text Proto Resources Hostnames Policies Objects.
From Stdlib Require Import String.
Open Scope Z_scope.

(** ** The object *)

Record HTTPBackendRefOf (F : Type) := {
  hbr_group : option string;
  hbr_kind : option string;
  hbr_name : string;
  hbr_namespace : option string;
  hbr_port : option Z;
  hbr_weight : option Z;
  hbr_filters : list F;
}.
Arguments hbr_group {F} _.
Arguments hbr_kind {F} _.
Arguments hbr_name {F} _.
Arguments hbr_namespace {F} _.
Arguments hbr_port {F} _.
Arguments hbr_weight {F} _.
Arguments hbr_filters {F} _.

Record HTTPHeaderFilterCRD := {
  hhf_add : list (string * string);
  hhf_set : list (string * string);
  hhf_remove : list string;
}.

Record HTTPPathModifierCRD := {
  hpm_modifier_type : option string;
  hpm_replace_full_path : option string;
  hpm_replace_prefix_match : option string;
}.

Record HTTPRequestRedirectFilterCRD := {
  hrf_scheme : option string;
  hrf_hostname : option string;
  hrf_port : option Z;
  hrf_path : option HTTPPathModifierCRD;
  hrf_status_code : option Z;
}.

Record HTTPURLRewriteFilterCRD := { huf_hostname : option string; huf_path : option HTTPPathModifierCRD }.

Record HTTPMirrorFraction := { hmf_numerator : Z; hmf_denominator : option Z }.

Record CORSFilterCRD := {
  cfc_allow_origins : list string;
  cfc_allow_methods : list string;
  cfc_allow_headers : list string;
  cfc_expose_headers : list string;
  cfc_allow_credentials : option bool;
  cfc_max_age : option Z;
}.

Inductive HTTPRouteFilterCRD :=
| CRequestHeaderModifier (f : HTTPHeaderFilterCRD)
| CResponseHeaderModifier (f : HTTPHeaderFilterCRD)
| CRequestRedirect (f : HTTPRequestRedirectFilterCRD)
| CURLRewrite (f : HTTPURLRewriteFilterCRD)
| CRequestMirror (backend_ref : HTTPBackendRefOf HTTPRouteFilterCRD) (percent : option Z) (fraction : option HTTPMirrorFraction)
| CCORS (f : CORSFilterCRD).

Notation HTTPBackendRef := (HTTPBackendRefOf HTTPRouteFilterCRD).

Record HTTPPathMatchCRD := { hpc_match_type : option string; hpc_value : option string }.
Record HTTPHeaderMatchCRD := { hhc_match_type : option string; hhc_name : string; hhc_value : string }.
Record HTTPQueryParamMatchCRD := { hqc_match_type : option string; hqc_name : string; hqc_value : string }.

Record HTTPRouteMatchCRD := {
  hmc_path : option HTTPPathMatchCRD;
  hmc_headers : list HTTPHeaderMatchCRD;
  hmc_method : option string;
  hmc_query_params : list HTTPQueryParamMatchCRD;
}.

Record HTTPRouteTimeouts := { hrt_request : option string; hrt_backend_request : option string }.
Record HTTPRouteRetry := { hry_codes : list Z; hry_attempts : option Z; hry_backoff : option string }.

Record HTTPRouteRule := {
  hru_matches : list HTTPRouteMatchCRD;
  hru_filters : list HTTPRouteFilterCRD;
  hru_backend_refs : list HTTPBackendRef;
  hru_timeouts : option HTTPRouteTimeouts;
  hru_retry : option HTTPRouteRetry;
}.

Record HTTPRouteSpec := {
  hsp_parent_refs : list ParentReference;
  hsp_hostnames : list string;
  hsp_rules : list HTTPRouteRule;
}.

(** A route object of any kind. *)
Record RouteObject (Spec : Type) := {
  ro_metadata : ObjectMeta;
  ro_spec : Spec;
  ro_status : option (list RouteParentStatus);
}.
Arguments ro_metadata {Spec} _.
Arguments ro_spec {Spec} _.
Arguments ro_status {Spec} _.

Definition status_parents {Spec} (route : RouteObject Spec) : list RouteParentStatus := default [] (ro_status route).

(** ** Binding *)

Section Bind.
Context (route_namespace : string) (route_ns_labels : gmap string string) (route_hostnames : list string).

Definition named_port (pref : ParentReference) (l : ListenerState) : bool :=
  match pr_port pref with Some p => lst_port l =? p | None => true end.

(** The listener loop: whether one accepts the route, and how far the others
    came. *)
Fixpoint try_listeners (pref : ParentReference) (gateway_namespace : string) (has_protocol_match has_hostname_match : bool)
    (listeners : list ListenerState) : bool * bool * bool :=
  match listeners with
  | [] => (false, has_protocol_match, has_hostname_match)
  | l :: listeners =>
      if negb (named_port pref l) then try_listeners pref gateway_namespace has_protocol_match has_hostname_match listeners
      else if negb (String.eqb (lst_protocol l) "HTTP") && negb (String.eqb (lst_protocol l) "HTTPS")
      then try_listeners pref gateway_namespace has_protocol_match has_hostname_match listeners
      else if negb (hostnames_compatible (lst_hostname l) route_hostnames)
      then try_listeners pref gateway_namespace true has_hostname_match listeners
      else if negb (namespace_allowed (lst_allowed_routes l) route_namespace gateway_namespace route_ns_labels)
      then try_listeners pref gateway_namespace true true listeners
      else (true, true, true)
  end.

(** What the parent offers: its namespace and listeners, or why it takes no
    route, with the value [resolved_refs] gets. *)
Definition offered (store : ConfigStore) (parent_kind : ParentKind) (key : NamespacedName)
    : (bool * string) + (string * list ListenerState) :=
  match parent_kind with
  | ParentListenerSet =>
      match st_listener_sets store !! key with
      | None => inl (false, "NoMatchingParent")
      | Some ls =>
          if lss_accepted ls then inr (lss_namespace ls, lss_listeners ls)
          else inl (true, default "NotAllowed" (lss_not_accepted_reason ls))
      end
  | ParentGateway =>
      match st_gateways store !! key with
      | None => inl (false, "NoMatchingParent")
      | Some gw => inr (gs_namespace gw, gs_listeners gw)
      end
  end.

(** One [parentRef]; those of other kinds are skipped. *)
Definition bind_parent (store : ConfigStore) (pref : ParentReference) : option ParentRefState :=
  let group := default GATEWAY_GROUP (pr_group pref) in
  let kind := default "Gateway" (pr_kind pref) in
  if negb (String.eqb group GATEWAY_GROUP) then None
  else if negb (String.eqb kind "Gateway") && negb (String.eqb kind "ListenerSet") then None
  else
    let parent_kind := if String.eqb kind "ListenerSet" then ParentListenerSet else ParentGateway in
    let parent_namespace := default route_namespace (pr_namespace pref) in
    let result accepted resolved_refs reject_reason :=
      Some {| pref_parent_kind := parent_kind; pref_gateway_namespace := parent_namespace; pref_gateway_name := pr_name pref;
              pref_section_name := pr_section_name pref; pref_port := pr_port pref; pref_accepted := accepted;
              pref_resolved_refs := resolved_refs; pref_reject_reason := reject_reason |} in
    match offered store parent_kind {| nn_namespace := parent_namespace; nn_name := pr_name pref |} with
    | inl (resolved_refs, reason) => result false resolved_refs (Some reason)
    | inr (gateway_namespace, listeners) =>
        let listeners_to_check :=
          match pr_section_name pref with
          | Some section => match List.find (fun l => String.eqb (lst_name l) section) listeners with
                            | Some l => Some [l]
                            | None => None
                            end
          | None => Some listeners
          end in
        match listeners_to_check with
        | None => result false true (Some "NoMatchingParent")
        | Some ls =>
            if bool_decide (is_Some (pr_port pref)) && negb (existsb (named_port pref) ls)
            then result false true (Some "NoMatchingParent")
            else
              let '(accepted, has_protocol_match, has_hostname_match) := try_listeners pref gateway_namespace false false ls in
              if (accepted : bool) then result true true None
              else result false true (Some (if (has_protocol_match : bool) && negb has_hostname_match
                                            then "NoMatchingListenerHostname" else "NotAllowedByListeners"))
        end
    end.

(** [bind_to_parents] *)
Definition bind_to_parents (parent_refs : list ParentReference) (store : ConfigStore) : list ParentRefState :=
  omap (bind_parent store) parent_refs.
End Bind.

(** ** Matches *)

Section Convert.
Context (regex_ok : string -> bool).

Definition bad_regex (match_type value : string) : bool := String.eqb match_type "RegularExpression" && negb (regex_ok value).

Definition convert_path (p : HTTPPathMatchCRD) : string * string :=
  let match_type := default "PathPrefix" (hpc_match_type p) in
  (default "/" (hpc_value p), if String.eqb match_type "PathPrefix" then "Prefix" else match_type).

Definition header_type (h : HTTPHeaderMatchCRD) : string := default "Exact" (hhc_match_type h).
Definition query_type (q : HTTPQueryParamMatchCRD) : string := default "Exact" (hqc_match_type q).

(** A query parameter that can be matched: of a known type, and valid. *)
Definition convert_query (q : HTTPQueryParamMatchCRD) : option (string * string * string) :=
  let mt := query_type q in
  if String.eqb mt "Exact" || String.eqb mt "RegularExpression"
  then if bad_regex mt (hqc_value q) then None else Some (hqc_name q, hqc_value q, mt)
  else None.

Definition convert_match (m : HTTPRouteMatchCRD) : HTTPRouteMatchState :=
  {| hrm_path := convert_path <$> hmc_path m;
     hrm_headers := map (fun h => (hhc_name h, hhc_value h, header_type h)) (hmc_headers m);
     hrm_method := hmc_method m;
     hrm_query_params := omap convert_query (hmc_query_params m) |}.

Definition match_has_bad_regex (m : HTTPRouteMatchCRD) : bool :=
  match convert_path <$> hmc_path m with Some (value, mt) => bad_regex mt value | None => false end ||
  existsb (fun h => bad_regex (header_type h) (hhc_value h)) (hmc_headers m) ||
  existsb (fun q => bad_regex (query_type q) (hqc_value q)) (hmc_query_params m).

(** [convert_matches] *)
Definition convert_matches (spec_matches : list HTTPRouteMatchCRD) : list HTTPRouteMatchState * bool :=
  (match map convert_match spec_matches with
   | [] => [{| hrm_path := Some ("/", "Prefix"); hrm_headers := []; hrm_method := None; hrm_query_params := [] |}]
   | results => results
   end, existsb match_has_bad_regex spec_matches).

(** ** Durations *)

Definition checked_mul (w a b : Z) : option Z := if a * b <? 2 ^ w then Some (a * b) else None.

(** [parse_gateway_duration] *)
Definition parse_gateway_duration (s : string) : option Z :=
  let s := trim s in
  match strip_suffix "ms" s with
  | Some num => parse_u 64 num
  | None =>
  match strip_suffix "s" s with
  | Some num => n ← parse_u 64 num; checked_mul 64 n 1000
  | None =>
  match strip_suffix "m" s with
  | Some num => n ← parse_u 64 num; checked_mul 64 n 60000
  | None =>
  match strip_suffix "h" s with
  | Some num => n ← parse_u 64 num; checked_mul 64 n 3600000
  | None => None
  end end end end.

(** ** Filters *)

(** [n as f64] of an unsigned integer, and the operations on [f64]. *)
Definition as_f64 (n : Z) : spec_float := binary_normalize 53 1024 n 0 false.
Definition div_f64 (a b : spec_float) : spec_float := SFdiv 53 1024 a b.
Definition mul_f64 (a b : spec_float) : spec_float := SFmul 53 1024 a b.

(** [x.round() as u32]: half away from zero, then a saturating cast. *)
Definition round_u32 (x : spec_float) : Z :=
  match x with
  | S754_finite false m e =>
      let n := if 0 <=? e then Z.pos m * 2 ^ e
               else (Z.pos m + 2 ^ (- e - 1)) / 2 ^ (- e) in
      Z.min n (2 ^ 32 - 1)
  | S754_infinity false => 2 ^ 32 - 1
  | _ => 0
  end.

(** The share of requests a mirror gets; a fraction goes before a percentage. *)
Definition mirror_percent (percent : option Z) (fraction : option HTTPMirrorFraction) : Z :=
  match fraction with
  | Some frac =>
      let denom := default 100 (hmf_denominator frac) in
      if denom >? 0 then round_u32 (mul_f64 (div_f64 (as_f64 (hmf_numerator frac)) (as_f64 denom)) (as_f64 100)) else 0
  | None => default 0 percent
  end.

Definition path_modifier (p : option HTTPPathModifierCRD) : option string * option string :=
  match p with
  | Some pm => (match hpm_replace_full_path pm with Some f => Some f | None => hpm_replace_prefix_match pm end, hpm_modifier_type pm)
  | None => (None, None)
  end.

Definition convert_filter (route_namespace : string) (f : HTTPRouteFilterCRD) : HTTPFilterState :=
  match f with
  | CRequestHeaderModifier m => FRequestHeaderModifier (hhf_add m) (hhf_set m) (hhf_remove m)
  | CResponseHeaderModifier m => FResponseHeaderModifier (hhf_add m) (hhf_set m) (hhf_remove m)
  | CRequestRedirect r =>
      let '(path, path_type) := path_modifier (hrf_path r) in
      FRequestRedirect (hrf_scheme r) (hrf_hostname r) (hrf_port r) path path_type (default 302 (hrf_status_code r))
  | CURLRewrite u => let '(path, path_type) := path_modifier (huf_path u) in FURLRewrite (huf_hostname u) path path_type
  | CRequestMirror br percent fraction =>
      FRequestMirror (default route_namespace (hbr_namespace br)) (hbr_name br) (default 80 (hbr_port br))
                     (mirror_percent percent fraction)
  | CCORS c => FCORS (cfc_allow_origins c) (cfc_allow_methods c) (cfc_allow_headers c) (cfc_expose_headers c)
                     (default false (cfc_allow_credentials c)) (cfc_max_age c)
  end.

(** [convert_filters] *)
Definition convert_filters (spec_filters : list HTTPRouteFilterCRD) (route_namespace : string) : list HTTPFilterState :=
  map (convert_filter route_namespace) spec_filters.

(** ** Backends *)

Section Reconcile.
Context `{IO : IterOrder}.

(** A Service the caches have seen: by its ports or by its endpoints. *)
Definition svc_exists (store : ConfigStore) (namespace name : string) : bool :=
  let mine (key : ServiceKey) := String.eqb (sk_namespace key) namespace && String.eqb (sk_name key) name in
  existsb (fun e => mine e.1) (entries (st_service_port_map store)) || existsb (fun e => mine e.1) (entries (st_endpoints store)).

(** The reason is kept from the first failure; an unsupported kind overrides it. *)
Definition first_reason (reason new : string) : string := if String.eqb reason "ResolvedRefs" then new else reason.

(** What the loop over the backends has gathered. *)
Record Resolution := {
  rs_backends : list BackendRefState;
  rs_all_resolved : bool;
  rs_reason : string;
}.

Definition resolve_backend_ref (store : ConfigStore) (route_namespace : string) (acc : Resolution) (bref : HTTPBackendRef) : Resolution :=
  let group := default EmptyString (hbr_group bref) in
  let kind := default "Service" (hbr_kind bref) in
  if negb (is_empty group) || negb (String.eqb kind "Service")
  then {| rs_backends := rs_backends acc; rs_all_resolved := false; rs_reason := "InvalidKind" |}
  else
    let ns := default route_namespace (hbr_namespace bref) in
    if negb (String.eqb ns route_namespace) &&
       negb (is_reference_allowed (st_reference_grants store) route_namespace "HTTPRoute" ns "Service" (Some (hbr_name bref)))
    then {| rs_backends := rs_backends acc; rs_all_resolved := false; rs_reason := first_reason (rs_reason acc) "RefNotPermitted" |}
    else
      let found := svc_exists store ns (hbr_name bref) in
      {| rs_backends := rs_backends acc ++
           [{| brs_namespace := ns; brs_name := hbr_name bref; brs_port := default 0 (hbr_port bref);
               brs_weight := default 1 (hbr_weight bref); brs_filters := convert_filters (hbr_filters bref) route_namespace |}];
         rs_all_resolved := rs_all_resolved acc && found;
         rs_reason := if found then rs_reason acc else first_reason (rs_reason acc) "BackendNotFound" |}.

(** [resolve_backend_refs] *)
Definition resolve_backend_refs (backend_refs : list HTTPBackendRef) (route_namespace : string) (store : ConfigStore) : Resolution :=
  fold_left (resolve_backend_ref store route_namespace) backend_refs
            {| rs_backends := []; rs_all_resolved := true; rs_reason := "ResolvedRefs" |}.

(** ** Rules *)

(** A rule as it is stored, whether all of it was usable, and the reason of
    its backends. *)
Definition convert_rule (store : ConfigStore) (namespace : string) (rule : HTTPRouteRule) : HTTPRouteRuleState * bool * string :=
  let '(matches, has_invalid_regex) := convert_matches (hru_matches rule) in
  let r := resolve_backend_refs (hru_backend_refs rule) namespace store in
  ({| hrr_matches := matches; hrr_filters := convert_filters (hru_filters rule) namespace; hrr_backend_refs := rs_backends r;
      hrr_request_timeout_ms := t ← hru_timeouts rule; d ← hrt_request t; parse_gateway_duration d;
      hrr_backend_request_timeout_ms := t ← hru_timeouts rule; d ← hrt_backend_request t; parse_gateway_duration d;
      hrr_retry := (fun r => {| rrs_codes := hry_codes r; rrs_attempts := default 1 (hry_attempts r) |}) <$> hru_retry rule |},
   rs_all_resolved r && negb has_invalid_regex, rs_reason r).

(** The loop over the rules: the states, whether all resolved, the reason. *)
Definition convert_rules (store : ConfigStore) (namespace : string) (rules : list HTTPRouteRule)
    : list HTTPRouteRuleState * bool * string :=
  fold_left (fun acc rule =>
    let '(states, all_resolved, reason) := acc in
    let '(state, resolved, rule_reason) := convert_rule store namespace rule in
    (states ++ [state], all_resolved && resolved, if (resolved : bool) then reason else first_reason reason rule_reason))
    rules ([], true, "ResolvedRefs").

(** ** State and status *)

Definition with_resolved (resolved : bool) (p : ParentRefState) : ParentRefState :=
  {| pref_parent_kind := pref_parent_kind p; pref_gateway_namespace := pref_gateway_namespace p;
     pref_gateway_name := pref_gateway_name p; pref_section_name := pref_section_name p; pref_port := pref_port p;
     pref_accepted := pref_accepted p; pref_resolved_refs := resolved; pref_reject_reason := pref_reject_reason p |}.

(** Accepted parents report the backends. *)
Definition report_backends (resolved : bool) (prefs : list ParentRefState) : list ParentRefState :=
  map (fun p => if pref_accepted p then with_resolved resolved p else p) prefs.

(** The entry of [status.parents] a parent gets. *)
Definition parent_entry (with_port : bool) (pref : ParentRefState) (conditions : list Condition) : RouteParentStatus :=
  {| rps_parent_ref :=
       {| pr_group := Some GATEWAY_GROUP;
          pr_kind := Some (match pref_parent_kind pref with ParentGateway => "Gateway" | ParentListenerSet => "ListenerSet" end);
          pr_namespace := Some (pref_gateway_namespace pref); pr_name := pref_gateway_name pref;
          pr_section_name := pref_section_name pref; pr_port := if with_port then pref_port pref else None |};
     rps_controller_name := CONTROLLER_NAME; rps_conditions := conditions |}.

Definition http_conditions (generation : Z) (resolved_reason : string) (pref : ParentRefState) : list Condition :=
  let reject_reason := default "NotAllowedByListeners" (pref_reject_reason pref) in
  [build_condition "Accepted" (pref_accepted pref) (if pref_accepted pref then "Accepted" else reject_reason)
     (if pref_accepted pref then "Route accepted by parent Gateway"
      else if String.eqb reject_reason "NoMatchingListenerHostname" then "Route hostname does not match any listener hostname"
      else "Route not allowed by listener") generation;
   build_condition "ResolvedRefs" (pref_resolved_refs pref) (if pref_resolved_refs pref then "ResolvedRefs" else resolved_reason)
     (if pref_resolved_refs pref then "All backend references resolved"
      else if String.eqb resolved_reason "InvalidKind" then "Backend ref has unsupported group or kind"
      else if String.eqb resolved_reason "RefNotPermitted" then "Cross-namespace backend ref not permitted by ReferenceGrant"
      else "One or more backend references could not be resolved") generation].

(** The status of a route: one entry per parent of ours, the entries of other
    controllers kept, written only where a condition of ours changed. *)
Definition route_status {Spec} (route : RouteObject Spec) (store : ConfigStore) (with_port : bool)
    (conditions : ParentRefState -> list Condition) (prefs : list ParentRefState) : option (list RouteParentStatus) :=
  let known := List.filter (parent_known store) prefs in
  patch_status_if_changed
    (merge_route_parents (status_parents route) (map (fun p => parent_entry with_port p (conditions p)) known))
    (own_parent_conditions (status_parents route)) (flat_map conditions known).

Definition namespace_labels_of (store : ConfigStore) (namespace : string) : gmap string string :=
  default ∅ (st_namespace_labels store !! namespace).

(** What a route would be stored as, with the reason its status gives; nothing
    where no parent is ours. *)
Definition http_route_state (route : RouteObject HTTPRouteSpec) (namespace : string) (store : ConfigStore)
    : option (HTTPRouteState * string) :=
  let spec := ro_spec route in
  let parent_refs := bind_to_parents namespace (namespace_labels_of store namespace) (hsp_hostnames spec) (hsp_parent_refs spec) store in
  let '(rules, all_rules_resolved, resolved_reason) := convert_rules store namespace (hsp_rules spec) in
  let parent_refs := report_backends all_rules_resolved parent_refs in
  if negb (any_parent_known store parent_refs) then None
  else Some ({| hrs_namespace := namespace; hrs_hostnames := hsp_hostnames spec; hrs_parent_refs := parent_refs; hrs_rules := rules;
                hrs_generation := Z.max (default 0 (om_generation (ro_metadata route))) 1 |}, resolved_reason).

(** [reconcile_http_route]: the world, and the status written if any. *)
Definition reconcile_http_route (route : RouteObject HTTPRouteSpec) (w : World)
    : result (World * option (list RouteParentStatus)) ReconcileError :=
  try! key := policy_key (ro_metadata route) in
  if bool_decide (is_Some (om_deletion_timestamp (ro_metadata route)))
  then Ok ((remove_route http_routes RouteHttp key w).1, None)
  else
    match http_route_state route (nn_namespace key) (w_store w) with
    | None => Ok ((remove_route http_routes RouteHttp key w).1, None)
    | Some (state, resolved_reason) =>
        let w' := (store_route http_routes RouteHttp key state w).1 in
        Ok (w', route_status route (w_store w) true (http_conditions (hrs_generation state) resolved_reason) (hrs_parent_refs state))
    end.
End Reconcile.
End Convert.

(** ** What a parent reference needs to be accepted *)

Section Facts.
Context (route_namespace : string) (labels : gmap string string) (hostnames : list string).

(** [l] takes the route, as far as [try_listeners] looks. *)
Definition takes (pref : ParentReference) (gateway_namespace : string) (l : ListenerState) : bool :=
  named_port pref l && (String.eqb (lst_protocol l) "HTTP" || String.eqb (lst_protocol l) "HTTPS") &&
  hostnames_compatible (lst_hostname l) hostnames &&
  namespace_allowed (lst_allowed_routes l) route_namespace gateway_namespace labels.

Lemma try_listeners_accepts pref ns p h ls :
  (try_listeners route_namespace labels hostnames pref ns p h ls).1.1 = existsb (takes pref ns) ls.
Proof.
  revert p h. induction ls as [|l ls IH]; intros p h; [done|]. simpl. unfold takes at 1. rewrite <- negb_orb.
  destruct (named_port pref l); simpl; [|apply IH]. destruct (String.eqb _ "HTTP" || _); simpl; [|apply IH].
  destruct (hostnames_compatible _ _); simpl; [|apply IH]. destruct (namespace_allowed _ _ _ _); simpl; [done|apply IH].
Qed.

(** The listeners a parent reference points at: the first of that name, or
    all of them. *)
Definition candidates (pref : ParentReference) (ls : list ListenerState) : list ListenerState :=
  match pr_section_name pref with
  | Some section => option_list (List.find (fun l => String.eqb (lst_name l) section) ls)
  | None => ls
  end.

Definition ref_kind (pref : ParentReference) : ParentKind :=
  if String.eqb (default "Gateway" (pr_kind pref)) "ListenerSet" then ParentListenerSet else ParentGateway.

Definition ref_key (pref : ParentReference) : NamespacedName :=
  {| nn_namespace := default route_namespace (pr_namespace pref); nn_name := pr_name pref |}.

Lemma bind_parent_names store pref p :
  bind_parent route_namespace labels hostnames store pref = Some p ->
  pref_parent_kind p = ref_kind pref /\ pref_key p = ref_key pref /\ pref_section_name p = pr_section_name pref /\
  pref_port p = pr_port pref.
Proof.
  unfold bind_parent, ref_kind, ref_key, pref_key. intros H. repeat (case_match; try discriminate H); simplify_eq; done.
Qed.

Lemma takes_port pref ns ls : existsb (named_port pref) ls = false -> existsb (takes pref ns) ls = false.
Proof.
  induction ls as [|l ls IH]; [done|]. simpl. rewrite !orb_false_iff. intros [Hl Hls]. split; [|by apply IH].
  unfold takes. by rewrite Hl.
Qed.

Lemma bind_parent_accepted store pref p :
  bind_parent route_namespace labels hostnames store pref = Some p ->
  pref_accepted p =
  match offered store (ref_kind pref) (ref_key pref) with
  | inl _ => false
  | inr (ns, ls) => existsb (takes pref ns) (candidates pref ls)
  end.
Proof.
  unfold bind_parent. fold (ref_kind pref) (ref_key pref). destruct (negb _); [done|]. destruct (negb _ && negb _); [done|].
  destruct (offered _ _ _) as [[? ?]|[ns ls]]; [by intros [= <-]|]. unfold candidates.
  assert (Hport : forall l,
    (if bool_decide (is_Some (pr_port pref)) && negb (existsb (named_port pref) l) then false
     else (try_listeners route_namespace labels hostnames pref ns false false l).1.1) = existsb (takes pref ns) l).
  { intros l. rewrite try_listeners_accepts. destruct (existsb (named_port pref) l) eqn:E; [by rewrite andb_false_r|].
    rewrite takes_port by done. by destruct (bool_decide _). }
  destruct (pr_section_name pref) as [section|]; [destruct (List.find _ ls) as [l|]; [|by intros [= <-]]|]; simpl option_list;
    rewrite <- Hport; destruct (_ && negb _); try (by intros [= <-]);
    destruct (try_listeners _ _ _ _ _ _ _ _) as [[a ?] ?]; destruct a; by intros [= <-].
Qed.

Lemma bind_to_parents_elem store prefs p :
  p ∈ bind_to_parents route_namespace labels hostnames prefs store <->
  exists pref, pref ∈ prefs /\ bind_parent route_namespace labels hostnames store pref = Some p.
Proof. apply list_elem_of_omap. Qed.
End Facts.

(** ** What becomes of the backends *)

Section Backends.
Context `{IO : IterOrder} (store : ConfigStore) (ns : string).

Definition backend_ns (b : HTTPBackendRef) : string := default ns (hbr_namespace b).

(** A core Service. *)
Definition service_ref (b : HTTPBackendRef) : bool :=
  is_empty (default EmptyString (hbr_group b)) && String.eqb (default "Service" (hbr_kind b)) "Service".

(** In the route's namespace, or granted to it. *)
Definition ref_permitted (b : HTTPBackendRef) : bool :=
  String.eqb (backend_ns b) ns ||
  is_reference_allowed (st_reference_grants store) ns "HTTPRoute" (backend_ns b) "Service" (Some (hbr_name b)).

Definition backend_ok (b : HTTPBackendRef) : bool :=
  service_ref b && ref_permitted b && svc_exists store (backend_ns b) (hbr_name b).

Definition backend_state (b : HTTPBackendRef) : BackendRefState :=
  {| brs_namespace := backend_ns b; brs_name := hbr_name b; brs_port := default 0 (hbr_port b);
     brs_weight := default 1 (hbr_weight b); brs_filters := convert_filters (hbr_filters b) ns |}.

(** The reason a route gives for its backends: an unsupported kind, or what is
    wrong with the first backend that cannot be used. *)
Definition backends_reason (refs : list HTTPBackendRef) : string :=
  if existsb (fun b => negb (service_ref b)) refs then "InvalidKind"
  else match List.find (fun b => negb (backend_ok b)) refs with
       | None => "ResolvedRefs"
       | Some b => if ref_permitted b then "BackendNotFound" else "RefNotPermitted"
       end.

Lemma resolve_backend_ref_step acc b :
  resolve_backend_ref store ns acc b =
  {| rs_backends := rs_backends acc ++ (if service_ref b && ref_permitted b then [backend_state b] else []);
     rs_all_resolved := rs_all_resolved acc && backend_ok b;
     rs_reason := if negb (service_ref b) then "InvalidKind"
                  else if backend_ok b then rs_reason acc
                  else first_reason (rs_reason acc) (if ref_permitted b then "BackendNotFound" else "RefNotPermitted") |}.
Proof.
  unfold resolve_backend_ref, backend_ok, service_ref, ref_permitted, backend_state, backend_ns. destruct acc as [bs ok why]; simpl.
  rewrite <- negb_andb. destruct (_ && _) eqn:Es; simpl; [|by rewrite app_nil_r, !andb_false_r].
  rewrite <- negb_orb. destruct (_ || _) eqn:Ep; simpl; [|by rewrite app_nil_r, !andb_false_r].
  by destruct (svc_exists _ _ _).
Qed.

Lemma resolve_backend_refs_exact refs :
  resolve_backend_refs refs ns store =
  {| rs_backends := map backend_state (List.filter (fun b => service_ref b && ref_permitted b) refs);
     rs_all_resolved := forallb backend_ok refs;
     rs_reason := backends_reason refs |}.
Proof.
  unfold resolve_backend_refs. induction refs as [|b refs IH] using rev_ind; [done|].
  rewrite fold_left_app, IH. simpl. rewrite resolve_backend_ref_step, List.filter_app, map_app, forallb_app. simpl. f_equal.
  - by destruct (_ && _).
  - by rewrite andb_true_r.
  - unfold backends_reason. rewrite existsb_app. simpl.
    assert (Hf : List.find (fun b => negb (backend_ok b)) (refs ++ [b]) =
                 match List.find (fun b => negb (backend_ok b)) refs with
                 | Some c => Some c | None => if backend_ok b then None else Some b end).
    { clear IH. induction refs as [|c refs IH]; simpl; [by destruct (backend_ok b)|]. by destruct (backend_ok c). }
    rewrite Hf. destruct (service_ref b) eqn:Es; simpl; [|by rewrite orb_true_r].
    rewrite orb_false_r. destruct (backend_ok b); [by destruct (List.find _ refs)|]. unfold first_reason.
    destruct (existsb _ refs); [done|]. destruct (List.find _ refs) as [c|]; [by destruct (ref_permitted c)|]. done.
Qed.

(** Everything resolved is the one case without a reason. *)
Lemma backends_reason_resolved refs : String.eqb (backends_reason refs) "ResolvedRefs" = forallb backend_ok refs.
Proof.
  unfold backends_reason. destruct (existsb _ refs) eqn:E.
  - symmetry. apply not_true_is_false. rewrite forallb_forall. apply existsb_exists in E as (b & Hb & Hs). intros H.
    specialize (H b Hb). unfold backend_ok in H. by destruct (service_ref b).
  - clear E. induction refs as [|b refs IH]; [done|]. simpl. destruct (backend_ok b); simpl; [done|]. by destruct (ref_permitted b).
Qed.
End Backends.
