(* ===== verification/Routes.v ===== *)
(** * The reconcilers of GRPCRoutes, TLSRoutes, TCPRoutes and UDPRoutes

    [portus-controller/src/reconcilers/grpc_route.rs], [tls_route.rs] and
    [l4_route.rs].  TCP and UDP share one reconciler through the interface
    [L4Route]. *)
From S2P Require Import Prelude Text Proto Resources Hostnames Policies Objects HttpRoute.
From Stdlib Require Import String.
Open Scope Z_scope.

(** What the backends of these kinds have. *)
Record RouteBackendRef := {
  rbr_group : option string;
  rbr_kind : option string;
  rbr_name : string;
  rbr_namespace : option string;
  rbr_port : option Z;
  rbr_weight : option Z;
}.

Definition plain_backend (ns : string) (b : RouteBackendRef) : BackendRefState :=
  {| brs_namespace := ns; brs_name := rbr_name b; brs_port := default 0 (rbr_port b); brs_weight := default 1 (rbr_weight b);
     brs_filters := [] |}.

(** A parent reference is reported in the parent's terms. *)
Definition gateway_ref_state (route_namespace : string) (pref : ParentReference) (accepted resolved : bool) (reason : option string)
    : ParentRefState :=
  {| pref_parent_kind := ParentGateway; pref_gateway_namespace := default route_namespace (pr_namespace pref);
     pref_gateway_name := pr_name pref; pref_section_name := pr_section_name pref; pref_port := pr_port pref;
     pref_accepted := accepted; pref_resolved_refs := resolved; pref_reject_reason := reason |}.

Section Reconcilers.
Context `{IO : IterOrder}.

Definition granted (store : ConfigStore) (kind namespace ns name : string) : bool :=
  String.eqb ns namespace || is_reference_allowed (st_reference_grants store) namespace kind ns "Service" (Some name).

(** ** GRPCRoutes *)

Record GRPCMethodMatch := { gmm_match_type : option string; gmm_service : option string; gmm_method : option string }.
Record GRPCHeaderMatch := { ghm_match_type : option string; ghm_name : string; ghm_value : string }.
Record GRPCRouteMatch := { gmt_method : option GRPCMethodMatch; gmt_headers : list GRPCHeaderMatch }.
Record GRPCRouteRule := { gru_matches : list GRPCRouteMatch; gru_backend_refs : list RouteBackendRef }.
Record GRPCRouteSpec := { gsp_hostnames : list string; gsp_parent_refs : list ParentReference; gsp_rules : list GRPCRouteRule }.

Definition nonempty (s : option string) : option string := x ← s; if is_empty x then None else Some x.

Definition convert_grpc_match (m : GRPCRouteMatch) : GRPCRouteMatchState :=
  let '(service, method, match_type) :=
    match gmt_method m with
    | Some mm => (nonempty (gmm_service mm), nonempty (gmm_method mm), default "Exact" (nonempty (gmm_match_type mm)))
    | None => (None, None, "Exact")
    end in
  {| grm_service := service; grm_method := method; grm_match_type := match_type;
     grm_headers := map (fun h => (ghm_name h, ghm_value h, default "Exact" (ghm_match_type h))) (gmt_headers m) |}.

(** [convert_grpc_matches] *)
Definition convert_grpc_matches (spec_matches : list GRPCRouteMatch) : list GRPCRouteMatchState := map convert_grpc_match spec_matches.

Definition bind_grpc_parent (route_namespace : string) (store : ConfigStore) (pref : ParentReference) : option ParentRefState :=
  let group := default GATEWAY_GROUP (pr_group pref) in
  let kind := default "Gateway" (pr_kind pref) in
  if negb (String.eqb group GATEWAY_GROUP) && negb (is_empty group) then None
  else if negb (String.eqb kind "Gateway") then None
  else
    let key := {| nn_namespace := default route_namespace (pr_namespace pref); nn_name := pr_name pref |} in
    let accepted :=
      match st_gateways store !! key with
      | Some gw => existsb (fun l =>
          (String.eqb (lst_protocol l) "HTTP" || String.eqb (lst_protocol l) "HTTPS") &&
          match pr_section_name pref with Some sn => String.eqb sn (lst_name l) | None => true end && lst_accepted l) (gs_listeners gw)
      | None => false
      end in
    Some (gateway_ref_state route_namespace pref accepted true None).

(** [bind_grpc_to_parents] *)
Definition bind_grpc_to_parents (spec : GRPCRouteSpec) (route_namespace : string) (store : ConfigStore) : list ParentRefState :=
  omap (bind_grpc_parent route_namespace store) (gsp_parent_refs spec).

(** [resolve_grpc_backend_refs] *)
Definition resolve_grpc_backend_refs (rule : GRPCRouteRule) (route_namespace : string) (store : ConfigStore)
    : list BackendRefState * bool :=
  fold_left (fun acc b =>
    let '(refs, all_resolved) := acc in
    if negb (String.eqb (default "Service" (rbr_kind b)) "Service") then (refs, false)
    else
      let ns := default route_namespace (rbr_namespace b) in
      if negb (granted store "GRPCRoute" route_namespace ns (rbr_name b)) then (refs, false)
      else (refs ++ [plain_backend ns b], all_resolved)) (gru_backend_refs rule) ([], true).

Definition convert_grpc_rules (store : ConfigStore) (namespace : string) (rules : list GRPCRouteRule) : list GRPCRouteRuleState * bool :=
  fold_left (fun acc rule =>
    let '(states, all_resolved) := acc in
    let '(backend_refs, resolved) := resolve_grpc_backend_refs rule namespace store in
    (states ++ [{| grr_matches := convert_grpc_matches (gru_matches rule); grr_backend_refs := backend_refs |}],
     all_resolved && resolved)) rules ([], true).

(** [reconcile_grpc_route_inner] *)
Definition reconcile_grpc_route_inner (route : RouteObject GRPCRouteSpec) (w : World) : result World ReconcileError :=
  try! key := policy_key (ro_metadata route) in
  let namespace := nn_namespace key in
  let store := w_store w in
  let '(rules, all_refs_resolved) := convert_grpc_rules store namespace (gsp_rules (ro_spec route)) in
  let parent_refs := map (with_resolved all_refs_resolved) (bind_grpc_to_parents (ro_spec route) namespace store) in
  if negb (any_parent_known store parent_refs) then Ok (remove_route grpc_routes RouteGrpc key w).1
  else
    let state := {| grs_namespace := namespace; grs_hostnames := gsp_hostnames (ro_spec route); grs_parent_refs := parent_refs;
                    grs_rules := rules; grs_generation := default 0 (om_generation (ro_metadata route)) |} in
    Ok (store_route grpc_routes RouteGrpc key state w).1.

Definition grpc_conditions (generation : Z) (pref : ParentRefState) : list Condition :=
  [build_condition "Accepted" (pref_accepted pref) (if pref_accepted pref then "Accepted" else "NotAllowedByListeners")
     (if pref_accepted pref then "Route accepted by parent Gateway" else "Route not allowed by listener") generation;
   build_condition "ResolvedRefs" (pref_resolved_refs pref) (if pref_resolved_refs pref then "ResolvedRefs" else "BackendNotFound")
     (if pref_resolved_refs pref then "All backend references resolved"
      else "One or more backend references could not be resolved") generation].

(** The reconcilers of these kinds: remove what is being deleted, otherwise
    write the state and report it. *)
Definition reconcile_route {Spec S} `{RouteState S} (slot : Slot NamespacedName S) (kind : RouteKind) (with_port : bool)
    (inner : RouteObject Spec -> World -> result World ReconcileError) (conditions : S -> ParentRefState -> list Condition)
    (route : RouteObject Spec) (w : World) : result (World * option (list RouteParentStatus)) ReconcileError :=
  let key := key_of (ro_metadata route) in
  if bool_decide (is_Some (om_deletion_timestamp (ro_metadata route))) then Ok ((remove_route slot kind key w).1, None)
  else
    try! w := inner route w in
    Ok (w, match slot_get slot (w_store w) !! key with
           | Some stored => route_status route (w_store w) with_port (conditions stored) (route_parent_refs stored)
           | None => None
           end).

(** [reconcile_grpc_route] *)
Definition reconcile_grpc_route (route : RouteObject GRPCRouteSpec) (w : World)
    : result (World * option (list RouteParentStatus)) ReconcileError :=
  let generation := Z.max (default 0 (om_generation (ro_metadata route))) 1 in
  reconcile_route grpc_routes RouteGrpc false reconcile_grpc_route_inner (fun _ => grpc_conditions generation) route w.

(** ** TLSRoutes *)

Record TLSRouteSpec := { tsp_parent_refs : list ParentReference; tsp_hostnames : list string; tsp_rules : list (list RouteBackendRef) }.

(** The listener loop of [bind_to_parents_tls]; no label of the namespace is
    looked at. *)
Fixpoint try_tls_listeners (pref : ParentReference) (route_namespace gateway_namespace : string) (route_hostnames : list string)
    (has_protocol_match has_hostname_match : bool) (listeners : list ListenerState) : bool * bool * bool :=
  match listeners with
  | [] => (false, has_protocol_match, has_hostname_match)
  | l :: listeners =>
      let next p h := try_tls_listeners pref route_namespace gateway_namespace route_hostnames p h listeners in
      if match pr_section_name pref with Some sn => negb (String.eqb sn (lst_name l)) | None => false end
      then next has_protocol_match has_hostname_match
      else if negb (String.eqb (lst_protocol l) "TLS") then next has_protocol_match has_hostname_match
      else if negb (hostnames_compatible (lst_hostname l) route_hostnames) then next true has_hostname_match
      else if negb (namespace_allowed (lst_allowed_routes l) route_namespace gateway_namespace ∅) then next true true
      else if lst_accepted l then (true, true, true)
      else next true true
  end.

Definition bind_tls_parent (route_namespace : string) (route_hostnames : list string) (store : ConfigStore) (pref : ParentReference)
    : option ParentRefState :=
  let group := default GATEWAY_GROUP (pr_group pref) in
  let kind := default "Gateway" (pr_kind pref) in
  if negb (String.eqb group GATEWAY_GROUP) || negb (String.eqb kind "Gateway") then None
  else
    let result := gateway_ref_state route_namespace pref in
    match st_gateways store !! {| nn_namespace := default route_namespace (pr_namespace pref); nn_name := pr_name pref |} with
    | None => Some (result false false (Some "NoMatchingParent"))
    | Some gw =>
        if match pr_section_name pref with
           | Some section => negb (existsb (fun l => String.eqb (lst_name l) section) (gs_listeners gw))
           | None => false
           end
        then Some (result false true (Some "NoMatchingParent"))
        else
          let '(accepted, has_protocol_match, has_hostname_match) :=
            try_tls_listeners pref route_namespace (gs_namespace gw) route_hostnames false false (gs_listeners gw) in
          Some (result accepted true
            (if (accepted : bool) then None
             else if (has_protocol_match : bool) && negb has_hostname_match then Some "NoMatchingListenerHostname"
             else Some "NotAllowedByListeners"))
    end.

(** [bind_to_parents_tls] *)
Definition bind_to_parents_tls (parent_refs : list ParentReference) (route_namespace : string) (route_hostnames : list string)
    (store : ConfigStore) : list ParentRefState :=
  omap (bind_tls_parent route_namespace route_hostnames store) parent_refs.

Definition resolve_tls_backend (store : ConfigStore) (namespace : string) (acc : Resolution) (b : RouteBackendRef) : Resolution :=
  if negb (is_empty (default EmptyString (rbr_group b))) || negb (String.eqb (default "Service" (rbr_kind b)) "Service")
  then {| rs_backends := rs_backends acc; rs_all_resolved := false; rs_reason := "InvalidKind" |}
  else
    let ns := default namespace (rbr_namespace b) in
    if negb (granted store "TLSRoute" namespace ns (rbr_name b))
    then {| rs_backends := rs_backends acc; rs_all_resolved := false; rs_reason := first_reason (rs_reason acc) "RefNotPermitted" |}
    else
      let found := svc_exists store ns (rbr_name b) in
      {| rs_backends := rs_backends acc ++ [plain_backend ns b]; rs_all_resolved := rs_all_resolved acc && found;
         rs_reason := if found then rs_reason acc else first_reason (rs_reason acc) "BackendNotFound" |}.

(** [reconcile_tls_route_inner]; only the first rule is read. *)
Definition reconcile_tls_route_inner (route : RouteObject TLSRouteSpec) (w : World) : result World ReconcileError :=
  try! key := policy_key (ro_metadata route) in
  let namespace := nn_namespace key in
  let store := w_store w in
  let spec := ro_spec route in
  let r := fold_left (resolve_tls_backend store namespace) (default [] (head (tsp_rules spec)))
                     {| rs_backends := []; rs_all_resolved := true; rs_reason := "ResolvedRefs" |} in
  let parent_refs := report_backends (rs_all_resolved r)
                       (bind_to_parents_tls (tsp_parent_refs spec) namespace (tsp_hostnames spec) store) in
  if negb (any_parent_known store parent_refs) then Ok (remove_route tls_routes RouteTls key w).1
  else
    let state := {| trs_namespace := namespace; trs_hostnames := tsp_hostnames spec; trs_parent_refs := parent_refs;
                    trs_backend_refs := rs_backends r; trs_generation := default 0 (om_generation (ro_metadata route));
                    trs_resolved_reason := rs_reason r |} in
    Ok (store_route tls_routes RouteTls key state w).1.

(** [reconcile_tls_route]; the conditions are those of an HTTPRoute. *)
Definition reconcile_tls_route (route : RouteObject TLSRouteSpec) (w : World)
    : result (World * option (list RouteParentStatus)) ReconcileError :=
  let generation := Z.max (default 0 (om_generation (ro_metadata route))) 1 in
  reconcile_route tls_routes RouteTls false reconcile_tls_route_inner
    (fun stored => http_conditions generation (trs_resolved_reason stored)) route w.

(** ** TCPRoutes and UDPRoutes *)

Record L4RouteSpec := { lsp_parent_refs : list ParentReference; lsp_rules : list (list RouteBackendRef) }.

(** [L4Route]: what the kinds differ in. *)
Class L4Route := {
  l4_kind : string;
  l4_protocol : string;
  l4_route_kind : RouteKind;
  l4_routes : Slot NamespacedName L4RouteState;
}.

Definition TCPRoute : L4Route := {| l4_kind := "TCPRoute"; l4_protocol := "TCP"; l4_route_kind := RouteTcp; l4_routes := tcp_routes |}.
Definition UDPRoute : L4Route := {| l4_kind := "UDPRoute"; l4_protocol := "UDP"; l4_route_kind := RouteUdp; l4_routes := udp_routes |}.

Section L4.
Context `{K : L4Route}.

Definition bind_l4_parent (route_namespace : string) (route_ns_labels : gmap string string) (store : ConfigStore)
    (pref : ParentReference) : option ParentRefState :=
  let group := default GATEWAY_GROUP (pr_group pref) in
  let kind := default "Gateway" (pr_kind pref) in
  if negb (String.eqb group GATEWAY_GROUP) || negb (String.eqb kind "Gateway") then None
  else
    let result := gateway_ref_state route_namespace pref in
    match st_gateways store !! {| nn_namespace := default route_namespace (pr_namespace pref); nn_name := pr_name pref |} with
    | None => Some (result false false None)
    | Some gw =>
        let candidates := List.filter (fun l =>
          match pr_section_name pref with Some sn => String.eqb sn (lst_name l) | None => true end && named_port pref l) (gs_listeners gw) in
        let speaks l := String.eqb (lst_protocol l) l4_protocol in
        let allowed l := speaks l && namespace_allowed (lst_allowed_routes l) route_namespace (gs_namespace gw) route_ns_labels in
        let '(accepted, reason) :=
          match candidates with
          | [] => (false, Some "NoMatchingParent")
          | _ =>
              if negb (existsb speaks candidates) then (false, Some "NotAllowedByListeners")
              else if negb (existsb allowed candidates) then (false, Some "NotAllowedByListeners")
              else if existsb (fun l => lst_accepted l && allowed l) candidates then (true, None)
              else (false, Some "NoMatchingParent")
          end in
        Some (result accepted true reason)
    end.

(** [bind_to_parents_l4] *)
Definition bind_to_parents_l4 (parent_refs : list ParentReference) (route_namespace : string) (route_ns_labels : gmap string string)
    (store : ConfigStore) : list ParentRefState :=
  omap (bind_l4_parent route_namespace route_ns_labels store) parent_refs.

(** [get_or_insert_with] *)
Definition or_reason (reason : option string) (new : string) : option string :=
  match reason with Some r => Some r | None => Some new end.

Definition resolve_l4_backend (store : ConfigStore) (namespace : string) (acc : list BackendRefState * bool * option string)
    (b : RouteBackendRef) : list BackendRefState * bool * option string :=
  let '(refs, all_resolved, reason) := acc in
  let ns := default namespace (rbr_namespace b) in
  if negb (granted store l4_kind namespace ns (rbr_name b)) then (refs, false, or_reason reason "RefNotPermitted")
  else
    let found := svc_exists store ns (rbr_name b) in
    (refs ++ [plain_backend ns b], all_resolved && found, if found then reason else or_reason reason "BackendNotFound").

(** [reconcile_l4_route_inner] *)
Definition reconcile_l4_route_inner (route : RouteObject L4RouteSpec) (w : World) : result World ReconcileError :=
  try! key := policy_key (ro_metadata route) in
  let namespace := nn_namespace key in
  let store := w_store w in
  let spec := ro_spec route in
  let '(refs, all_resolved, reason) :=
    fold_left (resolve_l4_backend store namespace) (default [] (head (lsp_rules spec))) ([], true, None) in
  let parent_refs := report_backends all_resolved
                       (bind_to_parents_l4 (lsp_parent_refs spec) namespace (namespace_labels_of store namespace) store) in
  if negb (any_parent_known store parent_refs) then Ok (remove_route l4_routes l4_route_kind key w).1
  else
    let state := {| lrs_namespace := namespace; lrs_parent_refs := parent_refs; lrs_backend_refs := refs;
                    lrs_generation := default 0 (om_generation (ro_metadata route));
                    lrs_creation_timestamp := om_creation_timestamp (ro_metadata route); lrs_resolved_refs_reason := reason |} in
    Ok (store_route l4_routes l4_route_kind key state w).1.

Definition l4_conditions (generation : Z) (stored : L4RouteState) (pref : ParentRefState) : list Condition :=
  let '(accepted_reason, accepted_msg) :=
    if pref_accepted pref then ("Accepted", "Route accepted by parent Gateway")
    else if bool_decide (pref_reject_reason pref = Some "NotAllowedByListeners")
    then ("NotAllowedByListeners",
          "The referenced listener is not a " +:+ l4_protocol +:+ " listener or does not allow routes from this namespace")
    else ("NoMatchingParent", "No listener on the parent Gateway matches this parentRef") in
  let resolved_reason := if pref_resolved_refs pref then "ResolvedRefs" else default "BackendNotFound" (lrs_resolved_refs_reason stored) in
  [build_condition "Accepted" (pref_accepted pref) accepted_reason accepted_msg generation;
   build_condition "ResolvedRefs" (pref_resolved_refs pref) resolved_reason
     (if String.eqb resolved_reason "ResolvedRefs" then "All backend references resolved"
      else if String.eqb resolved_reason "RefNotPermitted" then "A cross-namespace backend reference is not permitted by any ReferenceGrant"
      else "One or more backend Services do not exist") generation].

(** [reconcile_l4_route] *)
Definition reconcile_l4_route (route : RouteObject L4RouteSpec) (w : World)
    : result (World * option (list RouteParentStatus)) ReconcileError :=
  reconcile_route l4_routes l4_route_kind true reconcile_l4_route_inner
    (l4_conditions (default 0 (om_generation (ro_metadata route)))) route w.
End L4.
End Reconcilers.
