(* ===== verification/AiResources.v ===== *)
(** * AI providers and AI routes

    [portus-controller/src/reconcilers/ai_provider.rs] and [ai_route.rs]:
    validation of a provider and of the members of a federation, the
    endpoints a provider follows, and the conversion of an AIRoute into the
    state the compiler reads.  [regex] and name resolution are arguments. *)
From S2P Require Import Prelude Text Proto Resources Hostnames Policies Objects HttpRoute.
From Stdlib Require Import String.
Open Scope Z_scope.

(** ** Providers *)

Record AIFederationMemberSpec := { afs_name : string; afs_provider : option string; afs_path : option string }.

Record AICredentialSpec := {
  acp_secret_name : string;
  acp_secret_key : option string;
  acp_header : option string;
  acp_prefix : option string;
}.

Record AIProviderSpec := {
  apc_kind : string;
  apc_url : string;
  apc_members : list AIFederationMemberSpec;
  apc_credential : option AICredentialSpec;
  apc_session_affinity : option string;
}.

(** An object of the AI kinds: its status has conditions only. *)
Record AIObject (Spec : Type) := {
  ao_metadata : ObjectMeta;
  ao_spec : Spec;
  ao_conditions : option (list Condition);
}.
Arguments ao_metadata {Spec} _.
Arguments ao_spec {Spec} _.
Arguments ao_conditions {Spec} _.

Definition KINDS : list string := ["anthropic"; "openai"; "openai-compatible"; "mcp"; "mcp-federation"].
Definition FEDERATION : string := "mcp-federation".

Definition filled (s : option string) : option string := x ← s; if is_empty (trim x) then None else Some (trim x).

Fixpoint all_bytes (f : ascii -> bool) (s : string) : bool :=
  match s with EmptyString => true | String c s => f c && all_bytes f s end.

Definition member_char (c : ascii) : bool := is_ascii_alphanumeric c || (byte_val c =? 45) || (byte_val c =? 95).

(** One member, given the names used before it. *)
Definition federation_member (namespace : string) (store : ConfigStore) (seen : list string) (m : AIFederationMemberSpec)
    : result AIFederationMember string :=
  let name := trim (afs_name m) in
  if is_empty name || negb (all_bytes member_char name)
  then Err ("member name " +:+ debug_str (afs_name m) +:+ " must be letters, digits, - or _")
  else if bool_decide (name ∈ seen) then Err ("member name " +:+ debug_str name +:+ " is used twice")
  else
    let provider := default name (filled (afs_provider m)) in
    match st_ai_providers store !! {| nn_namespace := namespace; nn_name := provider |} with
    | None => Err ("member " +:+ name +:+ ": AIProvider " +:+ namespace +:+ "/" +:+ provider +:+ " not found or not accepted")
    | Some p =>
        if negb (String.eqb (aps_kind p) "mcp")
        then Err ("member " +:+ name +:+ ": AIProvider " +:+ provider +:+ " is kind " +:+ aps_kind p +:+ ", not mcp")
        else
          let path := default "/mcp" (filled (afs_path m)) in
          if negb (starts_with "/" path) then Err ("member " +:+ name +:+ ": path " +:+ debug_str path +:+ " must start with /")
          else Ok {| afm_name := name; afm_provider := provider; afm_path := path |}
    end.

Fixpoint federation_members_from (namespace : string) (store : ConfigStore) (seen : list string) (ms : list AIFederationMemberSpec)
    : result (list AIFederationMember) string :=
  match ms with
  | [] => Ok []
  | m :: ms =>
      try! out := federation_member namespace store seen m in
      try! rest := federation_members_from namespace store (afm_name out :: seen) ms in
      Ok (out :: rest)
  end.

(** [federation_members] *)
Definition federation_members (spec : AIProviderSpec) (namespace : string) (store : ConfigStore) : result (list AIFederationMember) string :=
  match apc_members spec with
  | [] => Err "mcp-federation needs at least one member"
  | ms => federation_members_from namespace store [] ms
  end.

Definition parse_port (p : string) : result Z string := ok_or (parse_u 16 p) ("invalid port " +:+ debug_str p).

Definition has_char (c : ascii) (s : string) : bool := bool_decide (is_Some (find_char c s)).

(** The authority of a URL: host and port. *)
Definition parse_authority (default_port : Z) (rest : string) : result (string * Z) string :=
  match strip_prefix "[" rest with
  | Some r =>
      match split_once "]"%char r with
      | None => Err "unclosed [ in host"
      | Some (h, tail) =>
          match strip_prefix ":" tail with
          | Some p => try! port := parse_port p in Ok (h, port)
          | None => if is_empty tail then Ok (h, default_port) else Err "unexpected text after ]"
          end
      end
  | None =>
      match split_once ":"%char rest with
      | Some (h, p) =>
          if has_char ":"%char p then Err "host has more than one ':' (bracket IPv6 literals)"
          else try! port := parse_port p in Ok (h, port)
      | None => Ok (rest, default_port)
      end
  end.

(** [parse_provider_url] *)
Definition parse_provider_url (url : string) : result (bool * string * Z) string :=
  let scheme := match strip_prefix "https://" url with
                | Some r => Some (true, r)
                | None => pair false <$> strip_prefix "http://" url
                end in
  match scheme with
  | None => Err "url must start with https:// or http://"
  | Some (tls, rest) =>
      let rest := default rest (strip_suffix "/" rest) in
      if is_empty rest || has_char "/"%char rest || has_char "?"%char rest || has_char "#"%char rest || has_char "@"%char rest
      then Err "url must be scheme://host[:port] with no path"
      else
        try! hp := parse_authority (if (tls : bool) then 443 else 80) rest in
        let '(host, port) := hp in
        if is_empty host then Err "url has no host" else Ok (tls, host, port)
  end.

(** [session_affinity] *)
Definition session_affinity (spec : AIProviderSpec) : bool :=
  match apc_session_affinity spec with
  | Some a => String.eqb a "header"
  | None => String.eqb (apc_kind spec) "mcp"
  end.

(** [default_credential_header] *)
Definition default_credential_header (kind : string) : string * string :=
  if String.eqb kind "anthropic" then ("x-api-key", EmptyString) else ("authorization", "Bearer ").

Definition credential_state (spec : AIProviderSpec) : option AICredentialState :=
  (fun c =>
     let '(header, prefix) := default_credential_header (apc_kind spec) in
     {| acs_secret_name := acp_secret_name c; acs_secret_key := default "api-key" (acp_secret_key c);
        acs_header := to_ascii_lowercase (default header (acp_header c)); acs_prefix := default prefix (acp_prefix c) |})
  <$> apc_credential spec.

Definition err_of {A E} (r : result A E) : option E := match r with Ok _ => None | Err e => Some e end.

(** What is wrong with a provider, in the order it is found. *)
Definition provider_problems (spec : AIProviderSpec) (namespace : string) (store : ConfigStore) : list string :=
  let is_federation := String.eqb (apc_kind spec) FEDERATION in
  (if negb (existsb (String.eqb (apc_kind spec)) KINDS) then ["kind must be one of " +:+ join ", " KINDS] else []) ++
  match apc_session_affinity spec with
  | Some a => if negb (String.eqb a "header") && negb (String.eqb a "none")
              then ["sessionAffinity must be header or none, not " +:+ debug_str a] else []
  | None => []
  end ++
  (if is_federation then [] else option_list (err_of (parse_provider_url (apc_url spec)))) ++
  (if is_federation then option_list (err_of (federation_members spec namespace store))
   else match apc_members spec with [] => [] | _ => ["members is only for kind mcp-federation"] end) ++
  match credential_state spec with
  | Some c =>
      match (s ← st_secrets store !! {| nn_namespace := namespace; nn_name := acs_secret_name c |}; (s : SecretState) !! acs_secret_key c) with
      | Some _ => []
      | None => ["Secret " +:+ namespace +:+ "/" +:+ acs_secret_name c +:+ " has no key " +:+ debug_str (acs_secret_key c)]
      end
  | None => []
  end.

Definition ok_of {A E} (r : result A E) : option A := match r with Ok a => Some a | Err _ => None end.

(** The state of a provider nothing is wrong with. *)
Definition provider_state (spec : AIProviderSpec) (key : NamespacedName) (generation : Z) (store : ConfigStore) : option AIProviderState :=
  let is_federation := String.eqb (apc_kind spec) FEDERATION in
  match provider_problems spec (nn_namespace key) store,
        (if is_federation then Ok (false, EmptyString, 0) else parse_provider_url (apc_url spec)) with
  | [], Ok (tls, host, port) =>
      Some {| aps_namespace := nn_namespace key; aps_name := nn_name key; aps_kind := apc_kind spec; aps_tls := tls; aps_host := host;
              aps_port := port; aps_credential := credential_state spec; aps_session_affinity := session_affinity spec;
              aps_members := if is_federation then default [] (ok_of (federation_members spec (nn_namespace key) store)) else [];
              aps_generation := generation |}
  | _, _ => None
  end.

(** [service_key] *)
Definition provider_service_key (p : AIProviderState) : ServiceKey :=
  {| sk_namespace := aps_namespace p; sk_name := provider_service_name p; sk_port := aps_port p |}.

Definition drop_endpoints (key : ServiceKey) (w : World) : World :=
  write (fun s => set_endpoints (delete key (st_endpoints s)) s) w.

(** [forget]: a provider that left, with its endpoints. *)
Definition forget_provider (key : NamespacedName) (w : World) : World * bool :=
  match remove_and_notify ai_providers key w with
  | (w, Some gone) => (drop_endpoints (provider_service_key gone) w, true)
  | (w, None) => (w, false)
  end.

(** [reconcile_inner] of a provider *)
Definition reconcile_provider_inner (provider : AIObject AIProviderSpec) (programmed : bool) (w : World)
    : result (World * list Condition) ReconcileError :=
  try! key := policy_key (ao_metadata provider) in
  let generation := default 0 (om_generation (ao_metadata provider)) in
  let problems := provider_problems (ao_spec provider) (nn_namespace key) (w_store w) in
  let accepted := match problems with [] => true | _ => false end in
  let w' := match provider_state (ao_spec provider) key generation (w_store w) with
            | Some state => (insert_and_notify ai_providers key state w).1
            | None => (forget_provider key w).1
            end in
  let programmed := accepted && programmed in
  Ok (w', [build_condition "Accepted" accepted (if accepted then "Accepted" else "Invalid")
             (if accepted then "Provider accepted" else join "; " problems) generation;
           programmed_condition programmed generation]).

(** [cluster_local_service] *)
Definition cluster_local_service (host own_namespace : string) : option (string * string) :=
  match split_char "."%char (trim_end_char "."%char host) with
  | [name] => if is_empty name then None else Some (own_namespace, name)
  | [name; ns; svc] => if String.eqb svc "svc" then Some (ns, name) else None
  | [name; ns; svc; cluster; local] =>
      if String.eqb svc "svc" && String.eqb cluster "cluster" && String.eqb local "local" then Some (ns, name) else None
  | _ => None
  end.

(** [sync_cluster_local] *)
Definition sync_cluster_local (provider : AIProviderState) (w : World) : World * bool :=
  match cluster_local_service (aps_host provider) (aps_namespace provider) with
  | None => (w, false)
  | Some (ns, name) =>
      let at_port p := {| sk_namespace := ns; sk_name := name; sk_port := p |} in
      let target_port := default (aps_port provider) (st_service_port_map (w_store w) !! at_port (aps_port provider)) in
      match default [] (st_endpoints (w_store w) !! at_port target_port) with
      | [] => (w, true)
      | eps => ((insert_and_notify endpoints (provider_service_key provider) eps w).1, true)
      end
  end.

Section Walk.
Context `{IO : IterOrder}.

(** [refresh_for_service] *)
Definition refresh_for_service (namespace service : string) (w : World) : World :=
  fold_left (fun w p => (sync_cluster_local p w).1)
    (List.filter (fun p => bool_decide (cluster_local_service (aps_host p) (aps_namespace p) = Some (namespace, service)))
                 (map snd (entries (st_ai_providers (w_store w))))) w.

(** The addresses of a host name, as the resolver reports them. *)
Context (lookup_host : string -> Z -> option (list string)).

Definition address_compare (a b : BackendEndpoint) : comparison := String.compare (be_address a) (be_address b).

Definition resolve_one (w : World) (provider : AIProviderState) : World :=
  if String.eqb (aps_kind provider) FEDERATION then w
  else
    let '(w, local) := sync_cluster_local provider w in
    if (local : bool) then w
    else
      match lookup_host (aps_host provider) (aps_port provider) with
      | None => w
      | Some addrs =>
          match dedup_adjacent (sort_by address_compare (map (fun a => {| be_address := a; be_port := aps_port provider |}) addrs)) with
          | [] => w
          | eps => (insert_and_notify endpoints (provider_service_key provider) eps w).1
          end
      end.

(** [resolve_all] *)
Definition resolve_all (w : World) : World := fold_left resolve_one (map snd (entries (st_ai_providers (w_store w)))) w.

(** [reconcile_ai_provider]: the world, the status written if any, and whether
    the provider is looked at again. *)
Definition reconcile_ai_provider (provider : AIObject AIProviderSpec) (programmed : bool) (w : World)
    : result (World * option (list Condition) * bool) ReconcileError :=
  if bool_decide (is_Some (om_deletion_timestamp (ao_metadata provider)))
  then Ok ((forget_provider (key_of (ao_metadata provider)) w).1, None, false)
  else
    try! r := reconcile_provider_inner provider programmed w in
    let '(w, desired) := r in
    let accepted := existsb (fun c => String.eqb (cond_type c) "Accepted" && String.eqb (cond_status c) "True") desired in
    Ok (resolve_all w, patch_status_if_changed desired (default [] (ao_conditions provider)) desired, negb accepted).
End Walk.

(** ** Routes *)

Record AIStringMatch := { asm_match_type : option string; asm_value : string }.

Record AIRouteMatch := {
  amt_path : option HTTPPathMatchCRD;
  amt_model : option AIStringMatch;
  amt_stream : option bool;
  amt_method : option AIStringMatch;
  amt_tool : option AIStringMatch;
  amt_headers : list HTTPHeaderMatchCRD;
}.

Record AIJwtSpec := {
  ajp_issuer : string;
  ajp_audience : option string;
  ajp_tenant_claim : option string;
  ajp_tools_claim : option string;
  ajp_scopes : option (list string);
  ajp_groups_claim : option string;
  ajp_tools_by_group : option (list (string * list string));
}.

Record AIOnBehalfOfSpec := { aob_header : option string; aob_trusted_keys : list string }.

Record AIRouteRule := {
  aru_matches : list AIRouteMatch;
  aru_provider_refs : list string;
  aru_url_rewrite : option (option HTTPPathModifierCRD);
}.

Record AIRouteSpec := {
  asp_parent_refs : list ParentReference;
  asp_hostnames : list string;
  asp_require_api_key : bool;
  asp_jwt : option AIJwtSpec;
  asp_on_behalf_of : option AIOnBehalfOfSpec;
  asp_rules : list AIRouteRule;
}.

Definition MODEL_HEADER : string := "portus-body-model".
Definition STREAM_HEADER : string := "portus-body-stream".
Definition METHOD_HEADER : string := "portus-body-method".
Definition TOOL_HEADER : string := "portus-body-tool".

Section Convert.
(** [regex::Regex::new], with the error it prints, and [regex::escape]. *)
Context (regex_error : string -> option string) (regex_escape : string -> string).

(** [string_match] *)
Definition string_match (field : string) (m : AIStringMatch) : result (string * string) string :=
  let mt := default "Exact" (asm_match_type m) in
  if String.eqb mt "Exact" then Ok (asm_value m, "Exact")
  else if String.eqb mt "RegularExpression" then
    match regex_error (asm_value m) with
    | Some e => Err (field +:+ " regex " +:+ debug_str (asm_value m) +:+ ": " +:+ e)
    | None => Ok (asm_value m, "RegularExpression")
    end
  else if String.eqb mt "Prefix" then Ok ("^" +:+ regex_escape (asm_value m), "RegularExpression")
  else Err (field +:+ " match type " +:+ debug_str mt +:+ " is not Exact, Prefix or RegularExpression").

(** The header match of a body field, if the field is matched on. *)
Definition field_match (field header : string) (m : option AIStringMatch) : result (list (string * string * string)) string :=
  match m with
  | None => Ok []
  | Some m => try! vt := string_match field m in Ok [(header, vt.1, vt.2)]
  end.

(** [convert_match] *)
Definition convert_ai_match (m : AIRouteMatch) : result HTTPRouteMatchState string :=
  let path := (fun p => (default "/" (hpc_value p), default "PathPrefix" (hpc_match_type p))) <$> amt_path m in
  let headers := map (fun h => (hhc_name h, hhc_value h, default "Exact" (hhc_match_type h))) (amt_headers m) in
  let llm := bool_decide (is_Some (amt_model m)) || bool_decide (is_Some (amt_stream m)) in
  let mcp := bool_decide (is_Some (amt_method m)) || bool_decide (is_Some (amt_tool m)) in
  if llm && mcp then Err "a match cannot combine model/stream with method/tool"
  else
    try! model := field_match "model" MODEL_HEADER (amt_model m) in
    let stream := match amt_stream m with
                  | Some b => [(STREAM_HEADER, if b then "true" else "false", "Exact")]
                  | None => []
                  end in
    try! method := field_match "method" METHOD_HEADER (amt_method m) in
    try! tool := field_match "tool" TOOL_HEADER (amt_tool m) in
    Ok {| hrm_path := path; hrm_headers := headers ++ model ++ stream ++ method ++ tool; hrm_method := None; hrm_query_params := [] |}.

Definition claim_name (v : option string) (dflt : string) : result string string :=
  let c := default dflt (trim <$> v) in
  if is_empty c || has_whitespace c then Err ("claim name " +:+ debug_str c +:+ " is invalid") else Ok c.

Definition trimmed (l : list string) : list string := List.filter (fun s => negb (is_empty s)) (map trim l).

(** [jwt_state] *)
Definition jwt_state (spec : AIJwtSpec) : result AIJwtState string :=
  let issuer := trim_end_char "/"%char (trim (ajp_issuer spec)) in
  if negb (starts_with "https://" issuer || starts_with "http://" issuer) || (String.length issuer <? 9)%nat
  then Err ("issuer " +:+ debug_str (ajp_issuer spec) +:+ " must be an https:// URL")
  else
    let scopes := match ajp_scopes spec with Some l => trimmed l | None => ["openid"; "profile"; "email"; "groups"] end in
    if existsb (fun s => has_whitespace s || has_char (byte_of 34) s) scopes then Err "scopes must not contain whitespace or quotes"
    else
      let tools_by_group := map (fun gt => (trim gt.1, trimmed gt.2)) (default [] (ajp_tools_by_group spec)) in
      if existsb (fun gt => is_empty gt.1) tools_by_group then Err "toolsByGroup has an empty group name"
      else
        try! tenant := claim_name (ajp_tenant_claim spec) "groups" in
        try! tools := claim_name (ajp_tools_claim spec) "scope" in
        try! groups := claim_name (ajp_groups_claim spec) "groups" in
        Ok {| ajs_issuer := issuer; ajs_audience := filled (ajp_audience spec); ajs_tenant_claim := tenant; ajs_tools_claim := tools;
              ajs_scopes := join " " scopes; ajs_groups_claim := groups; ajs_tools_by_group := tools_by_group |}.

(** [trusted_key_form]: whether one entry of [trustedKeys] is well formed. *)
Definition trusted_key_form (k : string) : bool :=
  match strip_prefix "label:" k with
  | Some label => match split_once "="%char label with Some (key, _) => negb (is_empty key) | None => false end
  | None =>
      let wildcard_all := String.eqb k "*" || starts_with "*/" k in
      let bad := match split_once "/"%char k with
                 | Some (tenant, name) =>
                     is_empty tenant || is_empty name || (has_char "*"%char name && negb (String.eqb name "*")) || has_char "/"%char name
                 | None => has_char "*"%char k
                 end in
      negb (wildcard_all || bad)
  end.

Definition trusted_key_error (k : string) : string :=
  match strip_prefix "label:" k with
  | Some _ => "trustedKeys entry " +:+ debug_str k +:+ " must be label:key=value"
  | None => "trustedKeys entry " +:+ debug_str k +:+ " must be name, tenant/name, tenant/* or label:key=value"
  end.

Definition header_token (c : ascii) : bool :=
  is_ascii_alphanumeric c || has_char c "!#$%&'*+-.^_`|~".

(** [on_behalf_of_state] *)
Definition on_behalf_of_state (spec : AIOnBehalfOfSpec) : result (string * list string) string :=
  let header := to_ascii_lowercase (default "x-portus-on-behalf-of" (filled (aob_header spec))) in
  if is_empty header || negb (all_bytes header_token header)
  then Err ("header " +:+ debug_str header +:+ " is not a valid header name")
  else
    let trusted_keys := trimmed (aob_trusted_keys spec) in
    match trusted_keys with
    | [] => Err "trustedKeys must name at least one key (name, tenant/name, tenant/* or label:key=value)"
    | _ =>
        match List.find (fun k => negb (trusted_key_form k)) trusted_keys with
        | Some k => Err (trusted_key_error k)
        | None => Ok (header, trusted_keys)
        end
    end.

(** [rewrite_filter] *)
Definition rewrite_filter (path : option HTTPPathModifierCRD) : result HTTPFilterState string :=
  match path with
  | None => Err "urlRewrite.path is required"
  | Some pm =>
      let ty := default EmptyString (hpm_modifier_type pm) in
      try! p :=
        (if String.eqb ty "ReplaceFullPath"
         then ok_or (hpm_replace_full_path pm) "urlRewrite.path.replaceFullPath is required for ReplaceFullPath"
         else if String.eqb ty "ReplacePrefixMatch"
         then ok_or (hpm_replace_prefix_match pm) "urlRewrite.path.replacePrefixMatch is required for ReplacePrefixMatch"
         else Err ("urlRewrite.path.type " +:+ debug_str ty +:+ " is not ReplaceFullPath or ReplacePrefixMatch")) in
      if negb (starts_with "/" p) then Err ("urlRewrite path " +:+ debug_str p +:+ " must start with /")
      else Ok (FURLRewrite None (Some p) (Some ty))
  end.

(** A rule as it is stored, and what is wrong with it: what cannot be used is
    left out of the rule. *)
Definition convert_ai_rule (store : ConfigStore) (namespace : string) (i : Z) (rule : AIRouteRule) : AIRouteRuleState * list string :=
  let in_rule e := "rule " +:+ show_u i +:+ ": " +:+ e in
  let matches := map convert_ai_match (aru_matches rule) in
  let '(provider_name, provider_problem) :=
    match aru_provider_refs rule with
    | [one] => (Some one, [])
    | [] => (None, [in_rule "providerRefs is empty"])
    | _ => (None, [in_rule "one providerRef per rule in this version"])
    end in
  let provider := {| nn_namespace := namespace; nn_name := default EmptyString provider_name |} in
  let found := _ ← provider_name; st_ai_providers store !! provider in
  let backend_refs :=
    match found with
    | Some p => [{| brs_namespace := namespace; brs_name := provider_service_name p; brs_port := aps_port p; brs_weight := 1;
                    brs_filters := [] |}]
    | None => []
    end in
  let missing :=
    match found, provider_name with
    | None, Some pn => [in_rule ("AIProvider " +:+ namespace +:+ "/" +:+ pn +:+ " not found or not accepted")]
    | _, _ => []
    end in
  let filter := rewrite_filter <$> aru_url_rewrite rule in
  ({| arr_matches := omap ok_of matches; arr_backend_refs := backend_refs; arr_provider := provider;
      arr_filters := option_list (r ← filter; ok_of r) |},
   map in_rule (omap err_of matches) ++ provider_problem ++ missing ++ option_list (in_rule <$> (r ← filter; err_of r))).

Fixpoint convert_ai_rules (store : ConfigStore) (namespace : string) (i : Z) (rules : list AIRouteRule)
    : list AIRouteRuleState * list string :=
  match rules with
  | [] => ([], [])
  | rule :: rules =>
      let '(state, problems) := convert_ai_rule store namespace i rule in
      let '(states, more) := convert_ai_rules store namespace (i + 1) rules in
      (state :: states, problems ++ more)
  end.

(** [reconcile_inner] of a route *)
Definition reconcile_ai_inner (route : AIObject AIRouteSpec) (programmed : bool) (store : ConfigStore)
    : result (AIRouteState * list Condition) ReconcileError :=
  try! key := policy_key (ao_metadata route) in
  let namespace := nn_namespace key in
  let spec := ao_spec route in
  let generation := Z.max (default 0 (om_generation (ao_metadata route))) 1 in
  let parent_refs := bind_to_parents namespace (namespace_labels_of store namespace) (asp_hostnames spec) (asp_parent_refs spec) store in
  let '(rules, rule_problems) := convert_ai_rules store namespace 0 (asp_rules spec) in
  let jwt := jwt_state <$> asp_jwt spec in
  let on_behalf_of := on_behalf_of_state <$> asp_on_behalf_of spec in
  let problems := rule_problems ++ option_list (append "auth.jwt: " <$> (r ← jwt; err_of r))
                                ++ option_list (append "auth.onBehalfOf: " <$> (r ← on_behalf_of; err_of r)) in
  let resolved := match problems with [] => true | _ => false end in
  let accepted := existsb pref_accepted parent_refs in
  let state := {| ars_namespace := namespace; ars_hostnames := asp_hostnames spec; ars_parent_refs := parent_refs; ars_rules := rules;
                  ars_require_api_key := asp_require_api_key spec; ars_jwt := r ← jwt; ok_of r;
                  ars_on_behalf_of := r ← on_behalf_of; ok_of r; ars_generation := generation |} in
  let programmed := accepted && resolved && programmed in
  Ok (state,
      [build_condition "Accepted" accepted
         (if accepted then "Accepted" else default "NoMatchingParent" (head (omap pref_reject_reason parent_refs)))
         (if accepted then "Route accepted by a parent listener" else "No parent listener accepts this route") generation;
       build_condition "ResolvedRefs" resolved (if resolved then "ResolvedRefs" else "BackendNotFound")
         (if resolved then "All providers resolved" else join "; " problems) generation;
       programmed_condition programmed generation]).

(** [reconcile_ai_route]: the world, the status written if any, and whether
    the route is looked at again. *)
Definition reconcile_ai_route (route : AIObject AIRouteSpec) (programmed : bool) (w : World)
    : result (World * option (list Condition) * bool) ReconcileError :=
  let key := key_of (ao_metadata route) in
  if bool_decide (is_Some (om_deletion_timestamp (ao_metadata route)))
  then Ok ((remove_route ai_routes RouteAi key w).1, None, false)
  else
    try! r := reconcile_ai_inner route programmed (w_store w) in
    let '(state, desired) := r in
    let resolved := existsb (fun c => String.eqb (cond_type c) "ResolvedRefs" && String.eqb (cond_status c) "True") desired in
    Ok ((store_route ai_routes RouteAi key state w).1,
        patch_status_if_changed desired (default [] (ao_conditions route)) desired, negb resolved).
End Convert.

(** ** The providers in the store are well formed *)

Lemma digit_val_range c d : digit_val c = Some d -> 0 <= d < 10.
Proof.
  unfold digit_val, is_ascii_digit, in_byte_range. destruct (_ && _) eqn:E; [|done]. intros [= <-]. apply andb_true_iff in E. lia.
Qed.

Lemma parse_digits_range max acc s n : 0 <= acc <= max -> parse_digits max acc s = Some n -> 0 <= n <= max.
Proof.
  revert acc. induction s as [|c s IH]; intros acc Hacc; simpl; [by intros [= <-]|].
  destruct (digit_val c) as [d|] eqn:Hd; [|done]. apply digit_val_range in Hd.
  destruct (_ <=? max) eqn:E; [|done]. apply IH. apply Z.leb_le in E. lia.
Qed.

Lemma parse_u_range w s n : 0 <= w -> parse_u w s = Some n -> 0 <= n < 2 ^ w.
Proof.
  intros Hw. unfold parse_u. destruct (is_empty _); [done|]. intros H%parse_digits_range; [lia|]. pose proof (Z.pow_pos_nonneg 2 w). lia.
Qed.

(** A member of a federation: a plain name, and an absolute path. *)
Definition member_ok (m : AIFederationMember) : Prop :=
  is_empty (afm_name m) = false /\ all_bytes member_char (afm_name m) = true /\ starts_with "/" (afm_path m) = true.

(** A provider of a known kind: a federation of members with names of their
    own, or one server with a host and a port. *)
Definition provider_ok (p : AIProviderState) : Prop :=
  aps_kind p ∈ KINDS /\
  if String.eqb (aps_kind p) FEDERATION
  then aps_members p <> [] /\ NoDup (map afm_name (aps_members p)) /\ Forall member_ok (aps_members p)
  else aps_members p = [] /\ is_empty (aps_host p) = false /\ 0 <= aps_port p < 65536.

(** Every provider is well formed and stored under its own name. *)
Definition providers_ok (store : ConfigStore) : Prop :=
  forall k p, st_ai_providers store !! k = Some p -> provider_ok p /\ {| nn_namespace := aps_namespace p; nn_name := aps_name p |} = k.

Lemma federation_members_ok ns store seen ms out :
  federation_members_from ns store seen ms = Ok out ->
  List.length out = List.length ms /\ NoDup (map afm_name out) /\ Forall member_ok out /\ forall m, m ∈ out -> afm_name m ∉ seen.
Proof.
  revert seen out. induction ms as [|m ms IH]; intros seen out; simpl.
  { intros [= <-]. repeat split; try constructor. by intros m ?%elem_of_nil. }
  destruct (federation_member ns store seen m) as [x|] eqn:Hx; simpl; [|done].
  destruct (federation_members_from ns store (afm_name x :: seen) ms) as [rest|] eqn:Hr; simpl; [|done]. intros [= <-].
  destruct (IH _ _ Hr) as (Hlen & Hnd & Hall & Hseen).
  assert (Hm : member_ok x /\ afm_name x ∉ seen).
  { revert Hx. unfold federation_member. destruct (is_empty (trim (afs_name m)) || _) eqn:E1; [done|].
    destruct (bool_decide_reflect (trim (afs_name m) ∈ seen)) as [|Hn]; [done|].
    destruct (st_ai_providers store !! _) as [p|]; [|done]. destruct (negb (String.eqb _ "mcp")); [done|].
    destruct (starts_with "/" _) eqn:E2; simpl; [|done]. intros [= <-]. apply orb_false_iff in E1 as [? ?%negb_false_iff]. done. }
  destruct Hm as [Hm Hn]. split; [simpl; congruence|]. split; [|split; [by constructor|]].
  - simpl. constructor; [|done]. intros (y & He & Hy)%list_elem_of_fmap. apply (Hseen y Hy). rewrite <- He. left.
  - intros y [->|Hy]%elem_of_cons; [done|]. intros Hin. apply (Hseen y Hy). by right.
Qed.

Lemma parse_authority_range d rest h port : 0 <= d < 65536 -> parse_authority d rest = Ok (h, port) -> 0 <= port < 65536.
Proof.
  intros Hd. unfold parse_authority, parse_port.
  assert (Hp : forall t h' port', (try! q := ok_or (parse_u 16 t) ("invalid port " +:+ debug_str t) in Ok (h', q)) = Ok (h, port') ->
               0 <= port' < 65536).
  { intros t h' port'. destruct (parse_u 16 t) as [q|] eqn:Hq; simpl; [|done]. intros [= _ <-]. by apply parse_u_range in Hq. }
  destruct (strip_prefix "[" rest) as [r|].
  - destruct (split_once _ r) as [[h' tail]|]; [|done]. destruct (strip_prefix ":" tail); [apply Hp|]. destruct (is_empty tail); [|done].
    by intros [= _ <-].
  - destruct (split_once _ rest) as [[h' q]|]; [|by intros [= _ <-]]. destruct (has_char _ q); [done|apply Hp].
Qed.

Lemma parse_provider_url_ok url tls host port :
  parse_provider_url url = Ok (tls, host, port) -> is_empty host = false /\ 0 <= port < 65536.
Proof.
  unfold parse_provider_url. destruct (match strip_prefix _ url with Some _ => _ | None => _ end) as [[t rest]|]; [|done].
  destruct (_ || _); [done|]. destruct (parse_authority _ _) as [[h q]|] eqn:Ha; simpl; [|done].
  destruct (is_empty h) eqn:Hh; [done|]. intros [= _ <- <-]. split; [done|]. eapply parse_authority_range; [|exact Ha]. by destruct t.
Qed.

Lemma provider_state_ok spec key g store p :
  provider_state spec key g store = Some p -> provider_ok p /\ {| nn_namespace := aps_namespace p; nn_name := aps_name p |} = key.
Proof.
  unfold provider_state. destruct (provider_problems _ _ _) as [|] eqn:Hpr; [|done].
  destruct (if String.eqb _ _ then _ else _) as [[[tls host] port]|] eqn:Hu; [|done]. intros [= <-]. split; [|by destruct key].
  unfold provider_problems in Hpr. apply app_eq_nil in Hpr as [Hk Hpr]. apply app_eq_nil in Hpr as [_ Hpr].
  apply app_eq_nil in Hpr as [_ Hpr]. apply app_eq_nil in Hpr as [Hm _]. split; simpl.
  - destruct (existsb _ KINDS) eqn:He; [|done]. apply existsb_exists in He as (k & Hin & ->%String.eqb_eq). by apply list_elem_of_In.
  - destruct (String.eqb (apc_kind spec) FEDERATION).
    + unfold federation_members in *. destruct (apc_members spec) as [|m ms]; [done|].
      destruct (federation_members_from _ _ _ _) as [out|] eqn:Hf; [|done]. simpl.
      apply federation_members_ok in Hf as (Hlen & Hnd & Hall & _). split; [by destruct out|done].
    + split; [done|]. by eapply parse_provider_url_ok.
Qed.

Section Kept.
Context `{IO : IterOrder} (lookup_host : string -> Z -> option (list string)).

Lemma insert_endpoints_frame key eps w :
  st_ai_providers (w_store (insert_and_notify endpoints key eps w).1) = st_ai_providers (w_store w).
Proof. unfold insert_and_notify. by destruct (match _ with Some _ => _ | None => _ end). Qed.

Lemma resolve_one_frame w p : st_ai_providers (w_store (resolve_one lookup_host w p)) = st_ai_providers (w_store w).
Proof.
  unfold resolve_one. destruct (String.eqb _ _); [done|]. assert (Hs : st_ai_providers (w_store (sync_cluster_local p w).1) = st_ai_providers (w_store w)).
  { unfold sync_cluster_local. destruct (cluster_local_service _ _) as [[ns name]|]; [|done]. destruct (default [] _); [done|].
    apply insert_endpoints_frame. }
  destruct (sync_cluster_local p w) as [w' [|]]; simpl in *; [done|]. destruct (lookup_host _ _) as [addrs|]; [|done].
  destruct (dedup_adjacent _); [done|]. by rewrite insert_endpoints_frame.
Qed.

Lemma resolve_all_frame w : st_ai_providers (w_store (resolve_all lookup_host w)) = st_ai_providers (w_store w).
Proof.
  unfold resolve_all. generalize (map snd (entries (st_ai_providers (w_store w)))). intros l. revert w.
  induction l as [|p l IH]; intros w; [done|]. simpl. by rewrite IH, resolve_one_frame.
Qed.

Lemma forget_provider_ok key w : providers_ok (w_store w) -> providers_ok (w_store (forget_provider key w).1).
Proof.
  intros Hok. unfold forget_provider, remove_and_notify. simpl. destruct (st_ai_providers (w_store w) !! key); [|done].
  intros k p. simpl. intros [_ Hp]%lookup_delete_Some. by apply Hok.
Qed.

(** C35: The store holds well-formed providers only: whatever object the provider
    reconciler is handed, of a known kind or not, with any URL and members, a
    store of well-formed providers stays one.  A server has a host and a 16-bit
    port and no members, a federation has members with distinct plain names
    and absolute paths, and each is stored under its own name. *)
Theorem stored_providers_well_formed provider programmed w w' status again :
  providers_ok (w_store w) -> reconcile_ai_provider lookup_host provider programmed w = Ok (w', status, again) ->
  providers_ok (w_store w').
Proof.
  intros Hok. unfold reconcile_ai_provider. destruct (bool_decide _); [intros [= <- _ _]; by apply forget_provider_ok|].
  unfold reconcile_provider_inner. destruct (policy_key _) as [key|]; simpl; [|done]. intros [= <- _ _].
  intros k p. rewrite resolve_all_frame. destruct (provider_state _ _ _ _) as [state|] eqn:Hs; [|apply (forget_provider_ok key w Hok)].
  unfold insert_and_notify. simpl. destruct (match _ with Some _ => _ | None => _ end); simpl; [|apply Hok].
  intros [[<- <-]|[_ Hp]]%lookup_insert_Some; [by eapply provider_state_ok|by apply Hok].
Qed.
End Kept.

(** *** One provider *)

Definition sample_provider : AIObject AIProviderSpec :=
  {| ao_metadata := {| om_name := Some "gpt"; om_namespace := Some "ml"; om_generation := Some 1; om_creation_timestamp := Some 1;
                       om_deletion_timestamp := None; om_labels := None |};
     ao_spec := {| apc_kind := "openai"; apc_url := "https://api.example.com:8443"; apc_credential := None;
                   apc_session_affinity := None; apc_members := [] |};
     ao_conditions := None |}.

Definition no_host (_ : string) (_ : Z) : option (list string) := None.

Definition sample_world : World := {| w_store := ConfigStore_new; w_dirty := true; w_events := [] |}.

Definition sample_after : World :=
  match @reconcile_ai_provider listed_order no_host sample_provider false sample_world with Ok (w, _, _) => w | Err _ => sample_world end.

Lemma stored_providers_well_formed_witness :
  providers_ok (w_store sample_after) /\
  aps_port <$> st_ai_providers (w_store sample_after) !! {| nn_namespace := "ml"; nn_name := "gpt" |} = Some 8443.
Proof.
  split; [|vm_compute; reflexivity].
  assert (Hr : exists status again, @reconcile_ai_provider listed_order no_host sample_provider false sample_world = Ok (sample_after, status, again)).
  { do 2 eexists. vm_compute. reflexivity. }
  destruct Hr as (status & again & Hr).
  apply (@stored_providers_well_formed listed_order no_host sample_provider false sample_world sample_after status again); [|exact Hr].
  intros k p. simpl. rewrite lookup_empty. discriminate.
Defined.
