(* ===== verification/Caches.v ===== *)
(** * The caches of the controller

    The reconcilers that copy cluster objects into the store for others to
    read: GatewayClasses, Namespaces, ConfigMaps, ReferenceGrants, Services,
    EndpointSlices and Secrets
    ([portus-controller/src/reconcilers/{gateway_class,namespace,configmap,reference_grant,service,endpointslice,secret}.rs]),
    and the periodic prune of [main.rs]. *)
From S2P Require Import Prelude Text Proto Resources Hostnames Policies Objects HttpRoute AiResources.
From Stdlib Require Import String.
Open Scope Z_scope.

Definition deleting (m : ObjectMeta) : bool := bool_decide (is_Some (om_deletion_timestamp m)).

(** ** GatewayClasses *)

Record GatewayClass := { gc_metadata : ObjectMeta; gc_controller_name : string; gc_conditions : option (list Condition) }.

(** [evaluate_gateway_class] *)
Definition evaluate_gateway_class (controller_name : string) (generation : Z) : option (GatewayClassState * list Condition) :=
  if negb (String.eqb controller_name CONTROLLER_NAME) then None
  else Some ({| gcs_accepted := true; gcs_generation := generation |},
             [build_condition "Accepted" true "Accepted" "GatewayClass accepted by portus-gateway" generation;
              build_condition "SupportedVersion" true "SupportedVersion" "Gateway API v1 supported" generation]).

(** [gateway_class::forget] *)
Definition forget_class (name : string) (w : World) : World :=
  match remove_and_notify gateway_classes name w with
  | (w, Some _) => publish (EvGatewayClass name) w
  | (w, None) => w
  end.

(** [reconcile_gateway_class] *)
Definition reconcile_gateway_class (gc : GatewayClass) (w : World) : result (World * option (list Condition)) ReconcileError :=
  try! name := ok_or (om_name (gc_metadata gc)) (MissingField "metadata.name") in
  if deleting (gc_metadata gc) then Ok (forget_class name w, None)
  else
    match evaluate_gateway_class (gc_controller_name gc) (default 0 (om_generation (gc_metadata gc))) with
    | None => Ok (forget_class name w, None)
    | Some (state, desired) =>
        let '(w, changed) := insert_and_notify gateway_classes name state w in
        Ok (if (changed : bool) then publish (EvGatewayClass name) w else w,
            patch_status_if_changed desired (default [] (gc_conditions gc)) desired)
    end.

(** ** Namespaces *)

Definition namespace_labels : Slot string (gmap string string) := {| slot_get := st_namespace_labels; slot_set := set_namespace_labels |}.

(** [namespace::forget] *)
Definition forget_namespace (name : string) (w : World) : World :=
  match remove_and_notify namespace_labels name w with
  | (w, Some _) => publish (EvNamespace name) w
  | (w, None) => w
  end.

(** [reconcile_namespace] *)
Definition reconcile_namespace (m : ObjectMeta) (w : World) : result World ReconcileError :=
  try! name := ok_or (om_name m) (MissingField "metadata.name") in
  if deleting m then Ok (forget_namespace name w)
  else
    let '(w, changed) := insert_and_notify namespace_labels name (default ∅ (om_labels m)) w in
    Ok (if (changed : bool) then publish (EvNamespace name) w else w).

(** ** ConfigMaps and Secrets *)

(** The key of an object whose namespace is asked for first. *)
Definition namespace_key (m : ObjectMeta) : result NamespacedName ReconcileError :=
  try! namespace := ok_or (om_namespace m) (MissingField "metadata.namespace") in
  try! name := ok_or (om_name m) (MissingField "metadata.name") in
  Ok {| nn_namespace := namespace; nn_name := name |}.

Record ConfigMap := { cm_metadata : ObjectMeta; cm_data : option (gmap string string) }.

(** [reconcile_configmap_inner] *)
Definition reconcile_configmap_inner (cm : ConfigMap) (w : World) : result World ReconcileError :=
  try! key := namespace_key (cm_metadata cm) in
  if deleting (cm_metadata cm) then Ok (remove_and_notify config_maps key w).1
  else
    let data := default ∅ (cm_data cm) in
    let existing := st_config_maps (w_store w) !! key in
    let w := write (fun s => set_config_maps (<[key := data]> (st_config_maps s)) s) w in
    Ok (if bool_decide (existing = Some data) then w else notify_change w).

Record Secret := { sec_metadata : ObjectMeta; sec_data : option (gmap string string); sec_string_data : option (gmap string string) }.

(** The data of a Secret: entries that are text, [stringData] over [data]. *)
Definition secret_data (s : Secret) : gmap string string :=
  default ∅ (sec_string_data s) ∪ omap from_utf8 (default ∅ (sec_data s)).

(** [secret::reconcile_inner] *)
Definition reconcile_secret (s : Secret) (w : World) : result World ReconcileError :=
  try! key := policy_key (sec_metadata s) in
  if deleting (sec_metadata s) then Ok (remove_and_notify secrets key w).1
  else Ok (insert_and_notify secrets key (secret_data s) w).1.

Section Walk.
Context `{IO : IterOrder}.

(** [is_secret_referenced] *)
Definition is_secret_referenced (store : ConfigStore) (namespace name : string) : bool :=
  existsb (fun e => existsb (fun l => existsb (fun r => String.eqb r.1 namespace && String.eqb r.2 name) (lst_tls_cert_refs l))
                            (gs_listeners e.2)) (entries (st_gateways store)) ||
  existsb (fun e => match gts_backend_client_cert_ref e.2 with
                    | Some r => String.eqb (nn_namespace r) namespace && String.eqb (nn_name r) name
                    | None => false
                    end) (entries (st_gateway_tls store)) ||
  existsb (fun e => String.eqb (baps_secret_namespace e.2) namespace && String.eqb (baps_secret_name e.2) name)
          (entries (st_basic_auth_policies store)) ||
  existsb (fun e => String.eqb (akps_secret_namespace e.2) namespace && String.eqb (akps_secret_name e.2) name)
          (entries (st_api_key_auth_policies store)).

(** ** ReferenceGrants *)

Record ReferenceGrant := { rgo_metadata : ObjectMeta; rgo_from : list ReferenceGrantFrom; rgo_to : list ReferenceGrantTo }.

(** [reconcile_reference_grant_inner] *)
Definition reconcile_reference_grant (g : ReferenceGrant) (w : World) : result World ReconcileError :=
  try! key := policy_key (rgo_metadata g) in
  let event := EvReferenceGrant (nn_namespace key) in
  if deleting (rgo_metadata g)
  then Ok (match remove_and_notify reference_grants key w with (w, Some _) => publish event w | (w, None) => w end)
  else
    let state := {| rgs_namespace := nn_namespace key; rgs_from := rgo_from g; rgs_to := rgo_to g |} in
    let '(w, changed) := insert_and_notify reference_grants key state w in
    Ok (if (changed : bool) then publish event w else w).

(** The eviction hook of a grant. *)
Definition gone_reference_grant (key : NamespacedName) (w : World) : World :=
  match remove_and_notify reference_grants key w with
  | (w, Some _) => publish (EvReferenceGrant (nn_namespace key)) w
  | (w, None) => w
  end.

(** ** Services *)

Inductive IntOrString := PortInt (p : Z) | PortName (s : string).

Record ServicePort := {
  sp_port : Z;
  sp_target_port : option IntOrString;
  sp_app_protocol : option string;
  sp_name : option string;
}.

Record Service := { svc_metadata : ObjectMeta; svc_spec : option (option (list ServicePort)) }.

Definition owns_key (namespace name : string) (key : ServiceKey) : bool :=
  String.eqb (sk_namespace key) namespace && String.eqb (sk_name key) name.

(** Everything the store holds for one Service. *)
Definition service_snapshot (store : ConfigStore) (namespace name : string) : list (Z * Z * option string * option string) :=
  sort_by (fun a b => Z.compare a.1.1.1 b.1.1.1)
    (map (fun e => (sk_port e.1, e.2, st_service_app_protocols store !! e.1, st_service_port_names store !! e.1))
         (List.filter (fun e => owns_key namespace name e.1) (entries (st_service_port_map store)))).

(** The key a port is stored under, and where it goes; a named target port is
    taken to be the service port. *)
Definition port_entry (namespace name : string) (port : ServicePort) : option (ServiceKey * Z) :=
  if sp_port port >? 0 then
    let service_port := as_u 16 (sp_port port) in
    Some ({| sk_namespace := namespace; sk_name := name; sk_port := service_port |},
          match sp_target_port port with Some (PortInt p) => as_u 16 p | _ => service_port end)
  else None.

Definition write_port (namespace name : string) (store : ConfigStore) (port : ServicePort) : ConfigStore :=
  match port_entry namespace name port with
  | None => store
  | Some (key, target) =>
      let store := set_service_port_map (<[key := target]> (st_service_port_map store)) store in
      let store := set_service_app_protocols
        (match sp_app_protocol port with
         | Some p => <[key := p]> (st_service_app_protocols store)
         | None => delete key (st_service_app_protocols store)
         end) store in
      match sp_name port with
      | Some n => if is_empty n then store else set_service_port_names (<[key := n]> (st_service_port_names store)) store
      | None => store
      end
  end.

(** The keys of the Service that are not among [current] are dropped. *)
Definition retain_current {V} (namespace name : string) (current : list ServiceKey) (m : gmap ServiceKey V) : gmap ServiceKey V :=
  filter (fun e => owns_key namespace name e.1 = false \/ e.1 ∈ current) m.

(** [service::forget] *)
Definition forget_service (namespace name : string) (w : World) : World :=
  let store := w_store w in
  let held {V} (m : gmap ServiceKey V) := existsb (fun e => owns_key namespace name e.1) (map_to_list m) in
  let removed := held (st_service_port_map store) || held (st_service_app_protocols store) || held (st_service_port_names store) in
  let w := write (fun s => set_service_port_map (retain_current namespace name [] (st_service_port_map s))
                    (set_service_app_protocols (retain_current namespace name [] (st_service_app_protocols s))
                      (set_service_port_names (retain_current namespace name [] (st_service_port_names s)) s))) w in
  if removed then publish (EvService {| nn_namespace := namespace; nn_name := name |}) (notify_change w) else w.

(** [reconcile_service_inner] *)
Definition reconcile_service_inner (svc : Service) (w : World) : result World ReconcileError :=
  try! key := namespace_key (svc_metadata svc) in
  let '(namespace, name) := (nn_namespace key, nn_name key) in
  if deleting (svc_metadata svc) then Ok (forget_service namespace name w)
  else
    match svc_spec svc with
    | None => Ok w
    | Some ports =>
        let ports := default [] ports in
        let before := service_snapshot (w_store w) namespace name in
        let current := map fst (omap (port_entry namespace name) ports) in
        let store := fold_left (write_port namespace name) ports (w_store w) in
        let store := set_service_port_map (retain_current namespace name current (st_service_port_map store)) store in
        let store := set_service_app_protocols (retain_current namespace name current (st_service_app_protocols store)) store in
        let store := set_service_port_names (retain_current namespace name current (st_service_port_names store)) store in
        let w := write (fun _ => store) w in
        Ok (if bool_decide (service_snapshot store namespace name = before) then w
            else publish (EvService key) (notify_change w))
    end.

(** ** EndpointSlices *)

Record SliceEndpoint := { se_addresses : list string; se_ready : option (option bool) }.

Record EndpointSlice := {
  eps_metadata : ObjectMeta;
  eps_ports : option (list (option Z));
  eps_endpoints : option (list SliceEndpoint);
}.

Definition SERVICE_NAME_LABEL : string := "kubernetes.io/service-name".

Definition endpoint_compare (a b : BackendEndpoint) : comparison :=
  then_with (String.compare (be_address a) (be_address b)) (Z.compare (be_port a) (be_port b)).

(** The ready addresses at one port. *)
Definition slice_endpoints (eps : EndpointSlice) (port : Z) : list BackendEndpoint :=
  sort_by endpoint_compare
    (flat_map (fun e => if default true (c ← se_ready e; c) then map (fun a => {| be_address := a; be_port := port |}) (se_addresses e) else [])
              (default [] (eps_endpoints eps))).

Definition write_slice_port (namespace service : string) (eps : EndpointSlice) (acc : ConfigStore * bool) (port : option Z)
    : ConfigStore * bool :=
  let '(store, changed) := acc in
  match port with
  | None => acc
  | Some p =>
      let port_number := as_u 16 p in
      let key := {| sk_namespace := namespace; sk_name := service; sk_port := port_number |} in
      match slice_endpoints eps port_number with
      | [] => (set_endpoints (delete key (st_endpoints store)) store, changed || bool_decide (is_Some (st_endpoints store !! key)))
      | es =>
          if bool_decide (st_endpoints store !! key = Some es) then acc
          else (set_endpoints (<[key := es]> (st_endpoints store)) store, true)
      end
  end.

(** [reconcile_endpointslice_inner] *)
Definition reconcile_endpointslice_inner (eps : EndpointSlice) (w : World) : result World ReconcileError :=
  try! namespace := ok_or (om_namespace (eps_metadata eps)) (MissingField "metadata.namespace") in
  match (labels ← om_labels (eps_metadata eps); (labels : gmap string string) !! SERVICE_NAME_LABEL) with
  | None => Ok w
  | Some service =>
      let '(store, changed) := fold_left (write_slice_port namespace service eps) (default [] (eps_ports eps)) (w_store w, false) in
      let w := write (fun _ => store) w in
      Ok (refresh_for_service namespace service (if (changed : bool) then notify_change w else w))
  end.

(** ** Pruning *)

(** [prune_map]: entries of objects that are gone are removed; nobody is told. *)
Definition prune_map {V} (live : gset NamespacedName) (m : gmap NamespacedName V) : gmap NamespacedName V * Z :=
  let kept := filter (fun e => e.1 ∈ live) m in (kept, Z.of_nat (size m) - Z.of_nat (size kept)).

Definition prune_slot {V} (slot : Slot NamespacedName V) (live : gset NamespacedName) (acc : ConfigStore * Z) : ConfigStore * Z :=
  let '(store, pruned) := acc in
  let '(kept, n) := prune_map live (slot_get slot store) in
  (slot_set slot kept store, pruned + n).
(** The objects each reflector holds. *)
Record PruneReaders := {
  live_http_routes : gset NamespacedName;
  live_gateways : gset NamespacedName;
  live_listener_sets : gset NamespacedName;
  live_reference_grants : gset NamespacedName;
  live_grpc_routes : gset NamespacedName;
  live_tls_routes : gset NamespacedName;
  live_tcp_routes : gset NamespacedName;
  live_udp_routes : gset NamespacedName;
  live_rate_limit_policies : gset NamespacedName;
  live_circuit_breaker_policies : gset NamespacedName;
  live_connection_policies : gset NamespacedName;
  live_basic_auth_policies : gset NamespacedName;
  live_api_key_auth_policies : gset NamespacedName;
  live_jwt_auth_policies : gset NamespacedName;
  live_ext_auth_policies : gset NamespacedName;
  live_retry_policies : gset NamespacedName;
  live_ip_allowlist_policies : gset NamespacedName;
  live_request_body_size_limit_policies : gset NamespacedName;
  live_health_check_policies : gset NamespacedName;
  live_backend_tls_policies : gset NamespacedName;
  live_cors_policies : gset NamespacedName;
  live_timeout_policies : gset NamespacedName;
  live_ai_providers : gset NamespacedName;
  live_ai_routes : gset NamespacedName;
  live_ai_usage_policies : gset NamespacedName;
  live_secrets : gset NamespacedName;
  live_config_maps : gset NamespacedName;
  live_gateway_classes : gset string;
}.

(** [prune]: the store, and how many entries went. *)
Definition prune (live : PruneReaders) (store : ConfigStore) : ConfigStore * Z :=
  let acc := (store, 0) in
  let acc := prune_slot {| slot_get := st_http_routes; slot_set := set_http_routes |} (live_http_routes live) acc in
  let acc := prune_slot {| slot_get := st_gateways; slot_set := set_gateways |} (live_gateways live) acc in
  let acc := prune_slot {| slot_get := st_listener_sets; slot_set := set_listener_sets |} (live_listener_sets live) acc in
  let acc := prune_slot {| slot_get := st_reference_grants; slot_set := set_reference_grants |} (live_reference_grants live) acc in
  let acc := prune_slot {| slot_get := st_grpc_routes; slot_set := set_grpc_routes |} (live_grpc_routes live) acc in
  let acc := prune_slot {| slot_get := st_tls_routes; slot_set := set_tls_routes |} (live_tls_routes live) acc in
  let acc := prune_slot {| slot_get := st_tcp_routes; slot_set := set_tcp_routes |} (live_tcp_routes live) acc in
  let acc := prune_slot {| slot_get := st_udp_routes; slot_set := set_udp_routes |} (live_udp_routes live) acc in
  let acc := prune_slot {| slot_get := st_rate_limit_policies; slot_set := set_rate_limit_policies |} (live_rate_limit_policies live) acc in
  let acc := prune_slot {| slot_get := st_circuit_breaker_policies; slot_set := set_circuit_breaker_policies |} (live_circuit_breaker_policies live) acc in
  let acc := prune_slot {| slot_get := st_connection_policies; slot_set := set_connection_policies |} (live_connection_policies live) acc in
  let acc := prune_slot {| slot_get := st_basic_auth_policies; slot_set := set_basic_auth_policies |} (live_basic_auth_policies live) acc in
  let acc := prune_slot {| slot_get := st_api_key_auth_policies; slot_set := set_api_key_auth_policies |} (live_api_key_auth_policies live) acc in
  let acc := prune_slot {| slot_get := st_jwt_auth_policies; slot_set := set_jwt_auth_policies |} (live_jwt_auth_policies live) acc in
  let acc := prune_slot {| slot_get := st_ext_auth_policies; slot_set := set_ext_auth_policies |} (live_ext_auth_policies live) acc in
  let acc := prune_slot {| slot_get := st_retry_policies; slot_set := set_retry_policies |} (live_retry_policies live) acc in
  let acc := prune_slot {| slot_get := st_ip_allowlist_policies; slot_set := set_ip_allowlist_policies |} (live_ip_allowlist_policies live) acc in
  let acc := prune_slot {| slot_get := st_request_body_size_limit_policies; slot_set := set_request_body_size_limit_policies |} (live_request_body_size_limit_policies live) acc in
  let acc := prune_slot {| slot_get := st_health_check_policies; slot_set := set_health_check_policies |} (live_health_check_policies live) acc in
  let acc := prune_slot {| slot_get := st_backend_tls_policies; slot_set := set_backend_tls_policies |} (live_backend_tls_policies live) acc in
  let acc := prune_slot {| slot_get := st_cors_policies; slot_set := set_cors_policies |} (live_cors_policies live) acc in
  let acc := prune_slot {| slot_get := st_timeout_policies; slot_set := set_timeout_policies |} (live_timeout_policies live) acc in
  let acc := prune_slot {| slot_get := st_ai_providers; slot_set := set_ai_providers |} (live_ai_providers live) acc in
  let acc := prune_slot {| slot_get := st_ai_routes; slot_set := set_ai_routes |} (live_ai_routes live) acc in
  let acc := prune_slot {| slot_get := st_ai_usage_policies; slot_set := set_ai_usage_policies |} (live_ai_usage_policies live) acc in
  let acc := prune_slot {| slot_get := st_secrets; slot_set := set_secrets |} (live_secrets live) acc in
  let acc := prune_slot {| slot_get := st_config_maps; slot_set := set_config_maps |} (live_config_maps live) acc in
  let '(store, pruned) := acc in
  let classes := st_gateway_classes store in
  let kept := filter (fun e => e.1 ∈ live_gateway_classes live) classes in
  (set_gateway_classes kept store, pruned + (Z.of_nat (size classes) - Z.of_nat (size kept))).
End Walk.
