(* ===== verification/Gateways.v ===== *)
(** * The Gateway and ListenerSet reconcilers

    [portus-controller/src/reconcilers/gateway.rs] and [listener_set.rs]:
    validation of listeners, certificates and client validation, what is
    stored and published, and the status that is reported.  The parser of PEM
    files is an interface ([Pem]).  The addresses of a Gateway come from the
    Kubernetes Service its provisioner owns and are not modelled. *)
From S2P Require Import Prelude Text Proto Resources Hostnames Policies Objects HttpRoute AiResources Caches.
From Stdlib Require Import String.
Open Scope Z_scope.

(** [rustls_pemfile]: whether the first certificate reads well, and whether
    there is a private key. *)
Class Pem := {
  pem_has_cert : string -> bool;
  pem_has_key : string -> bool;
}.

(** ** The objects *)

Record SecretObjectReference := {
  sor_group : option string;
  sor_kind : option string;
  sor_name : string;
  sor_namespace : option string;
}.

Record GatewayTLSConfig := { gtc_mode : option string; gtc_certificate_refs : list SecretObjectReference }.

(** A selector's [matchLabels], in order. *)
Record RouteNamespaces := { rns_from : option string; rns_selector : option (option (list (string * string))) }.
Record RouteGroupKind := { rgk_group : option string; rgk_kind : string }.
Record AllowedRoutes := { alr_namespaces : option RouteNamespaces; alr_kinds : list RouteGroupKind }.

Record ListenerSpec := {
  lsn_name : string;
  lsn_port : Z;
  lsn_protocol : string;
  lsn_hostname : option string;
  lsn_tls : option GatewayTLSConfig;
  lsn_allowed_routes : option AllowedRoutes;
}.

Record ObjectReference := { or_group : string; or_kind : string; or_name : string; or_namespace : option string }.
Record FrontendTLSValidation := { ftv_ca_certificate_refs : list ObjectReference; ftv_mode : option string }.

Record FrontendTLSConfig := {
  ftc_default : option FrontendTLSValidation;
  ftc_per_port : list (Z * option FrontendTLSValidation);
}.

Record GatewayTLS := { gwt_backend : option (option SecretObjectReference); gwt_frontend : option FrontendTLSConfig }.

Record GatewayAddress := { ga_type : option string; ga_value : string }.
Record LocalParametersReference := { lpr_group : string; lpr_kind : string; lpr_name : string }.

Record GatewaySpec := {
  gwp_gateway_class_name : string;
  gwp_listeners : list ListenerSpec;
  gwp_addresses : list GatewayAddress;
  gwp_allowed_listeners : option (option RouteNamespaces);
  gwp_parameters_ref : option LocalParametersReference;
  gwp_tls : option GatewayTLS;
}.

Record GatewayObject := { gwo_metadata : ObjectMeta; gwo_spec : GatewaySpec }.

(** ** Conflicts between listeners *)

(** [hostnames_overlap] *)
Definition hostnames_overlap (a b : option string) : bool :=
  match a, b with
  | Some a, Some b => hostname_matches a b
  | _, _ => true
  end.

Definition same_slot (a b : ListenerSpec) : bool :=
  (lsn_port a =? lsn_port b) && String.eqb (lsn_protocol a) (lsn_protocol b).

Definition clash (a b : ListenerSpec) : bool := same_slot a b && hostnames_overlap (lsn_hostname a) (lsn_hostname b).

(** [detect_listener_conflicts]: the names that are in conflict. *)
Fixpoint detect_listener_conflicts (ls : list ListenerSpec) : list string :=
  match ls with
  | [] => []
  | a :: ls => flat_map (fun b => if clash a b then [lsn_name a; lsn_name b] else []) ls ++ detect_listener_conflicts ls
  end.

(** [gateway_accepted_condition] *)
Definition address_problem (addr : GatewayAddress) : option (string * string) :=
  let ty := default "IPAddress" (ga_type addr) in
  if negb (String.eqb ty "IPAddress") && negb (String.eqb ty "Hostname")
  then Some ("UnsupportedAddress", "address type '" +:+ ty +:+ "' is not supported (IPAddress, Hostname)")
  else if negb (is_empty (ga_value addr))
  then Some ("AddressNotUsable", "static address " +:+ ty +:+ " '" +:+ ga_value addr +:+
                                 "' cannot be assigned; leave the value empty to have one assigned")
  else None.

Definition gateway_accepted_condition (gc_accepted : bool) (gc_reject_msg : string) (parameters_ref : option LocalParametersReference)
    (addresses : list GatewayAddress) (listener_count accepted_listeners : Z) : bool * string * string :=
  if negb gc_accepted then (false, "InvalidGatewayClass", gc_reject_msg)
  else
    match parameters_ref with
    | Some pr => (false, "InvalidParameters",
                  "infrastructure.parametersRef " +:+ lpr_group pr +:+ "/" +:+ lpr_kind pr +:+ " '" +:+ lpr_name pr +:+
                  "' is not a supported parameters kind")
    | None =>
        match head (omap address_problem addresses) with
        | Some (reason, message) => (false, reason, message)
        | None =>
            if (listener_count >? 0) && (accepted_listeners =? 0) then (false, "ListenersNotValid", "No listener is accepted")
            else if accepted_listeners <? listener_count
            then (true, "ListenersNotValid", show_u accepted_listeners +:+ " of " +:+ show_u listener_count +:+ " listeners accepted")
            else (true, "Accepted", "Gateway accepted")
        end
    end.

(** ** References *)

Section Reconcile.
Context `{IO : IterOrder} `{PEM : Pem}.

(** [reference_grant_allows] *)
Definition reference_grant_allows (store : ConfigStore) (from_kind from_ns to_kind to_ns to_name : string) : bool :=
  existsb (fun e =>
    let rg := e.2 in
    String.eqb (rgs_namespace rg) to_ns &&
    existsb (fun f => String.eqb (rgf_group f) GATEWAY_GROUP && String.eqb (rgf_kind f) from_kind && String.eqb (rgf_namespace f) from_ns)
            (rgs_from rg) &&
    existsb (fun t => is_empty (rgt_group t) && String.eqb (rgt_kind t) to_kind &&
                      match rgt_name t with Some n => String.eqb n to_name | None => true end) (rgs_to rg))
    (entries (st_reference_grants store)).

Definition CLIENT_VALIDATION_ALLOW_VALID_ONLY : string := "AllowValidOnly".
Definition CLIENT_VALIDATION_INSECURE_FALLBACK : string := "AllowInsecureFallback".

(** One CA reference: the ConfigMap, or the reason and message of its failure. *)
Definition resolve_ca_ref (gateway_namespace : string) (store : ConfigStore) (ca_ref : ObjectReference)
    : result NamespacedName (string * string) :=
  let kind := if is_empty (or_kind ca_ref) then "ConfigMap" else or_kind ca_ref in
  if negb (is_empty (or_group ca_ref)) || negb (String.eqb kind "ConfigMap")
  then Err ("InvalidCACertificateKind", "caCertificateRef " +:+ or_name ca_ref +:+ " has unsupported kind " +:+ or_group ca_ref +:+ "/" +:+
            kind +:+ "; only core ConfigMaps are supported")
  else
    let ns := default gateway_namespace (or_namespace ca_ref) in
    let shown := ns +:+ "/" +:+ or_name ca_ref in
    if negb (String.eqb ns gateway_namespace) &&
       negb (reference_grant_allows store "Gateway" gateway_namespace "ConfigMap" ns (or_name ca_ref))
    then Err ("RefNotPermitted", "caCertificateRef " +:+ shown +:+ " is in another namespace and no ReferenceGrant permits it")
    else
      let key := {| nn_namespace := ns; nn_name := or_name ca_ref |} in
      match st_config_maps store !! key with
      | None => Err ("InvalidCACertificateRef", "ConfigMap " +:+ shown +:+ " not found")
      | Some cm =>
          if pem_has_cert (default EmptyString ((cm : SecretState) !! "ca.crt")) then Ok key
          else Err ("InvalidCACertificateRef", "ConfigMap " +:+ shown +:+ " has no PEM certificate under key ca.crt")
      end.

(** [resolve_frontend_validation] *)
Definition resolve_frontend_validation (v : FrontendTLSValidation) (gateway_namespace : string) (store : ConfigStore)
    : ClientValidationOutcome :=
  let mode := default CLIENT_VALIDATION_ALLOW_VALID_ONLY (ftv_mode v) in
  if negb (String.eqb mode CLIENT_VALIDATION_ALLOW_VALID_ONLY) && negb (String.eqb mode CLIENT_VALIDATION_INSECURE_FALLBACK)
  then Invalid "UnsupportedValue" ("frontend validation mode '" +:+ mode +:+ "' is not supported")
  else
    match ftv_ca_certificate_refs v with
    | [] => Invalid "InvalidCACertificateRef" "frontend validation has no caCertificateRefs"
    | refs =>
        let outcomes := map (resolve_ca_ref gateway_namespace store) refs in
        let ca_config_maps := omap ok_of outcomes in
        match ca_config_maps, head (omap err_of outcomes) with
        | [], Some (reason, message) => Invalid reason message
        | _, ref_error => Valid {| cvr_ca_config_maps := ca_config_maps; cvr_mode := mode; cvr_ref_error := ref_error |}
        end
    end.

(** A Secret with a certificate and its key. *)
Definition usable_pair (data : SecretState) : bool :=
  pem_has_cert (default EmptyString (data !! "tls.crt")) && pem_has_key (default EmptyString (data !! "tls.key")).

(** [resolve_backend_client_cert] *)
Definition resolve_backend_client_cert (cert_ref : SecretObjectReference) (gateway_namespace : string) (store : ConfigStore)
    : result NamespacedName (string * string) :=
  let group := default EmptyString (sor_group cert_ref) in
  let kind := default "Secret" (sor_kind cert_ref) in
  if negb (is_empty group) || negb (String.eqb kind "Secret")
  then Err ("InvalidClientCertificateRef", "clientCertificateRef " +:+ sor_name cert_ref +:+ " has unsupported kind " +:+ group +:+ "/" +:+
            kind +:+ "; only core Secrets are supported")
  else
    let ns := default gateway_namespace (sor_namespace cert_ref) in
    let shown := ns +:+ "/" +:+ sor_name cert_ref in
    if negb (String.eqb ns gateway_namespace) &&
       negb (reference_grant_allows store "Gateway" gateway_namespace "Secret" ns (sor_name cert_ref))
    then Err ("RefNotPermitted", "clientCertificateRef " +:+ shown +:+ " is in another namespace and no ReferenceGrant permits it")
    else
      let key := {| nn_namespace := ns; nn_name := sor_name cert_ref |} in
      match st_secrets store !! key with
      | None => Err ("InvalidClientCertificateRef", "Secret " +:+ shown +:+ " not found")
      | Some data =>
          if usable_pair data then Ok key
          else Err ("InvalidClientCertificateRef", "Secret " +:+ shown +:+ " must contain PEM data under tls.crt and tls.key")
      end.

Definition GatewayTlsState_default : GatewayTlsState :=
  {| gts_frontend_default := None; gts_frontend_per_port := ∅; gts_backend_client_cert_ref := None |}.

(** [resolve_gateway_tls] *)
Definition resolve_gateway_tls (tls : option GatewayTLS) (gateway_namespace : string) (store : ConfigStore)
    : GatewayTlsState * option (bool * string * string) :=
  match tls with
  | None => (GatewayTlsState_default, None)
  | Some tls =>
      let resolve v := resolve_frontend_validation v gateway_namespace store in
      let frontend_default := f ← gwt_frontend tls; resolve <$> ftc_default f in
      let per_port := match gwt_frontend tls with
                      | Some f => fold_left (fun m pp => match pp.2 with Some v => <[pp.1 := resolve v]> m | None => m end) (ftc_per_port f) ∅
                      | None => ∅
                      end in
      let backend := cert_ref ← (b ← gwt_backend tls; b); Some (resolve_backend_client_cert cert_ref gateway_namespace store) in
      ({| gts_frontend_default := frontend_default; gts_frontend_per_port := per_port;
          gts_backend_client_cert_ref := r ← backend; ok_of r |},
       (fun r => match r with
                 | Ok _ => (true, "ResolvedRefs", "Backend client certificate resolved")
                 | Err (reason, message) => (false, reason, message)
                 end) <$> backend)
  end.

(** [has_insecure_fallback] *)
Definition has_insecure_fallback (tls : GatewayTlsState) : bool :=
  let insecure o := match o with Valid v => String.eqb (cvr_mode v) CLIENT_VALIDATION_INSECURE_FALLBACK | Invalid _ _ => false end in
  existsb insecure (option_list (gts_frontend_default tls) ++ map snd (map_to_list (gts_frontend_per_port tls))).

(** ** What both kinds read from a listener *)

Definition http_kinds : list (string * string) := [(GATEWAY_GROUP, "HTTPRoute"); (GATEWAY_GROUP, "GRPCRoute")].

(** The kinds of route a protocol carries. *)
Definition protocol_kinds (protocol : string) : list (string * string) :=
  if String.eqb protocol "HTTP" || String.eqb protocol "HTTPS" then http_kinds
  else if String.eqb protocol "TLS" then [(GATEWAY_GROUP, "TLSRoute")]
  else if String.eqb protocol "TCP" then [(GATEWAY_GROUP, "TCPRoute")]
  else if String.eqb protocol "UDP" then [(GATEWAY_GROUP, "UDPRoute")]
  else [].

(** The kinds of a listener, and whether one it names is not supported. *)
Definition supported_kinds (default_kinds : list (string * string)) (allowed : option AllowedRoutes) : list (string * string) * bool :=
  match alr_kinds <$> allowed with
  | Some (k :: ks) =>
      let named := map (fun rgk => (default GATEWAY_GROUP (rgk_group rgk), rgk_kind rgk)) (k :: ks) in
      (List.filter (fun gk => bool_decide (gk ∈ default_kinds)) named, existsb (fun gk => negb (bool_decide (gk ∈ default_kinds))) named)
  | _ => (default_kinds, false)
  end.

Definition allowed_routes_state (allowed : option AllowedRoutes) : AllowedRoutesState :=
  match allowed with
  | Some ar => {| ar_namespaces_from := default "Same" (n ← alr_namespaces ar; rns_from n);
                  ar_namespace_selector := n ← alr_namespaces ar; sel ← rns_selector n; Some (default [] sel) |}
  | None => {| ar_namespaces_from := "Same"; ar_namespace_selector := None |}
  end.

Definition tls_mode_of (l : ListenerSpec) : option string :=
  if String.eqb (lsn_protocol l) "TLS" then Some (default "Terminate" (t ← lsn_tls l; gtc_mode t)) else None.

Definition per_listener : Type := string * list Condition * list (string * string).

(** ** Gateways *)

Definition CERT_REF : string := "InvalidCertificateRef".

(** The certificate loop: the references that are usable, up to the first that
    is not, and why. *)
Fixpoint check_certs (namespace : string) (store : ConfigStore) (refs : list SecretObjectReference)
    : list (string * string) * option (string * string) :=
  match refs with
  | [] => ([], None)
  | r :: refs =>
      let cert_ns := default namespace (sor_namespace r) in
      if negb (is_empty (default EmptyString (sor_group r))) || negb (String.eqb (default "Secret" (sor_kind r)) "Secret")
      then ([], Some (CERT_REF, "CertificateRef must reference a core Secret"))
      else if negb (String.eqb cert_ns namespace) && negb (reference_grant_allows store "Gateway" namespace "Secret" cert_ns (sor_name r))
      then ([], Some ("RefNotPermitted", "Cross-namespace certificate reference not permitted by ReferenceGrant"))
      else
        match st_secrets store !! {| nn_namespace := cert_ns; nn_name := sor_name r |} with
        | None => ([], Some (CERT_REF, "Referenced Secret not found"))
        | Some data =>
            if negb (usable_pair data) then ([], Some (CERT_REF, "Referenced Secret contains malformed TLS certificate or key data"))
            else let '(ok, problem) := check_certs namespace store refs in ((cert_ns, sor_name r) :: ok, problem)
        end
  end.

(** The certificates of a listener that terminates TLS. *)
Definition listener_certs (namespace : string) (store : ConfigStore) (l : ListenerSpec)
    : list (string * string) * option (string * string) :=
  if String.eqb (lsn_protocol l) "HTTPS" || String.eqb (lsn_protocol l) "TLS" then
    match lsn_tls l with
    | None => ([], Some (CERT_REF, "HTTPS/TLS listener requires TLS configuration"))
    | Some t =>
        if String.eqb (default "Terminate" (gtc_mode t)) "Terminate" then
          match gtc_certificate_refs t with
          | [] => ([], Some (CERT_REF, "No certificateRefs specified for Terminate mode listener"))
          | refs => check_certs namespace store refs
          end
        else ([], None)
    end
  else ([], None).

Definition known_protocol (protocol : string) : bool :=
  String.eqb protocol "HTTP" || String.eqb protocol "HTTPS" || String.eqb protocol "TLS" || String.eqb protocol "TCP" ||
  String.eqb protocol "UDP".

(** The [Accepted] condition before client validation is looked at. *)
Definition listener_accepted (gc_accepted : bool) (gateway_class_name : string) (l : ListenerSpec) : bool * string * string :=
  if negb gc_accepted
  then (false, "InvalidGatewayClass", "GatewayClass '" +:+ gateway_class_name +:+ "' is not accepted by this controller")
  else if negb (known_protocol (lsn_protocol l))
  then (false, "UnsupportedProtocol", "Protocol '" +:+ lsn_protocol l +:+ "' is not supported")
  else (true, "Accepted", "Listener accepted").

(** Problems of the kinds a listener names, then of its certificates. *)
Definition listener_refs (namespace : string) (store : ConfigStore) (default_kinds : list (string * string)) (l : ListenerSpec)
    : list (string * string) * list (string * string) * option (string * string) :=
  let '(kinds, has_invalid) := supported_kinds default_kinds (lsn_allowed_routes l) in
  if (has_invalid : bool)
  then (kinds, [], Some ("InvalidRouteKinds", match kinds with
                                              | [] => "None of the specified route kinds are supported for this listener protocol"
                                              | _ => "Some specified route kinds are not supported for this listener protocol"
                                              end))
  else let '(certs, problem) := listener_certs namespace store l in (kinds, certs, problem).

(** Client validation of an HTTPS listener: the problem with its references,
    and whether the listener is rejected. *)
Definition client_validation_problem (tls : GatewayTlsState) (l : ListenerSpec) : option (string * string) * bool :=
  if String.eqb (lsn_protocol l) "HTTPS" then
    match frontend_validation_for_port tls (lsn_port l) with
    | Some (Invalid reason message) => (Some (reason, message), true)
    | Some (Valid v) => (cvr_ref_error v, false)
    | None => (None, false)
    end
  else (None, false).

Definition evaluate_listener (namespace : string) (generation : Z) (gateway_class_name : string) (gc_accepted is_programmed : bool)
    (tls : GatewayTlsState) (conflicts : list string) (store : ConfigStore) (l : ListenerSpec) : ListenerState * per_listener :=
  let '(accepted, accepted_reason, accepted_message) := listener_accepted gc_accepted gateway_class_name l in
  let default_kinds := if (accepted : bool) then protocol_kinds (lsn_protocol l) else [] in
  let '(kinds, certs, problem) := listener_refs namespace store default_kinds l in
  let '(validation, rejected) := match problem with
                                 | None => client_validation_problem tls l
                                 | Some _ => (None, false)
                                 end in
  let problem := match problem with
                 | Some p => Some p
                 | None => (fun v => (v.1, if is_empty v.2 then "All references resolved" else v.2)) <$> validation
                 end in
  let resolved := bool_decide (problem = None) in
  let conflicted := bool_decide (lsn_name l ∈ conflicts) in
  let programmed := is_programmed && resolved in
  let conditions :=
    [if (rejected : bool)
     then build_condition "Accepted" false "NoValidCACertificate" "No valid CA certificate for frontend client certificate validation" generation
     else build_condition "Accepted" accepted accepted_reason accepted_message generation;
     if programmed then build_condition "Programmed" true "Programmed" "Configuration compiled and available to data plane" generation
     else build_condition "Programmed" false "Pending" "Waiting for initial configuration compilation" generation;
     if conflicted
     then build_condition "Conflicted" true "HostnameConflict"
            "Listener hostname conflicts with another listener on the same port and protocol" generation
     else build_condition "Conflicted" false "NoConflicts" "No conflicts detected" generation;
     build_condition "ResolvedRefs" resolved (match problem with Some p => p.1 | None => "ResolvedRefs" end)
       (match problem with Some p => p.2 | None => "All references resolved" end) generation] in
  ({| lst_name := lsn_name l; lst_port := lsn_port l; lst_protocol := lsn_protocol l; lst_hostname := lsn_hostname l;
      lst_accepted := accepted && negb rejected; lst_conflicted := conflicted; lst_resolved_refs := resolved;
      lst_allowed_routes := allowed_routes_state (lsn_allowed_routes l); lst_tls_cert_refs := certs; lst_tls_mode := tls_mode_of l |},
   (lsn_name l, conditions, kinds)).

(** [evaluate_gateway]; the last component is whether the class is accepted. *)
Definition evaluate_gateway (key : NamespacedName) (generation : Z) (gateway_class_name : string) (listeners : list ListenerSpec)
    (tls : GatewayTlsState) (allowed_from : option string) (allowed_labels : list (string * string)) (is_programmed : bool)
    (store : ConfigStore) : GatewayState * list per_listener * bool :=
  let gc_accepted := match st_gateway_classes store !! gateway_class_name with Some gc => gcs_accepted gc | None => false end in
  let conflicts := detect_listener_conflicts listeners in
  let evaluated := map (evaluate_listener (nn_namespace key) generation gateway_class_name gc_accepted is_programmed tls conflicts store)
                       listeners in
  ({| gs_name := nn_name key; gs_namespace := nn_namespace key; gs_listeners := map fst evaluated; gs_generation := generation;
      gs_allowed_listener_namespaces_from := allowed_from; gs_allowed_listener_match_labels := allowed_labels |},
   map snd evaluated, gc_accepted).

(** *** Attached routes *)

Definition labels_of (store : ConfigStore) (namespace : string) : gmap string string :=
  default ∅ (st_namespace_labels store !! namespace).

(** Targets the Gateway (or anything of its name) and is accepted. *)
Definition targets (key : NamespacedName) (pr : ParentRefState) : bool :=
  String.eqb (pref_gateway_namespace pr) (nn_namespace key) && String.eqb (pref_gateway_name pr) (nn_name key) && pref_accepted pr.

Definition http_protocol (l : ListenerState) : bool := String.eqb (lst_protocol l) "HTTP" || String.eqb (lst_protocol l) "HTTPS".

Definition port_matches (pr : ParentRefState) (l : ListenerState) : bool :=
  match pref_port pr with Some p => lst_port l =? p | None => true end.

(** The section named, or else [otherwise] of the listener. *)
Definition section_or (pr : ParentRefState) (listener_name : string) (info : option ListenerState) (otherwise : ListenerState -> bool)
    : bool :=
  match pref_section_name pr with
  | Some sn => String.eqb sn listener_name
  | None => match info with Some li => otherwise li | None => false end
  end.

Definition attached_http (store : ConfigStore) (key : NamespacedName) (name : string) (info : option ListenerState) (r : HTTPRouteState)
    : bool :=
  existsb (fun pr => targets key pr && section_or pr name info (fun li =>
    port_matches pr li && http_protocol li && hostnames_compatible (lst_hostname li) (hrs_hostnames r) &&
    namespace_allowed (lst_allowed_routes li) (hrs_namespace r) (nn_namespace key) (labels_of store (hrs_namespace r))))
    (hrs_parent_refs r).

Definition attached_grpc (key : NamespacedName) (name : string) (info : option ListenerState) (r : GRPCRouteState) : bool :=
  existsb (fun pr => targets key pr && section_or pr name info http_protocol) (grs_parent_refs r).

Definition attached_tls (key : NamespacedName) (name : string) (info : option ListenerState) (r : TLSRouteState) : bool :=
  existsb (fun pr => targets key pr && section_or pr name info (fun li =>
    String.eqb (lst_protocol li) "TLS" &&
    match lst_hostname li, trs_hostnames r with
    | None, _ | _, [] => true
    | Some lh, rhs => existsb (hostname_matches lh) rhs
    end)) (trs_parent_refs r).

Definition attached_l4 (protocol : string) (store : ConfigStore) (key : NamespacedName) (name : string) (info : option ListenerState)
    (r : L4RouteState) : bool :=
  existsb (fun pr => targets key pr &&
    match info with
    | None => false
    | Some li =>
        String.eqb (lst_protocol li) protocol && match pref_section_name pr with Some sn => String.eqb sn name | None => true end &&
        port_matches pr li &&
        namespace_allowed (lst_allowed_routes li) (lrs_namespace r) (nn_namespace key) (labels_of store (lrs_namespace r))
    end) (lrs_parent_refs r).

Definition count_entries {V} (p : V -> bool) (m : gmap NamespacedName V) : Z :=
  Z.of_nat (List.length (List.filter (fun e => p e.2) (entries m))).

Definition attached_routes (store : ConfigStore) (key : NamespacedName) (state : option GatewayState) (name : string) : Z :=
  let info := gs ← state; List.find (fun l => String.eqb (lst_name l) name) (gs_listeners gs) in
  count_entries (attached_http store key name info) (st_http_routes store) +
  count_entries (attached_grpc key name info) (st_grpc_routes store) +
  count_entries (attached_tls key name info) (st_tls_routes store) +
  count_entries (attached_l4 "TCP" store key name info) (st_tcp_routes store) +
  count_entries (attached_l4 "UDP" store key name info) (st_udp_routes store).

(** *** The status and its write *)

Record ListenerStatus := {
  lstat_name : string;
  lstat_attached_routes : Z;
  lstat_supported_kinds : list (string * string);
  lstat_conditions : list Condition;
}.

Record GatewayStatus := {
  gst_addresses : list GatewayAddress;
  gst_conditions : list Condition;
  gst_listeners : list ListenerStatus;
  gst_attached_listener_sets : option Z;
}.

Definition is_accepted_condition (c : Condition) : bool := String.eqb (cond_type c) "Accepted" && String.eqb (cond_status c) "True".

Definition gateway_conditions (generation : Z) (accepted : bool * string * string) (is_programmed : bool)
    (backend_resolved : option (bool * string * string)) (tls : GatewayTlsState) : list Condition :=
  [build_condition "Accepted" accepted.1.1 accepted.1.2 accepted.2 generation;
   build_condition "Programmed" is_programmed (if is_programmed then "Programmed" else "Pending")
     (if is_programmed then "Configuration applied by the data plane"
      else "Waiting for a data plane to apply the current configuration") generation] ++
  match backend_resolved with
  | Some (ok, reason, message) => [build_condition "ResolvedRefs" ok reason message generation]
  | None => []
  end ++
  if has_insecure_fallback tls
  then [build_condition "InsecureFrontendValidationMode" true "ConfigurationChanged"
          "Frontend client certificate validation allows insecure fallback: connections without a valid client certificate are accepted"
          generation]
  else [].

Definition attached_listener_sets (store : ConfigStore) (key : NamespacedName) : Z :=
  count_entries (fun ls => lss_accepted ls && bool_decide (lss_parent_gateway ls = key)) (st_listener_sets store).

(** [addresses_changed] of [provisioner.rs] *)
Definition address_pair (a : GatewayAddress) : string * string := (default "IPAddress" (ga_type a), ga_value a).

Definition pair_compare (a b : string * string) : comparison :=
  match String.compare a.1 b.1 with Eq => String.compare a.2 b.2 | c => c end.

Definition addresses_changed (current : list GatewayAddress) (desired : list (string * string)) : bool :=
  negb (List.length current =? List.length desired)%nat ||
  negb (bool_decide (sort_by pair_compare (map address_pair current) = sort_by pair_compare desired)).

Definition attached_changed (current : option GatewayStatus) (listeners : list ListenerStatus) (sets : Z) : bool :=
  match current with
  | None => true
  | Some s =>
      existsb (fun p => negb (lstat_attached_routes p.1 =? lstat_attached_routes p.2)) (combine (gst_listeners s) listeners) ||
      negb (List.length (gst_listeners s) =? List.length listeners)%nat || negb (default 0 (gst_attached_listener_sets s) =? sets)
  end.

(** The status that is written, if one is. *)
Definition gateway_status (current : option GatewayStatus) (desired : GatewayStatus) : option GatewayStatus :=
  let all s := gst_conditions s ++ flat_map lstat_conditions (gst_listeners s) in
  if attached_changed current (gst_listeners desired) (default 0 (gst_attached_listener_sets desired)) ||
     addresses_changed (from_option gst_addresses [] current) (map address_pair (gst_addresses desired))
  then Some desired
  else patch_status_if_changed desired (from_option all [] current) (all desired).

(** What is stored for a Gateway, and what is announced. *)
Definition store_gateway (key : NamespacedName) (tls : GatewayTlsState) (state : GatewayState) (w : World) : World :=
  let previous := st_gateway_tls (w_store w) !! key in
  let plain := bool_decide (tls = GatewayTlsState_default) in
  let tls_changed := if plain then bool_decide (is_Some previous) else negb (bool_decide (previous = Some tls)) in
  let w := write (fun s => set_gateway_tls (if plain then delete key (st_gateway_tls s) else <[key := tls]> (st_gateway_tls s)) s) w in
  let '(w, state_changed) := insert_and_notify gateways key state w in
  let w := if tls_changed && negb state_changed then notify_change w else w in
  if state_changed || tls_changed then publish (EvGateway key) w else w.

Definition remove_gateway (key : NamespacedName) (w : World) : World * bool :=
  gone_map gateways key (write (fun s => set_gateway_tls (delete key (st_gateway_tls s)) s) w).

(** The eviction hook of a Gateway. *)
Definition gone_gateway (key : NamespacedName) (w : World) : World * bool :=
  let '(w, removed) := remove_gateway key w in
  (if (removed : bool) then publish (EvGateway key) w else w, removed).

(** [reconcile_gateway]: [provisioned] is what the provisioner answers for an
    accepted Gateway, the addresses or an error, and [is_programmed] what the
    store says of its data plane. *)
Definition reconcile_gateway (gw : GatewayObject) (current : option GatewayStatus) (is_programmed : bool)
    (provisioned : result (list GatewayAddress) ReconcileError) (w : World)
    : World * result (option GatewayStatus) ReconcileError :=
  match policy_key (gwo_metadata gw) with
  | Err e => (w, Err e)
  | Ok key =>
      let spec := gwo_spec gw in
      if deleting (gwo_metadata gw) then ((remove_gateway key w).1, Ok None)
      else if negb (bool_decide (is_Some (st_gateway_classes (w_store w) !! gwp_gateway_class_name spec))) then (w, Ok None)
      else
        let generation := Z.max (default 0 (om_generation (gwo_metadata gw))) 1 in
        let allowed := a ← gwp_allowed_listeners spec; a in
        let from := n ← allowed; rns_from n in
        let labels := default [] (n ← allowed; sel ← rns_selector n; sel) in
        let '(tls, backend_resolved) := resolve_gateway_tls (gwp_tls spec) (nn_namespace key) (w_store w) in
        let '(state, listeners, gc_accepted) :=
          evaluate_gateway key generation (gwp_gateway_class_name spec) (gwp_listeners spec) tls from labels is_programmed (w_store w) in
        let w := store_gateway key tls state w in
        let store := w_store w in
        let stored := st_gateways store !! key in
        let statuses := map (fun l => {| lstat_name := l.1.1; lstat_attached_routes := attached_routes store key stored l.1.1;
                                         lstat_supported_kinds := l.2; lstat_conditions := l.1.2 |}) listeners in
        let accepted_listeners := Z.of_nat (List.length (List.filter (fun l => existsb is_accepted_condition l.1.2) listeners)) in
        let accepted :=
          gateway_accepted_condition gc_accepted ("GatewayClass '" +:+ gwp_gateway_class_name spec +:+ "' is not accepted")
            (gwp_parameters_ref spec) (gwp_addresses spec) (Z.of_nat (List.length listeners)) accepted_listeners in
        match (if accepted.1.1 then provisioned else Ok []) with
        | Err e => (w, Err e)
        | Ok addresses =>
            (w, Ok (gateway_status current
              {| gst_addresses := addresses;
                 gst_conditions := gateway_conditions generation accepted is_programmed backend_resolved tls;
                 gst_listeners := statuses; gst_attached_listener_sets := Some (attached_listener_sets store key) |}))
        end
  end.

(** ** ListenerSets *)

Record ListenerSet := {
  lso_metadata : ObjectMeta;
  lso_parent_namespace : option string;
  lso_parent_name : string;
  lso_listeners : list ListenerSpec;
}.

(** [is_allowed] *)
Definition is_allowed (allowed_from : option string) (gateway_namespace ls_namespace : string) (match_labels : list (string * string))
    (labels : gmap string string) : bool :=
  match allowed_from with
  | None => false
  | Some from =>
      if String.eqb from "All" then true
      else if String.eqb from "Same" then String.eqb gateway_namespace ls_namespace
      else if String.eqb from "Selector" then
        match match_labels with
        | [] => false
        | _ => forallb (fun kv => bool_decide (labels !! kv.1 = Some kv.2)) match_labels
        end
      else false
  end.

(** What listeners of higher precedence hold: hostnames of a port, and the
    protocol of a port. *)
Record Claims := { cl_hostnames : gset (Z * string); cl_protocols : gmap Z string }.

Definition no_claims : Claims := {| cl_hostnames := ∅; cl_protocols := ∅ |}.

Definition hostname_key (h : option string) : string := default EmptyString h.

(** A listener of the Gateway replaces the protocol, any other leaves it. *)
Definition claim (over : bool) (port : Z) (hostname : option string) (protocol : string) (c : Claims) : Claims :=
  {| cl_hostnames := {[ (port, hostname_key hostname) ]} ∪ cl_hostnames c;
     cl_protocols := if over || negb (bool_decide (is_Some (cl_protocols c !! port))) then <[port := protocol]> (cl_protocols c)
                     else cl_protocols c |}.

(** Whether a sibling comes first. *)
Definition earlier (sibling : ListenerSetState) (my_creation_ts : Z) (key : NamespacedName) : bool :=
  (lss_creation_timestamp sibling <? my_creation_ts) ||
  ((lss_creation_timestamp sibling =? my_creation_ts) &&
   match pair_compare (lss_namespace sibling, lss_name sibling) (nn_namespace key, nn_name key) with Lt => true | _ => false end).

Definition sibling_claims (c : Claims) (sibling : ListenerSetState) : Claims :=
  fold_left (fun c l => if lst_conflicted l then c else claim false (lst_port l) (lst_hostname l) (lst_protocol l) c)
            (lss_listeners sibling) c.

(** The claims a ListenerSet starts from. *)
Definition initial_claims (store : ConfigStore) (parent_key key : NamespacedName) (my_creation_ts : Z) : Claims :=
  let of_gateway := match st_gateways store !! parent_key with
                    | Some gw => fold_left (fun c l => claim true (lst_port l) (lst_hostname l) (lst_protocol l) c) (gs_listeners gw) no_claims
                    | None => no_claims
                    end in
  fold_left (fun c e =>
    let sibling := e.2 in
    if String.eqb (lss_name sibling) (nn_name key) && String.eqb (lss_namespace sibling) (nn_namespace key) then c
    else if negb (bool_decide (lss_parent_gateway sibling = parent_key)) then c
    else if negb (earlier sibling my_creation_ts key) then c
    else sibling_claims c sibling) (entries (st_listener_sets store)) of_gateway.

(** The certificate of another namespace that no grant permits. *)
Definition ref_not_permitted (namespace : string) (store : ConfigStore) (l : ListenerSpec) : bool :=
  (String.eqb (lsn_protocol l) "HTTPS" || String.eqb (lsn_protocol l) "TLS") &&
  String.eqb (default "Terminate" (t ← lsn_tls l; gtc_mode t)) "Terminate" &&
  existsb (fun r => let cert_ns := default namespace (sor_namespace r) in
                    negb (String.eqb cert_ns namespace) &&
                    negb (reference_grant_allows store "ListenerSet" namespace "Secret" cert_ns (sor_name r)))
          (from_option gtc_certificate_refs [] (lsn_tls l)).

Definition set_supports (protocol : string) : bool :=
  String.eqb protocol "HTTP" || String.eqb protocol "HTTPS" || String.eqb protocol "TLS" || String.eqb protocol "TCP".

(** The client validation of the parent: the problem, and whether no CA is
    usable. *)
Definition parent_validation (store : ConfigStore) (parent_key : NamespacedName) (l : ListenerSpec) : option (string * string) * bool :=
  match st_gateway_tls store !! parent_key with
  | Some tls => client_validation_problem tls l
  | None => (None, false)
  end.

(** One listener of a ListenerSet, under the claims made so far. *)
Definition evaluate_set_listener (namespace : string) (generation : Z) (parent_key : NamespacedName) (attach_allowed : bool)
    (store : ConfigStore) (c : Claims) (l : ListenerSpec) : Claims * (ListenerState * per_listener) :=
  let supported := set_supports (lsn_protocol l) in
  let hostname_conflicted := bool_decide ((lsn_port l, hostname_key (lsn_hostname l)) ∈ cl_hostnames c) in
  let protocol_conflicted := match cl_protocols c !! lsn_port l with Some p => negb (String.eqb p (lsn_protocol l)) | None => false end in
  let conflicted := hostname_conflicted || protocol_conflicted in
  let c := if conflicted then c else claim false (lsn_port l) (lsn_hostname l) (lsn_protocol l) c in
  let '(kinds, invalid_kinds) := supported_kinds (if supported then protocol_kinds (lsn_protocol l) else []) (lsn_allowed_routes l) in
  let not_permitted := ref_not_permitted namespace store l in
  let '(validation, no_valid_ca) := parent_validation store parent_key l in
  let resolved := negb invalid_kinds && negb not_permitted && bool_decide (validation = None) in
  let accepted := attach_allowed && supported && negb conflicted && resolved && negb no_valid_ca in
  let '(reason, msg) :=
    if negb attach_allowed then ("NotAllowed", "ListenerSet not allowed on parent Gateway")
    else if negb supported then ("UnsupportedProtocol", "Protocol not supported")
    else if hostname_conflicted then ("HostnameConflict", "Hostname conflicts with higher-precedence listener")
    else if protocol_conflicted then ("ProtocolConflict", "Protocol conflicts with higher-precedence listener on same port")
    else if invalid_kinds then ("InvalidRouteKinds", "allowedRoutes.kinds includes kinds incompatible with listener protocol")
    else if not_permitted then ("RefNotPermitted", "Cross-namespace certificate reference not permitted by ReferenceGrant")
    else if (no_valid_ca : bool) then ("NoValidCACertificate", "No valid CA certificate for frontend client certificate validation")
    else ("Accepted", "Listener accepted") in
  let '(resolved_reason, resolved_msg) :=
    if invalid_kinds then ("InvalidRouteKinds", "allowedRoutes.kinds includes kinds incompatible with listener protocol")
    else if not_permitted then ("RefNotPermitted", "Cross-namespace certificate reference not permitted by ReferenceGrant")
    else match validation with Some p => p | None => ("ResolvedRefs", "All refs resolved") end in
  let conditions :=
    [build_condition "Accepted" accepted reason msg generation;
     build_condition "Programmed" accepted (if accepted then "Programmed" else reason) (if accepted then "Listener programmed" else msg)
       generation;
     build_condition "ResolvedRefs" resolved resolved_reason resolved_msg generation;
     build_condition "Conflicted" conflicted
       (if hostname_conflicted then "HostnameConflict" else if protocol_conflicted then "ProtocolConflict" else "NoConflicts")
       (if conflicted then msg else "No conflicts") generation] in
  (c, ({| lst_name := lsn_name l; lst_port := lsn_port l; lst_protocol := lsn_protocol l; lst_hostname := lsn_hostname l;
          lst_accepted := accepted; lst_conflicted := conflicted; lst_resolved_refs := resolved;
          lst_allowed_routes := allowed_routes_state (lsn_allowed_routes l);
          lst_tls_cert_refs := map (fun r => (default namespace (sor_namespace r), sor_name r))
                                   (from_option gtc_certificate_refs [] (lsn_tls l));
          lst_tls_mode := tls_mode_of l |},
       (lsn_name l, conditions, kinds))).

(** The loop over the listeners of the set. *)
Fixpoint evaluate_set_listeners (step : Claims -> ListenerSpec -> Claims * (ListenerState * per_listener)) (c : Claims)
    (ls : list ListenerSpec) : list (ListenerState * per_listener) :=
  match ls with
  | [] => []
  | l :: ls => let '(c, out) := step c l in out :: evaluate_set_listeners step c ls
  end.

Definition set_parent (ls : ListenerSet) : NamespacedName :=
  {| nn_namespace := default (default EmptyString (om_namespace (lso_metadata ls))) (lso_parent_namespace ls);
     nn_name := lso_parent_name ls |}.

(** [evaluate_listener_set] *)
Definition evaluate_listener_set (ls : ListenerSet) (store : ConfigStore) (labels : gmap string string)
    : ListenerSetState * list Condition * list per_listener :=
  let key := {| nn_namespace := default EmptyString (om_namespace (lso_metadata ls));
                nn_name := default EmptyString (om_name (lso_metadata ls)) |} in
  let generation := default 0 (om_generation (lso_metadata ls)) in
  let my_creation_ts := default 0 (om_creation_timestamp (lso_metadata ls)) in
  let parent_key := set_parent ls in
  let '(attach_allowed, reason, message) :=
    match st_gateways store !! parent_key with
    | None => (false, "Invalid", "parent Gateway not found")
    | Some gw =>
        if is_allowed (gs_allowed_listener_namespaces_from gw) (gs_namespace gw) (nn_namespace key) (gs_allowed_listener_match_labels gw)
             labels
        then (true, "Accepted", "ListenerSet accepted")
        else (false, "NotAllowed", "Gateway does not allow ListenerSet attachment from this namespace")
    end in
  let evaluated := evaluate_set_listeners (evaluate_set_listener (nn_namespace key) generation parent_key attach_allowed store)
                     (initial_claims store parent_key key my_creation_ts) (lso_listeners ls) in
  let any_ok := existsb lst_accepted (map fst evaluated) in
  let accepted := attach_allowed && any_ok in
  let '(reason, message) :=
    if negb attach_allowed then (reason, message)
    else if negb any_ok then ("ListenersNotValid", "all listeners are invalid or conflict with higher-precedence listeners")
    else ("Accepted", "ListenerSet accepted") in
  ({| lss_name := nn_name key; lss_namespace := nn_namespace key; lss_parent_gateway := parent_key; lss_listeners := map fst evaluated;
      lss_accepted := accepted; lss_generation := generation;
      lss_not_accepted_reason := if accepted then None else Some reason; lss_creation_timestamp := my_creation_ts |},
   [build_condition "Accepted" accepted reason message generation;
    build_condition "Programmed" accepted (if accepted then "Programmed" else reason) (if accepted then "ListenerSet programmed" else message)
      generation],
   map snd evaluated).

(** [count_attached]; of listeners of one name the last counts. *)
Definition count_attached (store : ConfigStore) (key : NamespacedName) (listeners : list ListenerState) (name : string) (port : Z) : Z :=
  match List.find (fun l => String.eqb (lst_name l) name) (rev listeners) with
  | None => 0
  | Some l =>
      let matches_pref pref :=
        bool_decide (pref_parent_kind pref = ParentListenerSet) && targets key pref &&
        match pref_section_name pref with Some sn => String.eqb sn name | None => true end &&
        match pref_port pref with Some p => p =? port | None => true end in
      let passes namespace hostnames :=
        http_protocol l && hostnames_compatible (lst_hostname l) hostnames &&
        namespace_allowed (lst_allowed_routes l) namespace (nn_namespace key) (labels_of store namespace) in
      count_entries (fun r => existsb matches_pref (hrs_parent_refs r) && passes (hrs_namespace r) (hrs_hostnames r)) (st_http_routes store) +
      count_entries (fun r => existsb matches_pref (grs_parent_refs r) && passes (grs_namespace r) (grs_hostnames r)) (st_grpc_routes store)
  end.

Record ListenerSetStatus := { lsst_conditions : list Condition; lsst_listeners : list ListenerStatus }.

(** Whether an entry of the status differs from the one that is desired. *)
Definition entry_changed (cur desired : ListenerStatus) : bool :=
  negb (lstat_attached_routes cur =? lstat_attached_routes desired) ||
  negb (List.length (lstat_conditions cur) =? List.length (lstat_conditions desired))%nat ||
  existsb (fun p => negb (String.eqb (cond_type p.1) (cond_type p.2)) || negb (String.eqb (cond_status p.1) (cond_status p.2)) ||
                    negb (String.eqb (cond_reason p.1) (cond_reason p.2)))
          (combine (lstat_conditions cur) (lstat_conditions desired)).

Definition set_entries_changed (current : option ListenerSetStatus) (desired : list ListenerStatus) : bool :=
  match current with
  | None => true
  | Some s => negb (List.length (lsst_listeners s) =? List.length desired)%nat ||
              existsb (fun p => entry_changed p.1 p.2) (combine (lsst_listeners s) desired)
  end.

(** The removal of a ListenerSet: on deletion, and in its eviction hook. *)
Definition gone_listener_set (key : NamespacedName) (w : World) : World * bool :=
  match remove_and_notify listener_sets key w with
  | (w, Some gone) => (publish (EvListenerSet key (lss_parent_gateway gone)) w, true)
  | (w, None) => (w, false)
  end.

(** [reconcile_listener_set] *)
Definition reconcile_listener_set (ls : ListenerSet) (current : option ListenerSetStatus) (w : World)
    : result (World * option ListenerSetStatus) ReconcileError :=
  try! key := policy_key (lso_metadata ls) in
  if deleting (lso_metadata ls) then Ok ((gone_listener_set key w).1, None)
  else
    let '(state, top_conditions, listeners) := evaluate_listener_set ls (w_store w) (labels_of (w_store w) (nn_namespace key)) in
    let '(w, changed) := insert_and_notify listener_sets key state w in
    let w := if (changed : bool) then publish (EvListenerSet key (lss_parent_gateway state)) w else w in
    let port_of name := match List.find (fun l => String.eqb (lsn_name l) name) (rev (lso_listeners ls)) with
                        | Some l => lsn_port l
                        | None => 0
                        end in
    let statuses := map (fun l => {| lstat_name := l.1.1;
                                     lstat_attached_routes := count_attached (w_store w) key (lss_listeners state) l.1.1 (port_of l.1.1);
                                     lstat_supported_kinds := l.2; lstat_conditions := l.1.2 |}) listeners in
    Ok (w, if set_entries_changed current statuses ||
              negb (conditions_equal (from_option lsst_conditions [] current) top_conditions)
           then Some {| lsst_conditions := top_conditions; lsst_listeners := statuses |}
           else None).
End Reconcile.

(** ** Facts *)

Section Facts.
Context `{IO : IterOrder} `{PEM : Pem}.

(** [kind] objects in [ns] may use the Secret [c]. *)
Definition secret_granted (store : ConfigStore) (kind ns : string) (c : string * string) : Prop :=
  c.1 = ns \/ reference_grant_allows store kind ns "Secret" c.1 c.2 = true.

(** The Secret is there and holds a certificate with its key. *)
Definition secret_usable (store : ConfigStore) (c : string * string) : Prop :=
  exists data, st_secrets store !! {| nn_namespace := c.1; nn_name := c.2 |} = Some data /\ usable_pair data = true.

Lemma check_certs_elem ns store refs c :
  c ∈ (check_certs ns store refs).1 -> secret_granted store "Gateway" ns c /\ secret_usable store c.
Proof.
  induction refs as [|r refs IH]; simpl; [by intros ?%elem_of_nil|].
  destruct (_ || _); [by intros ?%elem_of_nil|]. destruct (negb (String.eqb _ ns) && _) eqn:Hg; [by intros ?%elem_of_nil|].
  destruct (st_secrets store !! _) as [data|] eqn:Hd; [|by intros ?%elem_of_nil].
  destruct (usable_pair data) eqn:Hu; simpl; [|by intros ?%elem_of_nil].
  destruct (check_certs ns store refs) as [ok problem]; simpl in *. intros [ -> | Hin]%elem_of_cons; [|by apply IH].
  split; [|by exists data]. unfold secret_granted; simpl. apply andb_false_iff in Hg as [Hg|Hg]; apply negb_false_iff in Hg.
  - left. by apply String.eqb_eq.
  - by right.
Qed.

Lemma listener_refs_certs ns store kinds l ks certs problem c :
  listener_refs ns store kinds l = (ks, certs, problem) -> c ∈ certs ->
  secret_granted store "Gateway" ns c /\ secret_usable store c.
Proof.
  unfold listener_refs. destruct (supported_kinds _ _) as [ks' [|]]; [by intros [= <- <- <-] ?%elem_of_nil|].
  destruct (listener_certs ns store l) as [certs' problem'] eqn:Hc. intros [= _ <- _]. unfold listener_certs in Hc.
  destruct (_ || _); [|injection Hc as <- _; by intros ?%elem_of_nil].
  destruct (lsn_tls l) as [t|]; [|injection Hc as <- _; by intros ?%elem_of_nil].
  destruct (String.eqb _ _); [|injection Hc as <- _; by intros ?%elem_of_nil].
  destruct (gtc_certificate_refs t) as [|r rs]; [injection Hc as <- _; by intros ?%elem_of_nil|].
  intros Hin. apply (check_certs_elem ns store (r :: rs)). by rewrite Hc.
Qed.

(** The certificates of a Gateway listener are granted and usable. *)
Lemma evaluate_listener_certs ns g cls gc prog tls conf store l c :
  c ∈ lst_tls_cert_refs (evaluate_listener ns g cls gc prog tls conf store l).1 ->
  secret_granted store "Gateway" ns c /\ secret_usable store c.
Proof.
  unfold evaluate_listener. destruct (listener_accepted gc cls l) as [[acc ?] ?].
  destruct (listener_refs _ _ _ _) as [[ks certs] problem] eqn:Hr. destruct (match problem with None => _ | Some _ => _ end) as [? ?].
  simpl. by apply listener_refs_certs with (1 := Hr).
Qed.

(** *** Overlapping listeners *)

Lemma hostnames_overlap_comm a b : hostnames_overlap a b = hostnames_overlap b a.
Proof. destruct a as [a|], b as [b|]; try done. simpl. rewrite !matches_intersect. by rewrite intersect_comm. Qed.

Lemma clash_comm a b : clash a b = clash b a.
Proof. unfold clash, same_slot. by rewrite hostnames_overlap_comm, Z.eqb_sym, String.eqb_sym. Qed.

Lemma conflicts_cons a ls n :
  n ∈ detect_listener_conflicts (a :: ls) <->
  (exists b, b ∈ ls /\ clash a b = true /\ (n = lsn_name a \/ n = lsn_name b)) \/ n ∈ detect_listener_conflicts ls.
Proof.
  simpl. rewrite elem_of_app. apply or_iff_compat_r. rewrite list_elem_of_In, in_flat_map.
  split; intros (b & Hb & H); exists b; rewrite list_elem_of_In in *.
  - destruct (clash a b); [|done]. destruct H as [<-|[<-|[]]]; auto.
  - destruct H as [-> [-> | ->]]; simpl; auto.
Qed.

End Facts.
