(* ===== verification/PolicyKinds.v ===== *)
(** * Policies that are validated

    The reconcilers of [portus-controller/src/reconcilers/] whose policies are
    checked before they take part in conflict resolution: retries, address
    lists, the two kinds that read a Secret, token budgets, JWT issuers (with
    the keys fetched for them, [portus-types/src/jwks.rs]), external
    authorization and backend TLS.  The wording of a rejection is a parameter
    ([message_text]); what it is about is not. *)
From S2P Require Import Prelude Text Net Types Router Http Plan Budget Proto ConfigRoutes Resources Hostnames Policies.
From Stdlib Require Import String.
Open Scope Z_scope.

(** Why a spec is refused. *)
Inductive SpecError :=
| UnsupportedRetryCondition (condition : string)
| InvalidCidr (cidr : string)
| SecretNotPermitted (namespace name : string)
| SecretNotFound (namespace name : string)
| WrongTargetKind (kind : string)
| NoBudget
| TwoBudgets
| ZeroBudget (unit : string)
| UnknownWindow (window : string)
| UnknownScope (per : string)
| UnknownLedgerMode (mode : string)
| FallbackNeedsTokens
| EmptyFallbackModel
| ZeroOverflow
| NoIssuer
| IssuerNotUrl (issuer : string)
| JwksNotUrl (uri issuer : string)
| ClaimUnnamed (issuer header : string)
| BadHeaderName (where_ header : string)
| ReservedHeader (where_ header : string)
| HeaderSetTwice (issuer header : string)
| NoService
| ZeroPort
| BadPath (path : string)
| BadTimeout
| CaKindNotSupported (kind group : string)
| CaEmpty (namespace name : string)
| CaMissingKey (namespace name : string)
| CaNotFound (namespace name : string)
| NoCaRefs.

(** The text of a rejection. *)
Class MessageText := { message_text : SpecError -> string }.

(** ** Retries and address lists *)

Section Checked.
Context `{IO : IterOrder} {MT : MessageText} {CC : ConfigCrates}.

Record RetrySpec := { rt_max_retries : Z; rt_retry_on : list string }.

Definition valid_conditions : list string := ["connect-failure"; "gateway-error"].

(** [reconcile_inner] of [retry_policy.rs] *)
Definition reconcile_retry_policy (policy : PolicyObject RetrySpec) (programmed : bool)
    (policies : gmap NamespacedName RetryPolicyState)
    : result (gmap NamespacedName RetryPolicyState * list Condition) ReconcileError :=
  try! my_key := policy_key (po_metadata policy) in
  let state accepted := {| rtps_meta := meta_of (nn_namespace my_key) policy accepted;
                           rtps_max_retries := rt_max_retries (po_spec policy); rtps_retry_on := rt_retry_on (po_spec policy) |} in
  let generation := default 0 (om_generation (po_metadata policy)) in
  match List.find (fun condition => negb (bool_decide (condition ∈ valid_conditions))) (rt_retry_on (po_spec policy)) with
  | Some condition =>
      Ok (<[my_key := state false]> policies,
          [build_condition "Accepted" false "InvalidRetryCondition" (message_text (UnsupportedRetryCondition condition)) generation;
           programmed_condition programmed generation])
  | None =>
      let message := if bool_decide ("gateway-error" ∈ rt_retry_on (po_spec policy))
                     then "Policy accepted. Note: gateway-error retries apply to upstream connection failures only; responses already received from the backend are not retried"
                     else "Policy accepted" in
      let '(policies, accepted) := store_and_resolve "RetryPolicy" my_key (state true) generation message policies in
      Ok (policies, [accepted; programmed_condition programmed generation])
  end.

Record IPAllowlistSpec := { ip_allow_cidrs : list string; ip_deny_cidrs : list string; ip_trusted_proxy_cidrs : list string }.

(** [reconcile_inner] of [ip_allowlist_policy.rs] *)
Definition reconcile_ip_allowlist_policy (policy : PolicyObject IPAllowlistSpec) (programmed : bool)
    (policies : gmap NamespacedName IPAllowlistPolicyState)
    : result (gmap NamespacedName IPAllowlistPolicyState * list Condition) ReconcileError :=
  try! my_key := policy_key (po_metadata policy) in
  let spec := po_spec policy in
  let state accepted := {| ipps_meta := meta_of (nn_namespace my_key) policy accepted; ipps_allow_cidrs := ip_allow_cidrs spec;
                           ipps_deny_cidrs := ip_deny_cidrs spec; ipps_trusted_proxy_cidrs := ip_trusted_proxy_cidrs spec |} in
  let generation := default 0 (om_generation (po_metadata policy)) in
  match List.find (fun cidr => negb (cidr_accepted cidr)) (ip_allow_cidrs spec ++ ip_deny_cidrs spec ++ ip_trusted_proxy_cidrs spec) with
  | Some cidr =>
      Ok (<[my_key := state false]> policies,
          [build_condition "Accepted" false "InvalidCIDR" (message_text (InvalidCidr cidr)) generation;
           programmed_condition programmed generation])
  | None =>
      let '(policies, accepted) := store_and_resolve "IPAllowlistPolicy" my_key (state true) generation "Policy accepted" policies in
      Ok (policies, [accepted; programmed_condition programmed generation])
  end.

(** ** Policies that read a Secret *)

Record SecretRef := { sr_name : string; sr_namespace : option string }.

(** The common text of [basic_auth_policy.rs] and [api_key_auth_policy.rs]. *)
Definition reconcile_secret_policy {Spec P} `{PolicyState P} (kind : string) (mk : PolicyMeta -> string -> string -> P)
    (secret : SecretRef) (policy : PolicyObject Spec) (programmed : bool) (store : ConfigStore)
    (policies : gmap NamespacedName P) : result (gmap NamespacedName P * list Condition) ReconcileError :=
  try! my_key := policy_key (po_metadata policy) in
  let namespace := nn_namespace my_key in
  let generation := default 0 (om_generation (po_metadata policy)) in
  let secret_name := sr_name secret in
  let secret_ns := default namespace (sr_namespace secret) in
  let state accepted := mk (meta_of namespace policy accepted) secret_ns secret_name in
  let rejected reason why :=
    Ok (<[my_key := state false]> policies,
        [build_condition "Accepted" false reason (message_text why) generation; programmed_condition programmed generation]) in
  if negb (String.eqb secret_ns namespace) &&
     negb (is_reference_allowed_from (st_reference_grants store) "portus-gateway.dev" namespace kind secret_ns "Secret" (Some secret_name))
  then rejected "RefNotPermitted" (SecretNotPermitted secret_ns secret_name)
  else
    match st_secrets store !! {| nn_namespace := secret_ns; nn_name := secret_name |} with
    | None => rejected "InvalidSecret" (SecretNotFound secret_ns secret_name)
    | Some _ =>
        let '(policies, accepted) := store_and_resolve kind my_key (state true) generation "Policy accepted" policies in
        Ok (policies, [accepted; programmed_condition programmed generation])
    end.

Record BasicAuthSpec := { ba_secret_ref : SecretRef; ba_realm : option string }.

(** [reconcile_inner] of [basic_auth_policy.rs] *)
Definition reconcile_basic_auth_policy (policy : PolicyObject BasicAuthSpec) (programmed : bool) (store : ConfigStore)
    : result (gmap NamespacedName BasicAuthPolicyState * list Condition) ReconcileError :=
  reconcile_secret_policy "BasicAuthPolicy"
    (fun meta ns name => {| baps_meta := meta; baps_secret_namespace := ns; baps_secret_name := name;
                            baps_realm := default "Restricted" (ba_realm (po_spec policy)) |})
    (ba_secret_ref (po_spec policy)) policy programmed store (st_basic_auth_policies store).

Record ApiKeySpec := { ak_secret_ref : SecretRef; ak_header_name : option string }.

(** [reconcile_inner] of [api_key_auth_policy.rs] *)
Definition reconcile_api_key_auth_policy (policy : PolicyObject ApiKeySpec) (programmed : bool) (store : ConfigStore)
    : result (gmap NamespacedName ApiKeyAuthPolicyState * list Condition) ReconcileError :=
  reconcile_secret_policy "APIKeyAuthPolicy"
    (fun meta ns name => {| akps_meta := meta; akps_secret_namespace := ns; akps_secret_name := name;
                            akps_header_name := default "X-API-Key" (ak_header_name (po_spec policy)) |})
    (ak_secret_ref (po_spec policy)) policy programmed store (st_api_key_auth_policies store).
End Checked.

(** ** Token budgets *)

Record AIBudgetSpec := { bu_tokens : option Z; bu_calls : option Z; bu_window : string; bu_per : option string }.
Record AIOnExhaustedSpec := { ox_fallback_model : string; ox_overflow_tokens : option Z }.
Record AIUsageSpec := {
  us_budget : AIBudgetSpec;
  us_on_ledger_unavailable : option string;
  us_on_exhausted : option AIOnExhaustedSpec;
}.

Record Normalised := {
  no_unit : string;
  no_limit : Z;
  no_window : string;
  no_per : string;
  no_fail_open : bool;
  no_fallback_model : string;
  no_overflow_limit : Z;
}.

(** [normalise] *)
Definition normalise (policy : PolicyObject AIUsageSpec) : result Normalised SpecError :=
  let spec := po_spec policy in
  let budget := us_budget spec in
  if negb (String.eqb (tr_kind (po_target_ref policy)) "AIRoute") then Err (WrongTargetKind (tr_kind (po_target_ref policy)))
  else
    try! unit_limit :=
      match bu_tokens budget, bu_calls budget with
      | Some t, None => Ok ("TOKENS", t)
      | None, Some c => Ok ("CALLS", c)
      | None, None => Err NoBudget
      | Some _, Some _ => Err TwoBudgets
      end in
    let '(unit, limit) := unit_limit : string * Z in
    if limit =? 0 then Err (ZeroBudget (to_ascii_lowercase unit))
    else
      let w := to_ascii_lowercase (bu_window budget) in
      try! window := (if String.eqb w "hourly" then Ok "HOURLY" else if String.eqb w "daily" then Ok "DAILY"
                      else if String.eqb w "monthly" then Ok "MONTHLY" else Err (UnknownWindow w)) in
      let p := to_ascii_lowercase (default "Key" (bu_per budget)) in
      try! per := (if String.eqb p "key" then Ok "KEY" else if String.eqb p "subject" then Ok "SUBJECT"
                   else if String.eqb p "tenant" then Ok "TENANT" else if String.eqb p "route" then Ok "ROUTE"
                   else Err (UnknownScope p)) in
      let m := to_ascii_lowercase (default "Open" (us_on_ledger_unavailable spec)) in
      try! fail_open := (if String.eqb m "open" then Ok true else if String.eqb m "closed" then Ok false
                         else Err (UnknownLedgerMode m)) in
      try! fallback :=
        match us_on_exhausted spec with
        | None => Ok (EmptyString, 0)
        | Some o =>
            if negb (String.eqb unit "TOKENS") then Err FallbackNeedsTokens
            else
              let model := trim (ox_fallback_model o) in
              if is_empty model then Err EmptyFallbackModel
              else
                let overflow := default (Z.max (limit / 10) 1) (ox_overflow_tokens o) in
                if overflow =? 0 then Err ZeroOverflow else Ok (model, overflow)
        end in
      Ok {| no_unit := unit; no_limit := limit; no_window := window; no_per := per; no_fail_open := fail_open;
            no_fallback_model := fallback.1; no_overflow_limit := fallback.2 |}.

(** [reconcile_inner] of [ai_usage_policy.rs] *)
Definition reconcile_ai_usage_policy `{IterOrder} `{MessageText} (policy : PolicyObject AIUsageSpec) (programmed : bool)
    (policies : gmap NamespacedName AIUsagePolicyState)
    : result (gmap NamespacedName AIUsagePolicyState * list Condition) ReconcileError :=
  try! my_key := policy_key (po_metadata policy) in
  let generation := default 0 (om_generation (po_metadata policy)) in
  match normalise policy with
  | Ok n =>
      let state := {| aups_meta := meta_of (nn_namespace my_key) policy true; aups_limit := no_limit n; aups_unit := no_unit n;
                      aups_window := no_window n; aups_per := no_per n; aups_fail_open := no_fail_open n;
                      aups_fallback_model := no_fallback_model n; aups_overflow_limit := no_overflow_limit n |} in
      let '(policies, accepted) := store_and_resolve "AIUsagePolicy" my_key state generation "Policy accepted" policies in
      Ok (policies, [accepted; programmed_condition (String.eqb (cond_status accepted) "True" && programmed) generation])
  | Err e =>
      Ok (delete my_key policies,
          [build_condition "Accepted" false "Invalid" (message_text e) generation; programmed_condition false generation])
  end.

(** ** Header names and URLs *)

Definition RESERVED_HEADERS : list string :=
  ["authorization"; "host"; "content-length"; "transfer-encoding"; "connection"; "upgrade"; "te"; "trailer";
   "keep-alive"; "proxy-connection"; "proxy-authorization"].

(** [char::is_whitespace] somewhere in a UTF-8 string. *)
Fixpoint has_space (s : string) : bool :=
  match s with
  | EmptyString => false
  | String _ r => match strip_space wide_spaces s with Some _ => true | None => has_space r end
  end.

(** [is_http_url] *)
Definition is_http_url (s : string) : bool :=
  match match strip_prefix "https://" s with Some rest => Some rest | None => strip_prefix "http://" s end with
  | Some rest => negb (is_empty rest) && negb (starts_with "/" rest) && negb (has_space rest)
  | None => false
  end.

Definition is_token_byte (c : ascii) : bool :=
  is_ascii_alphanumeric c || existsb (fun d => bool_decide (c = d)) (String.list_ascii_of_string "!#$%&'*+-.^_`|~").

(** [is_header_name] *)
Definition is_header_name (s : string) : bool :=
  negb (is_empty s) && forallb is_token_byte (String.list_ascii_of_string s).

(** [Iterator::collect] into a [Result]: the first error, or every value. *)
Fixpoint collect_results {A B E} (f : A -> result B E) (l : list A) : result (list B) E :=
  match l with
  | [] => Ok []
  | x :: l => try! y := f x in try! ys := collect_results f l in Ok (y :: ys)
  end.

(** ** JWT issuers *)

Record ClaimToHeader := { cth_claim : string; cth_header : string }.
Record JwtProviderSpec := {
  jp_issuer : string; jp_audiences : list string; jp_jwks_uri : option string; jp_claim_to_headers : list ClaimToHeader }.
Record JwtSpec := { jwt_providers : list JwtProviderSpec }.

(** One entry of [claimToHeaders] against those before it. *)
Definition check_claim (issuer : string) (acc : list (string * string)) (c : ClaimToHeader)
    : result (list (string * string)) SpecError :=
  let header := to_ascii_lowercase (cth_header c) in
  if is_empty (cth_claim c) then Err (ClaimUnnamed issuer (cth_header c))
  else if negb (is_header_name header) then Err (BadHeaderName issuer (cth_header c))
  else if bool_decide (header ∈ RESERVED_HEADERS) then Err (ReservedHeader issuer header)
  else if existsb (fun p => String.eqb p.2 header) acc then Err (HeaderSetTwice issuer header)
  else Ok (acc ++ [(cth_claim c, header)]).

Fixpoint check_claims (issuer : string) (acc : list (string * string)) (l : list ClaimToHeader)
    : result (list (string * string)) SpecError :=
  match l with
  | [] => Ok acc
  | c :: l => try! acc := check_claim issuer acc c in check_claims issuer acc l
  end.

Definition validate_provider (p : JwtProviderSpec) : result JwtProviderState SpecError :=
  let issuer := trim_end_char "/" (jp_issuer p) in
  if negb (is_http_url issuer) then Err (IssuerNotUrl (jp_issuer p))
  else if match jp_jwks_uri p with Some uri => negb (is_http_url uri) | None => false end
  then Err (JwksNotUrl (default EmptyString (jp_jwks_uri p)) issuer)
  else
    try! claims := check_claims issuer [] (jp_claim_to_headers p) in
    Ok {| jps_issuer := issuer; jps_audiences := jp_audiences p; jps_jwks_uri := jp_jwks_uri p; jps_claim_to_headers := claims |}.

(** [validate] of [jwt_auth_policy.rs] *)
Definition validate_jwt (spec : JwtSpec) : result (list JwtProviderState) SpecError :=
  match jwt_providers spec with
  | [] => Err NoIssuer
  | providers => collect_results validate_provider providers
  end.

(** *** Fetching keys ([portus-types/src/jwks.rs]) *)

(** [serde_json] documents. *)
Class JsonCrate := {
  json_value : Type;
  json_parse : string -> option json_value;
  json_get : json_value -> string -> option json_value;
  json_str : json_value -> option string;
  json_array : json_value -> option (list json_value);
}.

(** What [reqwest] makes of a GET: an error, or a status (as number and as
    text) and a body that may fail to be read. *)
Record HttpAnswer := { ha_status : Z; ha_status_text : string; ha_text : result string string }.
Definition HttpGet : Type := string -> result HttpAnswer string.

Section Jwks.
Context {JC : JsonCrate}.

(** [jwks_uri_from_discovery] *)
Definition jwks_uri_from_discovery (doc : string) : option string :=
  v ← json_parse doc; u ← json_get v "jwks_uri"; json_str u.

(** [looks_like_jwks] *)
Definition looks_like_jwks (body : string) : bool :=
  match (v ← json_parse body; k ← json_get v "keys"; json_array k) with
  | Some [] | None => false
  | Some _ => true
  end.

(** [fetch] *)
Definition fetch (get : HttpGet) (issuer : string) (jwks_uri : option string) : result string string :=
  let issuer := trim_end_char "/" issuer in
  try! jwks_uri :=
    match jwks_uri with
    | Some uri => Ok uri
    | None =>
        let discovery := issuer +:+ "/.well-known/openid-configuration" in
        match get discovery with
        | Ok resp =>
            if is_success (ha_status resp) then
              match ha_text resp with
              | Ok doc => Ok (default (issuer +:+ "/keys") (jwks_uri_from_discovery doc))
              | Err e => Err ("reading " +:+ discovery +:+ ": " +:+ e)
              end
            else Ok (issuer +:+ "/keys")
        | Err _ => Ok (issuer +:+ "/keys")
        end
    end in
  match get jwks_uri with
  | Err e => Err ("GET " +:+ jwks_uri +:+ ": " +:+ e)
  | Ok resp =>
      if negb (is_success (ha_status resp)) then Err ("GET " +:+ jwks_uri +:+ ": HTTP " +:+ ha_status_text resp)
      else
        match ha_text resp with
        | Err e => Err ("reading " +:+ jwks_uri +:+ ": " +:+ e)
        | Ok body => if looks_like_jwks body then Ok body else Err (jwks_uri +:+ " did not return a JWKS")
        end
  end.

(** [MIN_REFETCH], in nanoseconds *)
Definition MIN_REFETCH : Z := 60000000000.

(** What a turn of the refresh loop meets: the time when it looks at the keys
    it holds, the answers of the network, and the time when they are in. *)
Record Visit := { vi_now : Z; vi_get : HttpGet; vi_done : Z }.

Definition refresh_one (v : Visit) (p : JwtProviderState) (keys : gmap string IssuerKeysState)
    : gmap string IssuerKeysState * bool :=
  let previous := keys !! jps_issuer p in
  let same (prev : IssuerKeysState) := bool_decide (iks_jwks_uri prev = jps_jwks_uri p) in
  if match previous with Some prev => same prev && (saturating_sub (vi_now v) (iks_fetched_at prev) <? MIN_REFETCH) | None => false end
  then (keys, false)
  else
    let state :=
      match fetch (vi_get v) (jps_issuer p) (jps_jwks_uri p) with
      | Ok json => {| iks_jwks_uri := jps_jwks_uri p; iks_jwks_json := Some json; iks_error := None; iks_fetched_at := vi_done v |}
      | Err e =>
          {| iks_jwks_uri := jps_jwks_uri p;
             iks_jwks_json := match previous with Some prev => if same prev then iks_jwks_json prev else None | None => None end;
             iks_error := Some e; iks_fetched_at := vi_done v |}
      end in
    (<[jps_issuer p := state]> keys, negb (bool_decide ((iks_jwks_json <$> previous) = Some (iks_jwks_json state)))).

(** [refresh_issuer_keys]; the flag says whether a compile was asked for. *)
Fixpoint refresh_issuer_keys (visit : nat -> Visit) (providers : list JwtProviderState) (keys : gmap string IssuerKeysState)
    : gmap string IssuerKeysState * bool :=
  match providers with
  | [] => (keys, false)
  | p :: providers =>
      let '(keys, changed) := refresh_one (visit O) p keys in
      let '(keys, later) := refresh_issuer_keys (fun i => visit (S i)) providers keys in
      (keys, changed || later)
  end.
End Jwks.

(** [keys_condition] *)
Definition keys_condition (keys : gmap string IssuerKeysState) (providers : list JwtProviderState) (generation : Z) : Condition :=
  let missing := omap (fun p => match keys !! jps_issuer p with
                                | Some k => if decide (is_Some (iks_jwks_json k)) then None
                                            else Some (jps_issuer p +:+ ": " +:+ default "not fetched yet" (iks_error k))
                                | None => Some (jps_issuer p +:+ ": not fetched yet")
                                end) providers in
  let stale := omap (fun p => match keys !! jps_issuer p with
                              | Some k => if decide (is_Some (iks_jwks_json k))
                                          then (fun e => jps_issuer p +:+ ": " +:+ e) <$> iks_error k else None
                              | None => None
                              end) providers in
  match missing, stale with
  | _ :: _, _ =>
      build_condition "ResolvedRefs" false "JWKSUnavailable"
        ("No keys, tokens from these issuers are refused: " +:+ join "; " missing) generation
  | [], [] => build_condition "ResolvedRefs" true "ResolvedRefs" "Keys fetched for every issuer" generation
  | [], _ => build_condition "ResolvedRefs" true "ResolvedRefs"
               ("Using previously fetched keys, the last refresh failed: " +:+ join "; " stale) generation
  end.

Section JwtPolicy.
Context `{IO : IterOrder} {MT : MessageText} {JC : JsonCrate}.

(** [reconcile_inner] of [jwt_auth_policy.rs] *)
Definition reconcile_jwt_inner (policy : PolicyObject JwtSpec) (programmed : bool) (keys : gmap string IssuerKeysState)
    (policies : gmap NamespacedName JwtAuthPolicyState)
    : result (gmap NamespacedName JwtAuthPolicyState * list Condition) ReconcileError :=
  try! my_key := policy_key (po_metadata policy) in
  let generation := default 0 (om_generation (po_metadata policy)) in
  let state accepted providers :=
    {| japs_meta := meta_of (nn_namespace my_key) policy accepted; japs_providers := providers |} in
  match validate_jwt (po_spec policy) with
  | Err e =>
      Ok (<[my_key := state false []]> policies,
          [build_condition "Accepted" false "Invalid" (message_text e) generation; programmed_condition programmed generation])
  | Ok providers =>
      let '(policies, accepted) := store_and_resolve "JWTAuthPolicy" my_key (state true providers) generation "Policy accepted" policies in
      Ok (policies, [accepted; keys_condition keys providers generation; programmed_condition programmed generation])
  end.

(** [reconcile_jwt_auth_policy], up to the status write *)
Definition reconcile_jwt_auth_policy (visit : nat -> Visit) (policy : PolicyObject JwtSpec) (programmed : bool)
    (keys : gmap string IssuerKeysState) (policies : gmap NamespacedName JwtAuthPolicyState)
    : gmap string IssuerKeysState * result (gmap NamespacedName JwtAuthPolicyState * list Condition * option StoreEvent) ReconcileError :=
  let keys := match validate_jwt (po_spec policy) with
              | Ok providers => (refresh_issuer_keys visit providers keys).1
              | Err _ => keys
              end in
  (keys, reconcile_publishing "JWTAuthPolicy" (po_metadata policy) (reconcile_jwt_inner policy programmed keys) policies).
End JwtPolicy.

(** ** External authorization *)

Record ServiceBackendRef := { sbr_name : string; sbr_namespace : option string; sbr_port : Z }.
Record ExtAuthSpec := {
  ex_backend_ref : ServiceBackendRef;
  ex_path : option string;
  ex_timeout_ms : option Z;
  ex_fail_open : bool;
  ex_request_headers : list string;
  ex_response_headers : list string;
}.

Definition DEFAULT_TIMEOUT_MS : Z := 1000.
Definition MAX_TIMEOUT_MS : Z := 60000.

Definition lower_headers (field : string) (reserved : bool) : list string -> result (list string) SpecError :=
  collect_results (fun h =>
    let h := to_ascii_lowercase h in
    if negb (is_header_name h) then Err (BadHeaderName field h)
    else if reserved && bool_decide (h ∈ RESERVED_HEADERS) then Err (ReservedHeader field h)
    else Ok h).

(** [validate] of [ext_auth_policy.rs] *)
Definition validate_ext_auth (e : ExtAuthSpec) (namespace : string) (meta : PolicyMeta) : result ExtAuthPolicyState SpecError :=
  let b := ex_backend_ref e in
  if is_empty (sbr_name b) then Err NoService
  else if sbr_port b =? 0 then Err ZeroPort
  else
    let path := default "/" (ex_path e) in
    if negb (starts_with "/" path) || (has_space path || has_control path) then Err (BadPath path)
    else
      let timeout_ms := default DEFAULT_TIMEOUT_MS (ex_timeout_ms e) in
      if (timeout_ms =? 0) || (MAX_TIMEOUT_MS <? timeout_ms) then Err BadTimeout
      else
        try! request_headers := lower_headers "requestHeaders" false (ex_request_headers e) in
        try! response_headers := lower_headers "responseHeaders" true (ex_response_headers e) in
        Ok {| eaps_meta := meta; eaps_service_namespace := default namespace (sbr_namespace b); eaps_service_name := sbr_name b;
              eaps_port := sbr_port b; eaps_path := path; eaps_timeout_ms := timeout_ms; eaps_fail_open := ex_fail_open e;
              eaps_request_headers := request_headers; eaps_response_headers := response_headers |}.

Section ExtAuthPolicy.
Context `{IO : IterOrder} {MT : MessageText}.

(** [reference_permitted] *)
Definition reference_permitted (grants : gmap NamespacedName ReferenceGrantState) (policy_namespace : string)
    (state : ExtAuthPolicyState) : bool :=
  String.eqb (eaps_service_namespace state) policy_namespace ||
  is_reference_allowed_from grants "portus-gateway.dev" policy_namespace "ExtAuthPolicy" (eaps_service_namespace state) "Service"
    (Some (eaps_service_name state)).

(** [reconcile_inner] of [ext_auth_policy.rs] *)
Definition reconcile_ext_auth_policy (policy : PolicyObject ExtAuthSpec) (programmed : bool) (store : ConfigStore)
    : result (gmap NamespacedName ExtAuthPolicyState * list Condition) ReconcileError :=
  try! my_key := policy_key (po_metadata policy) in
  let namespace := nn_namespace my_key in
  let policies := st_ext_auth_policies store in
  let generation := default 0 (om_generation (po_metadata policy)) in
  match validate_ext_auth (po_spec policy) namespace (meta_of namespace policy true) with
  | Err e =>
      let rejected := {| eaps_meta := meta_of namespace policy false; eaps_service_namespace := EmptyString;
                         eaps_service_name := EmptyString; eaps_port := 0; eaps_path := EmptyString; eaps_timeout_ms := 0;
                         eaps_fail_open := false; eaps_request_headers := []; eaps_response_headers := [] |} in
      Ok (<[my_key := rejected]> policies,
          [build_condition "Accepted" false "Invalid" (message_text e) generation; programmed_condition programmed generation])
  | Ok state =>
      let refs :=
        if reference_permitted (st_reference_grants store) namespace state
        then build_condition "ResolvedRefs" true "ResolvedRefs" "Authorization Service reference resolved" generation
        else build_condition "ResolvedRefs" false "RefNotPermitted"
               ("Service " +:+ eaps_service_namespace state +:+ "/" +:+ eaps_service_name state +:+
                " is in another namespace and no ReferenceGrant permits it; every request is refused") generation in
      let '(policies, accepted) := store_and_resolve "ExtAuthPolicy" my_key state generation "Policy accepted" policies in
      Ok (policies, [accepted; refs; programmed_condition programmed generation])
  end.
End ExtAuthPolicy.

(** ** Backend TLS *)

Record LocalObjectReference := { lor_group : string; lor_kind : string; lor_name : string }.
Record SubjectAltNameSpec := { sans_type : string; sans_hostname : option string; sans_uri : option string }.
Record BackendTLSValidation := {
  bv_ca_certificate_refs : list LocalObjectReference;
  bv_hostname : string;
  bv_subject_alt_names : list SubjectAltNameSpec;
}.
(** A BackendTLSPolicy names several targets. *)
Record BackendTLSObject := {
  bt_metadata : ObjectMeta;
  bt_target_refs : list PolicyTargetRef;
  bt_validation : BackendTLSValidation;
}.

(** [resolve_ca_cert]: the PEM text, or the reason and what it is about *)
Definition resolve_ca_cert (ca_ref : LocalObjectReference) (namespace : string) (config_maps : gmap NamespacedName SecretState)
    : result string (string * SpecError) :=
  if negb (is_empty (lor_group ca_ref)) || (negb (String.eqb (lor_kind ca_ref) "ConfigMap") && negb (is_empty (lor_kind ca_ref)))
  then Err ("InvalidKind", CaKindNotSupported (lor_kind ca_ref) (lor_group ca_ref))
  else
    match config_maps !! {| nn_namespace := namespace; nn_name := lor_name ca_ref |} with
    | Some data =>
        match data !! "ca.crt" with
        | Some ca_pem => if is_empty ca_pem then Err ("InvalidCACertificateRef", CaEmpty namespace (lor_name ca_ref)) else Ok ca_pem
        | None => Err ("InvalidCACertificateRef", CaMissingKey namespace (lor_name ca_ref))
        end
    | None => Err ("InvalidCACertificateRef", CaNotFound namespace (lor_name ca_ref))
    end.

(** The loop over the references: the PEM text found so far and the last
    failure before the first success. *)
Definition collect_ca_certs (refs : list LocalObjectReference) (namespace : string) (config_maps : gmap NamespacedName SecretState)
    : option string * option (string * SpecError) :=
  fold_left (fun acc ca_ref =>
    match resolve_ca_cert ca_ref namespace config_maps with
    | Ok pem => (Some (match acc.1 with None => pem | Some found => found +:+ String "010" pem end), acc.2)
    | Err e => (acc.1, match acc.1 with None => Some e | Some _ => acc.2 end)
    end) refs (None, None).

Section BackendTLS.
Context `{IO : IterOrder} {MT : MessageText}.

(** [reconcile_inner] of [backend_tls_policy.rs].  Without targets the last
    branch would read past the list. *)
Definition reconcile_backend_tls_policy (policy : BackendTLSObject) (store : ConfigStore)
    : result (gmap NamespacedName BackendTLSPolicyState * option (list Condition)) ReconcileError :=
  try! my_key := policy_key (bt_metadata policy) in
  let namespace := nn_namespace my_key in
  let generation := default 0 (om_generation (bt_metadata policy)) in
  let validation := bt_validation policy in
  let resolved :=
    match bv_ca_certificate_refs validation with
    | [] => Err ("InvalidCACertificateRef", NoCaRefs)
    | refs => match collect_ca_certs refs namespace (st_config_maps store) with
              | (Some pem, _) => Ok pem
              | (None, Some e) => Err e
              | (None, None) => Err ("InvalidCACertificateRef", NoCaRefs)
              end
    end in
  let resolved_refs_ok := match resolved with Ok _ => true | Err _ => false end in
  let sans := map (fun san => (sans_type san, match sans_hostname san with Some h => h | None => default EmptyString (sans_uri san) end))
                  (bv_subject_alt_names validation) in
  let policies :=
    fold_left (fun policies target_ref =>
      let target := target_in namespace target_ref in
      let state := {| btps_meta := {| pm_target := target; pm_generation := generation;
                                      pm_creation_timestamp := om_creation_timestamp (bt_metadata policy);
                                      pm_accepted := resolved_refs_ok |};
                      btps_ca_cert_pem := match resolved with Ok pem => pem | Err _ => EmptyString end;
                      btps_hostname := bv_hostname validation; btps_subject_alt_names := sans |} in
      let policies := <[my_key := state]> policies in
      if resolved_refs_ok then resolve_conflicts my_key target policies else policies)
      (bt_target_refs policy) (st_backend_tls_policies store) in
  let accepted := match policies !! my_key with Some s => policy_accepted s | None => false end in
  let refs_condition :=
    match resolved with
    | Ok _ => build_condition "ResolvedRefs" true "ResolvedRefs" "All references resolved" generation
    | Err (reason, why) => build_condition "ResolvedRefs" false reason (message_text why) generation
    end in
  let accepted_condition :=
    match resolved with
    | Err (_, why) => Some (build_condition "Accepted" false "NoValidCACertificate" (message_text why) generation)
    | Ok _ =>
        if accepted then Some (build_condition "Accepted" true "Accepted" "Policy accepted" generation)
        else match bt_target_refs policy with
             | [] => None
             | target :: _ =>
                 Some (build_condition "Accepted" false "Conflicted"
                   (match find_winner_key (target_in namespace target) my_key policies with
                    | Some k => "Older BackendTLSPolicy " +:+ show_name k +:+ " takes precedence"
                    | None => "Conflicted with another policy"
                    end) generation)
             end
    end in
  Ok (policies, (fun c => [c; refs_condition]) <$> accepted_condition).
End BackendTLS.

(** ** Properties *)

Lemma collect_results_ok {A B E} (f : A -> result B E) l ys :
  collect_results f l = Ok ys -> Forall2 (fun x y => f x = Ok y) l ys.
Proof.
  revert ys. induction l as [|x l IH]; intros ys; simpl; [intros [= <-]; constructor|].
  destruct (f x) as [y|] eqn:Hx; [|done]. destruct (collect_results f l) as [ys'|]; [|done]. intros [= <-].
  constructor; [done|]. by apply IH.
Qed.

(** The data plane reads back what [normalise] writes. *)
Lemma window_reads_back w window :
  (if String.eqb w "hourly" then Ok "HOURLY" else if String.eqb w "daily" then Ok "DAILY"
   else if String.eqb w "monthly" then Ok "MONTHLY" else Err (UnknownWindow w)) = Ok window ->
  exists x, Window_parse window = Some x /\ to_ascii_lowercase (Window_as_str x) = w.
Proof.
  destruct (String.eqb_spec w "hourly") as [->|]; [intros [= <-]; by exists Hourly|].
  destruct (String.eqb_spec w "daily") as [->|]; [intros [= <-]; by exists Daily|].
  destruct (String.eqb_spec w "monthly") as [->|]; [intros [= <-]; by exists Monthly|]. done.
Qed.

Lemma scope_reads_back p per :
  (if String.eqb p "key" then Ok "KEY" else if String.eqb p "subject" then Ok "SUBJECT"
   else if String.eqb p "tenant" then Ok "TENANT" else if String.eqb p "route" then Ok "ROUTE"
   else Err (UnknownScope p)) = Ok per ->
  exists x, Scope_parse per = Some x /\ to_ascii_lowercase (Scope_as_str x) = p.
Proof.
  destruct (String.eqb_spec p "key") as [->|]; [intros [= <-]; by exists ScopeKey|].
  destruct (String.eqb_spec p "subject") as [->|]; [intros [= <-]; by exists ScopeSubject|].
  destruct (String.eqb_spec p "tenant") as [->|]; [intros [= <-]; by exists ScopeTenant|].
  destruct (String.eqb_spec p "route") as [->|]; [intros [= <-]; by exists ScopeRoute|]. done.
Qed.

Lemma fallback_complete unit limit (ox : option AIOnExhaustedSpec) model overflow :
  from_option (fun o => from_option (Z.le 0) True (ox_overflow_tokens o)) True ox ->
  match ox with
  | None => Ok (EmptyString, 0)
  | Some o =>
      if negb (String.eqb unit "TOKENS") then Err FallbackNeedsTokens
      else if is_empty (trim (ox_fallback_model o)) then Err EmptyFallbackModel
      else if default (Z.max (limit / 10) 1) (ox_overflow_tokens o) =? 0 then Err ZeroOverflow
      else Ok (trim (ox_fallback_model o), default (Z.max (limit / 10) 1) (ox_overflow_tokens o))
  end = Ok (model, overflow) ->
  (model = EmptyString \/ unit = "TOKENS") /\ (if is_empty model then overflow = 0 else 1 <= overflow).
Proof.
  intros Hox. destruct ox as [o|]; [|intros [= <- <-]; simpl; auto]. simpl in Hox.
  destruct (String.eqb_spec unit "TOKENS"); [simpl|done]. destruct (is_empty (trim _)) eqn:Hm; [done|].
  destruct (Z.eqb_spec (default (Z.max (limit / 10) 1) (ox_overflow_tokens o)) 0) as [|Hz]; [done|]. intros [= <- <-].
  split; [by right|]. rewrite Hm. destruct (ox_overflow_tokens o); simpl in *; lia.
Qed.

(** A token budget the controller accepts is one the data plane can enforce:
    a positive limit whose unit, window and scope the data plane reads back as
    the ones asked for, with an overflow exactly when a fallback model is named,
    and then only on a budget of tokens. *)
Theorem normalised_budget_enforceable (policy : PolicyObject AIUsageSpec) (n : Normalised) :
  from_option (Z.le 0) True (bu_tokens (us_budget (po_spec policy))) ->
  from_option (Z.le 0) True (bu_calls (us_budget (po_spec policy))) ->
  from_option (fun o => from_option (Z.le 0) True (ox_overflow_tokens o)) True (us_on_exhausted (po_spec policy)) ->
  normalise policy = Ok n ->
  tr_kind (po_target_ref policy) = "AIRoute" /\
  exists u w p,
    Unit_parse (no_unit n) = Some u /\ Unit_as_str u = no_unit n /\
    Window_parse (no_window n) = Some w /\ to_ascii_lowercase (Window_as_str w) = to_ascii_lowercase (bu_window (us_budget (po_spec policy))) /\
    Scope_parse (no_per n) = Some p /\
    to_ascii_lowercase (Scope_as_str p) = to_ascii_lowercase (default "Key" (bu_per (us_budget (po_spec policy)))) /\
    1 <= no_limit n /\
    match u with
    | UnitTokens => bu_tokens (us_budget (po_spec policy)) = Some (no_limit n)
    | UnitCalls => bu_calls (us_budget (po_spec policy)) = Some (no_limit n) /\ no_fallback_model n = EmptyString
    end /\
    (if is_empty (no_fallback_model n) then no_overflow_limit n = 0 else 1 <= no_overflow_limit n).
Proof.
  intros Ht Hc Hox. unfold normalise. destruct (String.eqb_spec (tr_kind (po_target_ref policy)) "AIRoute") as [Hk|]; [simpl|done].
  set (b := us_budget (po_spec policy)) in *. intros Hn. split; [done|].
  destruct (bu_tokens b) as [t|] eqn:Hbt, (bu_calls b) as [c|] eqn:Hbc; try done; simpl in *;
    (match type of Hn with context [?l =? 0] => destruct (Z.eqb_spec l 0); [done|] end);
    (match type of Hn with context [match ?e with _ => _ end] => destruct e as [window|] eqn:Hw; [|done] end);
    (match type of Hn with context [match ?e with _ => _ end] => destruct e as [per|] eqn:Hp; [|done] end);
    (match type of Hn with context [match ?e with _ => _ end] => destruct e as [mode|] eqn:Hmode; [|done] end);
    (match type of Hn with context [match ?e with Ok _ => _ | Err _ => _ end] => destruct e as [[model overflow]|] eqn:Hf; [|done] end);
    injection Hn as <-; apply window_reads_back in Hw as (w & Hw1 & Hw2); apply scope_reads_back in Hp as (p & Hp1 & Hp2);
    simpl.
  - apply (fallback_complete "TOKENS" t) in Hf as [_ Hf]; [|done]. exists UnitTokens, w, p. split_and!; try done. lia.
  - apply (fallback_complete "CALLS" c) in Hf as [[->|] Hf]; [|done..]. exists UnitCalls, w, p. split_and!; try done. lia.
Qed.

Definition demo_budget : PolicyObject AIUsageSpec :=
  {| po_metadata := {| om_name := Some "cap"; om_namespace := Some "ai"; om_generation := Some 1; om_creation_timestamp := Some 5;
                       om_deletion_timestamp := None; om_labels := None |};
     po_target_ref := {| tr_group := "portus-gateway.dev"; tr_kind := "AIRoute"; tr_name := "chat"; tr_section_name := None |};
     po_spec := {| us_budget := {| bu_tokens := Some 5000; bu_calls := None; bu_window := "Daily"; bu_per := Some "Tenant" |};
                   us_on_ledger_unavailable := Some "Closed";
                   us_on_exhausted := Some {| ox_fallback_model := " small "; ox_overflow_tokens := None |} |} |}.

Definition demo_normalised : Normalised :=
  {| no_unit := "TOKENS"; no_limit := 5000; no_window := "DAILY"; no_per := "TENANT"; no_fail_open := false;
     no_fallback_model := "small"; no_overflow_limit := 500 |}.

Lemma normalised_budget_enforceable_witness :
  normalise demo_budget = Ok demo_normalised /\ tr_kind (po_target_ref demo_budget) = "AIRoute".
Proof.
  assert (H : normalise demo_budget = Ok demo_normalised) by (vm_compute; reflexivity).
  split; [exact H|]. apply (normalised_budget_enforceable demo_budget demo_normalised); [simpl; lia|exact I|exact I|exact H].
Defined.

Lemma skip_char_head c s r : skip_char c s <> String c r.
Proof. induction s as [|a s IH]; simpl; [done|]. case_decide; [done|]. by intros [= -> _]. Qed.

Lemma trim_end_char_ends c s : ends_with (String c EmptyString) (trim_end_char c s) = false.
Proof.
  apply not_true_iff_false. rewrite ends_with_spec. intros [p Hp]. unfold trim_end_char in Hp.
  apply (f_equal srev) in Hp. rewrite srev_involutive, srev_append in Hp. by apply skip_char_head in Hp.
Qed.

(** What a validated list of claim headers looks like. *)
Definition claims_safe (claims : list (string * string)) : Prop :=
  NoDup (map snd claims) /\
  Forall (fun p => p.1 <> EmptyString /\ is_header_name p.2 = true /\ to_ascii_lowercase p.2 = p.2 /\ p.2 ∉ RESERVED_HEADERS) claims.

Lemma check_claim_safe issuer acc c acc' : claims_safe acc -> check_claim issuer acc c = Ok acc' -> claims_safe acc'.
Proof.
  intros [Hnd Hall]. unfold check_claim. set (header := to_ascii_lowercase (cth_header c)).
  destruct (is_empty (cth_claim c)) eqn:He; [done|]. destruct (is_header_name header) eqn:Hh; [simpl|done].
  destruct (bool_decide_reflect (header ∈ RESERVED_HEADERS)) as [|Hres]; [done|].
  destruct (existsb _ acc) eqn:Hex; [done|]. intros [= <-]. split.
  - rewrite map_app. apply NoDup_app. split; [done|]. split; [|by apply NoDup_singleton].
    intros x ([cl h] & -> & Hin)%list_elem_of_fmap. simpl. rewrite list_elem_of_singleton. intros ->.
    enough (existsb (fun p => String.eqb p.2 header) acc = true) by congruence.
    apply existsb_exists. exists (cl, header). split; [by apply list_elem_of_In|apply String.eqb_refl].
  - apply Forall_app. split; [done|]. apply Forall_singleton. simpl. split; [intros Hz; by rewrite Hz in He|]. split; [done|].
    split; [apply to_ascii_lowercase_idem|done].
Qed.

Lemma check_claims_safe issuer l acc acc' : claims_safe acc -> check_claims issuer acc l = Ok acc' -> claims_safe acc'.
Proof.
  revert acc. induction l as [|c l IH]; intros acc Hacc; simpl; [by intros [= <-]|].
  destruct (check_claim issuer acc c) as [acc1|] eqn:Hc; [|done]. apply IH. by eapply check_claim_safe.
Qed.

(** The providers of an accepted JWT policy: at least one, each with an http(s)
    issuer that does not end in a slash and key locations that are URLs.  No
    claim is written to a header twice, to a header that carries credentials,
    routing or framing, or to a name that is not a header name. *)
Theorem jwt_providers_safe (spec : JwtSpec) (providers : list JwtProviderState) :
  validate_jwt spec = Ok providers ->
  List.length providers = List.length (jwt_providers spec) /\ providers <> [] /\
  Forall (fun p => is_http_url (jps_issuer p) = true /\ ends_with "/" (jps_issuer p) = false /\
                   from_option (fun u => is_http_url u = true) True (jps_jwks_uri p) /\
                   claims_safe (jps_claim_to_headers p)) providers.
Proof.
  unfold validate_jwt. destruct (jwt_providers spec) as [|p0 ps] eqn:Hps; [done|]. intros Hv.
  apply collect_results_ok in Hv. pose proof (Forall2_length _ _ _ Hv) as Hlen. split; [done|].
  split; [by intros ->|]. clear Hlen Hps. induction Hv as [|p st l l' Hp _ IH]; [constructor|]. constructor; [|done].
  unfold validate_provider in Hp. destruct (is_http_url (trim_end_char "/" (jp_issuer p))) eqn:Hi; [simpl in Hp|simpl in Hp; discriminate].
  destruct (jp_jwks_uri p) as [u|] eqn:Hu; [destruct (is_http_url u) eqn:Hurl; [simpl in Hp|done]|];
    (destruct (check_claims _ _ _) as [claims|] eqn:Hc; [|done]); injection Hp as <-; simpl; rewrite ?Hu; simpl;
    (split; [done|]; split; [apply trim_end_char_ends|]; split; [done|]);
    (eapply check_claims_safe; [|exact Hc]; split; constructor).
Qed.

Definition demo_jwt : JwtSpec :=
  {| jwt_providers := [{| jp_issuer := "https://id.example.com/"; jp_audiences := ["shop"]; jp_jwks_uri := None;
                          jp_claim_to_headers := [{| cth_claim := "sub"; cth_header := "X-User" |}] |}] |}.

Definition demo_provider : JwtProviderState :=
  {| jps_issuer := "https://id.example.com"; jps_audiences := ["shop"]; jps_jwks_uri := None;
     jps_claim_to_headers := [("sub", "x-user")] |}.

Lemma jwt_providers_safe_witness :
  validate_jwt demo_jwt = Ok [demo_provider] /\ claims_safe (jps_claim_to_headers demo_provider).
Proof.
  assert (H : validate_jwt demo_jwt = Ok [demo_provider]) by (vm_compute; reflexivity). split; [exact H|].
  destruct (jwt_providers_safe demo_jwt [demo_provider] H) as (_ & _ & Hf). apply Forall_cons in Hf as [(_ & _ & _ & Hc) _]. exact Hc.
Defined.

Section KeySources.
Context {JC : JsonCrate}.

(** Every key set held was served, by one of the visits made, for its issuer at
    the location it is held for. *)
Definition keys_sourced (seen : list Visit) (keys : gmap string IssuerKeysState) : Prop :=
  forall issuer st json, keys !! issuer = Some st -> iks_jwks_json st = Some json ->
    exists v, v ∈ seen /\ fetch (vi_get v) issuer (iks_jwks_uri st) = Ok json.

Lemma keys_sourced_mono seen seen' keys : seen ⊆ seen' -> keys_sourced seen keys -> keys_sourced seen' keys.
Proof. intros Hsub Hs issuer st json Hk Hj. destruct (Hs issuer st json Hk Hj) as (v & Hv & Hf). eauto. Qed.

Lemma refresh_one_other v p keys issuer : issuer <> jps_issuer p -> (refresh_one v p keys).1 !! issuer = keys !! issuer.
Proof. intros Hne. unfold refresh_one. destruct (match _ with Some _ => _ | None => _ end); [done|]. simpl. by rewrite lookup_insert_ne. Qed.

Lemma refresh_one_sourced v p keys seen : keys_sourced seen keys -> keys_sourced (v :: seen) (refresh_one v p keys).1.
Proof.
  intros Hs issuer st json. unfold refresh_one.
  destruct (match keys !! jps_issuer p with Some _ => _ | None => _ end); simpl.
  { intros Hk Hj. destruct (Hs issuer st json Hk Hj) as (w & Hw & Hf). exists w. split; [by right|done]. }
  destruct (decide (issuer = jps_issuer p)) as [->|Hne].
  2:{ rewrite lookup_insert_ne by done. intros Hk Hj. destruct (Hs issuer st json Hk Hj) as (w & Hw & Hf). exists w. split; [by right|done]. }
  rewrite lookup_insert_eq. intros [= <-]. destruct (fetch (vi_get v) (jps_issuer p) (jps_jwks_uri p)) as [j|e] eqn:Hf; simpl.
  - intros [= ->]. exists v. split; [by left|done].
  - destruct (keys !! jps_issuer p) as [prev|] eqn:Hp; [|done]. case_bool_decide as Hu; [|done]. intros Hj.
    destruct (Hs _ _ _ Hp Hj) as (w & Hw & Hfw). exists w. split; [by right|]. by rewrite <- Hu.
Qed.

(** What one turn leaves for its own issuer. *)
Definition refreshed (v : Visit) (p : JwtProviderState) (previous : option IssuerKeysState) (st : IssuerKeysState) : Prop :=
  iks_jwks_uri st = jps_jwks_uri p /\
  (forall json, fetch (vi_get v) (jps_issuer p) (jps_jwks_uri p) = Ok json ->
     iks_jwks_json st = Some json \/
     (previous = Some st /\ saturating_sub (vi_now v) (iks_fetched_at st) < MIN_REFETCH)) /\
  (forall prev, previous = Some prev -> iks_jwks_uri prev = jps_jwks_uri p -> is_Some (iks_jwks_json prev) -> is_Some (iks_jwks_json st)).

Lemma refresh_one_own v p keys :
  exists st, (refresh_one v p keys).1 !! jps_issuer p = Some st /\ refreshed v p (keys !! jps_issuer p) st.
Proof.
  unfold refresh_one, refreshed. destruct (keys !! jps_issuer p) as [prev|] eqn:Hp.
  - destruct (bool_decide_reflect (iks_jwks_uri prev = jps_jwks_uri p)) as [Hu|Hu]; simpl.
    + destruct (Z.ltb_spec (saturating_sub (vi_now v) (iks_fetched_at prev)) MIN_REFETCH) as [Hlt|Hge]; simpl.
      * exists prev. split_and!; try done; [by right|]. by intros ? [= <-].
      * rewrite lookup_insert_eq. eexists. split; [done|].
        destruct (fetch (vi_get v) (jps_issuer p) (jps_jwks_uri p)) as [j|e]; simpl; split_and!; try done.
        -- intros ? [= <-]. by left.
        -- by intros ? [= <-].
    + rewrite lookup_insert_eq. eexists. split; [done|].
      destruct (fetch (vi_get v) (jps_issuer p) (jps_jwks_uri p)) as [j|e]; simpl; split_and!; try done.
      * intros ? [= <-]. by left.
      * intros ? [= <-]. done.
  - simpl. rewrite lookup_insert_eq. eexists. split; [done|].
    destruct (fetch (vi_get v) (jps_issuer p) (jps_jwks_uri p)) as [j|e]; simpl; split_and!; try done.
    intros ? [= <-]. by left.
Qed.

Lemma refresh_other visit providers keys issuer :
  issuer ∉ map jps_issuer providers -> (refresh_issuer_keys visit providers keys).1 !! issuer = keys !! issuer.
Proof.
  revert visit keys. induction providers as [|p ps IH]; intros visit keys Hn; simpl; [done|].
  simpl in Hn. apply not_elem_of_cons in Hn as [Hne Hn]. pose proof (refresh_one_other (visit O) p keys issuer Hne) as H1.
  destruct (refresh_one (visit O) p keys) as [k1 c1]. specialize (IH (fun i => visit (S i)) k1 Hn).
  destruct (refresh_issuer_keys _ ps k1) as [k2 c2]. simpl in *. by rewrite IH.
Qed.

(** A refresh of the issuers of a policy: every key set in the store was served
    for its issuer at the location the set is held for, so keys of an earlier
    location are never used for a new one.  Each issuer ends with the location
    its provider names, and with the keys served there now unless they were
    fetched within the last minute; a fetch that fails loses no keys. *)
Theorem issuer_keys_sourced (visit : nat -> Visit) (providers : list JwtProviderState) (keys : gmap string IssuerKeysState)
    (seen : list Visit) :
  keys_sourced seen keys -> NoDup (map jps_issuer providers) ->
  let keys' := (refresh_issuer_keys visit providers keys).1 in
  keys_sourced (map visit (seq 0 (List.length providers)) ++ seen) keys' /\
  forall i p, providers !! i = Some p ->
    exists st, keys' !! jps_issuer p = Some st /\ refreshed (visit i) p (keys !! jps_issuer p) st.
Proof.
  revert visit keys seen. induction providers as [|p ps IH]; intros visit keys seen Hs Hnd; simpl; [done|].
  simpl in Hnd. apply NoDup_cons in Hnd as [Hn Hnd].
  pose proof (refresh_one_sourced (visit O) p keys seen Hs) as Hs1. pose proof (refresh_one_own (visit O) p keys) as Hown.
  pose proof (refresh_one_other (visit O) p keys) as Hoth.
  destruct (refresh_one (visit O) p keys) as [k1 c1]; simpl in *.
  destruct (IH (fun i => visit (S i)) k1 _ Hs1 Hnd) as [Hs2 Hall].
  pose proof (refresh_other (fun i => visit (S i)) ps k1) as Hrest.
  destruct (refresh_issuer_keys _ ps k1) as [k2 c2]; simpl in *. split.
  - eapply keys_sourced_mono; [|exact Hs2]. rewrite <- seq_shift, map_map. intros v. rewrite !elem_of_app, !elem_of_cons, elem_of_app. tauto.
  - intros [|i] q Hq; simpl in Hq.
    + injection Hq as <-. destruct Hown as (st & Hst & Hr). exists st. by rewrite Hrest.
    + destruct (Hall i q Hq) as (st & Hst & Hr). exists st. split; [done|]. rewrite Hoth in Hr; [done|].
      intros Heq. apply Hn. rewrite <- Heq. apply list_elem_of_fmap. exists q. split; [done|]. by eapply list_elem_of_lookup_2.
Qed.
End KeySources.

(** A document is its own text; any of them holds one key. *)
Definition demo_json : JsonCrate :=
  {| json_value := string; json_parse := Some; json_get v k := if String.eqb k "keys" then Some v else None;
     json_str := Some; json_array v := Some [v] |}.

Definition demo_visit (i : nat) : Visit :=
  {| vi_now := 100; vi_get := fun url => Ok {| ha_status := 200; ha_status_text := "200 OK"; ha_text := Ok url |}; vi_done := 120 |}.

Lemma issuer_keys_sourced_witness :
  exists st, (@refresh_issuer_keys demo_json demo_visit [demo_provider] ∅).1 !! "https://id.example.com" = Some st /\
             iks_jwks_json st = Some "https://id.example.com/keys".
Proof.
  destruct (@issuer_keys_sourced demo_json demo_visit [demo_provider] ∅ []) as [_ H].
  - intros issuer st json Hk. rewrite lookup_empty in Hk. discriminate.
  - repeat constructor. apply not_elem_of_nil.
  - destruct (H O demo_provider eq_refl) as (st & Hst & _ & Hj & _). exists st. split; [exact Hst|].
    destruct (Hj "https://id.example.com/keys" ltac:(vm_compute; reflexivity)) as [Hs|[Hs _]]; [exact Hs|].
    rewrite lookup_empty in Hs. discriminate.
Defined.

(** ** Where the code falls short *)

Definition demo_store (secrets : gmap NamespacedName SecretState) (basic : gmap NamespacedName BasicAuthPolicyState) : ConfigStore :=
  set_secrets secrets (set_basic_auth_policies basic ConfigStore_new).

Definition demo_basic (name secret_ns secret : string) (created : Z) : PolicyObject BasicAuthSpec :=
  {| po_metadata := {| om_name := Some name; om_namespace := Some "shop"; om_generation := Some 1;
                       om_creation_timestamp := Some created; om_deletion_timestamp := None; om_labels := None |};
     po_target_ref := {| tr_group := "gateway.networking.k8s.io"; tr_kind := "HTTPRoute"; tr_name := "cart"; tr_section_name := None |};
     po_spec := {| ba_secret_ref := {| sr_name := secret; sr_namespace := Some secret_ns |}; ba_realm := None |} |}.

Definition demo_secrets : gmap NamespacedName SecretState :=
  {[ {| nn_namespace := "vault"; nn_name := "users" |} := {["root" := "hash"]};
     {| nn_namespace := "shop"; nn_name := "own" |} := {["clerk" := "hash"]} ]}.

(** The reconciles of a list of policies, each on the state the last one left;
    with the events published. *)
Definition demo_basic_run (ps : list (PolicyObject BasicAuthSpec)) : gmap NamespacedName BasicAuthPolicyState * list (option StoreEvent) :=
  fold_left (fun '(m, evs) p =>
    match reconcile_publishing "BasicAuthPolicy" (po_metadata p)
            (fun m => @reconcile_basic_auth_policy listed_order {| message_text _ := EmptyString |} p true (demo_store demo_secrets m)) m with
    | Ok (m, _, ev) => (m, evs ++ [ev])
    | Err _ => (m, evs)
    end) ps (∅, []).

(** A policy that names a Secret of another namespace without a grant is
    refused by its own reconcile ([RefNotPermitted]).  A younger policy on the
    same target then accepts it: conflict resolution counts refused policies
    and sets the flag of the oldest.  The refused policy runs again and is
    refused again, the younger one runs again and accepts it again, and there
    the events end: the flag the compiler reads says accepted. *)
Example sibling_accepts_ungranted_secret :
  let foreign := demo_basic "foreign" "vault" "users" 10 in
  let own := demo_basic "own" "shop" "own" 20 in
  let '(m1, ev1) := demo_basic_run [foreign] in
  let '(m4, ev4) := demo_basic_run [foreign; own; foreign; own] in
  (policy_accepted <$> m1 !! demo_key "foreign") = Some false /\
  (policy_accepted <$> m4 !! demo_key "foreign") = Some true /\
  (baps_secret_namespace <$> m4 !! demo_key "foreign") = Some "vault" /\
  (policy_accepted <$> m4 !! demo_key "own") = Some false /\
  last ev4 = Some None.
Proof. vm_compute. done. Qed.

Section ManyTargets.
Context `{IO : IterOrder} {MT : MessageText}.

Lemma resolve_target (current k : NamespacedName) t (m : gmap NamespacedName BackendTLSPolicyState) p :
  m !! k = Some p -> exists p', resolve_conflicts current t m !! k = Some p' /\ policy_target p' = policy_target p.
Proof.
  intros Hp. unfold resolve_conflicts. pose proof (contenders_nodup t m) as Hnd.
  destruct (contenders t m) as [|first [|second rest]].
  1,2: destruct (decide (current = k)) as [->|Hne];
    [rewrite lookup_alter_eq, Hp; simpl; eexists; split; done
    |rewrite lookup_alter_ne by done; eauto].
  rewrite (fold_alter (fun k => set_accepted (bool_decide (k = _)))) by done. rewrite Hp.
  destruct (bool_decide _); simpl; eexists; by split.
Qed.

(** A BackendTLSPolicy with several targets is stored under one key, each
    target overwriting the one before: only the last Service gets TLS. *)
Theorem backend_tls_keeps_last_target (policy : BackendTLSObject) (store : ConfigStore)
    (policies : gmap NamespacedName BackendTLSPolicyState) (conditions : option (list Condition)) (first : list PolicyTargetRef)
    (final : PolicyTargetRef) :
  bt_target_refs policy = first ++ [final] ->
  reconcile_backend_tls_policy policy store = Ok (policies, conditions) ->
  exists s, policies !! key_of (bt_metadata policy) = Some s /\
            policy_target s = target_in (nn_namespace (key_of (bt_metadata policy))) final.
Proof.
  intros Hts. unfold reconcile_backend_tls_policy, policy_key, ok_or, key_of.
  destruct (om_name (bt_metadata policy)) as [n|]; [|done]. destruct (om_namespace (bt_metadata policy)) as [ns|]; [|done].
  intros [= <- _]. simpl. rewrite Hts, fold_left_app. simpl.
  set (k := {| nn_namespace := ns; nn_name := n |}).
  destruct (match bv_ca_certificate_refs (bt_validation policy) with [] => _ | _ => _ end).
  - match goal with |- context [resolve_conflicts k ?t (<[k:=?st]> ?m)] =>
      destruct (resolve_target k k t (<[k:=st]> m) st (lookup_insert_eq _ _ _)) as (p' & Hp' & Ht) end.
    exists p'. split; [exact Hp'|]. by rewrite Ht.
  - rewrite lookup_insert_eq. by eexists.
Qed.
End ManyTargets.
