(* ===== verification/Triggers.v ===== *)
(** * Dependency triggers

    [portus-controller/src/triggers.rs]: which objects run again when the
    store changes, the watches of [main.rs] that name Gateways, and the
    HTTPRoute controller as a whole: objects, work queue and the events that
    have not reached it.  The main result is that once the events and the
    queue are worked off every route is stored as the store asks for,
    whatever the other reconcilers did in between. *)
From S2P Require Import Prelude Text Proto Resources Hostnames Policies Objects HttpRoute Routes AiResources Caches Gateways PolicyKinds.
From Stdlib Require Import String.
Open Scope Z_scope.

(** ** Routes *)

(** [parent_key] *)
Definition parent_key (pr : ParentReference) (route_namespace : string) : ParentKind * NamespacedName :=
  (if bool_decide (pr_kind pr = Some "ListenerSet") then ParentListenerSet else ParentGateway,
   {| nn_namespace := default route_namespace (pr_namespace pr); nn_name := pr_name pr |}).

(** [service_key] *)
Definition service_key (namespace : option string) (name route_namespace : string) : NamespacedName :=
  {| nn_namespace := default route_namespace namespace; nn_name := name |}.

(** [RouteRefs]: what every route kind exposes. *)
Class RouteRefs (Spec : Type) := {
  parent_refs : Spec -> list ParentReference;
  backend_services : string -> Spec -> list NamespacedName;
}.

Definition refs_services (ns : string) (rules : list (list RouteBackendRef)) : list NamespacedName :=
  map (fun b => service_key (rbr_namespace b) (rbr_name b) ns) (List.concat rules).

#[export] Instance HTTPRoute_refs : RouteRefs HTTPRouteSpec :=
  {| parent_refs := hsp_parent_refs;
     backend_services ns spec :=
       map (fun b => service_key (hbr_namespace b) (hbr_name b) ns) (flat_map hru_backend_refs (hsp_rules spec)) |}.
#[export] Instance AIRoute_refs : RouteRefs AIRouteSpec := {| parent_refs := asp_parent_refs; backend_services _ _ := [] |}.
#[export] Instance GRPCRoute_refs : RouteRefs GRPCRouteSpec :=
  {| parent_refs := gsp_parent_refs; backend_services ns spec := refs_services ns (map gru_backend_refs (gsp_rules spec)) |}.
#[export] Instance TLSRoute_refs : RouteRefs TLSRouteSpec :=
  {| parent_refs := tsp_parent_refs; backend_services ns spec := refs_services ns (tsp_rules spec) |}.
#[export] Instance L4Route_refs : RouteRefs L4RouteSpec :=
  {| parent_refs := lsp_parent_refs; backend_services ns spec := refs_services ns (lsp_rules spec) |}.

Definition meta_namespace (m : ObjectMeta) : string := default EmptyString (om_namespace m).

(** [RouteRefs::parents] *)
Definition ref_parents {Spec} `{RouteRefs Spec} (route : RouteObject Spec) : list (ParentKind * NamespacedName) :=
  map (fun pr => parent_key pr (meta_namespace (ro_metadata route))) (parent_refs (ro_spec route)).

(** The test of [routes_for]. *)
Definition route_affected {Spec} `{RouteRefs Spec} (event : StoreEvent) (route : RouteObject Spec) : bool :=
  let ns := meta_namespace (ro_metadata route) in
  let services := backend_services ns (ro_spec route) in
  match event with
  | EvGateway gw => bool_decide ((ParentGateway, gw) ∈ ref_parents route)
  | EvListenerSet key _ => bool_decide ((ParentListenerSet, key) ∈ ref_parents route)
  | EvService svc => bool_decide (svc ∈ services)
  | EvReferenceGrant namespace => existsb (fun s => negb (String.eqb (nn_namespace s) ns) && String.eqb (nn_namespace s) namespace) services
  | EvNamespace name => String.eqb ns name
  | EvGatewayClass _ | EvRoute _ _ _ _ | EvPolicy _ _ _ | EvProgrammed _ => false
  end.

(** [routes_for] *)
Definition routes_for {Spec} `{RouteRefs Spec} (event : StoreEvent) (routes : list (RouteObject Spec)) : list NamespacedName :=
  map (fun r => key_of (ro_metadata r)) (List.filter (route_affected event) routes).

(** ** Gateways and ListenerSets *)

(** The CA references of [spec.tls.frontend], the default first. *)
Definition frontend_ca_refs (gw : GatewayObject) : list ObjectReference :=
  match (t ← gwp_tls (gwo_spec gw); gwt_frontend t) with
  | Some f => flat_map ftv_ca_certificate_refs (omap id (ftc_default f :: map snd (ftc_per_port f)))
  | None => []
  end.

Definition client_cert_ref (gw : GatewayObject) : option SecretObjectReference :=
  t ← gwp_tls (gwo_spec gw); b ← gwt_backend t; b.

(** [gateway_references_namespace] *)
Definition gateway_references_namespace (gw : GatewayObject) (namespace : string) : bool :=
  let in_ns n := bool_decide (n = Some namespace) in
  existsb (fun r => in_ns (sor_namespace r))
    (flat_map gtc_certificate_refs (omap lsn_tls (gwp_listeners (gwo_spec gw)))) ||
  existsb (fun r => in_ns (sor_namespace r)) (option_list (client_cert_ref gw)) ||
  existsb (fun r => in_ns (or_namespace r)) (frontend_ca_refs gw).

(** [gateway_uses_selectors] *)
Definition gateway_uses_selectors (gw : GatewayObject) : bool :=
  existsb (fun l => bool_decide ((a ← lsn_allowed_routes l; n ← alr_namespaces a; rns_from n) = Some "Selector"))
    (gwp_listeners (gwo_spec gw)) ||
  bool_decide ((a ← gwp_allowed_listeners (gwo_spec gw); n ← a; rns_from n) = Some "Selector").

(** [gateways_for] *)
Definition gateways_for (event : StoreEvent) (gws : list GatewayObject) (store : ConfigStore) : list NamespacedName :=
  let those p := map (fun gw => key_of (gwo_metadata gw)) (List.filter p gws) in
  match event with
  | EvGatewayClass class => those (fun gw => String.eqb (gwp_gateway_class_name (gwo_spec gw)) class)
  | EvProgrammed gw => [gw]
  | EvListenerSet _ parent => [parent]
  | EvRoute _ _ parents _ =>
      dedup_adjacent (sort_by name_compare
        (omap (fun p => match p.1 with
                        | ParentGateway => Some p.2
                        | ParentListenerSet => lss_parent_gateway <$> st_listener_sets store !! p.2
                        end) parents))
  | EvReferenceGrant namespace => those (fun gw => gateway_references_namespace gw namespace)
  | EvNamespace _ => those gateway_uses_selectors
  | EvGateway _ | EvService _ | EvPolicy _ _ _ => []
  end.

(** [listener_set_parent] *)
Definition listener_set_parent (ls : ListenerSet) : NamespacedName :=
  {| nn_namespace := default EmptyString (match lso_parent_namespace ls with Some n => Some n | None => om_namespace (lso_metadata ls) end);
     nn_name := lso_parent_name ls |}.

Definition listener_set_affected (event : StoreEvent) (ls : ListenerSet) : bool :=
  match event with
  | EvGateway gw | EvProgrammed gw => bool_decide (listener_set_parent ls = gw)
  | EvListenerSet key parent => bool_decide (listener_set_parent ls = parent) && negb (bool_decide (key_of (lso_metadata ls) = key))
  | EvRoute _ _ parents _ => bool_decide ((ParentListenerSet, key_of (lso_metadata ls)) ∈ parents)
  | EvNamespace _ => true
  | EvGatewayClass _ | EvReferenceGrant _ | EvService _ | EvPolicy _ _ _ => false
  end.

(** [listener_sets_for] *)
Definition listener_sets_for (event : StoreEvent) (sets : list ListenerSet) : list NamespacedName :=
  map (fun ls => key_of (lso_metadata ls)) (List.filter (listener_set_affected event) sets).

(** [backend_tls_policies_for] *)
Definition backend_tls_policies_for (event : StoreEvent) (policies : list BackendTLSObject) : list NamespacedName :=
  let targets p := map (fun t => {| nn_namespace := meta_namespace (bt_metadata p); nn_name := tr_name t |}) (bt_target_refs p) in
  let affected p :=
    match event with
    | EvProgrammed _ => true
    | EvPolicy kind key target =>
        String.eqb kind "BackendTLSPolicy" && negb (bool_decide (key_of (bt_metadata p) = key)) &&
        existsb (fun t => String.eqb (nn_namespace t) (ptk_namespace target) && String.eqb (nn_name t) (ptk_name target)) (targets p)
    | EvRoute _ _ _ backends => existsb (fun t => bool_decide (t ∈ backends)) (targets p)
    | _ => false
    end in
  map (fun p => key_of (bt_metadata p)) (List.filter affected policies).

(** [gateway_references_ca_config_map] *)
Definition gateway_references_ca_config_map (gw : GatewayObject) (ns name : string) : bool :=
  let gw_ns := default "default" (om_namespace (gwo_metadata gw)) in
  existsb (fun r => String.eqb (or_name r) name && is_empty (or_group r) && (is_empty (or_kind r) || String.eqb (or_kind r) "ConfigMap") &&
                    String.eqb (default gw_ns (or_namespace r)) ns) (frontend_ca_refs gw).

(** [gateway_references_client_cert_secret] *)
Definition gateway_references_client_cert_secret (gw : GatewayObject) (ns name : string) : bool :=
  let gw_ns := default "default" (om_namespace (gwo_metadata gw)) in
  existsb (fun r => String.eqb (sor_name r) name && is_empty (default EmptyString (sor_group r)) &&
                    String.eqb (default "Secret" (sor_kind r)) "Secret" && String.eqb (default gw_ns (sor_namespace r)) ns)
          (option_list (client_cert_ref gw)).

(** ** What the state of an HTTPRoute depends on *)

Section Depends.
Context `{IO : IterOrder} (regex_ok : string -> bool).

Definition parent_kept (s s' : ConfigStore) (p : ParentKind * NamespacedName) : Prop :=
  match p.1 with
  | ParentGateway => st_gateways s !! p.2 = st_gateways s' !! p.2
  | ParentListenerSet => st_listener_sets s !! p.2 = st_listener_sets s' !! p.2
  end.

(** The stores agree on all the route reads. *)
Record agrees (route : RouteObject HTTPRouteSpec) (s s' : ConfigStore) : Prop := {
  ag_parents p : p ∈ ref_parents route -> parent_kept s s' p;
  ag_labels : st_namespace_labels s !! meta_namespace (ro_metadata route) = st_namespace_labels s' !! meta_namespace (ro_metadata route);
  ag_services k : k ∈ backend_services (meta_namespace (ro_metadata route)) (ro_spec route) ->
    svc_exists s (nn_namespace k) (nn_name k) = svc_exists s' (nn_namespace k) (nn_name k);
  ag_grants k name : k ∈ backend_services (meta_namespace (ro_metadata route)) (ro_spec route) ->
    nn_namespace k <> meta_namespace (ro_metadata route) ->
    is_reference_allowed (st_reference_grants s) (meta_namespace (ro_metadata route)) "HTTPRoute" (nn_namespace k) "Service" name =
    is_reference_allowed (st_reference_grants s') (meta_namespace (ro_metadata route)) "HTTPRoute" (nn_namespace k) "Service" name;
}.

Lemma ref_parents_key (route : RouteObject HTTPRouteSpec) pr :
  pr ∈ hsp_parent_refs (ro_spec route) -> (ref_kind pr, ref_key (meta_namespace (ro_metadata route)) pr) ∈ ref_parents route.
Proof.
  intros Hin. unfold ref_parents. apply list_elem_of_fmap. exists pr. split; [|done]. unfold parent_key, ref_kind, ref_key. f_equal.
  destruct (pr_kind pr) as [kind|]; simpl; [|done]. destruct (String.eqb_spec kind "ListenerSet") as [->|Hne].
  - by rewrite bool_decide_true.
  - rewrite bool_decide_false; [done|]. by intros [= ?].
Qed.

Lemma offered_kept s s' kind key : parent_kept s s' (kind, key) -> offered s kind key = offered s' kind key.
Proof. unfold parent_kept, offered. by destruct kind; simpl; intros ->. Qed.

Lemma bind_kept route s s' labels :
  agrees route s s' ->
  bind_to_parents (meta_namespace (ro_metadata route)) labels (hsp_hostnames (ro_spec route)) (hsp_parent_refs (ro_spec route)) s =
  bind_to_parents (meta_namespace (ro_metadata route)) labels (hsp_hostnames (ro_spec route)) (hsp_parent_refs (ro_spec route)) s'.
Proof.
  intros Ha. apply omap_ext_in. intros pr Hpr. unfold bind_parent. fold (ref_kind pr) (ref_key (meta_namespace (ro_metadata route)) pr).
  by rewrite (offered_kept s s') by (by apply (ag_parents _ _ _ Ha), ref_parents_key).
Qed.

Lemma backends_kept route s s' rule :
  agrees route s s' -> rule ∈ hsp_rules (ro_spec route) ->
  resolve_backend_refs (hru_backend_refs rule) (meta_namespace (ro_metadata route)) s =
  resolve_backend_refs (hru_backend_refs rule) (meta_namespace (ro_metadata route)) s'.
Proof.
  intros Ha Hrule. apply fold_left_ext_in. intros acc b Hb. unfold resolve_backend_ref.
  assert (Hk : service_key (hbr_namespace b) (hbr_name b) (meta_namespace (ro_metadata route))
               ∈ backend_services (meta_namespace (ro_metadata route)) (ro_spec route)).
  { apply list_elem_of_fmap. exists b. split; [done|]. rewrite list_elem_of_In, in_flat_map. exists rule. by rewrite <- !list_elem_of_In. }
  pose proof (ag_services _ _ _ Ha _ Hk) as Hs. simpl in Hs. rewrite Hs.
  destruct (String.eqb_spec (default (meta_namespace (ro_metadata route)) (hbr_namespace b)) (meta_namespace (ro_metadata route)))
    as [->|Hne]; [done|].
  pose proof (ag_grants _ _ _ Ha _ (Some (hbr_name b)) Hk Hne) as Hg. simpl in Hg. by rewrite Hg.
Qed.

Lemma rules_kept route s s' :
  agrees route s s' ->
  convert_rules regex_ok s (meta_namespace (ro_metadata route)) (hsp_rules (ro_spec route)) =
  convert_rules regex_ok s' (meta_namespace (ro_metadata route)) (hsp_rules (ro_spec route)).
Proof.
  intros Ha. apply fold_left_ext_in. intros [[states all] reason] rule Hrule. unfold convert_rule. by rewrite (backends_kept _ _ _ _ Ha Hrule).
Qed.

Lemma known_kept route s s' labels resolved :
  agrees route s s' ->
  let prefs := report_backends resolved (bind_to_parents (meta_namespace (ro_metadata route)) labels (hsp_hostnames (ro_spec route))
                                           (hsp_parent_refs (ro_spec route)) s') in
  any_parent_known s prefs = any_parent_known s' prefs.
Proof.
  intros Ha prefs. apply existsb_ext_in. intros p (q & -> & Hq)%list_elem_of_fmap.
  apply bind_to_parents_elem in Hq as (pr & Hpr & Hq%bind_parent_names). destruct Hq as (Hkind & Hkey & _).
  pose proof (ag_parents _ _ _ Ha _ (ref_parents_key route pr Hpr)) as Hp. rewrite <- Hkind, <- Hkey in Hp.
  unfold parent_kept in Hp. destruct (pref_accepted q); unfold parent_known, with_resolved, pref_key in *; simpl in *;
    destruct (pref_parent_kind q); by rewrite Hp.
Qed.

(** A route looks at nothing else. *)
Lemma http_route_state_kept route s s' :
  agrees route s s' ->
  http_route_state regex_ok route (meta_namespace (ro_metadata route)) s = http_route_state regex_ok route (meta_namespace (ro_metadata route)) s'.
Proof.
  intros Ha. unfold http_route_state, namespace_labels_of. rewrite (ag_labels _ _ _ Ha), (bind_kept _ _ _ _ Ha), (rules_kept _ _ _ Ha).
  destruct (convert_rules _ _ _ _) as [[rules all] reason]. by rewrite (known_kept _ _ _ _ _ Ha).
Qed.
End Depends.

(** ** Reconcilers that write what routes read *)

Section Announce.
Context `{IO : IterOrder} `{PEM : Pem}.

(** The events tell of every change a route can see. *)
Record announced (s s' : ConfigStore) (es : list StoreEvent) : Prop := {
  an_gateways k : st_gateways s !! k = st_gateways s' !! k \/ EvGateway k ∈ es;
  an_sets k : st_listener_sets s !! k = st_listener_sets s' !! k \/ exists parent, EvListenerSet k parent ∈ es;
  an_labels n : st_namespace_labels s !! n = st_namespace_labels s' !! n \/ EvNamespace n ∈ es;
  an_services k : svc_exists s (nn_namespace k) (nn_name k) = svc_exists s' (nn_namespace k) (nn_name k) \/ EvService k ∈ es;
  an_grants k : st_reference_grants s !! k = st_reference_grants s' !! k \/ EvReferenceGrant (nn_namespace k) ∈ es;
  an_routes : st_http_routes s = st_http_routes s';
}.

(** A grant is stored under its own namespace. *)
Definition grants_keyed (s : ConfigStore) : Prop :=
  forall k g, st_reference_grants s !! k = Some g -> rgs_namespace g = nn_namespace k.

(** Nothing a route reads is different. *)
Record unrelated (s s' : ConfigStore) : Prop := {
  un_gateways : st_gateways s = st_gateways s';
  un_sets : st_listener_sets s = st_listener_sets s';
  un_labels : st_namespace_labels s = st_namespace_labels s';
  un_services ns n : svc_exists s ns n = svc_exists s' ns n;
  un_grants : st_reference_grants s = st_reference_grants s';
  un_routes : st_http_routes s = st_http_routes s';
}.

Lemma unrelated_announced s s' es : unrelated s s' -> announced s s' es.
Proof. intros [H1 H2 H3 H4 H5 H6]. split; try (intros ?; left; congruence); done. Qed.

(** The world moved on, and said so. *)
Definition tells (w w' : World) : Prop :=
  exists es, w_events w' = w_events w ++ es /\ announced (w_store w) (w_store w') es /\
             (grants_keyed (w_store w) -> grants_keyed (w_store w')).

Lemma tells_refl w : tells w w.
Proof. exists []. rewrite app_nil_r. split; [done|]. split; [|done]. by apply unrelated_announced. Qed.

Lemma tells_unrelated w w' es : unrelated (w_store w) (w_store w') -> w_events w' = w_events w ++ es -> tells w w'.
Proof.
  intros Hu He. exists es. split; [done|]. split; [by apply unrelated_announced|]. unfold grants_keyed. by rewrite (un_grants _ _ Hu).
Qed.

(** What the two writes of the store do. *)
Lemma insert_outcome `{Countable K} {V} `{!EqDecision V} (slot : Slot K V) k v w :
  insert_and_notify slot k v w = (w, false) \/
  insert_and_notify slot k v w = (notify_change (write (slot_set slot (<[k := v]> (slot_get slot (w_store w)))) w), true).
Proof. unfold insert_and_notify. destruct (match _ with Some _ => _ | None => _ end); auto. Qed.

Lemma remove_outcome `{Countable K} {V} (slot : Slot K V) k w :
  remove_and_notify slot k w = (w, None) \/
  exists gone, slot_get slot (w_store w) !! k = Some gone /\
    remove_and_notify slot k w = (notify_change (write (slot_set slot (delete k (slot_get slot (w_store w)))) w), Some gone).
Proof. unfold remove_and_notify. destruct (_ !! k) as [gone|]; eauto. Qed.

(** A change of one map at one key, with one event. *)
Ltac one_change k :=
  eexists [_]; split; [reflexivity|]; split; [split; try (intros ?; left; reflexivity); try reflexivity; intros k'; simpl;
    destruct (decide (k' = k)) as [->|]; [right; set_solver|left; by rewrite ?lookup_insert_ne, ?lookup_delete_ne by done]|done].

Lemma namespace_tells m w w' : reconcile_namespace m w = Ok w' -> tells w w'.
Proof.
  unfold reconcile_namespace, forget_namespace. destruct (om_name m) as [name|]; simpl; [|done]. destruct (deleting m).
  - destruct (remove_outcome namespace_labels name w) as [->|(gone & _ & ->)]; intros [= <-]; [apply tells_refl|one_change name].
  - destruct (insert_outcome namespace_labels name (default ∅ (om_labels m)) w) as [-> | ->]; intros [= <-]; [apply tells_refl|one_change name].
Qed.

Lemma forget_namespace_tells name w : tells w (forget_namespace name w).
Proof.
  unfold forget_namespace. destruct (remove_outcome namespace_labels name w) as [->|(gone & _ & ->)]; [apply tells_refl|one_change name].
Qed.

Lemma gone_listener_set_tells k w : tells w (gone_listener_set k w).1.
Proof.
  unfold gone_listener_set. destruct (remove_outcome listener_sets k w) as [->|(gone & _ & ->)]; [apply tells_refl|one_change k].
Qed.

Lemma listener_set_tells ls current w w' status : reconcile_listener_set ls current w = Ok (w', status) -> tells w w'.
Proof.
  unfold reconcile_listener_set. destruct (policy_key _) as [k|]; [|done]. destruct (deleting _); [intros [= <- _]; apply gone_listener_set_tells|].
  destruct (evaluate_listener_set _ _ _) as [[state top] per].
  destruct (insert_outcome listener_sets k state w) as [-> | ->]; intros [= <- _]; [apply tells_refl|one_change k].
Qed.

(** *** Gateways *)

Lemma store_gateway_tells k tls state w : tells w (store_gateway k tls state w).
Proof.
  unfold store_gateway. set (tls_changed := if bool_decide _ then _ else _). set (w1 := write _ w).
  destruct (insert_outcome gateways k state w1) as [-> | ->]; simpl.
  - rewrite andb_true_r. destruct tls_changed; simpl.
    + apply (tells_unrelated _ _ [EvGateway k]); [split|]; reflexivity.
    + apply (tells_unrelated _ _ []); [split; reflexivity|by rewrite app_nil_r].
  - rewrite andb_false_r. one_change k.
Qed.

Lemma gone_gateway_tells k w : tells w (gone_gateway k w).1.
Proof.
  unfold gone_gateway, remove_gateway, gone_map. set (w1 := write _ w).
  destruct (remove_outcome gateways k w1) as [->|(gone & _ & ->)]; simpl; [|one_change k].
  apply (tells_unrelated _ _ []); [split; reflexivity|by rewrite app_nil_r].
Qed.

(** Not of a Gateway that is being deleted. *)
Lemma gateway_tells gw current programmed provisioned w :
  deleting (gwo_metadata gw) = false -> tells w (reconcile_gateway gw current programmed provisioned w).1.
Proof.
  intros Hd. unfold reconcile_gateway. destruct (policy_key _) as [k|]; [|apply tells_refl]. rewrite Hd.
  destruct (negb _); [apply tells_refl|]. destruct (resolve_gateway_tls _ _ _) as [tls backend].
  destruct (evaluate_gateway _ _ _ _ _ _ _ _ _) as [[state per] gc]. set (w' := store_gateway k tls state w).
  match goal with |- context [if ?b then provisioned else _] => destruct (if b then provisioned else Ok []) end; apply store_gateway_tells.
Qed.

(** *** ReferenceGrants *)

Lemma gone_grant_tells k w : tells w (gone_reference_grant k w).
Proof.
  unfold gone_reference_grant. destruct (remove_outcome reference_grants k w) as [->|(gone & _ & ->)]; [apply tells_refl|].
  eexists [_]. split; [reflexivity|]. split.
  - split; try (intros ?; left; reflexivity); [|reflexivity]. intros k'. simpl. destruct (decide (k' = k)) as [->|]; [right; set_solver|].
    left. by rewrite lookup_delete_ne.
  - intros Hk k' g. simpl. intros [_ Hg]%lookup_delete_Some. by apply Hk.
Qed.

Lemma grant_tells g w w' : reconcile_reference_grant g w = Ok w' -> tells w w'.
Proof.
  unfold reconcile_reference_grant. destruct (policy_key _) as [k|]; simpl; [|done].
  destruct (deleting _); [intros [= <-]; apply (gone_grant_tells k)|]. set (state := {| rgs_namespace := _ |}).
  destruct (insert_outcome reference_grants k state w) as [-> | ->]; intros [= <-]; [apply tells_refl|].
  eexists [_]. split; [reflexivity|]. split.
  - split; try (intros ?; left; reflexivity); [|reflexivity]. intros k'. simpl. destruct (decide (k' = k)) as [->|]; [right; set_solver|].
    left. by rewrite lookup_insert_ne.
  - intros Hk k' g'. simpl. intros [[<- <-]|[_ Hg]]%lookup_insert_Some; [done|]. by apply Hk.
Qed.

(** *** Services *)

(** A map holds something of the Service. *)
Definition holds {V} (ns n : string) (m : gmap ServiceKey V) : Prop := exists k v, owns_key ns n k = true /\ m !! k = Some v.

Lemma svc_exists_true s ns n : svc_exists s ns n = true <-> holds ns n (st_service_port_map s) \/ holds ns n (st_endpoints s).
Proof.
  assert (He : forall V (m : gmap ServiceKey V), existsb (fun e => owns_key ns n e.1) (entries m) = true <-> holds ns n m).
  { intros V m. rewrite existsb_exists. split.
    - intros ([k v] & Hin & Ho). exists k, v. by rewrite <- list_elem_of_In, entries_elem in Hin.
    - intros (k & v & Ho & Hm). exists (k, v). by rewrite <- list_elem_of_In, entries_elem. }
  change (svc_exists s ns n) with (existsb (fun e => owns_key ns n e.1) (entries (st_service_port_map s)) ||
                                   existsb (fun e => owns_key ns n e.1) (entries (st_endpoints s))).
  by rewrite orb_true_iff, !He.
Qed.

Lemma snapshot_holds s ns n : service_snapshot s ns n <> [] <-> holds ns n (st_service_port_map s).
Proof.
  unfold service_snapshot. set (l := map _ _). assert (Hl : sort_by (fun a b => Z.compare a.1.1.1 b.1.1.1) l <> [] <-> l <> []).
  { pose proof (sort_by_perm (fun a b => Z.compare a.1.1.1 b.1.1.1) l) as Hp.
    split; intros Hne H; apply Hne; [by rewrite H|]. rewrite H in Hp. by apply Permutation_nil in Hp. }
  rewrite Hl. unfold l. split.
  - destruct (List.filter _ _) as [|[k v] rest] eqn:Hf; [done|]. intros _. assert (Hin : In (k, v) ((k, v) :: rest)) by (left; done).
    rewrite <- Hf in Hin. apply filter_In in Hin as [Hin Ho]. exists k, v. by rewrite <- list_elem_of_In, entries_elem in Hin.
  - intros (k & v & Ho & Hm) Hnil. apply map_eq_nil in Hnil.
    assert (Hin : In (k, v) (List.filter (fun e => owns_key ns n e.1) (entries (st_service_port_map s)))).
    { apply filter_In. by rewrite <- list_elem_of_In, entries_elem. }
    by rewrite Hnil in Hin.
Qed.

(** Only the ports of one Service were written. *)
Record service_only (ns n : string) (s s' : ConfigStore) : Prop := {
  so_gateways : st_gateways s = st_gateways s';
  so_sets : st_listener_sets s = st_listener_sets s';
  so_labels : st_namespace_labels s = st_namespace_labels s';
  so_grants : st_reference_grants s = st_reference_grants s';
  so_routes : st_http_routes s = st_http_routes s';
  so_endpoints : st_endpoints s = st_endpoints s';
  so_ports k : owns_key ns n k = false -> st_service_port_map s !! k = st_service_port_map s' !! k;
}.

Lemma service_only_trans ns n s1 s2 s3 : service_only ns n s1 s2 -> service_only ns n s2 s3 -> service_only ns n s1 s3.
Proof.
  intros [H1 H2 H3 H4 H5 H6 H7] [J1 J2 J3 J4 J5 J6 J7]. split; try congruence. intros k Hk. by rewrite H7, J7.
Qed.

Lemma write_port_only ns n s p : service_only ns n s (write_port ns n s p).
Proof.
  unfold write_port, port_entry. destruct (_ >? 0); [|done]. cbn [option_bind].
  assert (Hk : forall k, owns_key ns n k = false -> k <> {| sk_namespace := ns; sk_name := n; sk_port := as_u 16 (sp_port p) |}).
  { intros k Hk ->. unfold owns_key in Hk. simpl in Hk. by rewrite !String.eqb_refl in Hk. }
  destruct (sp_name p) as [name|]; [destruct (is_empty name)|]; split; try reflexivity; intros k Ho; simpl;
    by rewrite lookup_insert_ne by (symmetry; by apply Hk).
Qed.

Lemma write_ports_only ns n ports s : service_only ns n s (fold_left (write_port ns n) ports s).
Proof.
  revert s. induction ports as [|p ports IH]; intros s; [done|]. simpl. eapply service_only_trans; [apply write_port_only|apply IH].
Qed.

Lemma retain_other {V} ns n current (m : gmap ServiceKey V) k : owns_key ns n k = false -> retain_current ns n current m !! k = m !! k.
Proof.
  intros Hk. unfold retain_current. destruct (m !! k) as [v|] eqn:Hm.
  - apply map_lookup_filter_Some. split; [done|]. by left.
  - apply map_lookup_filter_None. by left.
Qed.

Lemma holds_kept {V} ns n ns' n' (m m' : gmap ServiceKey V) :
  (ns', n') <> (ns, n) -> (forall k, owns_key ns n k = false -> m !! k = m' !! k) -> holds ns' n' m <-> holds ns' n' m'.
Proof.
  intros Hne Hm. assert (Ho : forall k, owns_key ns' n' k = true -> owns_key ns n k = false).
  { intros k [H1%String.eqb_eq H2%String.eqb_eq]%andb_true_iff. apply not_true_is_false.
    intros [H3%String.eqb_eq H4%String.eqb_eq]%andb_true_iff. congruence. }
  split; intros (k & v & Hk & Hv); exists k, v; (split; [done|]); [rewrite <- Hm|rewrite Hm]; auto.
Qed.

(** The rest is whether the Service itself came or went. *)
Lemma service_only_tells ns n w w' es :
  service_only ns n (w_store w) (w_store w') -> w_events w' = w_events w ++ es ->
  svc_exists (w_store w) ns n = svc_exists (w_store w') ns n \/ EvService {| nn_namespace := ns; nn_name := n |} ∈ es -> tells w w'.
Proof.
  intros [H1 H2 H3 H4 H5 H6 H7] He Hs. exists es. split; [done|]. split; [|unfold grants_keyed; by rewrite H4].
  split; try (intros ?; left; congruence); [|done]. intros [ns' n']. simpl.
  destruct (decide ((ns', n') = (ns, n))) as [[= -> ->]|Hne]; [done|]. left. apply eq_true_iff_eq. rewrite !svc_exists_true, H6.
  by rewrite (holds_kept ns n ns' n' _ _ Hne H7).
Qed.

Lemma forget_service_tells ns n w : tells w (forget_service ns n w).
Proof.
  unfold forget_service. set (removed := _ || _). set (w1 := write _ w).
  assert (Ho : service_only ns n (w_store w) (w_store w1)).
  { split; try reflexivity. intros k Hk. symmetry. simpl. by apply retain_other. }
  destruct removed eqn:Hr.
  - apply (service_only_tells ns n _ _ [EvService {| nn_namespace := ns; nn_name := n |}]); [done|done|]. right. set_solver.
  - apply (service_only_tells ns n _ _ []); [done|by rewrite app_nil_r|]. left. apply eq_true_iff_eq.
    rewrite !svc_exists_true, (so_endpoints _ _ _ _ Ho). apply or_iff_compat_r. split; intros (k & v & Hk & Hv); exfalso.
    + apply not_false_iff_true in Hr; [done|]. unfold removed. rewrite !orb_true_iff. left. left. apply existsb_exists.
      exists (k, v). rewrite <- list_elem_of_In, elem_of_map_to_list. done.
    + simpl in Hv. apply map_lookup_filter_Some in Hv as [_ [Hv|Hv]]; simpl in Hv; [congruence|by apply elem_of_nil in Hv].
Qed.

Lemma service_tells svc w w' : reconcile_service_inner svc w = Ok w' -> tells w w'.
Proof.
  unfold reconcile_service_inner. destruct (namespace_key _) as [[ns n]|]; simpl; [|done].
  destruct (deleting _); [intros [= <-]; apply forget_service_tells|]. destruct (svc_spec svc) as [ports|]; [|intros [= <-]; apply tells_refl].
  set (s1 := fold_left _ _ _). set (s2 := set_service_port_names _ _). intros [= <-].
  assert (Ho : service_only ns n (w_store w) s2).
  { eapply service_only_trans; [apply write_ports_only|]. split; try reflexivity. intros k Hk. symmetry. by apply retain_other. }
  destruct (bool_decide_reflect (service_snapshot s2 ns n = service_snapshot (w_store w) ns n)) as [Heq|Hne].
  - apply (service_only_tells ns n _ _ []); [done|by rewrite app_nil_r|]. left. apply eq_true_iff_eq. simpl.
    rewrite !svc_exists_true, (so_endpoints _ _ _ _ Ho), <- !snapshot_holds, Heq. done.
  - apply (service_only_tells ns n _ _ [EvService {| nn_namespace := ns; nn_name := n |}]); [done|done|]. right. set_solver.
Qed.
End Announce.

(** ** The HTTPRoute controller *)

Section Controller.
Context `{IO : IterOrder} `{PEM : Pem} (regex_ok : string -> bool).

(** One run of a reconciler that is not the HTTPRoute one: those that write
    what routes read, and any other. *)
Inductive other_step : World -> World -> Prop :=
| other_namespace m w w' : reconcile_namespace m w = Ok w' -> other_step w w'
| other_namespace_gone name w : other_step w (forget_namespace name w)
| other_grant g w w' : reconcile_reference_grant g w = Ok w' -> other_step w w'
| other_grant_gone k w : other_step w (gone_reference_grant k w)
| other_service svc w w' : reconcile_service_inner svc w = Ok w' -> other_step w w'
| other_service_gone ns n w : other_step w (forget_service ns n w)
| other_gateway gw current programmed provisioned w :
    deleting (gwo_metadata gw) = false -> other_step w (reconcile_gateway gw current programmed provisioned w).1
| other_gateway_gone k w : other_step w (gone_gateway k w).1
| other_listener_set ls current w w' status : reconcile_listener_set ls current w = Ok (w', status) -> other_step w w'
| other_listener_set_gone k w : other_step w (gone_listener_set k w).1
| other_unrelated w w' es : unrelated (w_store w) (w_store w') -> w_events w' = w_events w ++ es -> other_step w w'.

Lemma other_step_tells w w' : other_step w w' -> tells w w'.
Proof.
  destruct 1.
  - by eapply namespace_tells.
  - apply forget_namespace_tells.
  - by eapply grant_tells.
  - apply gone_grant_tells.
  - by eapply service_tells.
  - apply forget_service_tells.
  - by apply gateway_tells.
  - apply gone_gateway_tells.
  - by eapply listener_set_tells.
  - apply gone_listener_set_tells.
  - by eapply tells_unrelated.
Qed.

(** The store with the events this controller has not seen, the objects its
    watch has delivered and the objects waiting to be reconciled. *)
Record RouteSystem := {
  rt_world : World;
  rt_objects : gmap NamespacedName (RouteObject HTTPRouteSpec);
  rt_queue : gset NamespacedName;
}.

Definition with_events (es : list StoreEvent) (w : World) : World := {| w_store := w_store w; w_dirty := w_dirty w; w_events := es |}.

(** The watch delivers an object. *)
Definition rt_applied (o : RouteObject HTTPRouteSpec) (s : RouteSystem) : RouteSystem :=
  let k := key_of (ro_metadata o) in
  {| rt_world := rt_world s; rt_objects := <[k := o]> (rt_objects s); rt_queue := {[k]} ∪ rt_queue s |}.

(** An object is gone: the eviction hook drops its state. *)
Definition rt_deleted (k : NamespacedName) (s : RouteSystem) : RouteSystem :=
  {| rt_world := (remove_route http_routes RouteHttp k (rt_world s)).1; rt_objects := delete k (rt_objects s); rt_queue := rt_queue s |}.

(** [on_events]: the next event, *)
Definition rt_delivered (s : RouteSystem) : RouteSystem :=
  match w_events (rt_world s) with
  | [] => s
  | e :: es => {| rt_world := with_events es (rt_world s); rt_objects := rt_objects s;
                  rt_queue := list_to_set (routes_for e (map snd (entries (rt_objects s)))) ∪ rt_queue s |}
  end.

(** or, where the subscriber fell behind and missed [n] of them, everything. *)
Definition rt_lagged (n : nat) (s : RouteSystem) : RouteSystem :=
  {| rt_world := with_events (drop n (w_events (rt_world s))) (rt_world s); rt_objects := rt_objects s;
     rt_queue := list_to_set (map (fun e => key_of (ro_metadata e.2)) (entries (rt_objects s))) ∪ rt_queue s |}.

(** A reconcile; where its status write failed it is run again. *)
Definition rt_run (written : bool) (k : NamespacedName) (s : RouteSystem) : RouteSystem :=
  match rt_objects s !! k with
  | None => {| rt_world := rt_world s; rt_objects := rt_objects s; rt_queue := rt_queue s ∖ {[k]} |}
  | Some o =>
      match reconcile_http_route regex_ok o (rt_world s) with
      | Err _ => s
      | Ok (w, _) => {| rt_world := w; rt_objects := rt_objects s; rt_queue := if written then rt_queue s ∖ {[k]} else rt_queue s |}
      end
  end.

Definition rt_other (w : World) (s : RouteSystem) : RouteSystem := {| rt_world := w; rt_objects := rt_objects s; rt_queue := rt_queue s |}.

Definition route_identified (o : RouteObject HTTPRouteSpec) : Prop :=
  is_Some (om_name (ro_metadata o)) /\ is_Some (om_namespace (ro_metadata o)).

Inductive route_step : RouteSystem -> RouteSystem -> Prop :=
| rs_applied o s : route_identified o -> route_step s (rt_applied o s)
| rs_deleted k s : route_step s (rt_deleted k s)
| rs_delivered s : route_step s (rt_delivered s)
| rs_lagged n s : route_step s (rt_lagged n s)
| rs_run written k s : k ∈ rt_queue s -> route_step s (rt_run written k s)
| rs_other w s : other_step (rt_world s) w -> route_step s (rt_other w s).

(** What the store asks for. *)
Definition wanted_route (s : ConfigStore) (o : RouteObject HTTPRouteSpec) : option HTTPRouteState :=
  if deleting (ro_metadata o) then None else fst <$> http_route_state regex_ok o (meta_namespace (ro_metadata o)) s.

Record routes_ok (s : RouteSystem) : Prop := {
  ro_keys k o : rt_objects s !! k = Some o -> route_identified o /\ key_of (ro_metadata o) = k;
  ro_grants : grants_keyed (w_store (rt_world s));
  ro_absent k : rt_objects s !! k = None -> st_http_routes (w_store (rt_world s)) !! k = None;
  ro_pending k o : rt_objects s !! k = Some o ->
    k ∈ rt_queue s \/ (exists e, e ∈ w_events (rt_world s) /\ route_affected e o = true) \/
    st_http_routes (w_store (rt_world s)) !! k = wanted_route (w_store (rt_world s)) o;
}.

(** *** What a run of a route changes *)

(** One stored route is now [v]; the rest that routes read is as it was. *)
Record route_write (k : NamespacedName) (v : option HTTPRouteState) (w w' : World) : Prop := {
  rw_agrees o : agrees o (w_store w) (w_store w');
  rw_grants : st_reference_grants (w_store w') = st_reference_grants (w_store w);
  rw_here : st_http_routes (w_store w') !! k = v;
  rw_others j : j <> k -> st_http_routes (w_store w') !! j = st_http_routes (w_store w) !! j;
  rw_events : exists es, w_events w' = w_events w ++ es /\
    forall e, e ∈ es -> exists parents backends, e = EvRoute RouteHttp k parents backends;
}.

Lemma agrees_routes o w m : agrees o (w_store w) (w_store (write (set_http_routes m) w)).
Proof. split; try reflexivity. by intros [[|] k]. Qed.

Lemma agrees_refl o s : agrees o s s.
Proof. split; try reflexivity. by intros [[|] k]. Qed.

Lemma remove_route_write k w : route_write k None w (remove_route http_routes RouteHttp k w).1.
Proof.
  unfold remove_route, remove_and_notify. simpl. destruct (st_http_routes (w_store w) !! k) as [gone|] eqn:Hk; simpl.
  - split; simpl; [intros o; apply (agrees_routes o w)|done|by rewrite lookup_delete_eq|intros j Hj; by rewrite lookup_delete_ne|].
    eexists [_]. split; [done|]. intros e ->%list_elem_of_singleton. eauto.
  - split; [intros o; apply agrees_refl|done|done|done|]. exists []. rewrite app_nil_r. split; [done|]. by intros e ?%elem_of_nil.
Qed.

Lemma store_route_write k v w : route_write k (Some v) w (store_route http_routes RouteHttp k v w).1.
Proof.
  unfold store_route, insert_and_notify. simpl.
  destruct (match _ with Some _ => _ | None => _ end) eqn:Hc; simpl.
  - destruct (st_http_routes (w_store w) !! k);
      (split; simpl; [intros o; apply (agrees_routes o w)|done|by rewrite lookup_insert_eq|intros j Hj; by rewrite lookup_insert_ne|]);
      eexists [_]; (split; [done|]); intros e ->%list_elem_of_singleton; eauto.
  - split; [intros o; apply agrees_refl|done| |done|].
    + destruct (st_http_routes (w_store w) !! k) as [old|]; [|done]. by apply negb_false_iff, bool_decide_eq_true in Hc as ->.
    + exists []. rewrite app_nil_r. split; [done|]. by intros e ?%elem_of_nil.
Qed.

Lemma reconcile_route_write o w :
  route_identified o ->
  exists w' status, reconcile_http_route regex_ok o w = Ok (w', status) /\
    route_write (key_of (ro_metadata o)) (wanted_route (w_store w) o) w w'.
Proof.
  intros [[n Hn] [ns Hns]]. unfold reconcile_http_route, policy_key, wanted_route, meta_namespace, key_of, deleting. rewrite Hn, Hns. simpl.
  destruct (bool_decide _); [do 2 eexists; split; [done|apply remove_route_write]|].
  destruct (http_route_state regex_ok o ns (w_store w)) as [[state reason]|]; simpl; do 2 eexists; (split; [done|]).
  - apply store_route_write.
  - apply remove_route_write.
Qed.

(** *** What an event has to tell *)

Lemma grants_kept ns s s' from :
  grants_keyed s -> grants_keyed s' ->
  (forall k, nn_namespace k = ns -> st_reference_grants s !! k = st_reference_grants s' !! k) -> forall kind name,
  is_reference_allowed (st_reference_grants s) from kind ns "Service" name = is_reference_allowed (st_reference_grants s') from kind ns "Service" name.
Proof.
  intros Hs Hs' Heq kind name. unfold is_reference_allowed, is_reference_allowed_from. destruct (bool_decide _); [done|].
  apply eq_true_iff_eq. rewrite !existsb_exists.
  split; intros ([k g] & Hin & Hg); exists (k, g); (split; [|done]); simpl in Hg;
    apply andb_true_iff in Hg as [Hns%bool_decide_eq_true _]; rewrite <- list_elem_of_In, entries_elem in Hin |- *.
  - rewrite <- Heq; [done|]. by rewrite <- (Hs k g).
  - rewrite Heq; [done|]. by rewrite <- (Hs' k g).
Qed.

Lemma announced_agrees s s' es o :
  announced s s' es -> grants_keyed s -> grants_keyed s' -> (forall e, e ∈ es -> route_affected e o = false) -> agrees o s s'.
Proof.
  intros Ha Hs Hs' Hes. split.
  - intros [[|] k] Hp; unfold parent_kept; simpl.
    + destruct (an_gateways _ _ _ Ha k) as [?|He]; [done|]. apply Hes in He. simpl in He. by rewrite bool_decide_true in He.
    + destruct (an_sets _ _ _ Ha k) as [?|[parent He]]; [done|]. apply Hes in He. simpl in He. by rewrite bool_decide_true in He.
  - destruct (an_labels _ _ _ Ha (meta_namespace (ro_metadata o))) as [?|He]; [done|]. apply Hes in He. simpl in He.
    by rewrite String.eqb_refl in He.
  - intros k Hk. destruct (an_services _ _ _ Ha k) as [?|He]; [done|]. apply Hes in He. unfold route_affected in He.
    by rewrite bool_decide_true in He.
  - intros k name Hk Hne. apply grants_kept; [done|done|]. intros g Hg. destruct (an_grants _ _ _ Ha g) as [?|He]; [done|].
    apply Hes in He. unfold route_affected in He. apply not_true_iff_false in He. exfalso. apply He. apply existsb_exists. exists k.
    rewrite <- list_elem_of_In, Hg, String.eqb_refl, andb_true_r. split; [done|]. apply negb_true_iff. by apply String.eqb_neq.
Qed.

Lemma wanted_kept o s s' : agrees o s s' -> wanted_route s o = wanted_route s' o.
Proof. intros Ha. unfold wanted_route. by rewrite (http_route_state_kept regex_ok o s s' Ha). Qed.

Lemma routes_for_elem e (objects : gmap NamespacedName (RouteObject HTTPRouteSpec)) k o :
  objects !! k = Some o -> key_of (ro_metadata o) = k -> route_affected e o = true -> k ∈ routes_for e (map snd (entries objects)).
Proof.
  intros Ho <- He. unfold routes_for. apply list_elem_of_fmap. exists o. split; [done|]. rewrite list_elem_of_In. apply filter_In.
  split; [|done]. apply in_map_iff. exists (key_of (ro_metadata o), o). by rewrite <- list_elem_of_In, entries_elem.
Qed.

(** *** The invariant *)

Implicit Types (s : RouteSystem) (k : NamespacedName).

(** A route that waited for nothing still does after a write of another one. *)
Lemma pending_write k v w w' j o :
  route_write k v w w' -> j <> k -> st_http_routes (w_store w) !! j = wanted_route (w_store w) o ->
  st_http_routes (w_store w') !! j = wanted_route (w_store w') o.
Proof. intros Hw Hj H. rewrite (rw_others _ _ _ _ Hw j Hj), H. apply wanted_kept, (rw_agrees _ _ _ _ Hw). Qed.

Lemma events_write k v w w' e : route_write k v w w' -> e ∈ w_events w -> e ∈ w_events w'.
Proof. intros Hw He. destruct (rw_events _ _ _ _ Hw) as (es & -> & _). set_solver. Qed.

Lemma applied_ok o s : route_identified o -> routes_ok s -> routes_ok (rt_applied o s).
Proof.
  intros Hid [Hk Hg Ha Hp]. split; simpl; [|done| |].
  - intros k o' [[<- <-]|[_ Ho]]%lookup_insert_Some; [done|by apply Hk].
  - intros k [Ho _]%lookup_insert_None. by apply Ha.
  - intros k o' [[<- <-]|[_ Ho]]%lookup_insert_Some; [left; set_solver|]. destruct (Hp k o' Ho) as [?|?]; [left; set_solver|by right].
Qed.

Lemma route_deleted_ok k s : routes_ok s -> routes_ok (rt_deleted k s).
Proof.
  intros [Hk Hg Ha Hp]. pose proof (remove_route_write k (rt_world s)) as Hw. split; simpl.
  - intros j o [_ Ho]%lookup_delete_Some. by apply Hk.
  - unfold grants_keyed. by rewrite (rw_grants _ _ _ _ Hw).
  - intros j Hj. destruct (decide (j = k)) as [->|Hne]; [apply (rw_here _ _ _ _ Hw)|].
    rewrite (rw_others _ _ _ _ Hw j Hne). apply Ha. by rewrite lookup_delete_ne in Hj.
  - intros j o [Hne Ho]%lookup_delete_Some. destruct (Hp j o Ho) as [?|[(e & He & Hae)|Hset]]; [by left|right; left|right; right].
    + exists e. split; [by eapply events_write|done].
    + eapply pending_write; [exact Hw|congruence|done].
Qed.

Lemma delivered_ok s : routes_ok s -> routes_ok (rt_delivered s).
Proof.
  intros Hok. unfold rt_delivered. destruct (w_events (rt_world s)) as [|e es] eqn:He; [done|]. destruct Hok as [Hk Hg Ha Hp].
  split; simpl; [done|done|done|]. intros k o Ho. destruct (Hp k o Ho) as [?|[(e' & Hin & Hae)|Hset]]; [left; set_solver| |by right; right].
  rewrite He in Hin. apply elem_of_cons in Hin as [-> |Hin]; [left|right; left; by exists e'].
  apply elem_of_union_l, elem_of_list_to_set. by apply (routes_for_elem e _ k o Ho); [apply Hk|].
Qed.

Lemma lagged_ok n s : routes_ok s -> routes_ok (rt_lagged n s).
Proof.
  intros [Hk Hg Ha Hp]. split; simpl; [done|done|done|]. intros k o Ho. left. apply elem_of_union_l, elem_of_list_to_set.
  apply list_elem_of_fmap. exists (k, o). rewrite entries_elem. simpl. split; [|done]. by destruct (Hk k o Ho) as [_ ->].
Qed.

Lemma run_ok written k s : routes_ok s -> routes_ok (rt_run written k s).
Proof.
  intros [Hk Hg Ha Hp]. unfold rt_run. destruct (rt_objects s !! k) as [o|] eqn:Ho.
  - destruct (Hk k o Ho) as [Hid Hkey]. destruct (reconcile_route_write o (rt_world s) Hid) as (w' & status & -> & Hw).
    rewrite Hkey in Hw. split; simpl; [done| | |].
    + unfold grants_keyed. by rewrite (rw_grants _ _ _ _ Hw).
    + intros j Hj. rewrite (rw_others _ _ _ _ Hw); [by apply Ha|]. congruence.
    + intros j o' Ho'. destruct (decide (j = k)) as [->|Hne].
      { right. right. rewrite Ho in Ho'. injection Ho' as <-. rewrite (rw_here _ _ _ _ Hw). apply wanted_kept, (rw_agrees _ _ _ _ Hw). }
      destruct (Hp j o' Ho') as [?|[(e & He & Hae)|Hset]]; [left; destruct written; set_solver|right; left|right; right].
      * exists e. split; [by eapply events_write|done].
      * by eapply pending_write.
  - split; simpl; [done|done|done|]. intros j o' Ho'. destruct (Hp j o' Ho') as [?|?]; [left|by right].
    assert (j <> k) by congruence. set_solver.
Qed.

Lemma other_ok w s : other_step (rt_world s) w -> routes_ok s -> routes_ok (rt_other w s).
Proof.
  intros (es & He & Ha & Hgk)%other_step_tells [Hk Hg Hab Hp]. split; simpl; [done|by apply Hgk| |].
  - intros k Hn. rewrite <- (an_routes _ _ _ Ha). by apply Hab.
  - intros k o Ho. rewrite He. destruct (Hp k o Ho) as [?|[(e & Hin & Hae)|Hset]]; [by left|right; left; exists e; set_solver|right].
    destruct (existsb (fun e => route_affected e o) es) eqn:Hex.
    + left. apply existsb_exists in Hex as (e & Hin & Hae). exists e. rewrite <- list_elem_of_In in Hin. set_solver.
    + right. rewrite <- (an_routes _ _ _ Ha), Hset. apply wanted_kept. apply (announced_agrees _ _ es); [done|done|by apply Hgk|].
      intros e Hin. apply not_true_is_false. intros Hae. apply not_true_iff_false in Hex. apply Hex, existsb_exists. exists e.
      by rewrite <- list_elem_of_In.
Qed.

Lemma route_step_ok s s' : route_step s s' -> routes_ok s -> routes_ok s'.
Proof.
  destruct 1; [by apply applied_ok|apply route_deleted_ok|apply delivered_ok|apply lagged_ok|apply run_ok|by apply other_ok].
Qed.

(** Nothing stored, nothing granted, no object. *)
Record route_start (s : RouteSystem) : Prop := {
  start_objects : rt_objects s = ∅;
  start_routes : st_http_routes (w_store (rt_world s)) = ∅;
  start_grants : st_reference_grants (w_store (rt_world s)) = ∅;
}.

Lemma start_ok s : route_start s -> routes_ok s.
Proof.
  intros [Ho Hr Hg]. split; [by rewrite Ho| |by rewrite Hr|by rewrite Ho]. intros k g. by rewrite Hg.
Qed.

Lemma route_reachable_ok s0 s : route_start s0 -> rtc route_step s0 s -> routes_ok s.
Proof. intros H0%start_ok Hr. induction Hr as [|? ? ? Hs _ IH]; [done|]. apply IH. by eapply route_step_ok. Qed.

(** *** Working off what waits *)

Definition deliver_all s : RouteSystem := Nat.iter (List.length (w_events (rt_world s))) rt_delivered s.
Definition run_all s : RouteSystem := fold_left (fun s k => rt_run true k s) (elements (rt_queue s)) s.
Definition drain s : RouteSystem := deliver_all (run_all (deliver_all s)).

Definition is_route_event (e : StoreEvent) : bool := match e with EvRoute _ _ _ _ => true | _ => false end.

Lemma route_event_ignored e (objects : list (RouteObject HTTPRouteSpec)) : is_route_event e = true -> routes_for e objects = [].
Proof. destruct e; try done. intros _. unfold routes_for. by induction objects. Qed.

Lemma iter_delivered n s :
  List.length (w_events (rt_world s)) = n ->
  let s' := Nat.iter n rt_delivered s in
  rtc route_step s s' /\ w_events (rt_world s') = [] /\ rt_objects s' = rt_objects s /\
  (forallb is_route_event (w_events (rt_world s)) = true -> rt_queue s' = rt_queue s).
Proof.
  revert s. induction n as [|n IH]; intros s Hn; simpl.
  { split; [done|]. split; [by apply nil_length_inv|done]. }
  rewrite <- Nat.iter_swap. destruct (w_events (rt_world s)) as [|e es] eqn:He; [done|]. injection Hn as Hn.
  assert (Hd : w_events (rt_world (rt_delivered s)) = es /\ rt_objects (rt_delivered s) = rt_objects s).
  { unfold rt_delivered. by rewrite He. }
  destruct Hd as [Hes Hobj]. destruct (IH (rt_delivered s)) as (Hr & Hev & Ho & Hq); [by rewrite Hes|].
  split; [eapply rtc_l; [apply rs_delivered|done]|]. split; [done|]. split; [by rewrite Ho|].
  intros [Hre Hall]%andb_true_iff. rewrite Hq by (by rewrite Hes). unfold rt_delivered. rewrite He; simpl.
  rewrite route_event_ignored by done. set_solver.
Qed.

Lemma run_one k s :
  routes_ok s -> forallb is_route_event (w_events (rt_world s)) = true ->
  let s' := rt_run true k s in
  rt_objects s' = rt_objects s /\ rt_queue s' = rt_queue s ∖ {[k]} /\ forallb is_route_event (w_events (rt_world s')) = true.
Proof.
  intros Hok Hev. unfold rt_run. destruct (rt_objects s !! k) as [o|] eqn:Ho; [|done].
  destruct (ro_keys s Hok k o Ho) as [Hid _]. destruct (reconcile_route_write o (rt_world s) Hid) as (w' & status & -> & Hw).
  simpl. split; [done|]. split; [done|]. destruct (rw_events _ _ _ _ Hw) as (es & -> & Hes). rewrite forallb_app, Hev. simpl.
  apply forallb_forall. intros e He%list_elem_of_In. by destruct (Hes e He) as (? & ? & ->).
Qed.

Lemma run_list l s :
  routes_ok s -> forallb is_route_event (w_events (rt_world s)) = true -> NoDup l -> (forall k, k ∈ l <-> k ∈ rt_queue s) ->
  let s' := fold_left (fun s k => rt_run true k s) l s in
  rtc route_step s s' /\ rt_objects s' = rt_objects s /\ rt_queue s' = ∅ /\ forallb is_route_event (w_events (rt_world s')) = true.
Proof.
  revert s. induction l as [|k l IH]; intros s Hok Hev Hnd Hl; simpl.
  { repeat split; try done. apply leibniz_equiv. apply elem_of_equiv_empty. intros k Hk%Hl. by apply elem_of_nil in Hk. }
  apply NoDup_cons in Hnd as [Hk Hnd]. destruct (run_one k s Hok Hev) as (Ho & Hq & Hev').
  destruct (IH (rt_run true k s)) as (Hr & Ho' & Hq' & Hev''); [by apply run_ok|done|done| |].
  { intros j. rewrite Hq, elem_of_difference, <- Hl, elem_of_cons, not_elem_of_singleton. split; [|naive_solver].
    intros Hj. split; [by right|]. by intros ->. }
  split; [|by rewrite Ho']. eapply rtc_l; [|done]. apply rs_run, Hl. left.
Qed.

(** C9: Routes settle.  Let objects come and go, reconcilers of Gateways,
    ListenerSets, Namespaces, ReferenceGrants, Services and others run in any
    order, status writes fail and the event bus drop what a slow subscriber
    missed: working off the events and then the queue is a run of the
    controller that ends with nothing left to do, and then every route object
    is stored exactly as the store asks for, and nothing else is. *)
Theorem http_routes_settle s0 s :
  route_start s0 -> rtc route_step s0 s ->
  let s' := drain s in
  rtc route_step s s' /\ rt_queue s' = ∅ /\ w_events (rt_world s') = [] /\ rt_objects s' = rt_objects s /\
  forall k, st_http_routes (w_store (rt_world s')) !! k = (o ← rt_objects s !! k; wanted_route (w_store (rt_world s')) o).
Proof.
  intros H0 Hr. change (drain s) with (deliver_all (run_all (deliver_all s))). set (s1 := deliver_all s). set (s2 := run_all s1). intros s'.
  destruct (iter_delivered _ s eq_refl) as (Hr1 & Hev1 & Ho1 & _). fold (deliver_all s) s1 in Hr1, Hev1, Ho1.
  assert (Hok1 : routes_ok s1) by (eapply route_reachable_ok; [done|by etrans]).
  destruct (run_list (elements (rt_queue s1)) s1) as (Hr2 & Ho2 & Hq2 & Hev2);
    [done|by rewrite Hev1|apply NoDup_elements|intros k; apply elem_of_elements|]. fold (run_all s1) s2 in Hr2, Ho2, Hq2, Hev2.
  destruct (iter_delivered _ s2 eq_refl) as (Hr3 & Hev3 & Ho3 & Hq3). fold (deliver_all s2) s' in Hr3, Hev3, Ho3, Hq3.
  assert (Hrs : rtc route_step s s') by (by do 2 (etrans; [done|])).
  split; [done|]. split; [by rewrite Hq3, Hq2|]. split; [done|]. assert (Ho : rt_objects s' = rt_objects s) by congruence.
  split; [done|]. assert (Hok : routes_ok s') by (eapply route_reachable_ok; [done|by etrans]). intros k. rewrite <- Ho.
  destruct (rt_objects s' !! k) as [o|] eqn:Hk; simpl; [|by apply (ro_absent s' Hok)].
  destruct (ro_pending s' Hok k o Hk) as [Hin|[(e & He & _)|Hset]]; [|by rewrite Hev3 in He; apply elem_of_nil in He|done].
  by rewrite Hq3, Hq2 in Hin; [apply elem_of_empty in Hin|].
Qed.
End Controller.

(** ** A route that comes before its Gateway *)

Module Demo.
Definition demo_meta (ns name : string) : ObjectMeta :=
  {| om_name := Some name; om_namespace := Some ns; om_generation := Some 1; om_creation_timestamp := Some 1;
     om_deletion_timestamp := None; om_labels := None |}.

Definition leaving (m : ObjectMeta) : ObjectMeta :=
  {| om_name := om_name m; om_namespace := om_namespace m; om_generation := om_generation m;
     om_creation_timestamp := om_creation_timestamp m; om_deletion_timestamp := Some 9; om_labels := om_labels m |}.

Definition demo_pem : Pem := {| pem_has_cert s := negb (is_empty s); pem_has_key s := negb (is_empty s) |}.

Definition gw_key : NamespacedName := {| nn_namespace := "apps"; nn_name := "gw" |}.
Definition demo_route_key : NamespacedName := {| nn_namespace := "apps"; nn_name := "route" |}.

Definition demo_spec (l : ListenerSpec) : GatewaySpec :=
  {| gwp_gateway_class_name := "portus"; gwp_listeners := [l]; gwp_addresses := []; gwp_allowed_listeners := None;
     gwp_parameters_ref := None; gwp_tls := None |}.

Definition web : ListenerSpec :=
  {| lsn_name := "web"; lsn_port := 80; lsn_protocol := "HTTP"; lsn_hostname := None; lsn_tls := None; lsn_allowed_routes := None |}.

Definition gateway : GatewayObject := {| gwo_metadata := demo_meta "apps" "gw"; gwo_spec := demo_spec web |}.

Definition demo_rule (backends : list HTTPBackendRef) : HTTPRouteRule :=
  {| hru_matches := []; hru_filters := []; hru_backend_refs := backends; hru_timeouts := None; hru_retry := None |}.

Definition route (rules : list HTTPRouteRule) : RouteObject HTTPRouteSpec :=
  {| ro_metadata := demo_meta "apps" "route";
     ro_spec := {| hsp_parent_refs := [{| pr_group := None; pr_kind := None; pr_namespace := None; pr_name := "gw";
                                          pr_section_name := None; pr_port := None |}];
                   hsp_hostnames := []; hsp_rules := rules |};
     ro_status := None |}.

Definition portus_class : GatewayClass :=
  {| gc_metadata := {| om_name := Some "portus"; om_namespace := None; om_generation := Some 1; om_creation_timestamp := Some 1;
                       om_deletion_timestamp := None; om_labels := None |};
     gc_controller_name := CONTROLLER_NAME; gc_conditions := None |}.

Definition start : RouteSystem :=
  {| rt_world := {| w_store := ConfigStore_new; w_dirty := true; w_events := [] |}; rt_objects := ∅; rt_queue := ∅ |}.

Definition any_regex (_ : string) : bool := true.

Definition with_class (w : World) : World := match reconcile_gateway_class portus_class w with Ok r => r.1 | Err _ => w end.

Definition run_gateway (gw : GatewayObject) (w : World) : World :=
  (@reconcile_gateway listed_order demo_pem gw None false (Ok []) w).1.

(** The class is known, the route runs and finds no parent, and then the
    Gateway is reconciled. *)
Definition routed : RouteSystem :=
  let s := rt_other (with_class (rt_world start)) start in
  let s := @rt_run listed_order any_regex true demo_route_key (rt_applied (route [demo_rule []]) s) in
  rt_other (run_gateway gateway (rt_world s)) s.

Lemma routed_run : rtc (@route_step listed_order demo_pem any_regex) start routed.
Proof.
  eapply rtc_l; [apply (rs_other _ (with_class (rt_world start)) start)|].
  { apply (other_unrelated _ _ [EvGatewayClass "portus"]); [split; reflexivity|vm_compute; reflexivity]. }
  eapply rtc_l; [apply (rs_applied _ (route [demo_rule []])); split; by eexists|].
  eapply rtc_l; [apply (rs_run _ true demo_route_key); vm_compute; reflexivity|].
  apply rtc_once. unfold routed. apply rs_other. apply (other_gateway gateway). vm_compute. reflexivity.
Qed.

(** The first run stored nothing; the event of the Gateway brings the route in. *)
Lemma http_routes_settle_witness :
  route_start start /\ st_http_routes (w_store (rt_world routed)) !! demo_route_key = None /\
  (let s' := @drain listed_order any_regex routed in
   rt_queue s' = ∅ /\ w_events (rt_world s') = [] /\
   is_Some (st_http_routes (w_store (rt_world s')) !! demo_route_key)).
Proof.
  assert (H0 : route_start start) by (split; reflexivity).
  split; [exact H0|]. split; [vm_compute; reflexivity|].
  destruct (@http_routes_settle listed_order demo_pem any_regex start routed H0 routed_run) as (_ & Hq & He & _ & Hr).
  split; [exact Hq|]. split; [exact He|]. rewrite Hr. eexists. vm_compute. reflexivity.
Defined.

(** *** Changes nobody is told of *)

Definition settled : RouteSystem := @drain listed_order any_regex routed.

Definition accepted_on (s : RouteSystem) : option (list bool) :=
  (fun r => map pref_accepted (hrs_parent_refs r)) <$> st_http_routes (w_store (rt_world s)) !! demo_route_key.

(** A Gateway on its way out is removed by its reconciler without an event,
    and the eviction hook that would publish one finds nothing left: the route
    stays stored, accepted by a Gateway that is gone. *)
Definition without_gateway : RouteSystem :=
  let w := run_gateway {| gwo_metadata := leaving (gwo_metadata gateway); gwo_spec := gwo_spec gateway |} (rt_world settled) in
  rt_other (gone_gateway gw_key w).1 settled.

Example deleted_gateway_strands_routes :
  let s := @drain listed_order any_regex without_gateway in
  st_gateways (w_store (rt_world s)) !! gw_key = None /\ rt_queue s = ∅ /\ w_events (rt_world s) = [] /\
  accepted_on s = Some [true] /\
  (o ← rt_objects s !! demo_route_key; @wanted_route listed_order any_regex (w_store (rt_world s)) o) = None.
Proof. repeat split; vm_compute; reflexivity. Qed.

Definition cert_ref (ns : option string) : SecretObjectReference :=
  {| sor_group := None; sor_kind := None; sor_name := "cert"; sor_namespace := ns |}.

Definition secure (mode : option string) (ns : option string) : ListenerSpec :=
  {| lsn_name := "secure"; lsn_port := 443; lsn_protocol := "HTTPS"; lsn_hostname := None;
     lsn_tls := Some {| gtc_mode := mode; gtc_certificate_refs := [cert_ref ns] |}; lsn_allowed_routes := None |}.

Definition secure_gateway : GatewayObject := {| gwo_metadata := demo_meta "apps" "gw"; gwo_spec := demo_spec (secure None None) |}.

Definition cert_secret (ns : string) : Secret :=
  {| sec_metadata := demo_meta ns "cert"; sec_data := None;
     sec_string_data := Some (<["tls.crt" := "certificate"]> (<["tls.key" := "key"]> ∅)) |}.

Definition with_secret (ns : string) (w : World) : World := match reconcile_secret (cert_secret ns) w with Ok w => w | Err _ => w end.

Definition certs_of (w : World) (k : NamespacedName) : option (list (list (string * string))) :=
  (fun g => map lst_tls_cert_refs (gs_listeners g)) <$> st_gateways (w_store w) !! k.

(** The certificate of a listener arrives after its Gateway was reconciled: no
    event is published and the Secret watch does not name the Gateway, so that
    the listener stays without the certificate it would get if it ran. *)
Example late_certificate_unnoticed :
  let before := run_gateway secure_gateway (with_class (rt_world start)) in
  let after := with_secret "apps" before in
  w_events after = w_events before /\ gateway_references_client_cert_secret secure_gateway "apps" "cert" = false /\
  certs_of after gw_key = Some [[]] /\ certs_of (run_gateway secure_gateway after) gw_key = Some [[("apps", "cert")]].
Proof. repeat split; vm_compute; reflexivity. Qed.

Definition open_gateway : GatewayObject :=
  {| gwo_metadata := demo_meta "apps" "gw";
     gwo_spec := {| gwp_gateway_class_name := "portus"; gwp_listeners := [web]; gwp_addresses := [];
                    gwp_allowed_listeners := Some (Some {| rns_from := Some "All"; rns_selector := None |});
                    gwp_parameters_ref := None; gwp_tls := None |} |}.

Definition set_key : NamespacedName := {| nn_namespace := "apps"; nn_name := "extra" |}.

Definition listener_set (l : ListenerSpec) : ListenerSet :=
  {| lso_metadata := demo_meta "apps" "extra"; lso_parent_namespace := None; lso_parent_name := "gw"; lso_listeners := [l] |}.

Definition run_set (ls : ListenerSet) (w : World) : World :=
  match @reconcile_listener_set listed_order ls None w with Ok r => r.1 | Err _ => w end.

Definition cert_grant : ReferenceGrant :=
  {| rgo_metadata := demo_meta "vault" "share";
     rgo_from := [{| rgf_group := GATEWAY_GROUP; rgf_kind := "ListenerSet"; rgf_namespace := "apps" |}];
     rgo_to := [{| rgt_group := EmptyString; rgt_kind := "Secret"; rgt_name := None |}] |}.

Definition with_grant (w : World) : World := match reconcile_reference_grant cert_grant w with Ok w => w | Err _ => w end.

Definition accepted_set (w : World) : option (list bool) :=
  (fun s => map lst_accepted (lss_listeners s)) <$> st_listener_sets (w_store w) !! set_key.

Definition open_world : World := run_gateway open_gateway (with_class (rt_world start)).

(** A grant that let a ListenerSet use a certificate is withdrawn: its event
    makes no ListenerSet run, and the listener stays accepted although it would
    be refused. *)
Example withdrawn_grant_unnoticed :
  let ls := listener_set (secure None (Some "vault")) in
  let granted := run_set ls (with_grant open_world) in
  let after := gone_reference_grant {| nn_namespace := "vault"; nn_name := "share" |} granted in
  w_events after = w_events granted ++ [EvReferenceGrant "vault"] /\ listener_sets_for (EvReferenceGrant "vault") [ls] = [] /\
  accepted_set after = Some [true] /\ accepted_set (run_set ls after) = Some [false].
Proof. repeat split; vm_compute; reflexivity. Qed.

(** A ListenerSet listener that says [Passthrough] keeps the certificate of
    another namespace without a grant, and is accepted. *)
Example passthrough_skips_the_grant :
  let w := run_set (listener_set (secure (Some "Passthrough") (Some "vault"))) open_world in
  accepted_set w = Some [true] /\
  (fun s => map lst_tls_cert_refs (lss_listeners s)) <$> st_listener_sets (w_store w) !! set_key = Some [[("vault", "cert")]].
Proof. repeat split; vm_compute; reflexivity. Qed.

(** An EndpointSlice makes a Service exist for a route, and no event says so. *)
Definition demo_slice : EndpointSlice :=
  {| eps_metadata := {| om_name := Some "svc-1"; om_namespace := Some "apps"; om_generation := Some 1; om_creation_timestamp := Some 1;
                        om_deletion_timestamp := None; om_labels := Some {[ SERVICE_NAME_LABEL := "svc" ]} |};
     eps_ports := Some [Some 8080]; eps_endpoints := Some [{| se_addresses := ["10.0.0.1"]; se_ready := None |}] |}.

Example slice_unannounced :
  let w := match @reconcile_endpointslice_inner listed_order demo_slice (rt_world start) with Ok w => w | Err _ => rt_world start end in
  @svc_exists listed_order (w_store (rt_world start)) "apps" "svc" = false /\
  @svc_exists listed_order (w_store w) "apps" "svc" = true /\ w_events w = w_events (rt_world start).
Proof. repeat split; vm_compute; reflexivity. Qed.
End Demo.
