(* ===== verification/RouteCompiler.v ===== *)
(** * Compiling routes

    The part of [compile_config] ([portus-controller/src/compiler.rs]) that
    turns HTTPRoutes, GRPCRoutes and AIRoutes into route configurations: one per
    (accepted parent, listener it binds, rule, match, effective host).  Every
    configuration is paired with the [RouteSource] policies are matched
    against; policies are applied in [PolicyCompiler] and the message is put
    together in [Compiler]. *)
From S2P Require Import Prelude Text Net Types Router Proto Resources Hostnames.
From Stdlib Require Import String.
Open Scope Z_scope.

(** Tracks the source of each compiled route for policy matching. *)
Record RouteSource := {
  rsrc_kind : string;
  rsrc_namespace : string;
  rsrc_name : string;
  rsrc_gateway_refs : list (string * string * option string);
}.

(** [owner_gateway] *)
Definition owner_gateway (kind : ParentKind) (parent_ns parent_name : string) (ls_map : gmap NamespacedName ListenerSetState)
    : string * string :=
  match kind with
  | ParentGateway => (parent_ns, parent_name)
  | ParentListenerSet =>
      match ls_map !! {| nn_namespace := parent_ns; nn_name := parent_name |} with
      | Some ls => (nn_namespace (lss_parent_gateway ls), nn_name (lss_parent_gateway ls))
      | None => (parent_ns, parent_name)
      end
  end.

(** ** Rules *)

(** A [HashMap] collected from pairs. *)
Definition map_of (l : list (string * string)) : gmap string string := fold_left (fun m kv => <[kv.1 := kv.2]> m) l ∅.

(** [filters_to_request_header_mutation] *)
Fixpoint filters_to_request_header_mutation (filters : list HTTPFilterState) : option HeaderMutation :=
  match filters with
  | [] => None
  | FRequestHeaderModifier add set remove :: _ => Some {| hmu_add := map_of add; hmu_remove := remove; hmu_set := map_of set |}
  | _ :: filters => filters_to_request_header_mutation filters
  end.

(** What the filters of a rule come to. *)
Record RuleFilters := {
  rf_request_headers : option HeaderMutation;
  rf_response_headers : option HeaderMutation;
  rf_redirect : option RedirectFilter;
  rf_url_rewrite : option URLRewriteFilter;
  rf_mirror_backends : list MirrorBackend;
  rf_cors : option CORSProto;
}.

Definition no_filters : RuleFilters :=
  {| rf_request_headers := None; rf_response_headers := None; rf_redirect := None; rf_url_rewrite := None;
     rf_mirror_backends := []; rf_cors := None |}.

Definition add_filter (f : RuleFilters) (filter : HTTPFilterState) : RuleFilters :=
  match filter with
  | FRequestHeaderModifier add set remove =>
      {| rf_request_headers := Some {| hmu_add := map_of add; hmu_remove := remove; hmu_set := map_of set |};
         rf_response_headers := rf_response_headers f; rf_redirect := rf_redirect f; rf_url_rewrite := rf_url_rewrite f;
         rf_mirror_backends := rf_mirror_backends f; rf_cors := rf_cors f |}
  | FResponseHeaderModifier add set remove =>
      {| rf_request_headers := rf_request_headers f;
         rf_response_headers := Some {| hmu_add := map_of add; hmu_remove := remove; hmu_set := map_of set |};
         rf_redirect := rf_redirect f; rf_url_rewrite := rf_url_rewrite f; rf_mirror_backends := rf_mirror_backends f;
         rf_cors := rf_cors f |}
  | FRequestRedirect scheme hostname port path path_type status_code =>
      {| rf_request_headers := rf_request_headers f; rf_response_headers := rf_response_headers f;
         rf_redirect := Some {| rdf_scheme := default EmptyString scheme; rdf_hostname := default EmptyString hostname;
                                rdf_port := default 0 port; rdf_path := default EmptyString path;
                                rdf_path_type := default EmptyString path_type; rdf_status_code := status_code |};
         rf_url_rewrite := rf_url_rewrite f; rf_mirror_backends := rf_mirror_backends f; rf_cors := rf_cors f |}
  | FURLRewrite hostname path path_type =>
      {| rf_request_headers := rf_request_headers f; rf_response_headers := rf_response_headers f; rf_redirect := rf_redirect f;
         rf_url_rewrite := Some {| uf_hostname := default EmptyString hostname; uf_path := default EmptyString path;
                                   uf_path_type := default EmptyString path_type |};
         rf_mirror_backends := rf_mirror_backends f; rf_cors := rf_cors f |}
  | FRequestMirror _ backend_name backend_port percent =>
      {| rf_request_headers := rf_request_headers f; rf_response_headers := rf_response_headers f; rf_redirect := rf_redirect f;
         rf_url_rewrite := rf_url_rewrite f;
         rf_mirror_backends := rf_mirror_backends f ++ [{| mb_service_name := backend_name; mb_port := backend_port; mb_percent := percent |}];
         rf_cors := rf_cors f |}
  | FCORS allow_origins allow_methods allow_headers expose_headers allow_credentials max_age =>
      {| rf_request_headers := rf_request_headers f; rf_response_headers := rf_response_headers f; rf_redirect := rf_redirect f;
         rf_url_rewrite := rf_url_rewrite f; rf_mirror_backends := rf_mirror_backends f;
         rf_cors := Some {| cp_allow_origins := allow_origins; cp_allow_methods := allow_methods; cp_allow_headers := allow_headers;
                            cp_expose_headers := expose_headers; cp_allow_credentials := allow_credentials;
                            cp_max_age := default 0 max_age |} |}
  end.

Definition rule_filters (filters : list HTTPFilterState) : RuleFilters := fold_left add_filter filters no_filters.

(** The conditions of one match entry; a rule without entries has one without
    conditions. *)
Record MatchEntry := {
  me_paths : list PathRule;
  me_header_matches : list HeaderMatch;
  me_method_match : string;
  me_query_param_matches : list QueryParamMatch;
}.

Definition header_match (h : string * string * string) : HeaderMatch :=
  let '(name, value, match_type) := h in {| hmp_name := name; hmp_value := value; hmp_match_type := match_type |}.

Definition match_entry (m : HTTPRouteMatchState) : MatchEntry :=
  {| me_paths := match hrm_path m with Some (path, match_type) => [{| pl_path := path; pl_match_type := match_type |}] | None => [] end;
     me_header_matches := map header_match (hrm_headers m);
     me_method_match := default EmptyString (hrm_method m);
     me_query_param_matches := map (fun '(name, value, match_type) =>
       {| qmp_name := name; qmp_value := value; qmp_match_type := match_type |}) (hrm_query_params m) |}.

Definition match_entries (ms : list HTTPRouteMatchState) : list MatchEntry :=
  match ms with
  | [] => [{| me_paths := []; me_header_matches := []; me_method_match := EmptyString; me_query_param_matches := [] |}]
  | _ => map match_entry ms
  end.

Definition weighted_backends (rule : HTTPRouteRuleState) : list WeightedBackend :=
  let refs := hrr_backend_refs rule in
  if (1 <? List.length refs)%nat || existsb (fun b => negb (brs_weight b =? 1)) refs
     || existsb (fun b => match brs_filters b with [] => false | _ => true end) refs
  then map (fun b => {| wbp_service_name := brs_name b; wbp_port := brs_port b; wbp_weight := brs_weight b;
                        wbp_request_headers := filters_to_request_header_mutation (brs_filters b) |}) refs
  else [].

Definition http_route_config (rule : HTTPRouteRuleState) (f : RuleFilters) (m : MatchEntry) (default_host listener_name : string)
    (listener_port : Z) (listener_hostname service : string) (port : Z) (weighted : list WeightedBackend) : RouteConfig :=
  {| rc_host := default_host; rc_paths := me_paths m; rc_service_name := service; rc_port := port; rc_timeouts := None;
     rc_max_retries := from_option rrs_attempts 0 (hrr_retry rule); rc_upstream_tls := None; rc_protocol := "HTTP";
     rc_request_headers := rf_request_headers f; rc_response_headers := rf_response_headers f; rc_rate_limit := None;
     rc_circuit_breaker := None; rc_max_connections := None; rc_header_matches := me_header_matches m;
     rc_method_match := me_method_match m; rc_query_param_matches := me_query_param_matches m;
     rc_redirect := rf_redirect f; rc_url_rewrite := rf_url_rewrite f; rc_grpc_match := None;
     rc_listener_name := listener_name; rc_mirror_backend := head (rf_mirror_backends f);
     rc_weighted_backends := weighted; rc_request_timeout_ms := default 0 (hrr_request_timeout_ms rule);
     rc_backend_request_timeout_ms := default 0 (hrr_backend_request_timeout_ms rule); rc_auth := None;
     rc_cors := rf_cors f; rc_mirror_backends := rf_mirror_backends f; rc_listener_port := listener_port;
     rc_ip_allowlist := None; rc_max_request_body_bytes := 0; rc_retry_on := [];
     rc_retry_codes := from_option rrs_codes [] (hrr_retry rule); rc_ai_dialect := EmptyString;
     rc_ai_provider := EmptyString; rc_ai_key_required := false; rc_ai_budget := None; rc_ai_session_affinity := false;
     rc_ai_jwt := None; rc_ai_on_behalf_of := None; rc_ai_federation := EmptyString; rc_ext_auth := None;
     rc_listener_hostname := listener_hostname; rc_gateway_namespace := EmptyString; rc_gateway_name := EmptyString |}.

(** [compile_http_rule] *)
Definition compile_http_rule (rule : HTTPRouteRuleState) (default_host listener_name : string) (listener_port : Z)
    (listener_hostname : string) : list RouteConfig :=
  let f := rule_filters (hrr_filters rule) in
  let weighted := weighted_backends rule in
  flat_map (fun m =>
    let config := http_route_config rule f m default_host listener_name listener_port listener_hostname in
    match hrr_backend_refs rule, weighted with
    | primary :: _, _ :: _ => [config (brs_name primary) (brs_port primary) weighted]
    | [], _ => [config EmptyString 0 []]
    | refs, [] => map (fun b => config (brs_name b) (brs_port b) []) refs
    end) (match_entries (hrr_matches rule)).

(** A configuration at its place: for one host, on its owning Gateway, towards
    [service]. *)
Definition place_route (r : RouteConfig) (host : string) (owner : string * string) (service : string) (port : Z) : RouteConfig :=
  {| rc_host := host; rc_paths := rc_paths r; rc_service_name := service; rc_port := port;
     rc_timeouts := rc_timeouts r; rc_max_retries := rc_max_retries r; rc_upstream_tls := rc_upstream_tls r;
     rc_protocol := rc_protocol r; rc_request_headers := rc_request_headers r;
     rc_response_headers := rc_response_headers r; rc_rate_limit := rc_rate_limit r;
     rc_circuit_breaker := rc_circuit_breaker r; rc_max_connections := rc_max_connections r;
     rc_header_matches := rc_header_matches r; rc_method_match := rc_method_match r;
     rc_query_param_matches := rc_query_param_matches r; rc_redirect := rc_redirect r;
     rc_url_rewrite := rc_url_rewrite r; rc_grpc_match := rc_grpc_match r; rc_listener_name := rc_listener_name r;
     rc_mirror_backend := rc_mirror_backend r; rc_weighted_backends := rc_weighted_backends r;
     rc_request_timeout_ms := rc_request_timeout_ms r;
     rc_backend_request_timeout_ms := rc_backend_request_timeout_ms r; rc_auth := rc_auth r; rc_cors := rc_cors r;
     rc_mirror_backends := rc_mirror_backends r; rc_listener_port := rc_listener_port r;
     rc_ip_allowlist := rc_ip_allowlist r; rc_max_request_body_bytes := rc_max_request_body_bytes r;
     rc_retry_on := rc_retry_on r; rc_retry_codes := rc_retry_codes r; rc_ai_dialect := rc_ai_dialect r;
     rc_ai_provider := rc_ai_provider r; rc_ai_key_required := rc_ai_key_required r; rc_ai_budget := rc_ai_budget r;
     rc_ai_session_affinity := rc_ai_session_affinity r; rc_ai_jwt := rc_ai_jwt r;
     rc_ai_on_behalf_of := rc_ai_on_behalf_of r; rc_ai_federation := rc_ai_federation r; rc_ext_auth := rc_ext_auth r;
     rc_listener_hostname := rc_listener_hostname r; rc_gateway_namespace := owner.1; rc_gateway_name := owner.2 |}.

(** The conditions of a gRPC match. *)
Definition grpc_match (m : option GRPCRouteMatchState) : option GrpcRouteMatch :=
  (fun m => {| grp_service := default EmptyString (grm_service m); grp_method := default EmptyString (grm_method m);
               grp_match_type := grm_match_type m |}) <$> m.

Definition grpc_paths (m : option GRPCRouteMatchState) : list PathRule :=
  match grpc_match m with
  | Some gm =>
      let path := if negb (is_empty (grp_service gm)) && negb (is_empty (grp_method gm))
                  then "/" +:+ grp_service gm +:+ "/" +:+ grp_method gm
                  else if negb (is_empty (grp_service gm)) then "/" +:+ grp_service gm else "/" in
      [{| pl_path := path; pl_match_type := "Prefix" |}]
  | None => []
  end.

Definition grpc_headers (m : option GRPCRouteMatchState) : list HeaderMatch :=
  match m with Some m => map header_match (grm_headers m) | None => [] end.

Definition grpc_weighted (refs : list BackendRefState) : list WeightedBackend :=
  if (1 <? List.length refs)%nat || existsb (fun b => negb (brs_weight b =? 1)) refs
  then map (fun b => {| wbp_service_name := brs_name b; wbp_port := brs_port b; wbp_weight := brs_weight b; wbp_request_headers := None |}) refs
  else [].

Definition grpc_route_config (m : option GRPCRouteMatchState) (host listener_name : string) (listener_port : Z)
    (listener_hostname : string) (owner : string * string) (service : string) (port : Z) (weighted : list WeightedBackend) : RouteConfig :=
  {| rc_host := host; rc_paths := grpc_paths m; rc_service_name := service; rc_port := port; rc_timeouts := None;
     rc_max_retries := 0; rc_upstream_tls := None; rc_protocol := "GRPC"; rc_request_headers := None;
     rc_response_headers := None; rc_rate_limit := None; rc_circuit_breaker := None; rc_max_connections := None;
     rc_header_matches := grpc_headers m; rc_method_match := EmptyString; rc_query_param_matches := [];
     rc_redirect := None; rc_url_rewrite := None; rc_grpc_match := grpc_match m; rc_listener_name := listener_name;
     rc_mirror_backend := None; rc_weighted_backends := weighted; rc_request_timeout_ms := 0;
     rc_backend_request_timeout_ms := 0; rc_auth := None; rc_cors := None; rc_mirror_backends := [];
     rc_listener_port := listener_port; rc_ip_allowlist := None; rc_max_request_body_bytes := 0; rc_retry_on := [];
     rc_retry_codes := []; rc_ai_dialect := EmptyString; rc_ai_provider := EmptyString; rc_ai_key_required := false;
     rc_ai_budget := None; rc_ai_session_affinity := false; rc_ai_jwt := None; rc_ai_on_behalf_of := None;
     rc_ai_federation := EmptyString; rc_ext_auth := None; rc_listener_hostname := listener_hostname;
     rc_gateway_namespace := owner.1; rc_gateway_name := owner.2 |}.

(** ** AI routes *)

Definition AI_ROUTE_KEY_PREFIX : string := "airoute/".

(** [provider_request_headers] *)
Definition provider_request_headers (store : ConfigStore) (provider : AIProviderState) : list (string * string) :=
  ("host", aps_host provider) ::
  match aps_credential provider with
  | Some cred =>
      match (s ← st_secrets store !! {| nn_namespace := aps_namespace provider; nn_name := acs_secret_name cred |};
             (s : SecretState) !! acs_secret_key cred) with
      | Some value => [(acs_header cred, acs_prefix cred +:+ trim value)]
      | None => []
      end
  | None => []
  end.

Definition ai_rule_as_http (store : ConfigStore) (rule : AIRouteRuleState) : HTTPRouteRuleState :=
  let provider := st_ai_providers store !! arr_provider rule in
  let set := match provider with
             | Some p => if negb (String.eqb (aps_kind p) "mcp-federation") then provider_request_headers store p else []
             | None => []
             end in
  {| hrr_matches := arr_matches rule;
     hrr_filters := arr_filters rule ++ match set with [] => [] | _ => [FRequestHeaderModifier [] set []] end;
     hrr_backend_refs := match provider with
                         | Some p => [{| brs_namespace := aps_namespace p; brs_name := provider_service_name p;
                                         brs_port := aps_port p; brs_weight := 1; brs_filters := [] |}]
                         | None => []
                         end;
     hrr_request_timeout_ms := None; hrr_backend_request_timeout_ms := None; hrr_retry := None |}.

Section Compile.
Context `{IO : IterOrder}.

(** [ai_routes_as_http_routes] *)
Definition ai_routes_as_http_routes (store : ConfigStore) : list (NamespacedName * HTTPRouteState) :=
  map (fun '(key, ar) =>
    ({| nn_namespace := nn_namespace key; nn_name := AI_ROUTE_KEY_PREFIX +:+ nn_name key |},
     {| hrs_namespace := ars_namespace ar; hrs_hostnames := ars_hostnames ar; hrs_parent_refs := ars_parent_refs ar;
        hrs_rules := map (ai_rule_as_http store) (ars_rules ar); hrs_generation := ars_generation ar |}))
    (entries (st_ai_routes store)).

Definition all_http_routes (store : ConfigStore) : list (NamespacedName * HTTPRouteState) :=
  entries (st_http_routes store) ++ ai_routes_as_http_routes store.

(** ** Parents and listeners *)

Definition parent_key (pr : ParentRefState) : NamespacedName :=
  {| nn_namespace := pref_gateway_namespace pr; nn_name := pref_gateway_name pr |}.

(** The listeners a parent contributes. *)
Definition parent_listeners (store : ConfigStore) (pr : ParentRefState) : list ListenerState :=
  match pref_parent_kind pr with
  | ParentGateway => match st_gateways store !! parent_key pr with Some gw => gs_listeners gw | None => [] end
  | ParentListenerSet =>
      match st_listener_sets store !! parent_key pr with
      | Some ls => if lss_accepted ls then lss_listeners ls else []
      | None => []
      end
  end.

(** The listener is one the parent reference selects. *)
Definition selects (pr : ParentRefState) (l : ListenerState) : bool :=
  match pref_section_name pr with Some sn => String.eqb (lst_name l) sn | None => true end &&
  match pref_port pr with Some p => lst_port l =? p | None => true end.

(** The namespace [from: Same] means for a parent. *)
Definition parent_namespace (store : ConfigStore) (pr : ParentRefState) : string :=
  match pref_parent_kind pr with
  | ParentGateway => pref_gateway_namespace pr
  | ParentListenerSet =>
      match st_listener_sets store !! parent_key pr with Some ls => lss_namespace ls | None => pref_gateway_namespace pr end
  end.

(** The checks of the compile loop, for a route of [namespace]. *)
Definition binds (store : ConfigStore) (namespace : string) (pr : ParentRefState) (l : ListenerState) : bool :=
  lst_accepted l && (String.eqb (lst_protocol l) "HTTP" || String.eqb (lst_protocol l) "HTTPS") && selects pr l &&
  namespace_allowed (lst_allowed_routes l) namespace (parent_namespace store pr)
    (default ∅ (st_namespace_labels store !! namespace)).

Definition listener_name_for (pr : ParentRefState) (l : ListenerState) : string := default (lst_name l) (pref_section_name pr).

Definition owner_of (store : ConfigStore) (pr : ParentRefState) : string * string :=
  owner_gateway (pref_parent_kind pr) (pref_gateway_namespace pr) (pref_gateway_name pr) (st_listener_sets store).

Definition gateway_refs (prs : list ParentRefState) : list (string * string * option string) :=
  map (fun pr => (pref_gateway_namespace pr, pref_gateway_name pr, pref_section_name pr)) prs.

(** A Service of another namespace needs a grant. *)
Definition grant_ok (store : ConfigStore) (kind namespace backend_ns service : string) : bool :=
  String.eqb backend_ns namespace ||
  is_reference_allowed (st_reference_grants store) namespace kind backend_ns "Service" (Some service).

(** ** HTTPRoutes *)

(** The Service a route goes to, unless its grant is gone. *)
Definition granted_service (store : ConfigStore) (kind namespace : string) (refs : list BackendRefState) (service : string) (port : Z)
    : string * Z :=
  if is_empty service then (service, port)
  else
    let backend_ns := match List.find (fun b => String.eqb (brs_name b) service && (brs_port b =? port)) refs with
                      | Some b => brs_namespace b
                      | None => namespace
                      end in
    if grant_ok store kind namespace backend_ns service then (service, port) else (EmptyString, 0).

(** The kind and name policies know a route by. *)
Definition source_of (route_key : NamespacedName) : string * string :=
  match strip_prefix AI_ROUTE_KEY_PREFIX (nn_name route_key) with
  | Some ai_name => ("AIRoute", ai_name)
  | None => ("HTTPRoute", nn_name route_key)
  end.

(** The configurations of one route on one listener. *)
Definition compile_http_on (store : ConfigStore) (hr : HTTPRouteState) (pr : ParentRefState) (l : ListenerState) : list RouteConfig :=
  let hosts := compute_effective_hostnames_inner [lst_hostname l] (hrs_hostnames hr) in
  flat_map (fun rule =>
    let base := compile_http_rule rule (default "*" (head hosts)) (listener_name_for pr l) (lst_port l)
                  (default EmptyString (lst_hostname l)) in
    flat_map (fun host => map (fun rc =>
      let '(service, port) := granted_service store "HTTPRoute" (hrs_namespace hr) (hrr_backend_refs rule) (rc_service_name rc) (rc_port rc) in
      place_route rc host (owner_of store pr) service port) base) hosts) (hrs_rules hr).

(** The accepted parents of a route with the listeners it binds on each. *)
Definition bindings (store : ConfigStore) (namespace : string) (prs : list ParentRefState) : list (ParentRefState * ListenerState) :=
  flat_map (fun pr => map (pair pr) (List.filter (binds store namespace pr) (parent_listeners store pr)))
           (List.filter pref_accepted prs).

Definition compile_http_route (store : ConfigStore) (route_key : NamespacedName) (hr : HTTPRouteState) : list (RouteSource * RouteConfig) :=
  let '(kind, name) := source_of route_key in
  let source := {| rsrc_kind := kind; rsrc_namespace := nn_namespace route_key; rsrc_name := name;
                   rsrc_gateway_refs := gateway_refs (hrs_parent_refs hr) |} in
  map (pair source) (flat_map (fun '(pr, l) => compile_http_on store hr pr l) (bindings store (hrs_namespace hr) (hrs_parent_refs hr))).

Definition compile_http_routes (store : ConfigStore) : list (RouteSource * RouteConfig) :=
  flat_map (fun '(route_key, hr) => compile_http_route store route_key hr) (all_http_routes store).

(** ** GRPCRoutes *)

Definition compile_grpc_on (store : ConfigStore) (gr : GRPCRouteState) (pr : ParentRefState) (l : ListenerState) : list RouteConfig :=
  let hosts := compute_effective_hostnames_inner [lst_hostname l] (grs_hostnames gr) in
  flat_map (fun rule =>
    let refs := grr_backend_refs rule in
    let weighted := grpc_weighted refs in
    flat_map (fun m => map (fun host =>
      let config := grpc_route_config m host (listener_name_for pr l) (lst_port l) (default EmptyString (lst_hostname l)) (owner_of store pr) in
      match refs, weighted with
      | primary :: _, _ :: _ => config (brs_name primary) (brs_port primary) weighted
      | [], _ => config EmptyString 0 []
      | b :: _, [] =>
          if grant_ok store "GRPCRoute" (grs_namespace gr) (brs_namespace b) (brs_name b)
          then config (brs_name b) (brs_port b) [] else config EmptyString 0 []
      end) hosts) (match grr_matches rule with [] => [None] | ms => map Some ms end)) (grs_rules gr).

Definition compile_grpc_route (store : ConfigStore) (route_key : NamespacedName) (gr : GRPCRouteState) : list (RouteSource * RouteConfig) :=
  let source := {| rsrc_kind := "GRPCRoute"; rsrc_namespace := nn_namespace route_key; rsrc_name := nn_name route_key;
                   rsrc_gateway_refs := gateway_refs (grs_parent_refs gr) |} in
  map (pair source) (flat_map (fun '(pr, l) => compile_grpc_on store gr pr l) (bindings store (grs_namespace gr) (grs_parent_refs gr))).

Definition compile_grpc_routes (store : ConfigStore) : list (RouteSource * RouteConfig) :=
  flat_map (fun '(route_key, gr) => compile_grpc_route store route_key gr) (entries (st_grpc_routes store)).
End Compile.

(** ** What is compiled *)

Section Facts.
Context `{IO : IterOrder}.
Implicit Types (store : ConfigStore) (pr : ParentRefState) (l : ListenerState).

(** A route of [namespace] with the parents [prs] is bound to [l] through the
    accepted parent [pr]: [pr] contributes [l], an accepted HTTP or HTTPS
    listener, names it or no listener, names its port or no port, and [l] takes
    routes of the namespace. *)
Definition attached store (namespace : string) (prs : list ParentRefState) pr l : Prop :=
  pr ∈ prs /\ pref_accepted pr = true /\ l ∈ parent_listeners store pr /\
  lst_accepted l = true /\ (lst_protocol l = "HTTP" \/ lst_protocol l = "HTTPS") /\
  (forall sn, pref_section_name pr = Some sn -> lst_name l = sn) /\ (forall p, pref_port pr = Some p -> lst_port l = p) /\
  namespace_allowed (lst_allowed_routes l) namespace (parent_namespace store pr) (default ∅ (st_namespace_labels store !! namespace)) = true.

Lemma binds_iff store namespace pr l :
  binds store namespace pr l = true <->
  lst_accepted l = true /\ (lst_protocol l = "HTTP" \/ lst_protocol l = "HTTPS") /\
  (forall sn, pref_section_name pr = Some sn -> lst_name l = sn) /\ (forall p, pref_port pr = Some p -> lst_port l = p) /\
  namespace_allowed (lst_allowed_routes l) namespace (parent_namespace store pr) (default ∅ (st_namespace_labels store !! namespace)) = true.
Proof.
  unfold binds, selects. rewrite !andb_true_iff, orb_true_iff, !String.eqb_eq.
  assert (Hs : match pref_section_name pr with Some sn => String.eqb (lst_name l) sn | None => true end = true <->
               forall sn, pref_section_name pr = Some sn -> lst_name l = sn).
  { destruct (pref_section_name pr) as [sn|]; [rewrite String.eqb_eq|]; naive_solver. }
  assert (Hp : match pref_port pr with Some p => lst_port l =? p | None => true end = true <-> forall p, pref_port pr = Some p -> lst_port l = p).
  { destruct (pref_port pr) as [p|]; [rewrite Z.eqb_eq|]; naive_solver. }
  rewrite Hs, Hp. tauto.
Qed.

Lemma bindings_elem store namespace prs pr l :
  (pr, l) ∈ bindings store namespace prs <-> attached store namespace prs pr l.
Proof.
  unfold bindings, attached. rewrite <- binds_iff, list_elem_of_In, in_flat_map. setoid_rewrite filter_In. setoid_rewrite <- list_elem_of_In. split.
  - intros (pr' & [Hpr Ha] & (l' & [= <- <-] & Hl)%list_elem_of_fmap). apply list_elem_of_In, filter_In in Hl as [Hl Hb].
    by apply list_elem_of_In in Hl.
  - intros (Hpr & Ha & Hl & Hb). exists pr. split; [done|]. apply list_elem_of_fmap. exists l. split; [done|].
    apply list_elem_of_In, filter_In. by rewrite <- list_elem_of_In.
Qed.

(** Every rule yields a configuration. *)
Lemma compile_http_rule_nonempty rule host name port hostname : compile_http_rule rule host name port hostname <> [].
Proof.
  unfold compile_http_rule. assert (Hm : exists m ms, match_entries (hrr_matches rule) = m :: ms).
  { unfold match_entries. destruct (hrr_matches rule); simpl; eauto. }
  destruct Hm as (m & ms & ->). simpl. destruct (hrr_backend_refs rule) as [|b bs], (weighted_backends rule) as [|w ws]; done.
Qed.

Lemma compile_http_rule_listener rule host name port hostname rc :
  rc ∈ compile_http_rule rule host name port hostname ->
  rc_listener_name rc = name /\ rc_listener_port rc = port /\ rc_listener_hostname rc = hostname.
Proof.
  unfold compile_http_rule. rewrite list_elem_of_In, in_flat_map. intros (m & _ & Hrc). apply list_elem_of_In in Hrc. revert Hrc.
  destruct (hrr_backend_refs rule) as [|b bs], (weighted_backends rule) as [|w ws].
  - by intros ->%list_elem_of_singleton.
  - by intros ->%list_elem_of_singleton.
  - by intros (b' & -> & _)%list_elem_of_fmap.
  - by intros ->%list_elem_of_singleton.
Qed.

(** One configuration of a route on a listener, spelled out. *)
Lemma compile_http_on_elem store hr pr l rc :
  rc ∈ compile_http_on store hr pr l <->
  exists rule host base,
    rule ∈ hrs_rules hr /\ host ∈ compute_effective_hostnames_inner [lst_hostname l] (hrs_hostnames hr) /\
    base ∈ compile_http_rule rule (default "*" (head (compute_effective_hostnames_inner [lst_hostname l] (hrs_hostnames hr))))
             (listener_name_for pr l) (lst_port l) (default EmptyString (lst_hostname l)) /\
    rc = place_route base host (owner_of store pr)
           (granted_service store "HTTPRoute" (hrs_namespace hr) (hrr_backend_refs rule) (rc_service_name base) (rc_port base)).1
           (granted_service store "HTTPRoute" (hrs_namespace hr) (hrr_backend_refs rule) (rc_service_name base) (rc_port base)).2.
Proof.
  unfold compile_http_on. rewrite list_elem_of_In, in_flat_map. setoid_rewrite in_flat_map. setoid_rewrite <- list_elem_of_In.
  split.
  - intros (rule & Hrule & host & Hhost & (base & -> & Hbase)%list_elem_of_fmap). exists rule, host, base.
    destruct (granted_service _ _ _ _ _ _). done.
  - intros (rule & host & base & Hrule & Hhost & Hbase & ->). exists rule. split; [done|]. exists host. split; [done|].
    apply list_elem_of_fmap. exists base. by destruct (granted_service _ _ _ _ _ _).
Qed.

Lemma compile_http_route_elem store key hr rc :
  rc ∈ map snd (compile_http_route store key hr) <->
  exists pr l, attached store (hrs_namespace hr) (hrs_parent_refs hr) pr l /\ rc ∈ compile_http_on store hr pr l.
Proof.
  unfold compile_http_route. destruct (source_of key) as [kind name]. rewrite map_map. simpl. rewrite map_id.
  rewrite list_elem_of_In, in_flat_map. setoid_rewrite <- list_elem_of_In. split.
  - intros ([pr l] & Hb%bindings_elem & Hrc). eauto.
  - intros (pr & l & Hb & Hrc). exists (pr, l). split; [by apply bindings_elem|done].
Qed.

(** C8: A request that arrives at a listener is served by exactly the HTTPRoutes
    that are bound to that listener and ask for the request's host: a route is
    compiled for the listener under a hostname that serves the host if and only
    if one of its accepted parents contributes the listener, the listener
    accepts the route's namespace, both sides' hostnames cover the host and the
    route has a rule.  The configurations carry the Gateway that owns the
    listener. *)
Theorem http_route_serves_attached_hosts store (key : NamespacedName) (hr : HTTPRouteState) (owner : string * string) (lname : string)
    (lport : Z) (lhost host : string) :
  Forall proper (hrs_hostnames hr) ->
  (forall pr l h, l ∈ parent_listeners store pr -> lst_hostname l = Some h -> proper h) ->
  (exists rc, rc ∈ map snd (compile_http_route store key hr) /\
     (rc_gateway_namespace rc, rc_gateway_name rc) = owner /\ rc_listener_name rc = lname /\ rc_listener_port rc = lport /\
     rc_listener_hostname rc = lhost /\ host_serves (rc_host rc) host = true) <->
  (exists pr l, attached store (hrs_namespace hr) (hrs_parent_refs hr) pr l /\
     owner_of store pr = owner /\ listener_name_for pr l = lname /\ lst_port l = lport /\ default EmptyString (lst_hostname l) = lhost /\
     listener_hostname_claims lhost host = true) /\
  route_asks (hrs_hostnames hr) host /\ hrs_rules hr <> [].
Proof.
  intros Hhr Hls. split.
  - intros (rc & Hrc & Hgw & Hn & Hp & Hlh & Hs). apply compile_http_route_elem in Hrc as (pr & l & Hatt & Hrc).
    apply compile_http_on_elem in Hrc as (rule & e & base & Hrule & He & Hbase & ->). simpl in *.
    apply compile_http_rule_listener in Hbase as (Hn' & Hp' & Hlh').
    assert (Hex : exists e, e ∈ compute_effective_hostnames_inner [lst_hostname l] (hrs_hostnames hr) /\ host_serves e host = true) by eauto.
    apply effective_hosts_exact in Hex as [Hc Ha]; [|intros h Hh; by eapply Hls; [apply Hatt|]|done].
    split; [|split; [done|by intros Hnil; rewrite Hnil in Hrule; apply elem_of_nil in Hrule]].
    exists pr, l. split; [done|]. rewrite Hn' in Hn. rewrite Hp' in Hp. rewrite Hlh' in Hlh. subst lhost.
    destruct (owner_of store pr). done.
  - intros ((pr & l & Hatt & Ho & Hn & Hp & Hlh & Hc) & Ha & Hr). subst lhost.
    destruct (proj2 (effective_hosts_exact (lst_hostname l) (hrs_hostnames hr) host
                       (fun h Hh => Hls pr l h (proj1 (proj2 (proj2 Hatt))) Hh) Hhr) (conj Hc Ha)) as (e & He & Hs).
    destruct (hrs_rules hr) as [|rule rules] eqn:Hrules; [done|].
    set (hosts := compute_effective_hostnames_inner [lst_hostname l] (hrs_hostnames hr)) in *.
    pose proof (compile_http_rule_nonempty rule (default "*" (head hosts)) (listener_name_for pr l) (lst_port l)
                  (default EmptyString (lst_hostname l))) as Hne.
    destruct (compile_http_rule _ _ _ _ _) as [|base bases] eqn:Hcomp; [done|].
    assert (Hb : base ∈ compile_http_rule rule (default "*" (head hosts)) (listener_name_for pr l) (lst_port l)
                   (default EmptyString (lst_hostname l))) by (rewrite Hcomp; by left).
    destruct (compile_http_rule_listener _ _ _ _ _ _ Hb) as (Hn' & Hp' & Hlh').
    eexists. split.
    + apply compile_http_route_elem. exists pr, l. split; [done|]. apply compile_http_on_elem. exists rule, e, base.
      split; [rewrite Hrules; by left|]. split; [done|]. split; [done|reflexivity].
    + simpl. rewrite Ho. destruct owner. simpl. by rewrite Hn', Hp', Hlh'.
Qed.

Lemma compile_http_rule_service rule host name port hostname rc :
  rc ∈ compile_http_rule rule host name port hostname -> rc_service_name rc <> EmptyString ->
  exists b, b ∈ hrr_backend_refs rule /\ brs_name b = rc_service_name rc /\ brs_port b = rc_port rc.
Proof.
  unfold compile_http_rule. rewrite list_elem_of_In, in_flat_map. intros (m & _ & Hrc). apply list_elem_of_In in Hrc. revert Hrc.
  destruct (hrr_backend_refs rule) as [|b bs], (weighted_backends rule) as [|w ws].
  - by intros ->%list_elem_of_singleton.
  - by intros ->%list_elem_of_singleton.
  - intros (b' & -> & Hb)%list_elem_of_fmap _. by exists b'.
  - intros ->%list_elem_of_singleton _. exists b. split; [by left|done].
Qed.

(** The reference behind the service of a compiled configuration. *)
Lemma http_service_ref store key hr rc :
  rc ∈ map snd (compile_http_route store key hr) -> rc_service_name rc <> EmptyString ->
  exists rule b, rule ∈ hrs_rules hr /\ b ∈ hrr_backend_refs rule /\ brs_name b = rc_service_name rc /\ brs_port b = rc_port rc /\
    grant_ok store "HTTPRoute" (hrs_namespace hr) (brs_namespace b) (brs_name b) = true.
Proof.
  intros Hrc Hs. apply compile_http_route_elem in Hrc as (pr & l & Hatt & Hrc).
  apply compile_http_on_elem in Hrc as (rule & e & base & Hrule & He & Hbase & ->). simpl in *.
  unfold granted_service in *. destruct (is_empty (rc_service_name base)) eqn:Hempty; [by destruct (rc_service_name base)|].
  destruct (List.find _ (hrr_backend_refs rule)) as [b|] eqn:Hfind.
  - destruct (grant_ok store "HTTPRoute" (hrs_namespace hr) (brs_namespace b) (rc_service_name base)) eqn:Hg; [|done]. simpl in *.
    apply List.find_some in Hfind as [Hb%list_elem_of_In Hbp]. apply andb_true_iff in Hbp as [Hbn%String.eqb_eq Hbp%Z.eqb_eq].
    exists rule, b. split_and!; try done. by rewrite Hbn.
  - exfalso. destruct (compile_http_rule_service _ _ _ _ _ _ Hbase) as (b & Hb & Hn & Hp); [by intros Hz; rewrite Hz in Hempty|].
    apply list_elem_of_In in Hb. pose proof (List.find_none _ _ Hfind b Hb) as Hnone. simpl in Hnone.
    by rewrite Hn, Hp, String.eqb_refl, Z.eqb_refl in Hnone.
Qed.

End Facts.

(** ** A Gateway with two routes *)

Definition route_store (gws : gmap NamespacedName GatewayState) (lss : gmap NamespacedName ListenerSetState)
    (hrs : gmap NamespacedName HTTPRouteState) (grants : gmap NamespacedName ReferenceGrantState) : ConfigStore :=
  set_gateways gws (set_listener_sets lss (set_http_routes hrs (set_reference_grants grants ConfigStore_new))).

Definition demo_listener (name : string) (port : Z) (hostname : option string) : ListenerState :=
  {| lst_name := name; lst_port := port; lst_protocol := "HTTP"; lst_hostname := hostname; lst_accepted := true;
     lst_conflicted := false; lst_resolved_refs := true;
     lst_allowed_routes := {| ar_namespaces_from := "All"; ar_namespace_selector := None |};
     lst_tls_cert_refs := []; lst_tls_mode := None |}.

Definition demo_gateway (listeners : list ListenerState) : GatewayState :=
  {| gs_name := "gw"; gs_namespace := "infra"; gs_listeners := listeners; gs_generation := 1;
     gs_allowed_listener_namespaces_from := None; gs_allowed_listener_match_labels := [] |}.

Definition demo_parent (kind : ParentKind) (ns name : string) : ParentRefState :=
  {| pref_parent_kind := kind; pref_gateway_namespace := ns; pref_gateway_name := name; pref_section_name := None;
     pref_port := None; pref_accepted := true; pref_resolved_refs := true; pref_reject_reason := None |}.

Definition demo_backend (ns name : string) (weight : Z) : BackendRefState :=
  {| brs_namespace := ns; brs_name := name; brs_port := 80; brs_weight := weight; brs_filters := [] |}.

Definition demo_http_route (ns : string) (hostnames : list string) (parents : list ParentRefState) (refs : list BackendRefState)
    : HTTPRouteState :=
  {| hrs_namespace := ns; hrs_hostnames := hostnames; hrs_parent_refs := parents;
     hrs_rules := [{| hrr_matches := []; hrr_filters := []; hrr_backend_refs := refs; hrr_request_timeout_ms := None;
                      hrr_backend_request_timeout_ms := None; hrr_retry := None |}];
     hrs_generation := 1 |}.

Definition demo_gw_key : NamespacedName := {| nn_namespace := "infra"; nn_name := "gw" |}.
Definition cart_key : NamespacedName := {| nn_namespace := "shop"; nn_name := "cart" |}.

Definition cart_route : HTTPRouteState :=
  demo_http_route "shop" ["cart.example.com"] [demo_parent ParentGateway "infra" "gw"] [demo_backend "shop" "cart" 1].

Definition cart_store : ConfigStore :=
  route_store {[ demo_gw_key := demo_gateway [demo_listener "web" 80 (Some "*.example.com")] ]} ∅ {[ cart_key := cart_route ]} ∅.

Lemma cart_listeners_proper pr l h : l ∈ parent_listeners cart_store pr -> lst_hostname l = Some h -> proper h.
Proof.
  unfold parent_listeners. destruct (pref_parent_kind pr); simpl; [|by rewrite lookup_empty; intros ?%elem_of_nil].
  destruct ({[demo_gw_key := _]} !! parent_key pr) as [gw|] eqn:Hgw; [|by intros ?%elem_of_nil].
  apply lookup_singleton_Some in Hgw as [_ <-]. simpl. intros ->%list_elem_of_singleton [= <-]. done.
Qed.

Lemma http_route_serves_attached_hosts_witness :
  exists rc, rc ∈ map snd (@compile_http_route listed_order cart_store cart_key cart_route) /\
    host_serves (rc_host rc) "cart.example.com" = true.
Proof.
  destruct (@http_route_serves_attached_hosts listed_order cart_store cart_key cart_route ("infra", "gw") "web" 80 "*.example.com"
              "cart.example.com") as [_ H].
  - repeat constructor; discriminate.
  - apply cart_listeners_proper.
  - destruct H as (rc & Hrc & _ & _ & _ & _ & Hs).
    + split; [|split; [|discriminate]].
      * exists (demo_parent ParentGateway "infra" "gw"), (demo_listener "web" 80 (Some "*.example.com")).
        split; [|repeat split; vm_compute; reflexivity]. split; [left|]. split; [reflexivity|]. split; [vm_compute; left|].
        apply binds_iff. vm_compute. reflexivity.
      * right. exists "cart.example.com". split; [left|vm_compute; reflexivity].
    + exists rc. split; assumption.
Defined.


(** The backends a rule splits its traffic over are not checked: a Service of
    another namespace that no grant covers stays in the list as soon as the
    rule has two backends, or one whose weight is not 1. *)
Example weighted_backends_skip_the_grant :
  let route := demo_http_route "shop" [] [demo_parent ParentGateway "infra" "gw"]
                 [demo_backend "shop" "cart" 1; demo_backend "bank" "vault" 1] in
  map (fun rc => map wbp_service_name (rc_weighted_backends rc)) (map snd (@compile_http_route listed_order cart_store cart_key route))
  = [["cart"; "vault"]] /\
  @grant_ok listed_order cart_store "HTTPRoute" "shop" "bank" "vault" = false.
Proof. split; vm_compute; reflexivity. Qed.
