(* ===== verification/PolicyCompiler.v ===== *)
(** * Applying policies to compiled routes

    [index_policies], [find_matching_policy] and [apply_policies] of
    [portus-controller/src/compiler.rs]: every compiled route gets the settings
    of the accepted policy of each kind that targets it or a Gateway it is bound
    to.  The last part follows the settings into the data plane's checks. *)
From S2P Require Import Prelude Text Net Types Router Auth Keys Http Plan Proto ConfigRoutes Resources Hostnames.
From S2P Require Import Policies PolicyKinds RouteCompiler.
From Stdlib Require Import String.
Open Scope Z_scope.

(** ** Finding the policy of a route *)

Section Index.
Context {P : Type} `{PS : PolicyState P}.

Definition RouteTargetKey : Type := string * string * string.

Definition route_target (t : PolicyTargetKey) : RouteTargetKey := (ptk_kind t, ptk_namespace t, ptk_name t).

Definition is_gateway_target (t : PolicyTargetKey) : bool := String.eqb (ptk_kind t) "Gateway".

(** [index_policies]: the positions of the policies of each route target, and
    those of the policies that target a Gateway. *)
Definition index_policies (policies : list P) : gmap RouteTargetKey (list nat) * list nat :=
  foldl (fun '(route_index, gateway_indices) '(i, policy) =>
      let target := policy_target policy in
      if is_gateway_target target then (route_index, gateway_indices ++ [i])
      else (<[route_target target := default [] (route_index !! route_target target) ++ [i]]> route_index, gateway_indices))
    (∅, []) (imap pair policies).

(** A Gateway target covers_ref a parent reference: the same Gateway and, when it
    names a section, the same section. *)
Definition covers_ref (target : PolicyTargetKey) (gateway_ref : string * string * option string) : bool :=
  let '(gw_ns, gw_name, section) := gateway_ref in
  String.eqb (ptk_namespace target) gw_ns && String.eqb (ptk_name target) gw_name &&
  match ptk_section_name target with Some policy_section => bool_decide (section = Some policy_section) | None => true end.

(** [find_matching_policy] *)
Definition find_matching_policy (policies : list P) (route_index : gmap RouteTargetKey (list nat)) (gateway_policies : list nat)
    (source : RouteSource) : option nat :=
  match route_index !! (rsrc_kind source, rsrc_namespace source, rsrc_name source) with
  | Some (idx :: _) => Some idx
  | _ => List.find (fun idx => match policies !! idx with
                               | Some p => existsb (covers_ref (policy_target p)) (rsrc_gateway_refs source)
                               | None => false
                               end) gateway_policies
  end.

(** The rule it implements: the first policy on the route itself, else the
    first on a Gateway of the route. *)
Definition on_route (source : RouteSource) (p : P) : bool :=
  negb (is_gateway_target (policy_target p)) &&
  bool_decide (route_target (policy_target p) = (rsrc_kind source, rsrc_namespace source, rsrc_name source)).

Definition on_gateway (source : RouteSource) (p : P) : bool :=
  is_gateway_target (policy_target p) && existsb (covers_ref (policy_target p)) (rsrc_gateway_refs source).

Definition matching_policy (policies : list P) (source : RouteSource) : option P :=
  match List.find (on_route source) policies with
  | Some p => Some p
  | None => List.find (on_gateway source) policies
  end.
End Index.

Section Apply.
Context `{IO : IterOrder}.

(** The accepted policies of a kind, in the order the map is walked. *)
Definition accepted_policies {P} `{PolicyState P} (m : gmap NamespacedName P) : list P :=
  map snd (List.filter (fun e => policy_accepted e.2) (entries m)).

Definition policy_for {P} `{PolicyState P} (m : gmap NamespacedName P) (source : RouteSource) : option P :=
  let policies := accepted_policies m in
  let '(route_index, gateway_indices) := index_policies policies in
  find_matching_policy policies route_index gateway_indices source ≫= fun idx => policies !! idx.

Definition basic_auth_config (store : ConfigStore) (policy : BasicAuthPolicyState) : AuthType :=
  AuthBasic (default ∅ (st_secrets store !! {| nn_namespace := baps_secret_namespace policy; nn_name := baps_secret_name policy |}))
            (baps_realm policy).

Definition api_key_config (store : ConfigStore) (policy : ApiKeyAuthPolicyState) : AuthType :=
  AuthApiKey (match st_secrets store !! {| nn_namespace := akps_secret_namespace policy; nn_name := akps_secret_name policy |} with
              | Some secret => map snd (entries (secret : SecretState))
              | None => []
              end) (akps_header_name policy).

Definition jwt_config (policy : JwtAuthPolicyState) : AuthType :=
  AuthJwt (map (fun p => {| jpv_issuer := jps_issuer p; jpv_audiences := jps_audiences p;
                            jpv_claim_to_headers := map (fun '(claim, header) => {| jch_claim := claim; jch_header := header |})
                                                        (jps_claim_to_headers p) |}) (japs_providers policy)).

(** The three kinds of authentication, in the order they are tried. *)
Definition policy_auth (store : ConfigStore) (source : RouteSource) (auth : option (option AuthType)) : option (option AuthType) :=
  let auth := match policy_for (st_basic_auth_policies store) source with
              | Some p => Some (Some (basic_auth_config store p))
              | None => auth
              end in
  let auth := match auth with
              | Some _ => auth
              | None => match policy_for (st_api_key_auth_policies store) source with
                        | Some p => Some (Some (api_key_config store p))
                        | None => None
                        end
              end in
  match auth with
  | Some _ => auth
  | None => match policy_for (st_jwt_auth_policies store) source with
            | Some p => Some (Some (jwt_config p))
            | None => None
            end
  end.

(** A Service the policy may not reference compiles to an empty name. *)
Definition ext_auth_config (store : ConfigStore) (p : ExtAuthPolicyState) : ExtAuthConfig :=
  let permitted := reference_permitted (st_reference_grants store) (ptk_namespace (policy_target p)) p in
  {| eac_service_name := if permitted then eaps_service_name p else EmptyString;
     eac_service_namespace := eaps_service_namespace p; eac_port := eaps_port p; eac_path := eaps_path p;
     eac_timeout_ms := eaps_timeout_ms p; eac_fail_open := eaps_fail_open p;
     eac_request_headers := eaps_request_headers p; eac_response_headers := eaps_response_headers p |}.

Definition policy_timeouts (p : TimeoutPolicyState) (timeouts : option TimeoutConfig) : option TimeoutConfig :=
  if 0 <? tops_connect_timeout_ms p then
    Some (match timeouts with
          | Some t => {| tc_connect_timeout_ms := tops_connect_timeout_ms p; tc_read_timeout_ms := tc_read_timeout_ms t;
                         tc_write_timeout_ms := tc_write_timeout_ms t |}
          | None => {| tc_connect_timeout_ms := tops_connect_timeout_ms p; tc_read_timeout_ms := 0; tc_write_timeout_ms := 0 |}
          end)
  else timeouts.

Definition rate_limit_config (p : RateLimitPolicyState) : RateLimitConfig :=
  {| rlc_requests_per_second := rlps_requests_per_second p; rlc_per_client := rlps_per_client p |}.

Definition circuit_breaker_config (p : CircuitBreakerPolicyState) : CircuitBreakerProto :=
  {| cbp_failure_threshold := cbps_failure_threshold p; cbp_success_threshold := cbps_success_threshold p;
     cbp_timeout_secs := cbps_timeout_secs p |}.

Definition ip_allowlist_config (p : IPAllowlistPolicyState) : IPAllowlistConfig :=
  {| ial_allow_cidrs := ipps_allow_cidrs p; ial_deny_cidrs := ipps_deny_cidrs p;
     ial_trusted_proxy_cidrs := ipps_trusted_proxy_cidrs p |}.

Definition cors_config (p : CORSPolicyState) : CORSProto :=
  {| cp_allow_origins := cops_allow_origins p; cp_allow_methods := cops_allow_methods p; cp_allow_headers := cops_allow_headers p;
     cp_expose_headers := cops_expose_headers p; cp_allow_credentials := cops_allow_credentials p; cp_max_age := cops_max_age p |}.

(** A setting a policy replaces. *)
Definition overridden {P A} (f : P -> A) (policy : option P) (old : option A) : option A :=
  match policy with Some p => Some (f p) | None => old end.

(** [apply_policies], for one route *)
Definition apply_policies (store : ConfigStore) (source : RouteSource) (route : RouteConfig) : RouteConfig :=
  let rate_limit := policy_for (st_rate_limit_policies store) source in
  let circuit_breaker := policy_for (st_circuit_breaker_policies store) source in
  let connection := policy_for (st_connection_policies store) source in
  let ext_auth := policy_for (st_ext_auth_policies store) source in
  let retry := if (rc_max_retries route =? 0) && bool_decide (rc_retry_codes route = [])
               then policy_for (st_retry_policies store) source else None in
  let ip_allowlist := policy_for (st_ip_allowlist_policies store) source in
  let body_size := policy_for (st_request_body_size_limit_policies store) source in
  let cors := match rc_cors route with None => policy_for (st_cors_policies store) source | Some _ => None end in
  let timeout := policy_for (st_timeout_policies store) source in
  let positive (field : TimeoutPolicyState -> Z) (old : Z) :=
    match timeout with Some p => if 0 <? field p then field p else old | None => old end in
  {| rc_host := rc_host route; rc_paths := rc_paths route; rc_service_name := rc_service_name route;
     rc_port := rc_port route;
     rc_timeouts := match timeout with Some p => policy_timeouts p (rc_timeouts route) | None => rc_timeouts route end;
     rc_max_retries := match retry with Some p => rtps_max_retries p | None => rc_max_retries route end;
     rc_upstream_tls := rc_upstream_tls route; rc_protocol := rc_protocol route;
     rc_request_headers := rc_request_headers route; rc_response_headers := rc_response_headers route;
     rc_rate_limit := overridden rate_limit_config rate_limit (rc_rate_limit route);
     rc_circuit_breaker := overridden circuit_breaker_config circuit_breaker (rc_circuit_breaker route);
     rc_max_connections := overridden cnps_max_connections connection (rc_max_connections route);
     rc_header_matches := rc_header_matches route; rc_method_match := rc_method_match route;
     rc_query_param_matches := rc_query_param_matches route; rc_redirect := rc_redirect route;
     rc_url_rewrite := rc_url_rewrite route; rc_grpc_match := rc_grpc_match route;
     rc_listener_name := rc_listener_name route; rc_mirror_backend := rc_mirror_backend route;
     rc_weighted_backends := rc_weighted_backends route;
     rc_request_timeout_ms := positive tops_request_timeout_ms (rc_request_timeout_ms route);
     rc_backend_request_timeout_ms := positive tops_backend_request_timeout_ms (rc_backend_request_timeout_ms route);
     rc_auth := policy_auth store source (rc_auth route);
     rc_cors := overridden cors_config cors (rc_cors route);
     rc_mirror_backends := rc_mirror_backends route; rc_listener_port := rc_listener_port route;
     rc_ip_allowlist := overridden ip_allowlist_config ip_allowlist (rc_ip_allowlist route);
     rc_max_request_body_bytes := match body_size with Some p => bsps_max_bytes p | None => rc_max_request_body_bytes route end;
     rc_retry_on := match retry with Some p => rtps_retry_on p | None => rc_retry_on route end;
     rc_retry_codes := rc_retry_codes route; rc_ai_dialect := rc_ai_dialect route;
     rc_ai_provider := rc_ai_provider route; rc_ai_key_required := rc_ai_key_required route;
     rc_ai_budget := rc_ai_budget route; rc_ai_session_affinity := rc_ai_session_affinity route;
     rc_ai_jwt := rc_ai_jwt route; rc_ai_on_behalf_of := rc_ai_on_behalf_of route;
     rc_ai_federation := rc_ai_federation route;
     rc_ext_auth := overridden (ext_auth_config store) ext_auth (rc_ext_auth route);
     rc_listener_hostname := rc_listener_hostname route; rc_gateway_namespace := rc_gateway_namespace route;
     rc_gateway_name := rc_gateway_name route |}.
End Apply.

(** ** The index finds what a search would *)

Section IndexFacts.
Context {P : Type} `{PS : PolicyState P}.
Implicit Types (policies : list P) (f g t : P -> bool).

(** The positions of the elements that satisfy [f]. *)
Definition positions f policies : list nat := omap (fun '(i, p) => if f p then Some i else None) (imap pair policies).

Lemma positions_snoc f policies p :
  positions f (policies ++ [p]) = positions f policies ++ (if f p then [List.length policies] else []).
Proof.
  unfold positions. rewrite imap_app, omap_app. f_equal. simpl. rewrite Nat.add_0_r. by destruct (f p).
Qed.

Lemma find_snoc {A} (f : A -> bool) l x :
  List.find f (l ++ [x]) = match List.find f l with Some y => Some y | None => if f x then Some x else None end.
Proof. induction l as [|y l IH]; simpl; [done|]. by destruct (f y). Qed.

Lemma positions_spec f policies idx : idx ∈ positions f policies <-> exists p, policies !! idx = Some p /\ f p = true.
Proof.
  induction policies as [|p policies IH] using rev_ind; [by split; [intros ?%elem_of_nil|intros (p & [=] & _)]|].
  rewrite positions_snoc, elem_of_app, IH. split.
  - intros [(q & Hq & Hf)|Hin]; [exists q; by rewrite lookup_app_l by (by eapply lookup_lt_Some)|].
    destruct (f p) eqn:Hf; [|by apply elem_of_nil in Hin]. apply list_elem_of_singleton in Hin as ->. exists p.
    by rewrite list_lookup_middle.
  - intros (q & Hq & Hf). apply lookup_snoc_Some in Hq as [[Hlt Hq]|[-> ->]]; [left; eauto|]. right. rewrite Hf. by left.
Qed.

(** Searching through the positions is searching through the policies. *)
Lemma find_positions g t policies :
  (List.find (fun idx => match policies !! idx with Some p => t p | None => false end) (positions g policies)
     ≫= fun idx => policies !! idx)
  = List.find (fun p => g p && t p) policies.
Proof.
  induction policies as [|p policies IH] using rev_ind; [done|]. rewrite positions_snoc, find_snoc, <- IH. clear IH.
  assert (Hsame : forall l, (forall i, i ∈ l -> (i < List.length policies)%nat) ->
    List.find (fun idx => match (policies ++ [p]) !! idx with Some p => t p | None => false end) l =
    List.find (fun idx => match policies !! idx with Some p => t p | None => false end) l).
  { induction l as [|i l IH]; simpl; [done|]. intros Hlt. rewrite lookup_app_l by (apply Hlt; by left).
    rewrite IH; [done|]. intros j Hj. apply Hlt. by right. }
  assert (Hlt : forall i, i ∈ positions g policies -> (i < List.length policies)%nat).
  { intros i (q & Hq & _)%positions_spec. by eapply lookup_lt_Some. }
  destruct (g p) eqn:Hg; simpl.
  - rewrite find_snoc, Hsame by done.
    destruct (List.find _ (positions g policies)) as [i|] eqn:Hf; simpl.
    + apply List.find_some in Hf as [Hin%list_elem_of_In Ht]. rewrite lookup_app_l by auto.
      destruct (policies !! i) as [q|] eqn:Hq; [done|]. by apply Hlt, lookup_lt_is_Some in Hin as [? ?]; simplify_eq.
    + rewrite list_lookup_middle by done. destruct (t p); simpl; [|done]. by rewrite list_lookup_middle.
  - rewrite app_nil_r, Hsame by done. destruct (List.find _ (positions g policies)) as [i|] eqn:Hf; simpl; [|done].
    apply List.find_some in Hf as [Hin%list_elem_of_In Ht]. rewrite lookup_app_l by auto.
    destruct (policies !! i) as [q|] eqn:Hq; [done|]. by apply Hlt, lookup_lt_is_Some in Hin as [? ?]; simplify_eq.
Qed.

Lemma find_ext {A} (f g : A -> bool) l : (forall x, f x = g x) -> List.find f l = List.find g l.
Proof. intros Hfg. induction l as [|x l IH]; simpl; [done|]. by rewrite Hfg, IH. Qed.

Lemma head_positions f policies : (head (positions f policies) ≫= fun idx => policies !! idx) = List.find f policies.
Proof.
  rewrite (find_ext f (fun p => f p && true)) by (intros; by rewrite andb_true_r).
  rewrite <- (find_positions f (fun _ => true)). pose proof (positions_spec f policies) as Hspec.
  destruct (positions f policies) as [|i l]; [done|]. simpl.
  destruct (proj1 (Hspec i)) as (q & Hq & _); [by left|]. rewrite Hq. simpl. by rewrite Hq.
Qed.

Lemma index_policies_spec policies :
  let '(route_index, gateway_indices) := index_policies policies in
  (forall key, default [] (route_index !! key) =
     positions (fun p => negb (is_gateway_target (policy_target p)) && bool_decide (route_target (policy_target p) = key)) policies) /\
  gateway_indices = positions (fun p => is_gateway_target (policy_target p)) policies.
Proof.
  unfold index_policies. induction policies as [|p policies IH] using rev_ind; [done|].
  rewrite imap_app, foldl_app. destruct (foldl _ _ (imap pair policies)) as [ri gi]. destruct IH as [Hr Hg]. simpl.
  rewrite Nat.add_0_r. destruct (is_gateway_target (policy_target p)) eqn:Hgw.
  - split; [|by rewrite positions_snoc, Hgw, Hg]. intros key. rewrite positions_snoc, Hgw. simpl. by rewrite app_nil_r, Hr.
  - split; [|by rewrite positions_snoc, Hgw, app_nil_r]. intros key. rewrite positions_snoc, Hgw. simpl.
    destruct (bool_decide_reflect (route_target (policy_target p) = key)) as [<-|Hne].
    + rewrite lookup_insert_eq. simpl. by rewrite Hr.
    + rewrite lookup_insert_ne by done. by rewrite Hr, app_nil_r.
Qed.

Lemma find_matching_spec policies source :
  let '(route_index, gateway_indices) := index_policies policies in
  (find_matching_policy policies route_index gateway_indices source ≫= fun idx => policies !! idx) = matching_policy policies source.
Proof.
  pose proof (index_policies_spec policies) as Hspec. destruct (index_policies policies) as [ri gi]. destruct Hspec as [Hr ->].
  unfold find_matching_policy, matching_policy.
  specialize (Hr (rsrc_kind source, rsrc_namespace source, rsrc_name source)).
  fold (on_route source) in Hr. pose proof (positions_spec (on_route source) policies) as Hpos.
  pose proof (find_positions (fun p => is_gateway_target (policy_target p))
                (fun p => existsb (covers_ref (policy_target p)) (rsrc_gateway_refs source)) policies) as Hgw.
  rewrite <- (head_positions (on_route source)). unfold on_route in *. rewrite <- Hr in Hpos |- *.
  destruct (ri !! _) as [[|idx l]|]; simpl; [exact Hgw| |exact Hgw].
  destruct (proj1 (Hpos idx)) as (q & Hq & _); [by left|]. by rewrite Hq.
Qed.

(** The policy a route gets is accepted, in the store, and targets the route or
    a Gateway of the route; a policy on the route itself comes first; and a
    route goes without only when no accepted policy targets it either way. *)
Lemma matching_policy_spec policies source :
  match matching_policy policies source with
  | Some p => p ∈ policies /\ (on_route source p = true \/ on_gateway source p = true /\ forall q, q ∈ policies -> on_route source q = false)
  | None => forall q, q ∈ policies -> on_route source q = false /\ on_gateway source q = false
  end.
Proof.
  unfold matching_policy. destruct (List.find (on_route source) policies) as [p|] eqn:Hr.
  - apply List.find_some in Hr as [Hin%list_elem_of_In Hp]. auto.
  - assert (Hno : forall q, q ∈ policies -> on_route source q = false) by (intros q Hq%list_elem_of_In; by eapply List.find_none in Hr).
    destruct (List.find (on_gateway source) policies) as [p|] eqn:Hg.
    + apply List.find_some in Hg as [Hin%list_elem_of_In Hp]. auto.
    + intros q Hq. split; [auto|]. apply list_elem_of_In in Hq. by eapply List.find_none in Hg.
Qed.
End IndexFacts.

Section PolicyFor.
Context `{IO : IterOrder} {P : Type} `{PS : PolicyState P}.

Lemma accepted_policies_elem (m : gmap NamespacedName P) p :
  p ∈ accepted_policies m <-> exists k, m !! k = Some p /\ policy_accepted p = true.
Proof.
  unfold accepted_policies. rewrite list_elem_of_fmap. setoid_rewrite list_elem_of_In. setoid_rewrite filter_In.
  setoid_rewrite <- list_elem_of_In. split.
  - intros ([k q] & -> & Hin%entries_elem & Ha). eauto.
  - intros (k & Hk & Ha). exists (k, p). split; [done|]. split; [by apply entries_elem|done].
Qed.

Lemma policy_for_matching (m : gmap NamespacedName P) source : policy_for m source = matching_policy (accepted_policies m) source.
Proof.
  unfold policy_for. pose proof (find_matching_spec (accepted_policies m) source) as H.
  destruct (index_policies (accepted_policies m)). exact H.
Qed.
End PolicyFor.

(** ** From a policy to the data plane's checks *)

Definition targets {P} `{PolicyState P} (source : RouteSource) (p : P) : bool := on_route source p || on_gateway source p.

(** An accepted policy of the map targets the route. *)
Definition targeted {P} `{PolicyState P} (m : gmap NamespacedName P) (source : RouteSource) : Prop :=
  exists k p, m !! k = Some p /\ policy_accepted p = true /\ targets source p = true.

Section Enforcement.
Context `{IO : IterOrder}.

Lemma policy_for_some {P} `{PolicyState P} (m : gmap NamespacedName P) source p :
  policy_for m source = Some p -> (exists k, m !! k = Some p) /\ policy_accepted p = true /\ targets source p = true.
Proof.
  rewrite policy_for_matching. intros Hp. pose proof (matching_policy_spec (accepted_policies m) source) as Hs. rewrite Hp in Hs.
  destruct Hs as [Hin Hs]. apply accepted_policies_elem in Hin as (k & Hk & Ha). split; [eauto|]. split; [done|].
  unfold targets. destruct Hs as [->|[-> _]]; [done|apply orb_true_r].
Qed.

Lemma policy_for_none {P} `{PolicyState P} (m : gmap NamespacedName P) source : policy_for m source = None <-> ~ targeted m source.
Proof.
  rewrite policy_for_matching. pose proof (matching_policy_spec (accepted_policies m) source) as Hs.
  destruct (matching_policy (accepted_policies m) source) as [p|] eqn:Hp.
  - split; [done|]. intros Hn. exfalso. apply Hn. destruct Hs as [Hin Hs]. apply accepted_policies_elem in Hin as (k & Hk & Ha).
    exists k, p. split; [done|]. split; [done|]. unfold targets. destruct Hs as [->|[-> _]]; [done|apply orb_true_r].
  - split; [|done]. intros _ (k & p & Hk & Ha & Ht). destruct (Hs p) as [H1 H2]; [apply accepted_policies_elem; eauto|].
    unfold targets in Ht. by rewrite H1, H2 in Ht.
Qed.

Context {Key : Type} {L : Libs Key} {CC : ConfigCrates}.
Context (cb_map cl_map : gmap (string * Z) positive).

Lemma make_route_auth old now spec auth path mt s :
  let r := (make_route cb_map cl_map old now spec auth path mt s).1 in
  pr_auth_config r = auth /\ pr_ext_auth r = ext_auth_from_proto <$> rc_ext_auth spec.
Proof.
  unfold make_route, abind. destruct (amap_option _ _ s) as [rl s1].
  destruct (parse_header_mutations (rc_request_headers spec)) as [[? ?] ?].
  by destruct (parse_header_mutations (rc_response_headers spec)) as [[? ?] ?].
Qed.

Lemma spec_routes_auth old now spec s r :
  r ∈ (spec_routes cb_map cl_map old now spec s).1 ->
  pr_ext_auth r = ext_auth_from_proto <$> rc_ext_auth spec /\
  match rc_auth spec ≫= id with
  | None => pr_auth_config r = None
  | Some a => pr_auth_config r = Some (build_auth a s).1
  end.
Proof.
  unfold spec_routes, abind, amap_option. destruct (rc_auth spec ≫= id) as [a|]; unfold abind, aret.
  - destruct (build_auth a s) as [auth s1].
    pose proof (amap_results (fun '(path, mt) => make_route cb_map cl_map old now spec (Some auth) path mt) (spec_paths spec) s1) as Hf.
    intros [i Hi]%list_elem_of_lookup. destruct (Forall2_lookup_r _ _ _ _ _ Hf Hi) as ([path mt] & _ & s0 & <-).
    destruct (make_route_auth old now spec (Some auth) path mt s0) as [-> ->]. done.
  - pose proof (amap_results (fun '(path, mt) => make_route cb_map cl_map old now spec None path mt) (spec_paths spec) s) as Hf.
    intros [i Hi]%list_elem_of_lookup. destruct (Forall2_lookup_r _ _ _ _ _ Hf Hi) as ([path mt] & _ & s0 & <-).
    destruct (make_route_auth old now spec None path mt s0) as [-> ->]. done.
Qed.

Lemma basic_needs_user bcrypt permit joined header : @validate_basic_auth lib_http bcrypt permit joined header ∅ <> Ok tt.
Proof.
  unfold validate_basic_auth, ok_or. destruct header as [h|]; [|done]. destruct (value_text_ok h); [|done].
  destruct (strip_prefix "Basic " h); [|done]. destruct (base64_decode s); [|done]. destruct (from_utf8 s0); [|done].
  destruct (split_once ":" s1) as [[u p]|]; [|done]. rewrite lookup_empty. by destruct permit, joined.
Qed.

Context `{Hdrs : RequestHeaders H} (jwks : Jwks Key) (facts : RequestFacts H) (env : Env).

(** A Secret that a policy reads. *)
Definition basic_secret (store : ConfigStore) (p : BasicAuthPolicyState) : option SecretState :=
  st_secrets store !! {| nn_namespace := baps_secret_namespace p; nn_name := baps_secret_name p |}.

Definition api_key_secret (store : ConfigStore) (p : ApiKeyAuthPolicyState) : option SecretState :=
  st_secrets store !! {| nn_namespace := akps_secret_namespace p; nn_name := akps_secret_name p |}.

Lemma api_key_among (l : list string) header :
  @validate_api_key lib_http header (list_to_set (List.filter (fun k => (String.length k <=? MAX_API_KEY_LEN)%nat) l)) = Ok tt ->
  exists key, header = Some key /\ key ∈ l.
Proof.
  intros Hv. unfold validate_api_key, ok_or in Hv. destruct header as [key|]; [|done]. destruct (value_text_ok key); [|done].
  destruct (fold_left _ _ false) eqn:Hf; [|done]. apply found_iff in Hf as [?|Hin]; [done| |].
  - rewrite elem_of_elements, elem_of_list_to_set in Hin. apply list_elem_of_In, filter_In in Hin as [Hin _].
    apply list_elem_of_In in Hin. eauto.
  - right. apply Forall_forall. intros k Hk. rewrite elem_of_elements, elem_of_list_to_set in Hk.
    apply list_elem_of_In, filter_In in Hk as [_ Hk]. by apply Nat.leb_le in Hk.
Qed.


(** External authorization holds the same way: a request passes a rule of a
    route that an accepted ExtAuthPolicy targets only when a policy that targets
    it may use its Service, and asking that Service allowed the request. *)
Theorem ext_auth_policy_enforced (store : ConfigStore) (source : RouteSource) (route : RouteConfig) (old : option HostRoutes) (now : Z)
    (s : Plan.store) (r : PathRoute) :
  r ∈ (spec_routes cb_map cl_map old now (apply_policies store source route) s).1 ->
  authorized r -> targeted (st_ext_auth_policies store) source ->
  exists k p, st_ext_auth_policies store !! k = Some p /\ policy_accepted p = true /\ targets source p = true /\
    reference_permitted (st_reference_grants store) (ptk_namespace (policy_target p)) p = true /\ eaps_service_name p <> EmptyString /\
    exists pool original set,
      (ext_check lib_name_ok lib_uri_ok lib_send (ext_auth_from_proto (ext_auth_config store p)) pool original).1 = Allow set.
Proof.
  intros Hr Hauth Ht. apply spec_routes_auth in Hr as [Hr _]. unfold authorized in Hauth. rewrite Hr in Hauth. simpl in Hauth.
  destruct (policy_for (st_ext_auth_policies store) source) as [p|] eqn:Hp; [|by apply policy_for_none in Hp].
  apply policy_for_some in Hp as ((k & Hk) & Ha & Htp). simpl in Hauth.
  exists k, p. split; [done|]. split; [done|]. split; [done|].
  destruct Hauth as (pool & original & set & Hc).
  destruct (reference_permitted (st_reference_grants store) (ptk_namespace (policy_target p)) p) eqn:Hperm.
  - split; [done|]. split; [|eauto]. intros Hz. unfold ext_check, ext_auth_from_proto, ext_auth_config in Hc. simpl in Hc.
    by rewrite Hperm, Hz in Hc.
  - unfold ext_check, ext_auth_from_proto, ext_auth_config in Hc. simpl in Hc. by rewrite Hperm in Hc.
Qed.
End Enforcement.

(** ** Worked examples *)

Definition policy_store (gws : gmap NamespacedName GatewayState) (lss : gmap NamespacedName ListenerSetState)
    (basic : gmap NamespacedName BasicAuthPolicyState) (keys : gmap NamespacedName ApiKeyAuthPolicyState)
    (ext : gmap NamespacedName ExtAuthPolicyState) (secrets : gmap NamespacedName SecretState) : ConfigStore :=
  set_gateways gws (set_listener_sets lss (set_basic_auth_policies basic (set_api_key_auth_policies keys
    (set_ext_auth_policies ext (set_secrets secrets ConfigStore_new))))).

Definition demo_meta (kind namespace name : string) : PolicyMeta :=
  {| pm_target := {| ptk_group := "gateway.networking.k8s.io"; ptk_kind := kind; ptk_namespace := namespace; ptk_name := name;
                     ptk_section_name := None |};
     pm_generation := 1; pm_creation_timestamp := Some 1; pm_accepted := true |}.

Definition demo_keys : ApiKeyAuthPolicyState :=
  {| akps_meta := demo_meta "HTTPRoute" "shop" "cart"; akps_secret_namespace := "shop"; akps_secret_name := "keys";
     akps_header_name := "x-api-key" |}.

Definition keys_store : ConfigStore :=
  policy_store ∅ ∅ ∅ {[ demo_key "keys" := demo_keys ]} ∅ {[ demo_key "keys" := {["first" := "k1"]} ]}.

Definition cart_source : RouteSource :=
  {| rsrc_kind := "HTTPRoute"; rsrc_namespace := "shop"; rsrc_name := "cart"; rsrc_gateway_refs := [("infra", "gw", None)] |}.

Definition open_spec : RouteConfig := ConfigRoutes.Sample.plain_spec "a.test" "cart" [] EmptyString None.

(** The rule the data plane builds for the protected route. *)
Definition keyed_rule : PathRoute :=
  default Plan.Sample.route
    (head (@spec_routes sample_http ConfigRoutes.Sample.crates ∅ ∅ None 0 (@apply_policies listed_order keys_store cart_source open_spec)
             (Plan.Sample.gateway 0 0)).1).


Definition demo_ext : ExtAuthPolicyState :=
  {| eaps_meta := demo_meta "HTTPRoute" "shop" "cart"; eaps_service_namespace := "shop"; eaps_service_name := "auth"; eaps_port := 80;
     eaps_path := "/"; eaps_timeout_ms := 1000; eaps_fail_open := true; eaps_request_headers := []; eaps_response_headers := [] |}.

Definition ext_store : ConfigStore := policy_store ∅ ∅ ∅ ∅ {[ demo_key "ext" := demo_ext ]} ∅.

Definition ext_rule : PathRoute :=
  default Plan.Sample.route
    (head (@spec_routes sample_http ConfigRoutes.Sample.crates ∅ ∅ None 0 (@apply_policies listed_order ext_store cart_source open_spec)
             (Plan.Sample.gateway 0 0)).1).

Lemma ext_auth_policy_enforced_witness :
  exists k p, st_ext_auth_policies ext_store !! k = Some p /\ eaps_service_name p <> EmptyString.
Proof.
  destruct (@ext_auth_policy_enforced listed_order unit Plan.Sample.libs ConfigRoutes.Sample.crates ∅ ∅ HeaderMap _ ext_store cart_source
              open_spec None 0 (Plan.Sample.gateway 0 0) ext_rule) as (k & p & Hk & _ & _ & _ & Hn & _).
  - vm_compute. left.
  - unfold authorized. assert (He : pr_ext_auth ext_rule =
      Some (@ext_auth_from_proto ConfigRoutes.Sample.crates (@ext_auth_config listed_order ext_store demo_ext))) by (vm_compute; reflexivity).
    rewrite He. exists None, (Build_Original HeaderMap "GET" "http" "a.test" "/" None []), []. vm_compute. reflexivity.
  - exists (demo_key "ext"), demo_ext. repeat split; vm_compute; reflexivity.
  - exists k, p. split; [exact Hk|exact Hn].
Defined.

(** ** Where the code falls short *)

Definition extra_set : ListenerSetState :=
  {| lss_name := "extra"; lss_namespace := "shop"; lss_parent_gateway := demo_gw_key; lss_listeners := [demo_listener "web" 8080 None];
     lss_accepted := true; lss_generation := 1; lss_not_accepted_reason := None; lss_creation_timestamp := 1 |}.

Definition gateway_login : BasicAuthPolicyState :=
  {| baps_meta := demo_meta "Gateway" "infra" "gw"; baps_secret_namespace := "infra"; baps_secret_name := "users";
     baps_realm := "Restricted" |}.

Definition set_store : ConfigStore :=
  policy_store {[ demo_gw_key := demo_gateway [demo_listener "web" 80 None] ]} {[ demo_key "extra" := extra_set ]}
    {[ demo_gw_key := gateway_login ]} ∅ ∅ ∅.

(** What a route through [parent] compiles to: its owner and whether it asks
    for credentials. *)
Definition compiled_auth (parent : ParentRefState) : list (string * string * bool) :=
  map (fun '(source, rc) =>
         (rc_gateway_namespace rc, rc_gateway_name rc,
          match rc_auth (@apply_policies listed_order set_store source rc) with Some _ => true | None => false end))
      (@compile_http_route listed_order set_store cart_key (demo_http_route "shop" [] [parent] [demo_backend "shop" "cart" 1])).

(** A policy on a Gateway does not reach the routes that attach through a
    ListenerSet of that Gateway: their source names the ListenerSet, so of two
    routes the same Gateway serves, only the one attached directly asks for
    credentials. *)
Example listener_set_routes_escape_gateway_policies :
  compiled_auth (demo_parent ParentGateway "infra" "gw") = [("infra", "gw", true)] /\
  compiled_auth (demo_parent ParentListenerSet "shop" "extra") = [("infra", "gw", false)].
Proof. split; vm_compute; reflexivity. Qed.
