(* ===== verification/Compiler.v ===== *)
(** * The compiler

    [compile_config] of [portus-controller/src/compiler.rs]: listeners, the
    routes of [RouteCompiler] with the policies of [PolicyCompiler], backend
    protocols, AI settings, TLS and layer-4 routes, MCP federations and the
    backend groups every route needs.  A [HashSet] of services is a [gset]; the
    order it is walked in is [iter_order]. *)
From S2P Require Import Prelude Text Net Types Router Proto ConfigRoutes Resources Hostnames.
From S2P Require Import Policies PolicyKinds RouteCompiler PolicyCompiler.
From Stdlib Require Import String.
Open Scope Z_scope.

(** ** Listeners *)

(** [client_validation_for_listener] *)
Definition client_validation_for_listener (store : ConfigStore) (gw_ns gw_name : string) (port : Z) : option ClientValidation :=
  tls ← st_gateway_tls store !! {| nn_namespace := gw_ns; nn_name := gw_name |};
  outcome ← frontend_validation_for_port tls port;
  match outcome with
  | Invalid _ _ => None
  | Valid refs =>
      let ca_cert_pems := omap (fun cm_key =>
        cm ← st_config_maps store !! cm_key;
        pem ← (cm : SecretState) !! "ca.crt";
        if is_empty (trim pem) then None else Some pem) (cvr_ca_config_maps refs) in
      match ca_cert_pems with
      | [] => None
      | _ => Some {| cv_ca_cert_pems := ca_cert_pems; cv_mode := cvr_mode refs |}
      end
  end.

(** The certificate and key of a Secret. *)
Definition secret_pair (store : ConfigStore) (key : NamespacedName) : option (string * string) :=
  secret ← st_secrets store !! key;
  cert_pem ← (secret : SecretState) !! "tls.crt";
  key_pem ← (secret : SecretState) !! "tls.key";
  Some (cert_pem, key_pem).

Definition listener_cert (store : ConfigStore) (l : ListenerState) : option TlsCertRef :=
  if String.eqb (lst_protocol l) "HTTPS" || String.eqb (lst_protocol l) "TLS" then
    match lst_tls_cert_refs l with
    | (ns, name) :: _ =>
        '(cert, key) ← secret_pair store {| nn_namespace := ns; nn_name := name |};
        Some {| tcr_cert_pem := cert; tcr_key_pem := key |}
    | [] => None
    end
  else None.

(** The message for one accepted listener of the Gateway [owner]. *)
Definition compile_listener (store : ConfigStore) (owner : string * string) (l : ListenerState) : Listener :=
  {| ls_name := lst_name l; ls_port := lst_port l; ls_protocol := lst_protocol l; ls_hostname := default EmptyString (lst_hostname l);
     ls_tls_cert_ref := listener_cert store l; ls_gateway_namespace := owner.1; ls_gateway_name := owner.2;
     ls_client_validation := if String.eqb (lst_protocol l) "HTTPS"
                             then client_validation_for_listener store owner.1 owner.2 (lst_port l) else None |}.

Section Compiler.
Context `{IO : IterOrder}.

(** Every listener with the Gateway that owns it: those of Gateways, then those
    of accepted ListenerSets. *)
Definition owned_listeners (store : ConfigStore) : list (string * string * ListenerState) :=
  flat_map (fun '(k, gw) => map (pair (nn_namespace k, nn_name k)) (gs_listeners gw)) (entries (st_gateways store)) ++
  flat_map (fun '(_, ls) => if lss_accepted ls
                            then map (pair (nn_namespace (lss_parent_gateway ls), nn_name (lss_parent_gateway ls))) (lss_listeners ls)
                            else []) (entries (st_listener_sets store)).

Definition compile_listeners (store : ConfigStore) : list Listener :=
  map (fun '(owner, l) => compile_listener store owner l) (List.filter (fun e => lst_accepted e.2) (owned_listeners store)).

(** [compile_gateway_backend_tls] *)
Definition pair_compare (a b : string * string) : comparison := then_with (String.compare a.1 b.1) (String.compare a.2 b.2).

Definition compile_gateway_backend_tls (store : ConfigStore) : list GatewayBackendTls :=
  sort_by (fun a b => pair_compare (gbt_gateway_namespace a, gbt_gateway_name a) (gbt_gateway_namespace b, gbt_gateway_name b))
    (omap (fun '(k, tls) =>
       secret_key ← gts_backend_client_cert_ref tls;
       '(cert_pem, key_pem) ← secret_pair store secret_key;
       Some {| gbt_gateway_namespace := nn_namespace k; gbt_gateway_name := nn_name k; gbt_cert_pem := cert_pem; gbt_key_pem := key_pem |})
     (entries (st_gateway_tls store))).

(** ** Services that need endpoints *)

Definition service_key (b : BackendRefState) : ServiceKey :=
  {| sk_namespace := brs_namespace b; sk_name := brs_name b; sk_port := brs_port b |}.

(** The backends of a route's rules that may be referenced. *)
Definition granted_keys (store : ConfigStore) (kind namespace : string) (refs : list BackendRefState) : list ServiceKey :=
  map service_key (List.filter (fun b => grant_ok store kind namespace (brs_namespace b) (brs_name b)) refs).

Definition http_refs (hr : HTTPRouteState) : list BackendRefState := flat_map hrr_backend_refs (hrs_rules hr).
Definition grpc_refs (gr : GRPCRouteState) : list BackendRefState := flat_map grr_backend_refs (grs_rules gr).

(** Mirrors of the rules that are compiled, in the route's own namespace. *)
Definition mirror_keys (store : ConfigStore) (route_key : NamespacedName) (hr : HTTPRouteState) : list ServiceKey :=
  flat_map (fun rc => map (fun mb => {| sk_namespace := hrs_namespace hr; sk_name := mb_service_name mb;
                                        sk_port := default 0 (try_u16 (mb_port mb)) |}) (rc_mirror_backends rc))
           (map snd (compile_http_route store route_key hr)).

Definition http_keys (store : ConfigStore) : list ServiceKey :=
  flat_map (fun '(k, hr) => granted_keys store "HTTPRoute" (hrs_namespace hr) (http_refs hr) ++ mirror_keys store k hr) (all_http_routes store).

Definition grpc_keys (store : ConfigStore) : list ServiceKey :=
  flat_map (fun '(_, gr) => granted_keys store "GRPCRoute" (grs_namespace gr) (grpc_refs gr)) (entries (st_grpc_routes store)).

(** Services of authorization policies need endpoints like any backend. *)
Definition ext_auth_keys (routes : list RouteConfig) : list ServiceKey :=
  omap (fun r => ext ← rc_ext_auth r;
                 if is_empty (eac_service_name ext) then None
                 else Some {| sk_namespace := eac_service_namespace ext; sk_name := eac_service_name ext; sk_port := as_u 16 (eac_port ext) |})
       routes.

(** ** Backend protocols *)

(** [backend_ns_index]: the namespace last seen for a Service name and port. *)
Definition backend_ns_index (store : ConfigStore) : gmap (string * Z) string :=
  fold_left (fun idx b => <[(brs_name b, brs_port b) := brs_namespace b]> idx)
            (flat_map (fun '(_, hr) => http_refs hr) (all_http_routes store)) ∅.

Definition with_backend (r : RouteConfig) (protocol : string) (tls : option UpstreamTlsConfig) : RouteConfig :=
  {| rc_host := rc_host r; rc_paths := rc_paths r; rc_service_name := rc_service_name r; rc_port := rc_port r;
     rc_timeouts := rc_timeouts r; rc_max_retries := rc_max_retries r; rc_upstream_tls := tls; rc_protocol := protocol;
     rc_request_headers := rc_request_headers r; rc_response_headers := rc_response_headers r;
     rc_rate_limit := rc_rate_limit r; rc_circuit_breaker := rc_circuit_breaker r;
     rc_max_connections := rc_max_connections r; rc_header_matches := rc_header_matches r;
     rc_method_match := rc_method_match r; rc_query_param_matches := rc_query_param_matches r;
     rc_redirect := rc_redirect r; rc_url_rewrite := rc_url_rewrite r; rc_grpc_match := rc_grpc_match r;
     rc_listener_name := rc_listener_name r; rc_mirror_backend := rc_mirror_backend r;
     rc_weighted_backends := rc_weighted_backends r; rc_request_timeout_ms := rc_request_timeout_ms r;
     rc_backend_request_timeout_ms := rc_backend_request_timeout_ms r; rc_auth := rc_auth r; rc_cors := rc_cors r;
     rc_mirror_backends := rc_mirror_backends r; rc_listener_port := rc_listener_port r;
     rc_ip_allowlist := rc_ip_allowlist r; rc_max_request_body_bytes := rc_max_request_body_bytes r;
     rc_retry_on := rc_retry_on r; rc_retry_codes := rc_retry_codes r; rc_ai_dialect := rc_ai_dialect r;
     rc_ai_provider := rc_ai_provider r; rc_ai_key_required := rc_ai_key_required r; rc_ai_budget := rc_ai_budget r;
     rc_ai_session_affinity := rc_ai_session_affinity r; rc_ai_jwt := rc_ai_jwt r;
     rc_ai_on_behalf_of := rc_ai_on_behalf_of r; rc_ai_federation := rc_ai_federation r; rc_ext_auth := rc_ext_auth r;
     rc_listener_hostname := rc_listener_hostname r; rc_gateway_namespace := rc_gateway_namespace r;
     rc_gateway_name := rc_gateway_name r |}.

(** The override by the Service's [appProtocol]. *)
Definition override_protocol (store : ConfigStore) (index : gmap (string * Z) string) (r : RouteConfig) : RouteConfig :=
  if is_empty (rc_service_name r) || String.eqb (rc_protocol r) "GRPC" then r
  else
    let port := default 0 (try_u16 (rc_port r)) in
    match (ns ← index !! (rc_service_name r, port);
           st_service_app_protocols store !! {| sk_namespace := ns; sk_name := rc_service_name r; sk_port := port |}) with
    | Some app =>
        if String.eqb app "kubernetes.io/h2c" then with_backend r "H2C" (rc_upstream_tls r)
        else if String.eqb app "kubernetes.io/ws" then with_backend r "WS" (rc_upstream_tls r)
        else if String.eqb app "HTTPS"
        then with_backend r (rc_protocol r) (Some {| ut_enabled := true; ut_verify_cert := true; ut_sni := rc_service_name r |})
        else r
    | None => r
    end.

(** ** AI routes *)

Definition with_ai_access (r : RouteConfig) (key_required : bool) (jwt : option AiJwt) (on_behalf_of : option AiOnBehalfOf)
    (budget : option AiBudget) : RouteConfig :=
  {| rc_host := rc_host r; rc_paths := rc_paths r; rc_service_name := rc_service_name r; rc_port := rc_port r;
     rc_timeouts := rc_timeouts r; rc_max_retries := rc_max_retries r; rc_upstream_tls := rc_upstream_tls r;
     rc_protocol := rc_protocol r; rc_request_headers := rc_request_headers r;
     rc_response_headers := rc_response_headers r; rc_rate_limit := rc_rate_limit r;
     rc_circuit_breaker := rc_circuit_breaker r; rc_max_connections := rc_max_connections r;
     rc_header_matches := rc_header_matches r; rc_method_match := rc_method_match r;
     rc_query_param_matches := rc_query_param_matches r; rc_redirect := rc_redirect r;
     rc_url_rewrite := rc_url_rewrite r; rc_grpc_match := rc_grpc_match r; rc_listener_name := rc_listener_name r;
     rc_mirror_backend := rc_mirror_backend r; rc_weighted_backends := rc_weighted_backends r;
     rc_request_timeout_ms := rc_request_timeout_ms r;
     rc_backend_request_timeout_ms := rc_backend_request_timeout_ms r; rc_auth := rc_auth r; rc_cors := rc_cors r;
     rc_mirror_backends := rc_mirror_backends r; rc_listener_port := rc_listener_port r;
     rc_ip_allowlist := rc_ip_allowlist r; rc_max_request_body_bytes := rc_max_request_body_bytes r;
     rc_retry_on := rc_retry_on r; rc_retry_codes := rc_retry_codes r; rc_ai_dialect := rc_ai_dialect r;
     rc_ai_provider := rc_ai_provider r; rc_ai_key_required := key_required; rc_ai_budget := budget;
     rc_ai_session_affinity := rc_ai_session_affinity r; rc_ai_jwt := jwt; rc_ai_on_behalf_of := on_behalf_of;
     rc_ai_federation := rc_ai_federation r; rc_ext_auth := rc_ext_auth r;
     rc_listener_hostname := rc_listener_hostname r; rc_gateway_namespace := rc_gateway_namespace r;
     rc_gateway_name := rc_gateway_name r |}.

Definition with_provider (r : RouteConfig) (dialect provider : string) (affinity : bool) (federation : string)
    (tls : option UpstreamTlsConfig) : RouteConfig :=
  {| rc_host := rc_host r; rc_paths := rc_paths r; rc_service_name := rc_service_name r; rc_port := rc_port r;
     rc_timeouts := rc_timeouts r; rc_max_retries := rc_max_retries r; rc_upstream_tls := tls;
     rc_protocol := rc_protocol r; rc_request_headers := rc_request_headers r;
     rc_response_headers := rc_response_headers r; rc_rate_limit := rc_rate_limit r;
     rc_circuit_breaker := rc_circuit_breaker r; rc_max_connections := rc_max_connections r;
     rc_header_matches := rc_header_matches r; rc_method_match := rc_method_match r;
     rc_query_param_matches := rc_query_param_matches r; rc_redirect := rc_redirect r;
     rc_url_rewrite := rc_url_rewrite r; rc_grpc_match := rc_grpc_match r; rc_listener_name := rc_listener_name r;
     rc_mirror_backend := rc_mirror_backend r; rc_weighted_backends := rc_weighted_backends r;
     rc_request_timeout_ms := rc_request_timeout_ms r;
     rc_backend_request_timeout_ms := rc_backend_request_timeout_ms r; rc_auth := rc_auth r; rc_cors := rc_cors r;
     rc_mirror_backends := rc_mirror_backends r; rc_listener_port := rc_listener_port r;
     rc_ip_allowlist := rc_ip_allowlist r; rc_max_request_body_bytes := rc_max_request_body_bytes r;
     rc_retry_on := rc_retry_on r; rc_retry_codes := rc_retry_codes r; rc_ai_dialect := dialect;
     rc_ai_provider := provider; rc_ai_key_required := rc_ai_key_required r; rc_ai_budget := rc_ai_budget r;
     rc_ai_session_affinity := affinity; rc_ai_jwt := rc_ai_jwt r; rc_ai_on_behalf_of := rc_ai_on_behalf_of r;
     rc_ai_federation := federation; rc_ext_auth := rc_ext_auth r; rc_listener_hostname := rc_listener_hostname r;
     rc_gateway_namespace := rc_gateway_namespace r; rc_gateway_name := rc_gateway_name r |}.

(** The budgets by the AIRoute they are for: of several accepted ones the last
    in the order of the walk. *)
Definition ai_budgets (store : ConfigStore) : gmap (string * string) AiBudget :=
  fold_left (fun m '(k, p) =>
    if policy_accepted p && String.eqb (ptk_kind (policy_target p)) "AIRoute" then
      <[(ptk_namespace (policy_target p), ptk_name (policy_target p)) :=
          {| ab_policy := nn_namespace k +:+ "/" +:+ nn_name k; ab_limit := aups_limit p; ab_window := aups_window p; ab_per := aups_per p;
             ab_unit := aups_unit p; ab_fail_open := aups_fail_open p; ab_fallback_model := aups_fallback_model p;
             ab_overflow_limit := aups_overflow_limit p |}]> m
    else m) (entries (st_ai_usage_policies store)) ∅.

Definition ai_jwt (j : AIJwtState) : AiJwt :=
  {| aj_issuer := ajs_issuer j; aj_audience := default EmptyString (ajs_audience j); aj_tenant_claim := ajs_tenant_claim j;
     aj_tools_claim := ajs_tools_claim j; aj_scopes := ajs_scopes j; aj_tools_by_group := ajs_tools_by_group j;
     aj_groups_claim := ajs_groups_claim j |}.

(** What an AIRoute asks of its callers, on every route compiled from it. *)
Definition ai_access (store : ConfigStore) (source : RouteSource) (r : RouteConfig) : RouteConfig :=
  if negb (String.eqb (rsrc_kind source) "AIRoute") then r
  else
    let ar := st_ai_routes store !! {| nn_namespace := rsrc_namespace source; nn_name := rsrc_name source |} in
    with_ai_access r
      (match ar with Some a => ars_require_api_key a || rc_ai_key_required r | None => rc_ai_key_required r end)
      (match ar ≫= ars_jwt with Some j => Some (ai_jwt j) | None => rc_ai_jwt r end)
      (match ar ≫= ars_on_behalf_of with Some (h, ks) => Some {| aob_header := h; aob_trusted_keys := ks |} | None => rc_ai_on_behalf_of r end)
      (match ai_budgets store !! (rsrc_namespace source, rsrc_name source) with Some b => Some b | None => rc_ai_budget r end).

(** The provider behind a route: its dialect and its TLS. *)
Definition ai_provider_settings (store : ConfigStore) (r : RouteConfig) : RouteConfig :=
  match (rest ← strip_prefix AI_PROVIDER_SERVICE_PREFIX (rc_service_name r);
         '(ns, name) ← split_once "/" rest;
         st_ai_providers store !! {| nn_namespace := ns; nn_name := name |}) with
  | Some p =>
      let kind := aps_kind p in
      with_provider r
        (if String.eqb kind "anthropic" then "anthropic"
         else if String.eqb kind "mcp" || String.eqb kind "mcp-federation" then "mcp" else "openai")
        (aps_name p) (aps_session_affinity p)
        (if String.eqb kind "mcp-federation" then aps_namespace p +:+ "/" +:+ aps_name p else rc_ai_federation r)
        (if aps_tls p then Some {| ut_enabled := true; ut_verify_cert := true; ut_sni := aps_host p |} else rc_upstream_tls r)
  | None => r
  end.

(** The routes of the message: compiled, with policies, protocols and AI
    settings. *)
Definition policed_routes (store : ConfigStore) : list (RouteSource * RouteConfig) :=
  map (fun '(source, rc) => (source, apply_policies store source rc)) (compile_http_routes store ++ compile_grpc_routes store).

Definition finish_route (store : ConfigStore) (e : RouteSource * RouteConfig) : RouteConfig :=
  ai_provider_settings store (ai_access store e.1 (override_protocol store (backend_ns_index store) e.2)).

Definition compile_routes (store : ConfigStore) : list RouteConfig := map (finish_route store) (policed_routes store).

(** ** TLS routes *)

(** [collect_listener_hostnames] *)
Definition collect_listener_hostnames (store : ConfigStore) (prs : list ParentRefState) (protocols : list string) : list (option string) :=
  flat_map (fun pr =>
    match st_gateways store !! parent_key pr with
    | Some gw => map lst_hostname (List.filter (fun l => lst_accepted l && selects pr l && existsb (String.eqb (lst_protocol l)) protocols)
                                               (gs_listeners gw))
    | None => []
    end) (List.filter pref_accepted prs).

(** [compute_effective_hostnames_tls] *)
Definition compute_effective_hostnames_tls (store : ConfigStore) (tr : TLSRouteState) : list string :=
  compute_effective_hostnames_inner (collect_listener_hostnames store (trs_parent_refs tr) ["TLS"]) (trs_hostnames tr).

(** The listener of a Gateway a TLSRoute goes to. *)
Definition tls_listener (tr : TLSRouteState) (gw : GatewayState) (section : option string) : option ListenerState :=
  let is_tls (l : ListenerState) := String.eqb (lst_protocol l) "TLS" && lst_accepted l in
  match section with
  | Some sn => List.find (fun l => String.eqb (lst_name l) sn && is_tls l) (gs_listeners gw)
  | None =>
      match List.filter is_tls (gs_listeners gw) with
      | [] => None
      | [l] => Some l
      | ls => List.find (fun l => match lst_hostname l with
                                  | Some lh => existsb (hostname_matches lh) (trs_hostnames tr)
                                  | None => true
                                  end) ls
      end
  end.

(** The first parent whose Gateway and listener are in the store. *)
Definition resolve_tls_parent (store : ConfigStore) (tr : TLSRouteState) : option (ParentRefState * ListenerState) :=
  head (omap (fun pr => gw ← st_gateways store !! parent_key pr; l ← tls_listener tr gw (pref_section_name pr); Some (pr, l))
             (trs_parent_refs tr)).

Definition compile_tls_route (store : ConfigStore) (tr : TLSRouteState) : option TlsPassthroughRoute :=
  '(pr, l) ← resolve_tls_parent store tr;
  let tls_mode := default "Passthrough" (lst_tls_mode l) in
  let '(cert_pem, key_pem) :=
    if String.eqb tls_mode "Terminate" then
      match lst_tls_cert_refs l with
      | (ns, name) :: _ => default (EmptyString, EmptyString) (secret_pair store {| nn_namespace := ns; nn_name := name |})
      | [] => (EmptyString, EmptyString)
      end
    else (EmptyString, EmptyString) in
  let hostnames := compute_effective_hostnames_tls store tr in
  let route service port :=
    {| tpr_sni_hostnames := hostnames; tpr_backend_service := service; tpr_backend_port := port;
       tpr_listener_name := default EmptyString (pref_section_name pr); tpr_listener_hostname := default EmptyString (lst_hostname l);
       tpr_tls_mode := tls_mode; tpr_cert_pem := cert_pem; tpr_key_pem := key_pem; tpr_listener_port := lst_port l;
       tpr_gateway_namespace := pref_gateway_namespace pr; tpr_gateway_name := pref_gateway_name pr |} in
  match trs_backend_refs tr, hostnames with
  | backend :: _, _ => Some (route (brs_name backend) (brs_port backend))
  | [], _ :: _ => Some (route EmptyString 0)
  | [], [] => None
  end.

Definition compile_tls_routes (store : ConfigStore) : list TlsPassthroughRoute :=
  omap (fun '(_, tr) => compile_tls_route store tr) (entries (st_tls_routes store)).

Definition tls_keys (store : ConfigStore) : list ServiceKey :=
  omap (fun '(_, tr) => _ ← resolve_tls_parent store tr; service_key <$> head (trs_backend_refs tr)) (entries (st_tls_routes store)).

(** ** Layer-4 routes *)

Record Candidate := {
  ca_listener_key : string * string * string;
  ca_listener_port : Z;
  ca_created : option Z;
  ca_route_name : string;
  ca_route : L4RouteState;
}.

(** The listeners of the protocol a parent reference attaches to. *)
Definition l4_listeners (store : ConfigStore) (protocol : string) (pr : ParentRefState) : list (GatewayState * ListenerState) :=
  match st_gateways store !! parent_key pr with
  | Some gw => map (pair gw) (List.filter (fun l => String.eqb (lst_protocol l) protocol && lst_accepted l && selects pr l) (gs_listeners gw))
  | None => []
  end.

Definition l4_candidates (store : ConfigStore) (protocol : string) (routes : gmap NamespacedName L4RouteState) : list Candidate :=
  flat_map (fun '(key, tr) =>
    flat_map (fun pr => map (fun '(gw, l) =>
      {| ca_listener_key := (gs_namespace gw, gs_name gw, lst_name l); ca_listener_port := lst_port l;
         ca_created := lrs_creation_timestamp tr; ca_route_name := nn_name key; ca_route := tr |}) (l4_listeners store protocol pr))
      (List.filter pref_accepted (lrs_parent_refs tr))) (entries routes).

Definition key3_compare (a b : string * string * string) : comparison :=
  then_with (pair_compare a.1 b.1) (String.compare a.2 b.2).

(** Oldest first; routes without a timestamp sort last. *)
Definition created_compare (a b : option Z) : comparison :=
  match a, b with
  | Some x, Some y => x ?= y
  | Some _, None => Lt
  | None, Some _ => Gt
  | None, None => Eq
  end.

Definition candidate_compare (a b : Candidate) : comparison :=
  then_with (key3_compare (ca_listener_key a) (ca_listener_key b))
            (then_with (created_compare (ca_created a) (ca_created b)) (String.compare (ca_route_name a) (ca_route_name b))).

(** [Vec::dedup_by]: an element equal to the last one kept is dropped. *)
Fixpoint dedup_after (last : Candidate) (l : list Candidate) : list Candidate :=
  match l with
  | [] => []
  | c :: l => if bool_decide (ca_listener_key c = ca_listener_key last) then dedup_after last l else c :: dedup_after c l
  end.

Definition dedup_listeners (l : list Candidate) : list Candidate :=
  match l with [] => [] | c :: l => c :: dedup_after c l end.

Definition l4_route (c : Candidate) : option L4ProxyRoute :=
  match lrs_backend_refs (ca_route c) with
  | [] => None
  | first :: _ =>
      Some {| lpr_backend_service := brs_name first; lpr_backend_port := brs_port first; lpr_listener_name := (ca_listener_key c).2;
              lpr_listener_port := ca_listener_port c;
              lpr_backends := map (fun b => {| wbp_service_name := brs_name b; wbp_port := brs_port b; wbp_weight := brs_weight b;
                                               wbp_request_headers := None |}) (lrs_backend_refs (ca_route c));
              lpr_gateway_namespace := (ca_listener_key c).1.1; lpr_gateway_name := (ca_listener_key c).1.2 |}
  end.

(** [compile_l4_routes] *)
Definition compile_l4_routes (store : ConfigStore) (protocol : string) (routes : gmap NamespacedName L4RouteState) : list L4ProxyRoute :=
  omap l4_route (dedup_listeners (sort_by candidate_compare (l4_candidates store protocol routes))).

Definition l4_keys (routes : gmap NamespacedName L4RouteState) : list ServiceKey :=
  flat_map (fun '(_, tr) => map service_key (lrs_backend_refs tr)) (entries routes).

(** ** MCP federations *)

Definition federation_providers (store : ConfigStore) : list AIProviderState :=
  map snd (List.filter (fun e => String.eqb (aps_kind e.2) "mcp-federation") (entries (st_ai_providers store))).

(** The members whose provider is in the store. *)
Definition resolved_members (store : ConfigStore) (fed : AIProviderState) : list (AIFederationMember * AIProviderState) :=
  omap (fun m => p ← st_ai_providers store !! {| nn_namespace := aps_namespace fed; nn_name := afm_provider m |}; Some (m, p))
       (aps_members fed).

(** [compile_mcp_federations] *)
Definition compile_mcp_federations (store : ConfigStore) : list McpFederation :=
  sort_by (fun a b => String.compare (mf_name a) (mf_name b))
    (map (fun fed =>
       {| mf_name := aps_namespace fed +:+ "/" +:+ aps_name fed;
          mf_members := map (fun '(m, p) =>
            {| mm_name := afm_name m; mm_service_name := provider_service_name p; mm_port := aps_port p; mm_tls := aps_tls p;
               mm_sni := aps_host p; mm_host := aps_host p; mm_headers := map_of (provider_request_headers store p);
               mm_path := afm_path m |}) (resolved_members store fed) |}) (federation_providers store)).

Definition federation_keys (store : ConfigStore) : list ServiceKey :=
  flat_map (fun fed => map (fun '(_, p) => {| sk_namespace := aps_namespace p; sk_name := provider_service_name p; sk_port := aps_port p |})
                           (resolved_members store fed)) (federation_providers store).

(** ** Backend groups *)

(** [pick_oldest] *)
Definition pick_oldest (current candidate : option BackendTLSPolicyState) : option BackendTLSPolicyState :=
  match current, candidate with
  | None, c => c
  | c, None => c
  | Some a, Some b =>
      match policy_created a, policy_created b with
      | Some at_, Some bt => if bt <? at_ then Some b else Some a
      | _, _ => Some a
      end
  end.

Definition targets_service {P} `{PolicyState P} (key : ServiceKey) (p : P) : bool :=
  policy_accepted p && String.eqb (ptk_kind (policy_target p)) "Service" &&
  String.eqb (ptk_namespace (policy_target p)) (sk_namespace key) && String.eqb (ptk_name (policy_target p)) (sk_name key).

Definition health_check_for (store : ConfigStore) (key : ServiceKey) : option HealthCheckConfig :=
  (fun e => let p := e.2 in
     {| hcc_path := hcps_path p; hcc_interval_secs := hcps_interval_secs p; hcc_timeout_secs := hcps_timeout_secs p;
        hcc_healthy_threshold := hcps_healthy_threshold p; hcc_unhealthy_threshold := hcps_unhealthy_threshold p |})
  <$> List.find (fun e => targets_service key e.2) (entries (st_health_check_policies store)).

(** The BackendTLSPolicy of a port: one that names the port comes before one
    for the whole Service, and the oldest of each. *)
Definition backend_tls_for (store : ConfigStore) (key : ServiceKey) : option BackendTLSPolicyState :=
  let port_name := st_service_port_names store !! key in
  let '(section_match, service_wide) :=
    fold_left (fun '(section_match, service_wide) e =>
      let p := e.2 in
      if negb (targets_service key p) then (section_match, service_wide)
      else match ptk_section_name (policy_target p) with
           | Some section => if bool_decide (port_name = Some section) then (pick_oldest section_match (Some p), service_wide)
                             else (section_match, service_wide)
           | None => (section_match, pick_oldest service_wide (Some p))
           end) (entries (st_backend_tls_policies store)) (None, None) in
  match section_match with Some p => Some p | None => service_wide end.

(** The endpoints of a Service port, through the target port. *)
Definition endpoints_of (store : ConfigStore) (key : ServiceKey) : list BackendEndpoint :=
  let target_port := default (sk_port key) (st_service_port_map store !! key) in
  default [] (st_endpoints store !! {| sk_namespace := sk_namespace key; sk_name := sk_name key; sk_port := target_port |}).

Definition compile_backend (store : ConfigStore) (key : ServiceKey) : BackendGroup :=
  {| bg_service_name := sk_name key; bg_port := sk_port key; bg_endpoints := endpoints_of store key;
     bg_health_check := health_check_for store key;
     bg_backend_tls := (fun p => {| btc_ca_cert_pem := btps_ca_cert_pem p; btc_hostname := btps_hostname p;
                                    btc_subject_alt_names := btps_subject_alt_names p |}) <$> backend_tls_for store key |}.

Definition backend_keys (store : ConfigStore) : gset ServiceKey :=
  list_to_set (http_keys store ++ grpc_keys store ++ ext_auth_keys (map snd (policed_routes store)) ++ tls_keys store ++
               l4_keys (st_tcp_routes store) ++ l4_keys (st_udp_routes store) ++ federation_keys store).

Definition compile_backends (store : ConfigStore) : list BackendGroup :=
  map (compile_backend store) (iter_order (elements (backend_keys store))).

(** ** Issuers and the message *)

(** [jwt_issuers] *)
Definition jwt_issuers (r : RouteConfig) : list string :=
  match rc_auth r with Some (Some (AuthJwt providers)) => map jpv_issuer providers | _ => [] end.

(** [compile_issuer_keys] *)
Definition compile_issuer_keys (store : ConfigStore) (routes : list RouteConfig) : list IssuerKeys :=
  map (fun issuer => {| ik_issuer := issuer;
                        ik_jwks_json := default EmptyString (st_issuer_keys store !! issuer ≫= iks_jwks_json) |})
      (bset_extend (flat_map jwt_issuers routes) []).

Definition passthrough_hostnames (store : ConfigStore) : list string :=
  flat_map (fun '(_, gw) => omap (fun l => if lst_accepted l && String.eqb (lst_protocol l) "TLS" then lst_hostname l else None) (gs_listeners gw))
           (entries (st_gateways store)).

(** [compile_config] *)
Definition compile_config (store : ConfigStore) : CompiledConfig :=
  let routes := compile_routes store in
  {| cc_schema_version := "1.0.0"; cc_version := 0; cc_fingerprint := 0; cc_routes := routes; cc_backends := compile_backends store;
     cc_listeners := compile_listeners store; cc_tls_passthrough_routes := compile_tls_routes store;
     cc_tcp_proxy_routes := compile_l4_routes store "TCP" (st_tcp_routes store);
     cc_udp_proxy_routes := compile_l4_routes store "UDP" (st_udp_routes store);
     cc_tls_passthrough_listener_hostnames := passthrough_hostnames store;
     cc_gateway_backend_tls := compile_gateway_backend_tls store; cc_mcp_federations := compile_mcp_federations store;
     cc_issuer_keys := compile_issuer_keys store routes |}.
End Compiler.

(** ** What a finished route keeps *)

Section Facts.
Context `{IO : IterOrder}.

Lemma finish_service store e :
  rc_service_name (finish_route store e) = rc_service_name e.2 /\ rc_port (finish_route store e) = rc_port e.2.
Proof.
  unfold finish_route, ai_provider_settings, ai_access, override_protocol.
  repeat (match goal with |- context [match ?x with _ => _ end] => destruct x end; try done).
Qed.

Lemma finish_grpc store e : rc_protocol e.2 = "GRPC" -> rc_protocol (finish_route store e) = "GRPC".
Proof.
  intros H. unfold finish_route, ai_provider_settings, ai_access, override_protocol. rewrite H, orb_true_r.
  repeat (match goal with |- context [match ?x with _ => _ end] => destruct x end; try done).
Qed.

Lemma compile_grpc_protocol store e : e ∈ compile_grpc_routes store -> rc_protocol e.2 = "GRPC".
Proof.
  unfold compile_grpc_routes, compile_grpc_route, compile_grpc_on.
  intros ([k gr] & _ & He)%list_elem_of_In%in_flat_map. apply list_elem_of_In, list_elem_of_fmap in He as (rc & -> & Hrc).
  apply list_elem_of_In, in_flat_map in Hrc as ([pr l] & _ & Hrc). repeat (apply in_flat_map in Hrc as (? & _ & Hrc)).
  apply in_map_iff in Hrc as (h & <- & _).
  repeat (match goal with |- context [match ?x with _ => _ end] => destruct x end; try done).
Qed.

(** A Service some route may reach has a group. *)
Lemma group_of_key store k : k ∈ backend_keys store -> compile_backend store k ∈ compile_backends store.
Proof.
  intros Hk. unfold compile_backends. apply list_elem_of_fmap. exists k. split; [done|]. by rewrite iter_order_perm, elem_of_elements.
Qed.

Lemma http_ref_key store k hr rule b :
  (k, hr) ∈ all_http_routes store -> rule ∈ hrs_rules hr -> b ∈ hrr_backend_refs rule ->
  grant_ok store "HTTPRoute" (hrs_namespace hr) (brs_namespace b) (brs_name b) = true -> service_key b ∈ backend_keys store.
Proof.
  intros Hhr Hrule Hb Hg. unfold backend_keys. rewrite elem_of_list_to_set, elem_of_app. left.
  unfold http_keys. apply list_elem_of_In, in_flat_map. exists (k, hr). split; [by apply list_elem_of_In|].
  apply in_app_iff. left. unfold granted_keys. apply in_map_iff. exists b. split; [done|]. apply filter_In. split; [|done].
  unfold http_refs. apply in_flat_map. exists rule. by rewrite <- !list_elem_of_In.
Qed.

(** Every Service a compiled HTTP or AI route sends requests to has a backend
    group in the same message: there is a backend reference of a rule that the
    route may use (its own namespace, or a ReferenceGrant covers it), and the
    group under that Service's name and port carries the endpoints the store
    holds for the reference. *)
Lemma route_services_have_groups store (r : RouteConfig) :
  r ∈ cc_routes (compile_config store) -> rc_protocol r <> "GRPC" -> rc_service_name r <> EmptyString ->
  exists key hr b g, (key, hr) ∈ all_http_routes store /\ b ∈ http_refs hr /\
    grant_ok store "HTTPRoute" (hrs_namespace hr) (brs_namespace b) (brs_name b) = true /\
    g ∈ cc_backends (compile_config store) /\ bg_service_name g = rc_service_name r /\ bg_port g = rc_port r /\
    bg_endpoints g = endpoints_of store (service_key b).
Proof.
  intros Hr Hp Hs. apply list_elem_of_fmap in Hr as (e' & -> & He').
  apply list_elem_of_fmap in He' as ([src rc] & -> & He). destruct (finish_service store (src, apply_policies store src rc)) as [Hsn Hpt].
  simpl in Hsn, Hpt. rewrite Hsn, Hpt in *. apply elem_of_app in He as [He|He].
  - apply list_elem_of_In, in_flat_map in He as ([key hr] & Hhr & He). apply list_elem_of_In in Hhr, He.
    destruct (http_service_ref store key hr rc) as (rule & b & Hrule & Hb & Hn & Hbp & Hg);
      [by apply list_elem_of_fmap; exists (src, rc)|done|].
    exists key, hr, b, (compile_backend store (service_key b)). split_and!; try done.
    + unfold http_refs. apply list_elem_of_In, in_flat_map. exists rule. by rewrite <- !list_elem_of_In.
    + by apply group_of_key, (http_ref_key store key hr rule).
  - destruct Hp. apply finish_grpc. simpl. by apply compile_grpc_protocol in He.
Qed.

(** ** One route per layer-4 listener *)

Lemma lawful_key3 : Lawful key3_compare.
Proof.
  unfold key3_compare, pair_compare.
  apply (lawful_then (fun a b : string * string * string => then_with (String.compare a.1.1 b.1.1) (String.compare a.1.2 b.1.2))).
  - apply (lawful_then (fun a b : string * string * string => String.compare a.1.1 b.1.1)).
    + apply (lawful_on (fun a : string * string * string => a.1.1)), lawful_string.
    + apply (lawful_on (fun a : string * string * string => a.1.2)), lawful_string.
  - apply (lawful_on (fun a : string * string * string => a.2)), lawful_string.
Qed.

Lemma lawful_created : Lawful created_compare.
Proof.
  destruct lawful_Z as [H1 H2 H3]. split.
  - intros [x|] [y|]; simpl; auto.
  - intros [x|] [y|] [z|]; simpl; try done. apply H2.
  - intros [x|] [y|] [z|]; simpl; try done. apply H3.
Qed.

Lemma lawful_candidate : Lawful candidate_compare.
Proof.
  apply (lawful_then (fun a b => key3_compare (ca_listener_key a) (ca_listener_key b))); [apply (lawful_on ca_listener_key), lawful_key3|].
  apply (lawful_then (fun a b => created_compare (ca_created a) (ca_created b))); [apply (lawful_on ca_created), lawful_created|].
  apply (lawful_on ca_route_name), lawful_string.
Qed.

Lemma key3_eq a b : key3_compare a b = Eq <-> a = b.
Proof.
  destruct a as [[a1 a2] a3], b as [[b1 b2] b3]. unfold key3_compare, pair_compare. simpl. split.
  - destruct (String.compare a1 b1) eqn:E1; simpl; try done. destruct (String.compare a2 b2) eqn:E2; simpl; try done.
    intros E3. apply String.compare_eq_iff in E1, E2, E3. by subst.
  - intros [= -> -> ->]. by rewrite !scompare_refl.
Qed.

(** The listener a candidate is for. *)
Definition same_listener (k : string * string * string) (c : Candidate) : bool := bool_decide (ca_listener_key c = k).

(** Candidates of one listener are neighbours in the sorted list. *)
Lemma sorted_contiguous a b c :
  not_after candidate_compare a b = true -> not_after candidate_compare b c = true -> ca_listener_key a = ca_listener_key c ->
  ca_listener_key b = ca_listener_key a.
Proof.
  unfold not_after, candidate_compare. intros Hab Hbc Hac. rewrite <- Hac in Hbc. apply key3_eq.
  rewrite (lawful_antisym _ lawful_key3 (ca_listener_key b)) in Hab.
  by destruct (key3_compare (ca_listener_key b) (ca_listener_key a)).
Qed.

Lemma dedup_after_elem last l c :
  StronglySorted (fun a b => not_after candidate_compare a b = true) (last :: l) ->
  c ∈ dedup_after last l <-> ca_listener_key c <> ca_listener_key last /\ List.find (same_listener (ca_listener_key c)) l = Some c.
Proof.
  revert last. induction l as [|d l IH]; intros last Hs; simpl; [set_solver|].
  apply StronglySorted_inv in Hs as [Hs Hl]. apply StronglySorted_inv in Hs as Hs'. destruct Hs' as [Hsl Hd].
  inversion Hl as [|? ? Hld Hll]; subst. unfold same_listener at 1. case_bool_decide as Heq.
  - rewrite IH by (by constructor). split; intros [Hc Hf]; (split; [done|]); destruct (bool_decide_reflect (ca_listener_key d = ca_listener_key c));
      congruence.
  - rewrite elem_of_cons, IH by done. split.
    + intros [->|[Hc Hf]]; [split; [done|by rewrite bool_decide_true]|]. rewrite bool_decide_false by done. split; [|done].
      intros Hx. apply find_some in Hf as [Hf%list_elem_of_In _]. rewrite Forall_forall in Hd.
      by destruct Heq; apply (sorted_contiguous last d c); [|apply Hd|].
    + intros [Hc Hf]. destruct (bool_decide_reflect (ca_listener_key d = ca_listener_key c)); [left; congruence|by right].
Qed.

Lemma dedup_listeners_elem l c :
  StronglySorted (fun a b => not_after candidate_compare a b = true) l ->
  c ∈ dedup_listeners l <-> List.find (same_listener (ca_listener_key c)) l = Some c.
Proof.
  destruct l as [|d l]; intros Hs; simpl; [set_solver|]. rewrite elem_of_cons, dedup_after_elem by done.
  unfold same_listener. destruct (bool_decide_reflect (ca_listener_key d = ca_listener_key c)) as [Heq|Hne]; naive_solver.
Qed.

Lemma dedup_after_nodup last l : 
  StronglySorted (fun a b => not_after candidate_compare a b = true) (last :: l) -> NoDup (map ca_listener_key (last :: dedup_after last l)).
Proof.
  revert last. induction l as [|d l IH]; intros last Hs; simpl; [repeat constructor; set_solver|].
  pose proof Hs as Hs0. apply StronglySorted_inv in Hs as [Hs Hl]. inversion Hl as [|? ? Hld Hll]; subst.
  apply StronglySorted_inv in Hs as Hs'. destruct Hs' as [Hsl Hd]. case_bool_decide as Heq; [by apply IH; constructor|].
  constructor; [|by apply IH]. intros (c & Hk & Hc)%list_elem_of_fmap. apply elem_of_cons in Hc as [->|Hc]; [congruence|].
  apply dedup_after_elem in Hc as [_ Hf]; [|done]. apply find_some in Hf as [Hf%list_elem_of_In _]. rewrite Forall_forall in Hd.
  by destruct Heq; apply (sorted_contiguous last d c); [|apply Hd|].
Qed.

Lemma sorted_candidates store protocol routes :
  StronglySorted (fun a b => not_after candidate_compare a b = true) (sort_by candidate_compare (l4_candidates store protocol routes)).
Proof. apply sort_by_sorted; [apply lawful_total|apply lawful_sort]; exact lawful_candidate. Qed.

(** Of the TCPRoutes (or UDPRoutes) that bind one listener only the oldest is
    programmed, the first by name among those of one age: a layer-4 route is in
    the message exactly when it comes from the candidate that the order puts
    first among the candidates of its listener and has a backend; and no
    listener has two routes. *)
Theorem l4_oldest_route_wins store (protocol : string) (routes : gmap NamespacedName L4RouteState) :
  (forall r, r ∈ compile_l4_routes store protocol routes <->
     exists c, first_best candidate_compare (same_listener (ca_listener_key c)) (l4_candidates store protocol routes) c /\ l4_route c = Some r) /\
  NoDup (map (fun r => (lpr_gateway_namespace r, lpr_gateway_name r, lpr_listener_name r)) (compile_l4_routes store protocol routes)).
Proof.
  pose proof (sorted_candidates store protocol routes) as Hs. split.
  - intros r. unfold compile_l4_routes. rewrite list_elem_of_omap. split.
    + intros (c & Hc & Hr). exists c. split; [|done]. apply dedup_listeners_elem in Hc; [|done].
      pose proof (find_sort_by candidate_compare (lawful_total _ lawful_candidate) (lawful_sort _ lawful_candidate)
                    (same_listener (ca_listener_key c)) (l4_candidates store protocol routes)) as Hf. by rewrite Hc in Hf.
    + intros (c & Hc & Hr).
      pose proof (find_sort_by candidate_compare (lawful_total _ lawful_candidate) (lawful_sort _ lawful_candidate)
                    (same_listener (ca_listener_key c)) (l4_candidates store protocol routes)) as Hf.
      destruct (List.find _ _) as [d|] eqn:Hd.
      * exists c. split; [|done]. apply dedup_listeners_elem; [done|]. rewrite Hd. f_equal. exact (first_best_unique _ _ _ _ _ Hf Hc).
      * destruct Hc as (Hp & l1 & l2 & Hl & _). rewrite (Hf c) in Hp; [done|]. rewrite Hl. set_solver.
  - unfold compile_l4_routes. destruct (sort_by _ _) as [|c l]; [constructor|].
    apply dedup_after_nodup in Hs. simpl dedup_listeners. revert Hs. generalize (c :: dedup_after c l). clear.
    induction l as [|d l IH]; [constructor|]. simpl. intros [Hd Hl]%NoDup_cons. unfold l4_route at 1.
    destruct (lrs_backend_refs (ca_route d)) as [|b bs]; [by apply IH|]. simpl. constructor; [|by apply IH].
    intros (r & Hk & (e & He & Hr)%list_elem_of_omap)%list_elem_of_fmap. apply Hd, list_elem_of_fmap. exists e. split; [|done].
    unfold l4_route in Hr. destruct (lrs_backend_refs (ca_route e)); [done|]. injection Hr as <-. simpl in Hk.
    by destruct (ca_listener_key d) as [[? ?] ?], (ca_listener_key e) as [[? ?] ?].
Qed.
End Facts.

(** ** A store with endpoints *)

Definition serving (s : ConfigStore) (eps : gmap ServiceKey (list BackendEndpoint)) : ConfigStore :=
  set_endpoints eps s.

Definition cart_service (ns : string) : ServiceKey := {| sk_namespace := ns; sk_name := "cart"; sk_port := 80 |}.
Definition cart_endpoint (address : string) : BackendEndpoint := {| be_address := address; be_port := 8080 |}.

Definition two_carts : ConfigStore :=
  serving (route_store {[ demo_gw_key := demo_gateway [demo_listener "web" 80 None] ]} ∅
             {[ cart_key := cart_route;
                {| nn_namespace := "bank"; nn_name := "cart" |} :=
                  demo_http_route "bank" ["bank.example.com"] [demo_parent ParentGateway "infra" "gw"] [demo_backend "bank" "cart" 1] ]} ∅)
          {[ cart_service "shop" := [cart_endpoint "10.0.0.1"]; cart_service "bank" := [cart_endpoint "10.0.9.9"] ]}.

(** The message names a backend group by the Service's name and port only: with
    a Service of one name in two namespaces, both routes name the same group
    and the message has two groups of that name with different endpoints. *)
Example service_name_in_two_namespaces :
  let config := @compile_config listed_order two_carts in
  map (fun r => (rc_host r, rc_service_name r, rc_port r)) (cc_routes config)
  = [("cart.example.com", "cart", 80); ("bank.example.com", "cart", 80)] /\
  map (fun g => (bg_service_name g, bg_port g, map be_address (bg_endpoints g))) (cc_backends config)
  = [("cart", 80, ["10.0.0.1"]); ("cart", 80, ["10.0.9.9"])].
Proof. split; vm_compute; reflexivity. Qed.
