(* ===== verification/ControlPlane.v ===== *)
(** * What the control plane reports and what it serves

    The reconcilers decide which routes and listeners are accepted; the
    compiler decides what the data plane gets.  Here the two are put together:
    a route's [Accepted] condition against the configurations compiled for it
    ([http_route.rs] against [compiler.rs]), and the certificates that are sent
    out against the ReferenceGrants ([gateway.rs], [listener_set.rs] against
    [compiler.rs]). *)
From S2P Require Import Prelude Text Proto Resources Hostnames Policies Objects HttpRoute Caches Gateways Triggers RouteCompiler PolicyCompiler Compiler.
From Stdlib Require Import String.
Open Scope Z_scope.

(** ** Routes *)

Section Routes.
Context `{IO : IterOrder} (regex_ok : string -> bool).

(** A Gateway is stored under its own namespace. *)
Definition gateways_keyed (store : ConfigStore) : Prop :=
  forall k gw, st_gateways store !! k = Some gw -> gs_namespace gw = nn_namespace k.

(** What the reconciler is offered is what the compiler looks at. *)
Lemma offered_listeners store p kind key :
  gateways_keyed store -> pref_parent_kind p = kind -> RouteCompiler.parent_key p = key ->
  match offered store kind key with
  | inl _ => parent_listeners store p = []
  | inr (ns, ls) => parent_listeners store p = ls /\ parent_namespace store p = ns
  end.
Proof.
  intros Hk <- <-. unfold offered, parent_listeners, parent_namespace. destruct (pref_parent_kind p).
  - destruct (st_gateways store !! _) as [gw|] eqn:Hg; [|done]. by rewrite (Hk _ _ Hg).
  - destruct (st_listener_sets store !! _) as [ls|]; [|done]. by destruct (lss_accepted ls).
Qed.

Lemma compile_http_on_nonempty store hr p l :
  hrs_rules hr <> [] -> compile_http_on store hr p l <> [] <-> hostnames_compatible (lst_hostname l) (hrs_hostnames hr) = true.
Proof.
  intros Hr. rewrite compatible_effective, negb_true_iff, bool_decide_eq_false. split.
  - intros Hne He. apply Hne, elem_of_nil_inv. intros rc (rule & h & b & _ & Hh & _)%compile_http_on_elem. rewrite He in Hh. by apply elem_of_nil in Hh.
  - intros He Hnil. destruct (hrs_rules hr) as [|rule rules] eqn:Hrules; [done|].
    destruct (compute_effective_hostnames_inner [lst_hostname l] (hrs_hostnames hr)) as [|h hs] eqn:Hhs; [done|].
    destruct (compile_http_rule rule h (listener_name_for p l) (lst_port l) (default EmptyString (lst_hostname l))) as [|b bs] eqn:Hb;
      [by apply compile_http_rule_nonempty in Hb|].
    apply (not_elem_of_nil (place_route b h (owner_of store p)
      (granted_service store "HTTPRoute" (hrs_namespace hr) (hrr_backend_refs rule) (rc_service_name b) (rc_port b)).1
      (granted_service store "HTTPRoute" (hrs_namespace hr) (hrr_backend_refs rule) (rc_service_name b) (rc_port b)).2)).
    rewrite <- Hnil. apply compile_http_on_elem. exists rule, h, b. rewrite Hrules, Hhs. simpl. rewrite Hb. repeat split; left.
Qed.

(** The listener a name picks out. *)
Lemma candidates_elem pref ls l :
  NoDup (map lst_name ls) ->
  l ∈ candidates pref ls <-> l ∈ ls /\ forall sn, pr_section_name pref = Some sn -> lst_name l = sn.
Proof.
  intros Hnd. unfold candidates. destruct (pr_section_name pref) as [sn|]; [|naive_solver].
  assert (Hf : List.find (fun l => String.eqb (lst_name l) sn) ls = Some l <-> l ∈ ls /\ lst_name l = sn).
  { induction ls as [|x ls IH]; simpl; [split; [done|by intros [?%elem_of_nil _]]|].
    apply NoDup_cons in Hnd as [Hx Hnd]. rewrite elem_of_cons. destruct (String.eqb_spec (lst_name x) sn) as [He|He].
    - split; [intros [= ->]; auto|]. intros [[->|Hin] Hn]; [done|]. exfalso. apply Hx. rewrite He, <- Hn. by apply list_elem_of_fmap_2.
    - rewrite (IH Hnd). naive_solver. }
  destruct (List.find _ ls) as [x|]; simpl.
  - rewrite list_elem_of_singleton. split.
    + intros ->. destruct (proj1 Hf eq_refl) as [? ?]. split; [done|]. by intros sn' [= <-].
    + intros [Hin Hn]. assert (Some x = Some l) as [= ->] by (apply Hf; auto). done.
  - split; [by intros ?%elem_of_nil|]. intros [Hin Hn]. assert (None = Some l) by (apply Hf; auto). done.
Qed.

(** One parent of a stored route. *)
Lemma state_parent route ns store state reason p :
  http_route_state regex_ok route ns store = Some (state, reason) -> p ∈ hrs_parent_refs state ->
  exists pref q, bind_parent ns (namespace_labels_of store ns) (hrs_hostnames state) store pref = Some q /\
    pref_accepted p = pref_accepted q /\ pref_parent_kind p = pref_parent_kind q /\ pref_key p = pref_key q /\
    pref_section_name p = pref_section_name q /\ pref_port p = pref_port q /\ hrs_namespace state = ns.
Proof.
  unfold http_route_state. destruct (convert_rules _ _ _ _) as [[rules all] why]. destruct (negb _); [done|]. intros [= <- _] Hp. simpl in *.
  apply list_elem_of_fmap in Hp as (q & -> & Hq). apply bind_to_parents_elem in Hq as (pref & _ & Hq). exists pref, q.
  split; [done|]. by destruct (pref_accepted q) eqn:Ha.
Qed.

(** C10: What a route reports is what is served: a parent is reported as accepted if
    and only if the compiler finds a listener of that parent which the route
    binds, and emits configurations for the route there.  This holds for every
    parent of a route as it is stored, where the route has a rule and the
    parent's listeners are accepted and have names of their own. *)
Theorem accepted_iff_served route ns store state reason p :
  http_route_state regex_ok route ns store = Some (state, reason) -> gateways_keyed store -> p ∈ hrs_parent_refs state ->
  hrs_rules state <> [] -> Forall (fun l => lst_accepted l = true) (parent_listeners store p) ->
  NoDup (map lst_name (parent_listeners store p)) ->
  pref_accepted p = true <->
  exists l, l ∈ parent_listeners store p /\ binds store ns p l = true /\ compile_http_on store state p l <> [].
Proof.
  intros Hs Hk Hp Hr Hacc Hnd. destruct (state_parent _ _ _ _ _ _ Hs Hp) as (pref & q & Hq & -> & Hkind & Hkey & Hsec & Hport & Hns).
  rewrite (bind_parent_accepted _ _ _ _ _ _ Hq). apply bind_parent_names in Hq as (Hqk & Hqkey & Hqs & Hqp).
  pose proof (offered_listeners store p (ref_kind pref) (ref_key ns pref) Hk) as Ho. rewrite Hkind, Hqk in Ho.
  specialize (Ho eq_refl). unfold pref_key in Hkey, Hqkey. unfold RouteCompiler.parent_key in Ho. rewrite Hkey, Hqkey in Ho. specialize (Ho eq_refl).
  rewrite Hqs in Hsec. rewrite Hqp in Hport. setoid_rewrite (compile_http_on_nonempty store state p _ Hr). setoid_rewrite binds_iff.
  destruct (offered store _ _) as [?|[pns ls]]; [rewrite Ho; split; [done|by intros (l & ?%elem_of_nil & _)]|].
  destruct Ho as [Hls Hpns]. rewrite Hls in *. rewrite Hpns, Hsec, Hport, existsb_exists. setoid_rewrite <- list_elem_of_In.
  setoid_rewrite (candidates_elem pref ls _ Hnd). unfold takes, named_port, namespace_labels_of. rewrite Forall_forall in Hacc.
  assert (Hpt : forall l, match pr_port pref with Some p => lst_port l =? p | None => true end = true <->
                          forall p, pr_port pref = Some p -> lst_port l = p).
  { intros l. destruct (pr_port pref) as [n|]; [rewrite Z.eqb_eq|]; naive_solver. }
  setoid_rewrite andb_true_iff. setoid_rewrite andb_true_iff. setoid_rewrite andb_true_iff. setoid_rewrite orb_true_iff.
  setoid_rewrite String.eqb_eq. setoid_rewrite Hpt. split; intros (l & H); exists l; [|tauto].
  specialize (Hacc l). tauto.
Qed.
End Routes.

(** ** Certificates *)

(** Names the halves of the pairs of strings that are matched on. *)
Ltac split_pairs :=
  repeat match goal with
  | |- context [match ?x with _ => _ end] => lazymatch type of x with (string * string)%type => destruct x end
  end.

Section Certificates.
Context `{IO : IterOrder} `{PEM : Pem}.

(** Every Gateway is stored as it evaluates in the store, *)
Definition gateways_evaluated (store : ConfigStore) : Prop :=
  forall k gw, st_gateways store !! k = Some gw ->
  exists generation class listeners tls from labels programmed per accepted,
    evaluate_gateway k generation class listeners tls from labels programmed store = (gw, per, accepted).

(** and so is every ListenerSet. *)
Definition sets_evaluated (store : ConfigStore) : Prop :=
  forall k s, st_listener_sets store !! k = Some s ->
  exists ls labels top per, key_of (lso_metadata ls) = k /\ evaluate_listener_set ls store labels = (s, top, per) /\
    Forall (fun l => default "Terminate" (t ← lsn_tls l; gtc_mode t) = "Terminate") (lso_listeners ls).

Lemma gateway_certs store k gw l c :
  gateways_evaluated store -> st_gateways store !! k = Some gw -> l ∈ gs_listeners gw -> c ∈ lst_tls_cert_refs l ->
  secret_granted store "Gateway" (nn_namespace k) c.
Proof.
  intros Hev Hk Hl Hc. destruct (Hev k gw Hk) as (g & cls & ls & tls & from & labels & prog & per & acc & He).
  unfold evaluate_gateway in He. injection He as <- _ _. simpl in Hl. rewrite map_map in Hl.
  apply list_elem_of_fmap in Hl as (spec & -> & _). by apply evaluate_listener_certs in Hc as [? _].
Qed.

Lemma evaluate_set_elem step c ls (Q : ListenerState -> Prop) :
  Forall (fun l => forall c, Q (step c l).2.1) ls -> Forall Q (map fst (evaluate_set_listeners step c ls)).
Proof.
  intros Hall. revert c. induction Hall as [|l ls Hl _ IH]; intros c; simpl; [constructor|].
  specialize (Hl c). destruct (step c l) as [c' out]. constructor; [done|apply IH].
Qed.

(** The certificates of an accepted listener that terminates TLS are granted. *)
Lemma set_listener_certs ns g parent attach store c l cert :
  default "Terminate" (t ← lsn_tls l; gtc_mode t) = "Terminate" ->
  let state := (evaluate_set_listener ns g parent attach store c l).2.1 in
  lst_accepted state = true -> lst_protocol state = "HTTPS" \/ lst_protocol state = "TLS" -> cert ∈ lst_tls_cert_refs state ->
  secret_granted store "ListenerSet" ns cert.
Proof.
  intros Hm. unfold evaluate_set_listener. destruct (supported_kinds _ _) as [ks bad]. destruct (parent_validation _ _ _) as [v no].
  split_pairs. simpl. rewrite !andb_true_iff, !negb_true_iff.
  intros [[_ [[_ Hp] _]] _] Hproto (r & -> & Hr)%list_elem_of_fmap. unfold ref_not_permitted in Hp. rewrite Hm, andb_true_r in Hp.
  apply andb_false_iff in Hp as [Hp|Hp].
  { apply orb_false_iff in Hp as [H1%String.eqb_neq H2%String.eqb_neq]. by destruct Hproto. }
  unfold secret_granted; simpl. apply not_true_iff_false in Hp. rewrite existsb_exists in Hp.
  destruct (String.eqb_spec (default ns (sor_namespace r)) ns) as [He|Hne]; [by left|right]. apply not_false_is_true. intros Hg.
  apply Hp. exists r. rewrite <- list_elem_of_In. split; [done|]. rewrite Hg. apply andb_true_iff. split; [|done].
  by apply negb_true_iff, String.eqb_neq.
Qed.

Lemma set_certs store k s l c :
  sets_evaluated store -> st_listener_sets store !! k = Some s -> l ∈ lss_listeners s -> lst_accepted l = true ->
  lst_protocol l = "HTTPS" \/ lst_protocol l = "TLS" -> c ∈ lst_tls_cert_refs l -> secret_granted store "ListenerSet" (nn_namespace k) c.
Proof.
  intros Hev Hk Hl. destruct (Hev k s Hk) as (ls & labels & top & per & <- & He & Hmodes). unfold evaluate_listener_set in He.
  destruct (match st_gateways store !! set_parent ls with Some _ => _ | None => _ end) as [[attach why] msg].
  destruct (if negb attach then _ else _) as [why' msg']. injection He as <- _ _. simpl in Hl.
  intros Ha Hp Hc.
  assert (Hall : forall claims, Forall (fun l => lst_accepted l = true -> lst_protocol l = "HTTPS" \/ lst_protocol l = "TLS" ->
                   c ∈ lst_tls_cert_refs l -> secret_granted store "ListenerSet" (nn_namespace (key_of (lso_metadata ls))) c)
                 (map fst (evaluate_set_listeners (evaluate_set_listener (nn_namespace (key_of (lso_metadata ls)))
                   (default 0 (om_generation (lso_metadata ls))) (set_parent ls) attach store) claims (lso_listeners ls)))).
  { intros claims. apply evaluate_set_elem. eapply Forall_impl; [exact Hmodes|]. intros spec Hm c'. by apply set_listener_certs. }
  by apply (proj1 (Forall_forall _ _) (Hall _) l Hl).
Qed.

End Certificates.

(** ** On the store of a small cluster *)

Module Demo.
Import Triggers.Demo.

Definition settled_store : ConfigStore := w_store (rt_world settled).

Definition settled_state : HTTPRouteState :=
  match @http_route_state any_regex listed_order (route [demo_rule []]) "apps" settled_store with
  | Some (state, _) => state
  | None => {| hrs_namespace := EmptyString; hrs_hostnames := []; hrs_parent_refs := []; hrs_rules := []; hrs_generation := 0 |}
  end.

Definition settled_parent : ParentRefState :=
  {| pref_parent_kind := ParentGateway; pref_gateway_namespace := "apps"; pref_gateway_name := "gw"; pref_section_name := None;
     pref_port := None; pref_accepted := true; pref_resolved_refs := true; pref_reject_reason := None |}.

Lemma accepted_iff_served_witness :
  hrs_parent_refs settled_state = [settled_parent] /\ pref_accepted settled_parent = true /\
  exists l, l ∈ parent_listeners settled_store settled_parent /\
    @binds settled_store "apps" settled_parent l = true /\ @compile_http_on listed_order settled_store settled_state settled_parent l <> [].
Proof.
  assert (Hp : hrs_parent_refs settled_state = [settled_parent]) by (vm_compute; reflexivity).
  split; [exact Hp|]. split; [reflexivity|].
  apply (@accepted_iff_served listed_order any_regex (route [demo_rule []]) "apps" settled_store settled_state "ResolvedRefs" settled_parent);
    [vm_compute; reflexivity| |rewrite Hp; left|vm_compute; discriminate| | |reflexivity].
  - intros k gw. assert (Hg : exists g, st_gateways settled_store = {[gw_key := g]} /\ gs_namespace g = "apps").
    { eexists. split; vm_compute; reflexivity. }
    destruct Hg as (g & -> & Hn). intros [<- <-]%lookup_singleton_Some. exact Hn.
  - vm_compute. repeat constructor.
  - vm_compute. repeat constructor. apply not_elem_of_nil.
Defined.

(** A listener whose client validation names no usable CA is refused, yet the
    route on it is accepted, and nothing is served. *)
Definition mtls_gateway : GatewayObject :=
  {| gwo_metadata := demo_meta "apps" "gw";
     gwo_spec := {| gwp_gateway_class_name := "portus"; gwp_listeners := [secure None None]; gwp_addresses := [];
                    gwp_allowed_listeners := None; gwp_parameters_ref := None;
                    gwp_tls := Some {| gwt_backend := None;
                                       gwt_frontend := Some {| ftc_default := Some {| ftv_ca_certificate_refs := []; ftv_mode := None |};
                                                               ftc_per_port := [] |} |} |} |}.

Example accepted_on_refused_listener :
  let store := w_store (run_gateway mtls_gateway (with_secret "apps" (with_class (rt_world start)))) in
  match @http_route_state any_regex listed_order (route [demo_rule []]) "apps" store with
  | Some (state, _) => map pref_accepted (hrs_parent_refs state) = [true] /\ @compile_http_route listed_order store demo_route_key state = []
  | None => False
  end.
Proof. vm_compute. split; reflexivity. Qed.

(** *** Certificates *)

Definition secure_store : ConfigStore := w_store (run_gateway secure_gateway (with_secret "apps" (with_class (rt_world start)))).

Definition pem_pair : TlsCertRef := {| tcr_cert_pem := "certificate"; tcr_key_pem := "key" |}.


(** The [Passthrough] listener again: the key of another namespace reaches the
    data plane though nothing is granted. *)
Example ungranted_certificate_served :
  let store := w_store (with_secret "vault" (run_set (listener_set (secure (Some "Passthrough") (Some "vault"))) open_world)) in
  st_reference_grants store = ∅ /\
  omap ls_tls_cert_ref (@compile_listeners listed_order store) = [pem_pair].
Proof. split; vm_compute; reflexivity. Qed.
End Demo.
