(* ===== verification/Scope.v ===== *)
(** * Slices and fingerprints of the compiled configuration

    [portus-controller/src/compiler.rs]: [scope_config] cuts the part of the
    compiled configuration one Gateway's data planes receive, and
    [config_fingerprint] is the number by which the controller and the data
    planes recognise a content.  A message is hashed by the bytes of its
    encoding, which belong to the protobuf library: the hashes are a class. *)
From S2P Require Import Prelude Text Net Types Router Proto ConfigRoutes Resources Hostnames.
From S2P Require Import Policies PolicyKinds RouteCompiler PolicyCompiler Compiler.
From Stdlib Require Import String.
Open Scope Z_scope.

(** ** Fingerprints *)

(** The maps a message carries. *)
Definition mutation_maps (m : option HeaderMutation) : list (gmap string string) :=
  match m with Some m => [hmu_add m; hmu_set m] | None => [] end.

Definition route_maps (r : RouteConfig) : list (gmap string string) :=
  mutation_maps (rc_request_headers r) ++ mutation_maps (rc_response_headers r) ++
  flat_map (fun w => mutation_maps (wbp_request_headers w)) (rc_weighted_backends r) ++
  match rc_auth r with Some (Some (AuthBasic credentials _)) => [credentials] | _ => [] end.

Definition l4_maps (t : L4ProxyRoute) : list (gmap string string) := flat_map (fun w => mutation_maps (wbp_request_headers w)) (lpr_backends t).

Definition federation_maps (f : McpFederation) : list (gmap string string) := map mm_headers (mf_members f).

(** Walking such a map visits its entries in one order only. *)
Definition single (m : gmap string string) : Prop := (size m <= 1)%nat.

(** [hash_msg]: the hash of a message's encoding.  A map field is written in
    the order the map is walked, so the bytes may depend on it when the map has
    two entries. *)
Class WireHash := {
  hash_route : IterOrder -> RouteConfig -> Z;
  hash_backend : BackendGroup -> Z;
  hash_listener : Listener -> Z;
  hash_tls_route : TlsPassthroughRoute -> Z;
  hash_l4_route : IterOrder -> L4ProxyRoute -> Z;
  hash_text : string -> Z;
  hash_backend_tls : GatewayBackendTls -> Z;
  hash_federation : IterOrder -> McpFederation -> Z;
  hash_issuer : IssuerKeys -> Z;
  hash_route_single o1 o2 r : Forall single (route_maps r) -> hash_route o1 r = hash_route o2 r;
  hash_l4_single o1 o2 t : Forall single (l4_maps t) -> hash_l4_route o1 t = hash_l4_route o2 t;
  hash_federation_single o1 o2 f : Forall single (federation_maps f) -> hash_federation o1 f = hash_federation o2 f;
}.

Section Fingerprint.
Context `{WH : WireHash} (o : IterOrder).

(** [fp.wrapping_add] over the elements of a list *)
Definition add_hashes {A} (h : A -> Z) (l : list A) (fp : Z) : Z := fold_left (fun fp x => wrapping_add 64 fp (h x)) l fp.

Definition config_fingerprint (config : CompiledConfig) : Z :=
  add_hashes hash_issuer (cc_issuer_keys config)
    (add_hashes (hash_federation o) (cc_mcp_federations config)
      (add_hashes hash_backend_tls (cc_gateway_backend_tls config)
        (add_hashes hash_text (cc_tls_passthrough_listener_hostnames config)
          (add_hashes (hash_l4_route o) (cc_udp_proxy_routes config)
            (add_hashes (hash_l4_route o) (cc_tcp_proxy_routes config)
              (add_hashes hash_tls_route (cc_tls_passthrough_routes config)
                (add_hashes hash_listener (cc_listeners config)
                  (add_hashes hash_backend (cc_backends config)
                    (add_hashes (hash_route o) (cc_routes config) 0))))))))).
End Fingerprint.

(** ** Slices *)

Section Slice.
Context `{WH : WireHash} (o : IterOrder).

Definition owned (gateway : string * string) (namespace name : string) : bool :=
  String.eqb namespace gateway.1 && String.eqb name gateway.2.

(** The Services a route reaches. *)
Definition route_wants (r : RouteConfig) : list (string * Z) :=
  (if is_empty (rc_service_name r) then [] else [(rc_service_name r, rc_port r)]) ++
  map (fun w => (wbp_service_name w, wbp_port w)) (rc_weighted_backends r) ++
  map (fun m => (mb_service_name m, mb_port m)) (rc_mirror_backends r) ++
  match rc_ext_auth r with Some ext => [(eac_service_name ext, eac_port ext)] | None => [] end.

Definition tls_wants (t : TlsPassthroughRoute) : list (string * Z) :=
  if is_empty (tpr_backend_service t) then [] else [(tpr_backend_service t, tpr_backend_port t)].

Definition l4_wants (t : L4ProxyRoute) : list (string * Z) :=
  (if is_empty (lpr_backend_service t) then [] else [(lpr_backend_service t, lpr_backend_port t)]) ++
  map (fun w => (wbp_service_name w, wbp_port w)) (lpr_backends t).

(** What the slice's routes need besides themselves. *)
Definition wanted_backends (routes : list RouteConfig) (tls : list TlsPassthroughRoute) (l4 : list L4ProxyRoute) : gset (string * Z) :=
  list_to_set (flat_map route_wants routes ++ flat_map tls_wants tls ++ flat_map l4_wants l4).

Definition wanted_federations (routes : list RouteConfig) : gset string :=
  list_to_set (List.filter (fun f => negb (is_empty f)) (map rc_ai_federation routes)).

Definition wanted_issuers (routes : list RouteConfig) : gset string := list_to_set (flat_map jwt_issuers routes).

(** The slice before its fingerprint is set. *)
Definition slice (config : CompiledConfig) (gateway : string * string) : CompiledConfig :=
  let routes := List.filter (fun r => owned gateway (rc_gateway_namespace r) (rc_gateway_name r)) (cc_routes config) in
  let listeners := List.filter (fun l => owned gateway (ls_gateway_namespace l) (ls_gateway_name l)) (cc_listeners config) in
  let tls := List.filter (fun t => owned gateway (tpr_gateway_namespace t) (tpr_gateway_name t)) (cc_tls_passthrough_routes config) in
  let tcp := List.filter (fun t => owned gateway (lpr_gateway_namespace t) (lpr_gateway_name t)) (cc_tcp_proxy_routes config) in
  let udp := List.filter (fun t => owned gateway (lpr_gateway_namespace t) (lpr_gateway_name t)) (cc_udp_proxy_routes config) in
  let backends := wanted_backends routes tls (tcp ++ udp) in
  {| cc_schema_version := cc_schema_version config; cc_version := cc_version config; cc_fingerprint := 0; cc_routes := routes;
     cc_backends := List.filter (fun b => bool_decide ((bg_service_name b, bg_port b) ∈ backends)) (cc_backends config);
     cc_listeners := listeners; cc_tls_passthrough_routes := tls; cc_tcp_proxy_routes := tcp; cc_udp_proxy_routes := udp;
     cc_tls_passthrough_listener_hostnames :=
       map ls_hostname (List.filter (fun l => String.eqb (ls_protocol l) "TLS" && negb (is_empty (ls_hostname l))) listeners);
     cc_gateway_backend_tls := List.filter (fun g => owned gateway (gbt_gateway_namespace g) (gbt_gateway_name g)) (cc_gateway_backend_tls config);
     cc_mcp_federations := List.filter (fun f => bool_decide (mf_name f ∈ wanted_federations routes)) (cc_mcp_federations config);
     cc_issuer_keys := List.filter (fun k => bool_decide (ik_issuer k ∈ wanted_issuers routes)) (cc_issuer_keys config) |}.

Definition with_stamp (config : CompiledConfig) (version fingerprint : Z) : CompiledConfig :=
  {| cc_schema_version := cc_schema_version config; cc_version := version; cc_fingerprint := fingerprint; cc_routes := cc_routes config;
     cc_backends := cc_backends config; cc_listeners := cc_listeners config; cc_tls_passthrough_routes := cc_tls_passthrough_routes config;
     cc_tcp_proxy_routes := cc_tcp_proxy_routes config; cc_udp_proxy_routes := cc_udp_proxy_routes config;
     cc_tls_passthrough_listener_hostnames := cc_tls_passthrough_listener_hostnames config;
     cc_gateway_backend_tls := cc_gateway_backend_tls config; cc_mcp_federations := cc_mcp_federations config;
     cc_issuer_keys := cc_issuer_keys config |}.

(** [scope_config] *)
Definition scope_config (config : CompiledConfig) (gateway : string * string) : CompiledConfig :=
  let scoped := slice config gateway in with_stamp scoped (cc_version config) (config_fingerprint o scoped).
End Slice.

(** ** The order of the lists does not matter *)

(** Two messages with the same elements. *)
Record same_content (c d : CompiledConfig) : Prop := {
  same_routes : cc_routes c ≡ₚ cc_routes d;
  same_backends : cc_backends c ≡ₚ cc_backends d;
  same_listeners : cc_listeners c ≡ₚ cc_listeners d;
  same_tls : cc_tls_passthrough_routes c ≡ₚ cc_tls_passthrough_routes d;
  same_tcp : cc_tcp_proxy_routes c ≡ₚ cc_tcp_proxy_routes d;
  same_udp : cc_udp_proxy_routes c ≡ₚ cc_udp_proxy_routes d;
  same_hostnames : cc_tls_passthrough_listener_hostnames c ≡ₚ cc_tls_passthrough_listener_hostnames d;
  same_backend_tls : cc_gateway_backend_tls c ≡ₚ cc_gateway_backend_tls d;
  same_federations : cc_mcp_federations c ≡ₚ cc_mcp_federations d;
  same_issuers : cc_issuer_keys c ≡ₚ cc_issuer_keys d;
}.

#[export] Instance same_content_equivalence : Equivalence same_content.
Proof.
  split.
  - intros c. by split.
  - intros c d []. by split.
  - intros c d e [] []. split; by etransitivity.
Qed.

Lemma add_hashes_perm {A} (h : A -> Z) l k fp : l ≡ₚ k -> add_hashes h l fp = add_hashes h k fp.
Proof.
  intros H. revert fp. unfold add_hashes.
  induction H as [|x l k H IH|x y l|l k m H1 IH1 H2 IH2]; intros fp; simpl; [done|apply IH| |by rewrite IH1, IH2].
  f_equal. unfold wrapping_add. rewrite !Zplus_mod_idemp_l. f_equal. lia.
Qed.

Lemma add_hashes_ext {A} (h k : A -> Z) l fp : (forall x, x ∈ l -> h x = k x) -> add_hashes h l fp = add_hashes k l fp.
Proof.
  unfold add_hashes. revert fp. induction l as [|x l IH]; intros fp H; simpl; [done|]. rewrite (H x) by left. apply IH.
  intros y Hy. apply H. by right.
Qed.

Lemma add_hashes_range {A} (h : A -> Z) l fp : 0 <= fp < 2 ^ 64 -> 0 <= add_hashes h l fp < 2 ^ 64.
Proof.
  unfold add_hashes. revert fp. induction l as [|x l IH]; intros fp H; simpl; [done|]. apply IH. unfold wrapping_add. apply Z.mod_pos_bound. lia.
Qed.

(** The maps of the message's elements. *)
Definition config_maps (c : CompiledConfig) : list (gmap string string) :=
  flat_map route_maps (cc_routes c) ++ flat_map l4_maps (cc_tcp_proxy_routes c ++ cc_udp_proxy_routes c) ++
  flat_map federation_maps (cc_mcp_federations c).

Lemma Forall_flat_map {A B} (P : B -> Prop) (f : A -> list B) l : Forall P (flat_map f l) <-> forall x, x ∈ l -> Forall P (f x).
Proof.
  rewrite Forall_forall. setoid_rewrite list_elem_of_In. setoid_rewrite in_flat_map. setoid_rewrite Forall_forall.
  setoid_rewrite list_elem_of_In. naive_solver.
Qed.

Section Order.
Context `{WH : WireHash}.

#[export] Instance fingerprint_proper o : Proper (same_content ==> eq) (config_fingerprint o).
Proof.
  intros c d []. unfold config_fingerprint.
  repeat match goal with H : ?l ≡ₚ ?k |- _ => rewrite (add_hashes_perm _ _ _ _ H); clear H end. done.
Qed.

Lemma fingerprint_orders o1 o2 c : Forall single (config_maps c) -> config_fingerprint o1 c = config_fingerprint o2 c.
Proof.
  unfold config_maps. rewrite !Forall_app, !Forall_flat_map. intros (Hr & Hl & Hf). unfold config_fingerprint.
  rewrite (add_hashes_ext (hash_route o1) (hash_route o2)) by (intros r H; by apply hash_route_single, Hr).
  rewrite (add_hashes_ext (hash_l4_route o1) (hash_l4_route o2) (cc_tcp_proxy_routes c)) by (intros r H; apply hash_l4_single, Hl; set_solver).
  rewrite (add_hashes_ext (hash_l4_route o1) (hash_l4_route o2) (cc_udp_proxy_routes c)) by (intros r H; apply hash_l4_single, Hl; set_solver).
  by rewrite (add_hashes_ext (hash_federation o1) (hash_federation o2)) by (intros r H; by apply hash_federation_single, Hf).
Qed.

(** C37: The fingerprint is a number of 64 bits that does not depend on the order of
    the message's lists, nor, when no map of the message has two entries, on
    the order in which maps are walked: a compile that finds the same objects
    in another order is recognised as unchanged. *)
Theorem fingerprint_ignores_order (o1 o2 : IterOrder) (c d : CompiledConfig) :
  same_content c d -> Forall single (config_maps c) ->
  config_fingerprint o1 c = config_fingerprint o2 d /\ 0 <= config_fingerprint o1 c < 2 ^ 64.
Proof.
  intros Hcd Hm. rewrite <- Hcd, (fingerprint_orders o1 o2) by done. split; [done|]. unfold config_fingerprint.
  repeat apply add_hashes_range. lia.
Qed.

(** ** A slice and the rest *)

Lemma filter_perm {A} (f : A -> bool) l k : l ≡ₚ k -> List.filter f l ≡ₚ List.filter f k.
Proof.
  induction 1 as [|x l k H IH|x y l|l k m H1 IH1 H2 IH2]; simpl; [done| | |by etransitivity].
  - destruct (f x); by rewrite IH.
  - destruct (f x), (f y); try done. apply Permutation_swap.
Qed.

Lemma filter_perm_extra {A} (f : A -> bool) l k xs :
  k ≡ₚ l ++ xs -> Forall (fun x => f x = false) xs -> List.filter f k ≡ₚ List.filter f l.
Proof.
  intros Hk Hx. rewrite <- (app_nil_r (List.filter f l)). assert (Hf : List.filter f xs = []).
  { clear Hk. induction Hx as [|x xs Hx _ IH]; simpl; [done|]. by rewrite Hx. }
  rewrite <- Hf, <- List.filter_app. by apply filter_perm.
Qed.

(** The elements a set asks for. *)
Lemma filter_wanted {A} `{Countable K} (key : A -> K) (w w' : gset K) l k xs :
  k ≡ₚ l ++ xs -> Forall (fun x => key x ∉ w) xs -> w' = w ->
  List.filter (fun x => bool_decide (key x ∈ w')) k ≡ₚ List.filter (fun x => bool_decide (key x ∈ w)) l.
Proof.
  intros Hk Hx ->. apply (filter_perm_extra _ _ _ _ Hk). eapply Forall_impl; [exact Hx|]. intros x Hn. by apply bool_decide_eq_false_2.
Qed.

Section Extra.
Context (gw : string * string).

Definition foreign (namespace name : string) : Prop := owned gw namespace name = false.

(** [d] is [c] and elements of other Gateways: routes and listeners they own,
    and backends, federations and issuers the slice of [c] does not ask for. *)
Record adds_foreign (c d : CompiledConfig) : Prop := {
  add_routes : exists xs, cc_routes d ≡ₚ cc_routes c ++ xs /\ Forall (fun r => foreign (rc_gateway_namespace r) (rc_gateway_name r)) xs;
  add_listeners : exists xs, cc_listeners d ≡ₚ cc_listeners c ++ xs /\ Forall (fun l => foreign (ls_gateway_namespace l) (ls_gateway_name l)) xs;
  add_tls : exists xs, cc_tls_passthrough_routes d ≡ₚ cc_tls_passthrough_routes c ++ xs /\
              Forall (fun t => foreign (tpr_gateway_namespace t) (tpr_gateway_name t)) xs;
  add_tcp : exists xs, cc_tcp_proxy_routes d ≡ₚ cc_tcp_proxy_routes c ++ xs /\
              Forall (fun t => foreign (lpr_gateway_namespace t) (lpr_gateway_name t)) xs;
  add_udp : exists xs, cc_udp_proxy_routes d ≡ₚ cc_udp_proxy_routes c ++ xs /\
              Forall (fun t => foreign (lpr_gateway_namespace t) (lpr_gateway_name t)) xs;
  add_backend_tls : exists xs, cc_gateway_backend_tls d ≡ₚ cc_gateway_backend_tls c ++ xs /\
              Forall (fun g => foreign (gbt_gateway_namespace g) (gbt_gateway_name g)) xs;
  add_backends : exists xs, cc_backends d ≡ₚ cc_backends c ++ xs /\
    Forall (fun b => (bg_service_name b, bg_port b) ∉ wanted_backends (cc_routes (slice c gw)) (cc_tls_passthrough_routes (slice c gw))
                                                        (cc_tcp_proxy_routes (slice c gw) ++ cc_udp_proxy_routes (slice c gw))) xs;
  add_federations : exists xs, cc_mcp_federations d ≡ₚ cc_mcp_federations c ++ xs /\
    Forall (fun f => mf_name f ∉ wanted_federations (cc_routes (slice c gw))) xs;
  add_issuers : exists xs, cc_issuer_keys d ≡ₚ cc_issuer_keys c ++ xs /\
    Forall (fun k => ik_issuer k ∉ wanted_issuers (cc_routes (slice c gw))) xs;
}.

Lemma slice_adds_foreign c d : adds_foreign c d -> same_content (slice d gw) (slice c gw).
Proof.
  intros [(r & Hr & Fr) (l & Hl & Fl) (t & Ht & Ft) (tc & Htc & Ftc) (u & Hu & Fu) (bt & Hbt & Fbt) (b & Hb & Fb) (f & Hf & Ff) (k & Hk & Fk)].
  pose proof (filter_perm_extra _ _ _ _ Hr Fr) as Pr. pose proof (filter_perm_extra _ _ _ _ Ht Ft) as Pt.
  pose proof (filter_perm_extra _ _ _ _ Htc Ftc) as Ptc. pose proof (filter_perm_extra _ _ _ _ Hu Fu) as Pu.
  pose proof (filter_perm_extra _ _ _ _ Hl Fl) as Pl.
  split; simpl; try done.
  - apply (filter_wanted _ _ _ _ _ _ Hb Fb). unfold wanted_backends.
    apply list_to_set_perm_L. by repeat apply Permutation_app; apply Permutation_flat_map; try apply Permutation_app.
  - by apply Permutation_map, filter_perm.
  - by eapply filter_perm_extra.
  - apply (filter_wanted _ _ _ _ _ _ Hf Ff). unfold wanted_federations. apply list_to_set_perm_L. by apply filter_perm, Permutation_map.
  - apply (filter_wanted _ _ _ _ _ _ Hk Fk). unfold wanted_issuers. apply list_to_set_perm_L. by apply Permutation_flat_map.
Qed.
End Extra.

(** C23: Other Gateways do not disturb a data plane: whatever routes, listeners and
    certificates of theirs, and whatever backends, federations and issuers only
    they use, are added to the configuration, in any order, the slice of the
    Gateway has the same elements and the same fingerprint, so its data planes
    keep what they run. *)
Theorem foreign_gateways_keep_slice (o : IterOrder) (gw : string * string) (c d : CompiledConfig) :
  adds_foreign gw c d ->
  same_content (scope_config o d gw) (scope_config o c gw) /\ cc_fingerprint (scope_config o d gw) = cc_fingerprint (scope_config o c gw).
Proof.
  intros H%slice_adds_foreign. split; [by destruct H; split|]. simpl. by rewrite H.
Qed.

Lemma slice_route o c gw r :
  r ∈ cc_routes (scope_config o c gw) <-> r ∈ cc_routes c /\ owned gw (rc_gateway_namespace r) (rc_gateway_name r) = true.
Proof. simpl. rewrite !list_elem_of_In. apply filter_In. Qed.

Lemma owned_eq gw ns name : owned gw ns name = true <-> gw = (ns, name).
Proof. destruct gw. unfold owned. simpl. rewrite andb_true_iff, !String.eqb_eq. naive_solver. Qed.

(** A backend one of the slice's routes names is in the slice. *)
Lemma slice_backend o c gw r g :
  r ∈ cc_routes (scope_config o c gw) -> g ∈ cc_backends c -> (bg_service_name g, bg_port g) ∈ route_wants r ->
  g ∈ cc_backends (scope_config o c gw).
Proof.
  intros Hr Hg Hw. apply list_elem_of_In, filter_In. rewrite <- list_elem_of_In. split; [done|]. apply bool_decide_eq_true_2.
  unfold wanted_backends. rewrite elem_of_list_to_set, elem_of_app. left. apply list_elem_of_In, in_flat_map. exists r.
  by rewrite <- !list_elem_of_In.
Qed.

Lemma slice_issuer o c gw r k :
  r ∈ cc_routes (scope_config o c gw) -> k ∈ cc_issuer_keys c -> ik_issuer k ∈ jwt_issuers r -> k ∈ cc_issuer_keys (scope_config o c gw).
Proof.
  intros Hr Hk Hw. apply list_elem_of_In, filter_In. rewrite <- list_elem_of_In. split; [done|]. apply bool_decide_eq_true_2.
  unfold wanted_issuers. rewrite elem_of_list_to_set. apply list_elem_of_In, in_flat_map. exists r. by rewrite <- !list_elem_of_In.
Qed.
End Order.

Section Compiled.
Context (o : IterOrder) `{IO : IterOrder} `{WH : WireHash}.

Lemma compiled_issuer store r issuer :
  r ∈ cc_routes (compile_config store) -> issuer ∈ jwt_issuers r ->
  {| ik_issuer := issuer; ik_jwks_json := default EmptyString (st_issuer_keys store !! issuer ≫= iks_jwks_json) |}
  ∈ cc_issuer_keys (compile_config store).
Proof.
  intros Hr Hi. simpl. unfold compile_issuer_keys. apply list_elem_of_fmap. exists issuer. split; [done|]. apply bset_extend_elem. left.
  apply list_elem_of_In, in_flat_map. exists r. by rewrite <- !list_elem_of_In.
Qed.

End Compiled.

(** ** Examples *)

(** A hash that reads the first header a route sets. *)
Definition first_header (o : IterOrder) (r : RouteConfig) : Z :=
  match rc_request_headers r with
  | Some m => match @entries o _ _ _ _ (hmu_set m) with (h, _) :: _ => Z.of_nat (String.length h) | [] => 0 end
  | None => 0
  end.

Lemma single_entries (o1 o2 : IterOrder) (m : gmap string string) : single m -> @entries o1 _ _ _ _ m = @entries o2 _ _ _ _ m.
Proof.
  unfold single, entries. rewrite <- length_map_to_list. intros H.
  by rewrite !iter_small.
Qed.

Lemma first_header_single (o1 o2 : IterOrder) r : Forall single (route_maps r) -> first_header o1 r = first_header o2 r.
Proof.
  unfold route_maps. rewrite !Forall_app. intros (H & _). unfold first_header.
  destruct (rc_request_headers r) as [m|]; [|done]. apply Forall_cons in H as [_ H]. apply Forall_cons in H as [H _].
  by rewrite (single_entries o1 o2).
Qed.

Definition demo_hash : WireHash :=
  {| hash_route := first_header; hash_backend g := bg_port g; hash_listener l := ls_port l; hash_tls_route t := tpr_backend_port t;
     hash_l4_route _ t := lpr_backend_port t; hash_text s := Z.of_nat (String.length s); hash_backend_tls _ := 1; hash_federation _ _ := 7;
     hash_issuer _ := 9; hash_route_single := first_header_single; hash_l4_single _ _ _ _ := eq_refl;
     hash_federation_single _ _ _ _ := eq_refl |}.

Definition reversed_order : IterOrder :=
  {| iter_order _ l := reverse l; iter_order_perm _ l := reverse_Permutation l |}.

Definition ai_store (providers : gmap NamespacedName AIProviderState) (routes : gmap NamespacedName AIRouteState)
    (secrets : gmap NamespacedName SecretState) : ConfigStore :=
  set_gateways {[ demo_gw_key := demo_gateway [demo_listener "web" 80 None] ]}
    (set_ai_providers providers (set_ai_routes routes (set_secrets secrets ConfigStore_new))).

Definition demo_provider (name kind host : string) (credential : option AICredentialState) (members : list AIFederationMember)
    : AIProviderState :=
  {| aps_namespace := "shop"; aps_name := name; aps_kind := kind; aps_tls := true; aps_host := host; aps_port := 443;
     aps_credential := credential; aps_session_affinity := false; aps_members := members; aps_generation := 1 |}.

Definition demo_ai_route (provider : string) : AIRouteState :=
  {| ars_namespace := "shop"; ars_hostnames := ["ai.example.com"]; ars_parent_refs := [demo_parent ParentGateway "infra" "gw"];
     ars_rules := [{| arr_matches := []; arr_backend_refs := []; arr_provider := {| nn_namespace := "shop"; nn_name := provider |};
                      arr_filters := [] |}];
     ars_require_api_key := false; ars_jwt := None; ars_on_behalf_of := None; ars_generation := 1 |}.

Definition shop_key (name : string) : NamespacedName := {| nn_namespace := "shop"; nn_name := name |}.

(** A provider with a credential: its requests carry a Host and a key. *)
Definition llm_store : ConfigStore :=
  ai_store {[ shop_key "llm" := demo_provider "llm" "openai" "api.example.com"
                (Some {| acs_secret_name := "llm"; acs_secret_key := "key"; acs_header := "authorization"; acs_prefix := "Bearer " |}) [] ]}
           {[ shop_key "chat" := demo_ai_route "llm" ]} {[ shop_key "llm" := {[ "key" := "sk-1" ]} ]}.

(** The headers a route to such a provider sets are a map of two entries: two
    walks of the same message may give two fingerprints, so a compile of an
    unchanged store is taken for a change. *)
Example fingerprint_follows_map_order :
  let config := @compile_config listed_order llm_store in
  (Z.eqb (@config_fingerprint demo_hash listed_order config) (@config_fingerprint demo_hash reversed_order config)) = false.
Proof. vm_compute. reflexivity. Qed.

(** A federation with one member. *)
Definition federation_store : ConfigStore :=
  ai_store {[ shop_key "tools" := demo_provider "tools" "mcp-federation" "tools.local" None
                [{| afm_name := "search"; afm_provider := "search"; afm_path := "/mcp" |}];
              shop_key "search" := demo_provider "search" "mcp" "search.example.com" None [] ]}
           {[ shop_key "agent" := demo_ai_route "tools" ]} ∅.

(** The configuration has a pool for the federation's member; the slice of the
    Gateway whose route fans out to the federation has the federation and not
    the pool. *)
Example slice_drops_federation_pools :
  let config := @compile_config listed_order federation_store in
  let sliced := @scope_config demo_hash listed_order config ("infra", "gw") in
  existsb (fun g => String.eqb (bg_service_name g) "aiprovider/shop/search") (cc_backends config) = true /\
  map (fun f => map mm_service_name (mf_members f)) (cc_mcp_federations sliced) = [["aiprovider/shop/search"]] /\
  existsb (fun g => String.eqb (bg_service_name g) "aiprovider/shop/search") (cc_backends sliced) = false.
Proof. vm_compute. auto. Qed.

(** ** Witnesses *)

Definition carts_config : CompiledConfig := @compile_config listed_order two_carts.

(** The same content with the routes and backends the other way round. *)
Definition carts_reversed : CompiledConfig :=
  {| cc_schema_version := "1.0.0"; cc_version := 0; cc_fingerprint := 0; cc_routes := reverse (cc_routes carts_config);
     cc_backends := reverse (cc_backends carts_config); cc_listeners := cc_listeners carts_config; cc_tls_passthrough_routes := [];
     cc_tcp_proxy_routes := []; cc_udp_proxy_routes := []; cc_tls_passthrough_listener_hostnames := []; cc_gateway_backend_tls := [];
     cc_mcp_federations := []; cc_issuer_keys := [] |}.

Lemma fingerprint_ignores_order_witness :
  @config_fingerprint demo_hash listed_order carts_config = @config_fingerprint demo_hash reversed_order carts_reversed /\
  0 <= @config_fingerprint demo_hash listed_order carts_config < 2 ^ 64.
Proof.
  apply (@fingerprint_ignores_order demo_hash listed_order reversed_order carts_config carts_reversed).
  - split; simpl; try reflexivity; symmetry; apply reverse_Permutation.
  - vm_compute. constructor.
Defined.

(** A second Gateway's listener, on top of the carts. *)
Definition other_listener : Listener :=
  {| ls_name := "web"; ls_port := 8080; ls_protocol := "HTTP"; ls_hostname := EmptyString; ls_tls_cert_ref := None;
     ls_gateway_namespace := "infra"; ls_gateway_name := "other"; ls_client_validation := None |}.

Definition carts_and_other : CompiledConfig :=
  {| cc_schema_version := "1.0.0"; cc_version := 0; cc_fingerprint := 0; cc_routes := reverse (cc_routes carts_config);
     cc_backends := cc_backends carts_config ++ [{| bg_service_name := "other"; bg_port := 80; bg_endpoints := []; bg_health_check := None;
                                                    bg_backend_tls := None |}];
     cc_listeners := cc_listeners carts_config ++ [other_listener]; cc_tls_passthrough_routes := [];
     cc_tcp_proxy_routes := []; cc_udp_proxy_routes := []; cc_tls_passthrough_listener_hostnames := []; cc_gateway_backend_tls := [];
     cc_mcp_federations := []; cc_issuer_keys := [] |}.

Lemma foreign_gateways_keep_slice_witness :
  cc_fingerprint (@scope_config demo_hash listed_order carts_and_other ("infra", "gw")) =
  cc_fingerprint (@scope_config demo_hash listed_order carts_config ("infra", "gw")).
Proof.
  apply (@foreign_gateways_keep_slice demo_hash listed_order ("infra", "gw") carts_config carts_and_other).
  split; simpl; try (exists []; split; [rewrite ?app_nil_r; reflexivity|constructor]).
  - exists []. split; [rewrite app_nil_r; apply reverse_Permutation|constructor].
  - exists [other_listener]. split; [reflexivity|]. constructor; [reflexivity|constructor].
  - eexists. split; [reflexivity|]. constructor; [|constructor]. apply (bool_decide_unpack (_ ∉ _)). vm_compute. exact I.
Defined.

