(* ===== verification/Programmed.v ===== *)
(** * What the data planes run

    [portus-controller/src/store.rs] keeps, next to the resources, the
    fingerprint of every Gateway's compiled slice, the fingerprints a slice had
    before, and what each data plane reported.  From these it answers whether a
    Gateway is Programmed, and publishes an event when the answer moves.
    [portus-controller/src/grpc_server.rs] feeds it with the data planes'
    connections and reports.  Times are nanoseconds; an operation that reads
    the clock more than once takes its readings as arguments. *)
From S2P Require Import Prelude Text Net Types Router Proto ConfigRoutes Resources Hostnames.
From S2P Require Import Policies PolicyKinds RouteCompiler PolicyCompiler Compiler Scope.
From Stdlib Require Import String.
Open Scope Z_scope.

(** ** State *)

Definition PROGRAMMED_GRACE : Z := 10 * 10 ^ 9.
Definition MAX_DATA_PLANE_NODES : nat := 1000.

Record AppliedState := {
  as_gateway : NamespacedName;
  as_fingerprint : Z;
}.

Record Distribution := {
  ds_compiled_version : Z;
  ds_compiled_fingerprint : Z;
  ds_gateway_fingerprints : gmap NamespacedName Z;
  ds_superseded : gmap NamespacedName (list (Z * Z));
  ds_applied : gmap string AppliedState;
  ds_events : list StoreEvent;
}.

Definition Distribution_new : Distribution :=
  {| ds_compiled_version := 0; ds_compiled_fingerprint := 0; ds_gateway_fingerprints := ∅; ds_superseded := ∅; ds_applied := ∅;
     ds_events := [] |}.

Implicit Types (d : Distribution) (gateway : NamespacedName).

(** [elapsed] of an instant, which does not go below zero *)
Definition elapsed (now at_ : Z) : Z := Z.max 0 (now - at_).
Definition in_grace (now : Z) (entry : Z * Z) : bool := elapsed now entry.2 <? PROGRAMMED_GRACE.

Definition with_applied d (applied : gmap string AppliedState) : Distribution :=
  {| ds_compiled_version := ds_compiled_version d; ds_compiled_fingerprint := ds_compiled_fingerprint d;
     ds_gateway_fingerprints := ds_gateway_fingerprints d; ds_superseded := ds_superseded d; ds_applied := applied; ds_events := ds_events d |}.

Definition with_slices d (fps : gmap NamespacedName Z) (old : gmap NamespacedName (list (Z * Z))) : Distribution :=
  {| ds_compiled_version := ds_compiled_version d; ds_compiled_fingerprint := ds_compiled_fingerprint d;
     ds_gateway_fingerprints := fps; ds_superseded := old; ds_applied := ds_applied d; ds_events := ds_events d |}.

(** [publish]; [notify_programmed] *)
Definition publish d (event : StoreEvent) : Distribution :=
  {| ds_compiled_version := ds_compiled_version d; ds_compiled_fingerprint := ds_compiled_fingerprint d;
     ds_gateway_fingerprints := ds_gateway_fingerprints d; ds_superseded := ds_superseded d; ds_applied := ds_applied d;
     ds_events := ds_events d ++ [event] |}.

Definition notify_programmed d gateway : Distribution := publish d (EvProgrammed gateway).

(** ** The answers *)

Definition slice_is_current_or_in_grace d (now : Z) gateway (fingerprint : Z) : bool :=
  bool_decide (ds_gateway_fingerprints d !! gateway = Some fingerprint) ||
  match ds_superseded d !! gateway with
  | Some old => existsb (fun e => (e.1 =? fingerprint) && in_grace now e) old
  | None => false
  end.

(** [any] over the data planes, which does not depend on their order *)
Definition any_applied d (f : AppliedState -> bool) : bool := existsb (fun e => f e.2) (map_to_list (ds_applied d)).

Definition is_programmed d (now : Z) : bool :=
  negb (ds_compiled_fingerprint d =? 0) &&
  any_applied d (fun a => bool_decide (is_Some (ds_gateway_fingerprints d !! as_gateway a)) &&
                          slice_is_current_or_in_grace d now (as_gateway a) (as_fingerprint a)).

Definition is_programmed_for d (now : Z) gateway : bool :=
  negb (ds_compiled_fingerprint d =? 0) && bool_decide (is_Some (ds_gateway_fingerprints d !! gateway)) &&
  any_applied d (fun a => bool_decide (as_gateway a = gateway) && slice_is_current_or_in_grace d now gateway (as_fingerprint a)).

(** ** Operations *)

(** The clock readings of [with_programmed_change]: before the change, in it,
    and after it. *)
Record Readings := {
  rd_before : Z;
  rd_during : Z;
  rd_after : Z;
}.

(** [with_programmed_change] *)
Definition with_programmed_change {R} d (rd : Readings) gateway (change : Distribution -> Distribution * R) : Distribution * R :=
  let before := is_programmed_for d (rd_before rd) gateway in
  let '(d', result) := change d in
  (if Bool.eqb (is_programmed_for d' (rd_after rd) gateway) before then d' else notify_programmed d' gateway, result).

Definition set_slice d (now : Z) gateway (fingerprint : Z) : Distribution * bool :=
  let fps := <[gateway := fingerprint]> (ds_gateway_fingerprints d) in
  match ds_gateway_fingerprints d !! gateway with
  | Some prev =>
      if prev =? fingerprint then (with_slices d fps (ds_superseded d), false)
      else
        let old := List.filter (in_grace now) (default [] (ds_superseded d !! gateway)) in
        (with_slices d fps (<[gateway := old ++ [(prev, now)]]> (ds_superseded d)), true)
  | None => (with_slices d fps (ds_superseded d), true)
  end.

(** [set_compiled_slice] *)
Definition set_compiled_slice d (rd : Readings) gateway (fingerprint : Z) : Distribution * bool :=
  with_programmed_change d rd gateway (fun d => set_slice d (rd_during rd) gateway fingerprint).

(** [remove_compiled_slice] *)
Definition remove_compiled_slice d (rd : Readings) gateway : Distribution :=
  (with_programmed_change d rd gateway (fun d =>
     (with_slices d (delete gateway (ds_gateway_fingerprints d)) (delete gateway (ds_superseded d)), tt))).1.

(** [expire_programmed_grace] *)
Definition expire_programmed_grace d (now after : Z) gateway : Distribution :=
  match ds_superseded d !! gateway with
  | Some old =>
      let kept := List.filter (in_grace now) old in
      let d' := with_slices d (ds_gateway_fingerprints d) (<[gateway := kept]> (ds_superseded d)) in
      if (List.length kept <? List.length old)%nat && negb (is_programmed_for d' after gateway) then notify_programmed d' gateway else d'
  | None => d
  end.

(** [forget_data_plane] *)
Definition forget_data_plane d (rd : Readings) (node_id : string) : Distribution :=
  match ds_applied d !! node_id with
  | Some a => (with_programmed_change d rd (as_gateway a) (fun d => (with_applied d (delete node_id (ds_applied d)), tt))).1
  | None => d
  end.

(** [accepts_data_plane] *)
Definition accepts_data_plane d (node_id : string) : bool :=
  (size (ds_applied d) <? MAX_DATA_PLANE_NODES)%nat || bool_decide (is_Some (ds_applied d !! node_id)).

Definition notify_moved d (now : Z) gateway (before : bool) : Distribution :=
  if Bool.eqb (is_programmed_for d now gateway) before then d else notify_programmed d gateway.

(** [record_applied]: the Gateway a node leaves and the one it joins are
    checked before and after. *)
Definition record_applied d (rd : Readings) (node_id : string) gateway (fingerprint : Z) : Distribution * bool :=
  if (fingerprint =? 0) || negb (accepts_data_plane d node_id) then (d, false)
  else
    let left := a ← ds_applied d !! node_id; if bool_decide (as_gateway a = gateway) then None else Some (as_gateway a) in
    let joined_before := is_programmed_for d (rd_before rd) gateway in
    let d' := with_applied d (<[node_id := {| as_gateway := gateway; as_fingerprint := fingerprint |}]> (ds_applied d)) in
    let d'' := match left with
               | Some g => notify_moved d' (rd_after rd) g (is_programmed_for d (rd_before rd) g)
               | None => d'
               end in
    (notify_moved d'' (rd_after rd) gateway joined_before, true).

(** ** The answer and what it depends on *)

Lemma any_applied_iff d f : any_applied d f = true <-> exists node a, ds_applied d !! node = Some a /\ f a = true.
Proof.
  unfold any_applied. rewrite existsb_exists. setoid_rewrite <- list_elem_of_In. split.
  - intros ([node a] & Hin%elem_of_map_to_list & Hf). eauto.
  - intros (node & a & Hin & Hf). exists (node, a). by rewrite elem_of_map_to_list.
Qed.

Lemma is_programmed_for_iff d t gateway :
  is_programmed_for d t gateway = true <->
  ds_compiled_fingerprint d <> 0 /\ is_Some (ds_gateway_fingerprints d !! gateway) /\
  exists node fp, ds_applied d !! node = Some {| as_gateway := gateway; as_fingerprint := fp |} /\
    slice_is_current_or_in_grace d t gateway fp = true.
Proof.
  unfold is_programmed_for. rewrite !andb_true_iff, negb_true_iff, Z.eqb_neq, bool_decide_eq_true, any_applied_iff.
  setoid_rewrite andb_true_iff. setoid_rewrite bool_decide_eq_true. split.
  - intros [[Hf Hs] (node & [g fp] & Ha & Hg & Hc)]. simpl in *. subst g. eauto 10.
  - intros (Hf & Hs & node & fp & Ha & Hc). split; [done|]. exists node. eexists. by repeat split.
Qed.

Lemma in_grace_mono t t' e : t <= t' -> in_grace t' e = true -> in_grace t e = true.
Proof. unfold in_grace, elapsed. rewrite !Z.ltb_lt. lia. Qed.

Lemma answer_mono d t t' gateway : t <= t' -> is_programmed_for d t' gateway = true -> is_programmed_for d t gateway = true.
Proof.
  rewrite !is_programmed_for_iff. intros Ht (Hf & Hs & node & fp & Ha & Hc). split_and!; try done. exists node, fp. split; [done|].
  unfold slice_is_current_or_in_grace in *. rewrite orb_true_iff in *. destruct Hc as [Hc|Hc]; [by left|right].
  destruct (ds_superseded d !! gateway) as [old|]; [|done]. rewrite existsb_exists in *. destruct Hc as (e & He & Hm).
  exists e. split; [done|]. rewrite andb_true_iff in *. split; [apply Hm|]. eapply in_grace_mono; [done|apply Hm].
Qed.

(** An answer that lapses with time leaves a superseded slice behind. *)
Lemma answer_lapses d t t' gateway :
  is_programmed_for d t gateway = true -> is_programmed_for d t' gateway = false ->
  exists e old, ds_superseded d !! gateway = Some (e :: old).
Proof.
  intros Ht Hn. destruct (ds_superseded d !! gateway) as [[|e old]|] eqn:Ho; [|by eauto|]; exfalso;
    rewrite is_programmed_for_iff in Ht; destruct Ht as (Hf & Hs & node & fp & Ha & Hc);
    (assert (is_programmed_for d t' gateway = true); [|congruence]); apply is_programmed_for_iff; split_and!; try done;
    exists node, fp; (split; [done|]); unfold slice_is_current_or_in_grace in *; by rewrite Ho in Hc |- *.
Qed.

(** What the answer for one Gateway reads. *)
Lemma answer_frame d d' t gateway :
  ds_compiled_fingerprint d' = ds_compiled_fingerprint d ->
  ds_gateway_fingerprints d' !! gateway = ds_gateway_fingerprints d !! gateway -> ds_superseded d' !! gateway = ds_superseded d !! gateway ->
  (forall node fp, ds_applied d' !! node = Some {| as_gateway := gateway; as_fingerprint := fp |} <->
                   ds_applied d !! node = Some {| as_gateway := gateway; as_fingerprint := fp |}) ->
  is_programmed_for d' t gateway = is_programmed_for d t gateway.
Proof.
  intros H1 H2 H3 H4. apply eq_true_iff_eq. rewrite !is_programmed_for_iff. unfold slice_is_current_or_in_grace. rewrite H1, H2, H3.
  by setoid_rewrite H4.
Qed.

(** ** Who hears of a change

    The reconcilers of a Gateway derive its answer when an event names it.
    [pl_heard] is the answer each Gateway's status was last derived from,
    [pl_checks] the expiry checks the compile loop has scheduled. *)
Record Plane := {
  pl_now : Z;
  pl_dist : Distribution;
  pl_checks : list (NamespacedName * Z);
  pl_heard : gmap NamespacedName bool;
}.

Definition hear d (t : Z) (heard : gmap NamespacedName bool) (e : StoreEvent) : gmap NamespacedName bool :=
  match e with EvProgrammed g => <[g := is_programmed_for d t g]> heard | _ => heard end.

(** The events an operation published, heard at [t]. *)
Definition listen (old d : Distribution) (t : Z) (heard : gmap NamespacedName bool) : gmap NamespacedName bool :=
  fold_left (hear d t) (drop (List.length (ds_events old)) (ds_events d)) heard.

Definition ordered (now : Z) (rd : Readings) : Prop := now <= rd_before rd /\ rd_before rd <= rd_during rd /\ rd_during rd <= rd_after rd.

Definition with_fingerprint d (version fingerprint : Z) : Distribution :=
  {| ds_compiled_version := version; ds_compiled_fingerprint := fingerprint; ds_gateway_fingerprints := ds_gateway_fingerprints d;
     ds_superseded := ds_superseded d; ds_applied := ds_applied d; ds_events := ds_events d |}.

(** One operation on the store.  The compile loop schedules a check at least
    the grace period after a slice changed, and publishes its first fingerprint
    before a data plane reports. *)
Inductive plane_step : Plane -> Plane -> Prop :=
| step_set p rd g fp d due (changed : bool) :
    ordered (pl_now p) rd -> set_compiled_slice (pl_dist p) rd g fp = (d, changed) -> rd_during rd + PROGRAMMED_GRACE <= due ->
    plane_step p {| pl_now := rd_after rd; pl_dist := d;
                    pl_checks := (if changed then [(g, due)] else []) ++ pl_checks p;
                    pl_heard := listen (pl_dist p) d (rd_after rd) (pl_heard p) |}
| step_remove p rd g d :
    ordered (pl_now p) rd -> remove_compiled_slice (pl_dist p) rd g = d ->
    plane_step p {| pl_now := rd_after rd; pl_dist := d; pl_checks := pl_checks p; pl_heard := delete g (pl_heard p) |}
| step_check p g due now after checks d :
    pl_checks p ≡ₚ (g, due) :: checks -> pl_now p <= now -> due <= now -> now <= after ->
    expire_programmed_grace (pl_dist p) now after g = d ->
    plane_step p {| pl_now := after; pl_dist := d; pl_checks := checks; pl_heard := listen (pl_dist p) d after (pl_heard p) |}
| step_applied p rd node g fp d ok :
    ordered (pl_now p) rd -> record_applied (pl_dist p) rd node g fp = (d, ok) ->
    plane_step p {| pl_now := rd_after rd; pl_dist := d; pl_checks := pl_checks p;
                    pl_heard := listen (pl_dist p) d (rd_after rd) (pl_heard p) |}
| step_forget p rd node d :
    ordered (pl_now p) rd -> forget_data_plane (pl_dist p) rd node = d ->
    plane_step p {| pl_now := rd_after rd; pl_dist := d; pl_checks := pl_checks p;
                    pl_heard := listen (pl_dist p) d (rd_after rd) (pl_heard p) |}
| step_publish p version fp :
    fp <> 0 -> (ds_compiled_fingerprint (pl_dist p) = 0 -> ds_applied (pl_dist p) = ∅) ->
    plane_step p {| pl_now := pl_now p; pl_dist := with_fingerprint (pl_dist p) version fp; pl_checks := pl_checks p; pl_heard := pl_heard p |}.

Definition plane_start (now : Z) : Plane := {| pl_now := now; pl_dist := Distribution_new; pl_checks := []; pl_heard := ∅ |}.

(** ** No change goes unheard *)

(** What was heard of [gateway] is its answer, or an answer that lapsed and
    whose superseded slice is still there for a check to find. *)
Definition heard_ok (heard : gmap NamespacedName bool) d (t : Z) gateway : Prop :=
  default false (heard !! gateway) = is_programmed_for d t gateway \/
  default false (heard !! gateway) = true /\ exists e old, ds_superseded d !! gateway = Some (e :: old).

Record plane_inv (p : Plane) : Prop := {
  inv_checked g old e : ds_superseded (pl_dist p) !! g = Some old -> e ∈ old ->
    e.2 <= pl_now p /\ exists due, (g, due) ∈ pl_checks p /\ e.2 + PROGRAMMED_GRACE <= due;
  inv_compiled g : ds_gateway_fingerprints (pl_dist p) !! g = None -> pl_heard p !! g = None /\ ds_superseded (pl_dist p) !! g = None;
  inv_heard g : heard_ok (pl_heard p) (pl_dist p) (pl_now p) g;
}.

Lemma heard_later heard d t t' gateway : t <= t' -> heard_ok heard d t gateway -> heard_ok heard d t' gateway.
Proof.
  intros Ht [H|H]; [|by right]. destruct (is_programmed_for d t' gateway) eqn:Ha.
  - left. by rewrite H, (answer_mono d t t').
  - destruct (is_programmed_for d t gateway) eqn:Hb; [|left; congruence]. right. split; [done|by eapply answer_lapses].
Qed.

Lemma heard_frame heard heard' d d' t gateway :
  heard' !! gateway = heard !! gateway -> is_programmed_for d' t gateway = is_programmed_for d t gateway ->
  ds_superseded d' !! gateway = ds_superseded d !! gateway -> heard_ok heard d t gateway -> heard_ok heard' d' t gateway.
Proof. unfold heard_ok. by intros -> -> ->. Qed.

(** The status follows an answer that moved. *)
Definition heard_move (heard : gmap NamespacedName bool) (before after : bool) gateway : gmap NamespacedName bool :=
  if Bool.eqb after before then heard else <[gateway := after]> heard.

Lemma heard_moved heard d d' t t' gateway :
  heard_ok heard d t gateway ->
  ((exists e old, ds_superseded d !! gateway = Some (e :: old)) -> exists e old, ds_superseded d' !! gateway = Some (e :: old)) ->
  heard_ok (heard_move heard (is_programmed_for d t gateway) (is_programmed_for d' t' gateway) gateway) d' t' gateway.
Proof.
  intros H Hold. unfold heard_move. destruct (Bool.eqb _ _) eqn:He.
  - apply Bool.eqb_prop in He. destruct H as [H|[H Ho]]; [left; congruence|right]. split; [done|by apply Hold].
  - left. by rewrite lookup_insert_eq.
Qed.

Lemma heard_move_ne heard before after g g' : g <> g' -> heard_move heard before after g !! g' = heard !! g'.
Proof. intros Hn. unfold heard_move. destruct (Bool.eqb _ _); [done|]. by rewrite lookup_insert_ne. Qed.

Lemma listen_app d d' t heard evs : ds_events d' = ds_events d ++ evs -> listen d d' t heard = fold_left (hear d' t) evs heard.
Proof. unfold listen. intros ->. by rewrite drop_app_length. Qed.

Lemma listen_moved d d1 rd g heard :
  ds_events d1 = ds_events d ->
  listen d (notify_moved d1 (rd_after rd) g (is_programmed_for d (rd_before rd) g)) (rd_after rd) heard =
  heard_move heard (is_programmed_for d (rd_before rd) g) (is_programmed_for d1 (rd_after rd) g) g.
Proof.
  intros He. unfold notify_moved, heard_move. destruct (Bool.eqb _ _).
  - by rewrite (listen_app _ _ _ _ []) by (by rewrite app_nil_r).
  - by rewrite (listen_app _ _ _ _ [EvProgrammed g]) by (simpl; by rewrite He).
Qed.

(** [with_programmed_change] in these terms *)
Lemma programmed_change_eq {R} d rd g (change : Distribution -> Distribution * R) :
  with_programmed_change d rd g change =
  (notify_moved (change d).1 (rd_after rd) g (is_programmed_for d (rd_before rd) g), (change d).2).
Proof. unfold with_programmed_change, notify_moved. by destruct (change d). Qed.

(** Publishing changes no answer. *)
Lemma notify_moved_fields d t g b :
  ds_gateway_fingerprints (notify_moved d t g b) = ds_gateway_fingerprints d /\ ds_superseded (notify_moved d t g b) = ds_superseded d /\
  ds_applied (notify_moved d t g b) = ds_applied d /\ ds_compiled_fingerprint (notify_moved d t g b) = ds_compiled_fingerprint d.
Proof. unfold notify_moved. by destruct (Bool.eqb _ _). Qed.

Lemma notify_moved_answer d t g b t' g' : is_programmed_for (notify_moved d t g b) t' g' = is_programmed_for d t' g'.
Proof. unfold notify_moved. by destruct (Bool.eqb _ _). Qed.

Lemma heard_ok_notify heard d t g b t' g' : heard_ok heard (notify_moved d t g b) t' g' <-> heard_ok heard d t' g'.
Proof. unfold heard_ok. rewrite notify_moved_answer. by rewrite (proj1 (proj2 (notify_moved_fields d t g b))). Qed.

(** A change of [gateway] alone keeps what was heard of all right. *)
Lemma heard_change p d1 rd gateway :
  plane_inv p -> ordered (pl_now p) rd -> ds_events d1 = ds_events (pl_dist p) ->
  (forall g, g <> gateway -> is_programmed_for d1 (rd_after rd) g = is_programmed_for (pl_dist p) (rd_after rd) g /\
                             ds_superseded d1 !! g = ds_superseded (pl_dist p) !! g) ->
  ((exists e old, ds_superseded (pl_dist p) !! gateway = Some (e :: old)) -> exists e old, ds_superseded d1 !! gateway = Some (e :: old)) ->
  let d := notify_moved d1 (rd_after rd) gateway (is_programmed_for (pl_dist p) (rd_before rd) gateway) in
  forall g, heard_ok (listen (pl_dist p) d (rd_after rd) (pl_heard p)) d (rd_after rd) g.
Proof.
  intros I (T1 & T2 & T3) He Hg Ho d g. unfold d. rewrite listen_moved by done. apply heard_ok_notify.
  destruct (decide (g = gateway)) as [->|Hne].
  - apply heard_moved; [|done]. eapply heard_later; [exact T1|]. apply I.
  - destruct (Hg g Hne) as [Ha Hs]. eapply heard_frame; [by apply heard_move_ne|done|done|].
    eapply heard_later; [|apply I]. lia.
Qed.

Lemma listen_notify d d1 t g b heard evs :
  ds_events d1 = ds_events d ++ evs ->
  listen d (notify_moved d1 t g b) t heard = heard_move (listen d d1 t heard) b (is_programmed_for d1 t g) g.
Proof.
  intros He. unfold notify_moved, heard_move. destruct (Bool.eqb _ _); [done|].
  rewrite (listen_app d d1 t heard evs He), (listen_app _ _ _ _ (evs ++ [EvProgrammed g])) by (simpl; by rewrite He, app_assoc).
  rewrite fold_left_app. reflexivity.
Qed.

Lemma heard_move_none heard before after g g' :
  heard !! g' = None -> (g' = g -> after = before) -> heard_move heard before after g !! g' = None.
Proof.
  intros Hn Hg. destruct (decide (g = g')) as [<-|]; [|by rewrite heard_move_ne]. unfold heard_move. by rewrite Hg, Bool.eqb_reflx.
Qed.

Lemma not_compiled d t g : ds_gateway_fingerprints d !! g = None -> is_programmed_for d t g = false.
Proof.
  intros H. destruct (is_programmed_for d t g) eqn:Ha; [|done]. apply is_programmed_for_iff in Ha as (_ & [x Hx] & _). congruence.
Qed.

Lemma filter_full {A} (f : A -> bool) l : (List.length l <= List.length (List.filter f l))%nat -> List.filter f l = l.
Proof.
  induction l as [|x l IH]; simpl; [done|]. pose proof (filter_length_le f l). destruct (f x); simpl; intros; [|lia].
  f_equal. apply IH. lia.
Qed.

Section Preservation.
Context (p : Plane) (I : plane_inv p).

Lemma set_inv rd g fp d due (changed : bool) :
  ordered (pl_now p) rd -> set_compiled_slice (pl_dist p) rd g fp = (d, changed) -> rd_during rd + PROGRAMMED_GRACE <= due ->
  plane_inv {| pl_now := rd_after rd; pl_dist := d; pl_checks := (if changed then [(g, due)] else []) ++ pl_checks p;
               pl_heard := listen (pl_dist p) d (rd_after rd) (pl_heard p) |}.
Proof.
  intros Ht Hs Hdue. unfold set_compiled_slice in Hs. rewrite programmed_change_eq in Hs. destruct Ht as (T1 & T2 & T3).
  destruct (set_slice (pl_dist p) (rd_during rd) g fp) as [d1 ch] eqn:Hd1. simpl in Hs. injection Hs as Hd ->.
  assert (Hfps : ds_gateway_fingerprints d1 = <[g := fp]> (ds_gateway_fingerprints (pl_dist p))).
  { unfold set_slice in Hd1. repeat case_match; by simplify_eq. }
  assert (Hkeep : ds_events d1 = ds_events (pl_dist p) /\ ds_applied d1 = ds_applied (pl_dist p) /\
                  ds_compiled_fingerprint d1 = ds_compiled_fingerprint (pl_dist p) /\
                  forall g', g' <> g -> ds_superseded d1 !! g' = ds_superseded (pl_dist p) !! g').
  { unfold set_slice in Hd1. repeat case_match; simplify_eq; simpl; split_and!; try done. intros g' Hn. by rewrite lookup_insert_ne. }
  destruct Hkeep as (Hev & Hap & Hcf & Hsup). destruct (notify_moved_fields d1 (rd_after rd) g (is_programmed_for (pl_dist p) (rd_before rd) g))
    as (Nf & Ns & _ & _). rewrite Hd in Nf, Ns.
  split; simpl.
  - intros g' old e Ho He. rewrite Ns in Ho. destruct (decide (g' = g)) as [->|Hne].
    + unfold set_slice in Hd1. repeat case_match; simplify_eq; simpl in *.
      * destruct (inv_checked _ I g old e Ho He) as (H1 & due' & H2 & H3). split; [lia|eauto].
      * rewrite lookup_insert_eq in Ho. injection Ho as <-. apply elem_of_app in He as [He|He].
        -- apply list_elem_of_In, filter_In in He as [He%list_elem_of_In _]. destruct (ds_superseded (pl_dist p) !! g) as [o|] eqn:Heq; [|by apply elem_of_nil in He].
           destruct (inv_checked _ I g o e Heq He) as (H1 & due' & H2 & H3). split; [lia|]. exists due'. split; [by right|done].
        -- apply list_elem_of_singleton in He as ->. simpl. split; [lia|]. exists due. split; [left|lia].
      * destruct (inv_checked _ I g old e Ho He) as (H1 & due' & H2 & H3). split; [lia|]. exists due'. split; [by right|done].
    + rewrite Hsup in Ho by done. destruct (inv_checked _ I g' old e Ho He) as (H1 & due' & H2 & H3). split; [lia|].
      exists due'. split; [apply elem_of_app; by right|done].
  - intros g' Hn. rewrite Nf, Hfps in Hn. apply lookup_insert_None in Hn as [Hn Hne]. destruct (inv_compiled _ I g' Hn) as [Hh Ho].
    rewrite Ns, Hsup by done. split; [|done]. rewrite <- Hd, listen_moved by done. by rewrite heard_move_ne.
  - rewrite <- Hd. apply (heard_change p d1 rd g I); [done|done| |].
    + intros g' Hne. split; [|by apply Hsup]. apply answer_frame; [done|by rewrite Hfps, lookup_insert_ne|by apply Hsup|by rewrite Hap].
    + intros (e & old & Ho). unfold set_slice in Hd1. repeat case_match; simplify_eq; simpl; [eauto| |eauto].
      rewrite lookup_insert_eq. destruct (List.filter _ _); simpl; eauto.
Qed.

Lemma remove_inv rd g d :
  ordered (pl_now p) rd -> remove_compiled_slice (pl_dist p) rd g = d ->
  plane_inv {| pl_now := rd_after rd; pl_dist := d; pl_checks := pl_checks p; pl_heard := delete g (pl_heard p) |}.
Proof.
  intros (T1 & T2 & T3) <-. unfold remove_compiled_slice. rewrite programmed_change_eq. simpl.
  set (d1 := with_slices _ _ _). destruct (notify_moved_fields d1 (rd_after rd) g (is_programmed_for (pl_dist p) (rd_before rd) g))
    as (Nf & Ns & _ & _). split; simpl.
  - intros g' old e Ho He. rewrite Ns in Ho. simpl in Ho. apply lookup_delete_Some in Ho as [_ Ho].
    destruct (inv_checked _ I g' old e Ho He) as (H1 & due' & H2 & H3). split; [lia|eauto].
  - intros g' Hn. rewrite Nf in Hn. rewrite Ns. simpl in *. destruct (decide (g' = g)) as [->|Hne]; [by rewrite !lookup_delete_eq|].
    rewrite !lookup_delete_ne in * by done. by apply I.
  - intros g'. apply heard_ok_notify. destruct (decide (g' = g)) as [->|Hne].
    + left. rewrite lookup_delete_eq. symmetry. apply not_compiled. simpl. by rewrite lookup_delete_eq.
    + eapply heard_frame; [by rewrite lookup_delete_ne| |simpl; by rewrite lookup_delete_ne|eapply heard_later; [|apply I]; lia].
      apply answer_frame; simpl; rewrite ?lookup_delete_ne by done; done.
Qed.

(** A check at its time leaves only slices whose own check is still to come. *)
Lemma kept_in_checks g due now checks old e :
  pl_checks p ≡ₚ (g, due) :: checks -> due <= now -> pl_now p <= now -> ds_superseded (pl_dist p) !! g = Some old -> e ∈ old -> in_grace now e = true ->
  exists due', (g, due') ∈ checks /\ e.2 + PROGRAMMED_GRACE <= due'.
Proof.
  intros Hp Hdue Hnow Ho He Hg. destruct (inv_checked _ I g old e Ho He) as (H1 & due' & H2 & H3). exists due'. split; [|done].
  rewrite Hp in H2. apply elem_of_cons in H2 as [[= ->]|H2]; [|done]. exfalso. unfold in_grace, elapsed in Hg. apply Z.ltb_lt in Hg.
  unfold PROGRAMMED_GRACE in *. lia.
Qed.

Lemma other_checks g due checks g' due' : pl_checks p ≡ₚ (g, due) :: checks -> g' <> g -> (g', due') ∈ pl_checks p -> (g', due') ∈ checks.
Proof. intros -> Hne [[= -> ->]|H]%elem_of_cons; done. Qed.

Lemma expire_heard g old now after :
  ds_superseded (pl_dist p) !! g = Some old -> pl_now p <= after ->
  let kept := List.filter (in_grace now) old in
  let d1 := with_slices (pl_dist p) (ds_gateway_fingerprints (pl_dist p)) (<[g := kept]> (ds_superseded (pl_dist p))) in
  (List.length kept <? List.length old)%nat && negb (is_programmed_for d1 after g) = false -> heard_ok (pl_heard p) d1 after g.
Proof.
  intros Ho Hnow kept d1 Hb. assert (H : heard_ok (pl_heard p) (pl_dist p) after g) by (eapply heard_later; [exact Hnow|apply I]).
  apply andb_false_iff in Hb as [Hb|Hb%negb_false_iff].
  - assert (Hk : kept = old) by (apply filter_full; apply Nat.ltb_ge in Hb; exact Hb). eapply heard_frame; [done| | |exact H].
    + apply answer_frame; simpl; try done. by rewrite lookup_insert_eq, Hk, Ho.
    + simpl. by rewrite lookup_insert_eq, Hk, Ho.
  - left. rewrite Hb. destruct H as [->|[-> _]]; [|done]. rewrite is_programmed_for_iff in Hb |- *.
    destruct Hb as (Hf & Hs & node & fp & Ha & Hc). split_and!; try done. exists node, fp. split; [done|].
    unfold slice_is_current_or_in_grace in *. simpl in Hc. rewrite lookup_insert_eq in Hc. rewrite Ho.
    rewrite orb_true_iff, existsb_exists in *. destruct Hc as [Hc|(e & He & Hm)]; [by left|right]. exists e. split; [|done].
    by apply filter_In in He as [He _].
Qed.

Lemma check_inv g due now after checks d :
  pl_checks p ≡ₚ (g, due) :: checks -> pl_now p <= now -> due <= now -> now <= after ->
  expire_programmed_grace (pl_dist p) now after g = d ->
  plane_inv {| pl_now := after; pl_dist := d; pl_checks := checks; pl_heard := listen (pl_dist p) d after (pl_heard p) |}.
Proof.
  intros Hp Hnow Hdue Haft <-. unfold expire_programmed_grace. destruct (ds_superseded (pl_dist p) !! g) as [old|] eqn:Ho; last first.
  { rewrite (listen_app _ _ _ _ []) by (by rewrite app_nil_r). split; simpl.
    - intros g' old e Ho' He. assert (g' <> g) by congruence. destruct (inv_checked _ I g' old e Ho' He) as (H1 & due' & H2 & H3).
      split; [lia|]. exists due'. split; [|done]. by eapply other_checks.
    - apply I.
    - intros g'. eapply heard_later; [|apply I]. lia. }
  set (kept := List.filter (in_grace now) old). set (d1 := with_slices _ _ _).
  assert (Hchk : forall g' old' e, ds_superseded d1 !! g' = Some old' -> e ∈ old' ->
            e.2 <= after /\ exists due', (g', due') ∈ checks /\ e.2 + PROGRAMMED_GRACE <= due').
  { intros g' old' e Ho' He. simpl in Ho'. apply lookup_insert_Some in Ho' as [[<- <-]|[Hne Ho']].
    - apply list_elem_of_In, filter_In in He as [He%list_elem_of_In Hg]. destruct (inv_checked _ I g old e Ho He) as (H1 & _). split; [lia|].
      by eapply kept_in_checks.
    - destruct (inv_checked _ I g' old' e Ho' He) as (H1 & due' & H2 & H3). split; [lia|]. exists due'. split; [|done].
      by eapply other_checks. }
  assert (Hoth : forall g', g' <> g -> heard_ok (pl_heard p) d1 after g').
  { intros g' Hne. eapply heard_frame; [done| |simpl; by rewrite lookup_insert_ne|eapply heard_later; [|apply I]; lia].
    apply answer_frame; simpl; rewrite ?lookup_insert_ne by done; done. }
  assert (Hcomp : forall g', ds_gateway_fingerprints d1 !! g' = None -> pl_heard p !! g' = None /\ ds_superseded d1 !! g' = None /\ g' <> g).
  { intros g' Hn. destruct (inv_compiled _ I g' Hn) as [H1 H2]. assert (g' <> g) by congruence. simpl. by rewrite lookup_insert_ne. }
  destruct (_ && _) eqn:Hb.
  - apply andb_true_iff in Hb as [_ Hb%negb_true_iff]. rewrite (listen_app _ _ _ _ [EvProgrammed g]) by done. simpl.
    change (is_programmed_for (notify_programmed d1 g) after g) with (is_programmed_for d1 after g). split; simpl; [done| |].
    + intros g' Hn. destruct (Hcomp g' Hn) as (H1 & H2 & H3). by rewrite lookup_insert_ne.
    + intros g'. change (heard_ok (<[g := is_programmed_for d1 after g]> (pl_heard p)) d1 after g').
      destruct (decide (g' = g)) as [->|Hne]; [left; by rewrite lookup_insert_eq|].
      eapply heard_frame; [by rewrite lookup_insert_ne|done|done|by apply Hoth].
  - rewrite (listen_app _ _ _ _ []) by (simpl; by rewrite app_nil_r). split; simpl; [done| |].
    + intros g' Hn. destruct (Hcomp g' Hn) as (H1 & H2 & H3). done.
    + intros g'. destruct (decide (g' = g)) as [->|Hne]; [|by apply Hoth]. apply (expire_heard g old now after Ho); [lia|exact Hb].
Qed.

(** What one data plane's record changes: the answers of the Gateways it
    served and serves. *)
Lemma with_applied_frame applied t g :
  (forall node fp, applied !! node = Some {| as_gateway := g; as_fingerprint := fp |} <->
                   ds_applied (pl_dist p) !! node = Some {| as_gateway := g; as_fingerprint := fp |}) ->
  is_programmed_for (with_applied (pl_dist p) applied) t g = is_programmed_for (pl_dist p) t g.
Proof. intros H. by apply answer_frame. Qed.

(** An invariant of the records follows from the answers alone. *)
Lemma applied_frame d d1 rd heard :
  ordered (pl_now p) rd -> ds_gateway_fingerprints d = ds_gateway_fingerprints (pl_dist p) -> ds_superseded d = ds_superseded (pl_dist p) ->
  (forall g, ds_gateway_fingerprints (pl_dist p) !! g = None -> heard !! g = None) ->
  (forall g, heard_ok heard d1 (rd_after rd) g) -> (forall g, heard_ok heard d1 (rd_after rd) g -> heard_ok heard d (rd_after rd) g) ->
  plane_inv {| pl_now := rd_after rd; pl_dist := d; pl_checks := pl_checks p; pl_heard := heard |}.
Proof.
  intros (T1 & T2 & T3) Hf Hs Hn Hh Hd. split; simpl.
  - intros g old e Ho He. rewrite Hs in Ho. destruct (inv_checked _ I g old e Ho He) as (H1 & due' & H2 & H3). split; [lia|eauto].
  - intros g Hg. rewrite Hf in Hg. split; [by apply Hn|]. rewrite Hs. by apply I.
  - intros g. apply Hd, Hh.
Qed.

Lemma heard_now rd g : ordered (pl_now p) rd -> heard_ok (pl_heard p) (pl_dist p) (rd_before rd) g.
Proof. intros (T1 & _). eapply heard_later; [exact T1|apply I]. Qed.

Lemma heard_then rd g : ordered (pl_now p) rd -> heard_ok (pl_heard p) (pl_dist p) (rd_after rd) g.
Proof. intros (T1 & T2 & T3). eapply heard_later; [|apply I]. lia. Qed.

Lemma applied_inv rd node g fp d ok :
  ordered (pl_now p) rd -> record_applied (pl_dist p) rd node g fp = (d, ok) ->
  plane_inv {| pl_now := rd_after rd; pl_dist := d; pl_checks := pl_checks p; pl_heard := listen (pl_dist p) d (rd_after rd) (pl_heard p) |}.
Proof.
  intros Ht. unfold record_applied. destruct (_ || _).
  { intros [= <- _]. rewrite (listen_app _ _ _ _ []) by (by rewrite app_nil_r).
    apply (applied_frame _ (pl_dist p)); try done; [by apply I|]. intros g'. by apply heard_then. }
  set (d1 := with_applied _ _). intros [= <- _]. 
  assert (Hg : forall h, h <> g -> (forall a, ds_applied (pl_dist p) !! node = Some a -> as_gateway a <> h) ->
             is_programmed_for d1 (rd_after rd) h = is_programmed_for (pl_dist p) (rd_after rd) h).
  { intros h Hh Hn. apply with_applied_frame. intros node' fp'. destruct (decide (node' = node)) as [->|Hne].
    - rewrite lookup_insert_eq. split; [by intros [= -> ->]|]. intros Ha. by destruct (Hn _ Ha).
    - by rewrite lookup_insert_ne. }
  destruct (ds_applied (pl_dist p) !! node ≫= _) as [l|] eqn:Hl.
  - apply bind_Some in Hl as (a & Ha & Hl). case_bool_decide as Hag; [done|]. injection Hl as <-.
    rewrite (listen_notify _ _ _ _ _ _ (drop (List.length (ds_events (pl_dist p))) (ds_events (notify_moved d1 (rd_after rd) (as_gateway a) (is_programmed_for (pl_dist p) (rd_before rd) (as_gateway a)))))).
    2:{ unfold notify_moved. destruct (Bool.eqb _ _); simpl; [by rewrite drop_all, app_nil_r|by rewrite drop_app_length]. }
    rewrite listen_moved by done. rewrite notify_moved_answer.
    apply (applied_frame _ d1); [done|by rewrite !(proj1 (notify_moved_fields _ _ _ _))
      |by rewrite !(proj1 (proj2 (notify_moved_fields _ _ _ _)))| | |intros h Hh; by rewrite !heard_ok_notify].
    + intros h Hh. apply heard_move_none; [apply heard_move_none; [by apply I|]|]; intros ->; by rewrite !not_compiled.
    + intros h. destruct (decide (h = g)) as [->|Hhg]; [|destruct (decide (h = as_gateway a)) as [->|Hha]].
      * apply heard_moved; [|done]. eapply heard_frame; [by apply heard_move_ne|done|done|by apply heard_now].
      * eapply heard_frame; [by apply heard_move_ne|done|done|]. apply heard_moved; [by apply heard_now|done].
      * eapply (heard_frame (pl_heard p) _ (pl_dist p)); [by rewrite !heard_move_ne|apply Hg; [done|intros b Hb; congruence]|done|by apply heard_then].
  - rewrite listen_moved by done.
    apply (applied_frame _ d1); [done|by rewrite !(proj1 (notify_moved_fields _ _ _ _))
      |by rewrite !(proj1 (proj2 (notify_moved_fields _ _ _ _)))| | |intros h Hh; by rewrite !heard_ok_notify].
    + intros h Hh. apply heard_move_none; [by apply I|]; intros ->; by rewrite !not_compiled.
    + intros h. destruct (decide (h = g)) as [->|Hhg]; [apply heard_moved; [by apply heard_now|done]|].
      eapply (heard_frame (pl_heard p) _ (pl_dist p)); [by rewrite !heard_move_ne|apply Hg; [done|]|done|by apply heard_then].
      intros a Ha. rewrite Ha in Hl. simpl in Hl. case_bool_decide; congruence.
Qed.

Lemma forget_inv rd node d :
  ordered (pl_now p) rd -> forget_data_plane (pl_dist p) rd node = d ->
  plane_inv {| pl_now := rd_after rd; pl_dist := d; pl_checks := pl_checks p; pl_heard := listen (pl_dist p) d (rd_after rd) (pl_heard p) |}.
Proof.
  intros Ht <-. unfold forget_data_plane. destruct (ds_applied (pl_dist p) !! node) as [a|] eqn:Ha; last first.
  { rewrite (listen_app _ _ _ _ []) by (by rewrite app_nil_r).
    apply (applied_frame _ (pl_dist p)); try done; [by apply I|]. intros g'. by apply heard_then. }
  rewrite programmed_change_eq. simpl. set (d1 := with_applied _ _). rewrite listen_moved by done.
  apply (applied_frame _ d1); [done|by rewrite !(proj1 (notify_moved_fields _ _ _ _))
    |by rewrite !(proj1 (proj2 (notify_moved_fields _ _ _ _)))| | |intros h Hh; by rewrite !heard_ok_notify].
  - intros h Hh. apply heard_move_none; [by apply I|]; intros ->; by rewrite !not_compiled.
  - intros h. destruct (decide (h = as_gateway a)) as [->|Hha]; [apply heard_moved; [by apply heard_now|done]|].
    eapply (heard_frame (pl_heard p) _ (pl_dist p)); [by rewrite !heard_move_ne| |done|by apply heard_then]. apply with_applied_frame. intros node' fp'.
    destruct (decide (node' = node)) as [->|Hne]; [|by rewrite lookup_delete_ne]. rewrite lookup_delete_eq, Ha. split; [done|].
    intros [= ->]. by destruct Hha.
Qed.

Lemma publish_inv version fp :
  fp <> 0 -> (ds_compiled_fingerprint (pl_dist p) = 0 -> ds_applied (pl_dist p) = ∅) ->
  plane_inv {| pl_now := pl_now p; pl_dist := with_fingerprint (pl_dist p) version fp; pl_checks := pl_checks p; pl_heard := pl_heard p |}.
Proof.
  intros Hfp H0. split; simpl; [apply I|apply I|]. intros g. eapply (heard_frame (pl_heard p) _ (pl_dist p)); [done| |done|apply I].
  apply eq_true_iff_eq. rewrite !is_programmed_for_iff. simpl. split.
  - intros (_ & Hs & node & fp' & Ha & Hc). split_and!; try done; [|by exists node, fp']. intros Hz. by rewrite (H0 Hz), lookup_empty in Ha.
  - intros (_ & Hs & node & fp' & Ha & Hc). split_and!; try done. by exists node, fp'.
Qed.
End Preservation.

Lemma plane_inv_start now : plane_inv (plane_start now).
Proof. split; simpl; [by intros ? ? ? ?%lookup_empty_Some|done|]. intros g. by left. Qed.

Lemma plane_inv_step p q : plane_inv p -> plane_step p q -> plane_inv q.
Proof.
  intros I H. destruct H; [by eapply set_inv|by eapply remove_inv|by eapply check_inv|by eapply applied_inv|by eapply forget_inv|by apply publish_inv].
Qed.

Lemma plane_inv_runs p q : rtc plane_step p q -> plane_inv p -> plane_inv q.
Proof. induction 1; eauto using plane_inv_step. Qed.


(** ** Runs *)

Definition at_time (t : Z) : Readings := {| rd_before := t; rd_during := t; rd_after := t |}.
Definition edge : NamespacedName := {| nn_namespace := "infra"; nn_name := "edge" |}.

Definition plane_of (t : Z) (old : Plane) (d : Distribution) (checks : list (NamespacedName * Z)) : Plane :=
  {| pl_now := t; pl_dist := d; pl_checks := checks; pl_heard := listen (pl_dist old) d t (pl_heard old) |}.

(** A slice is compiled and published, its check runs, a data plane applies
    it. *)
Definition plane1 : Plane := plane_of 0 (plane_start 0) (set_compiled_slice Distribution_new (at_time 0) edge 7).1 [(edge, PROGRAMMED_GRACE)].
Definition plane2 : Plane := plane_of 0 plane1 (with_fingerprint (pl_dist plane1) 1 9) [(edge, PROGRAMMED_GRACE)].
Definition plane3 : Plane := plane_of PROGRAMMED_GRACE plane2 (expire_programmed_grace (pl_dist plane2) PROGRAMMED_GRACE PROGRAMMED_GRACE edge) [].
Definition plane4 : Plane :=
  plane_of PROGRAMMED_GRACE plane3 (record_applied (pl_dist plane3) (at_time PROGRAMMED_GRACE) "node-1" edge 7).1 [].

Lemma planes_run : rtc plane_step (plane_start 0) plane4.
Proof.
  assert (Ho : forall t, ordered t (at_time t)) by (intros t; unfold ordered; simpl; lia).
  apply (rtc_l _ _ plane1); [|apply (rtc_l _ _ plane2); [|apply (rtc_l _ _ plane3); [|apply (rtc_l _ _ plane4); [|apply rtc_refl]]]].
  - refine (step_set (plane_start 0) (at_time 0) edge 7 (pl_dist plane1) PROGRAMMED_GRACE true (Ho 0) _ _); [vm_compute; reflexivity|done].
  - apply (step_publish plane1 1 9); done.
  - refine (step_check plane2 edge PROGRAMMED_GRACE PROGRAMMED_GRACE PROGRAMMED_GRACE [] (pl_dist plane3) _ _ _ _ _); done.
  - refine (step_applied plane3 (at_time PROGRAMMED_GRACE) "node-1" edge 7 (pl_dist plane4) true (Ho _) _). vm_compute. reflexivity.
Qed.


(** ** Answers that move unheard *)

(** The first fingerprint is published without an event: a data plane that
    reported its slice before the controller's first compile makes the Gateway
    Programmed at that moment, nobody is told, and the data plane, which runs
    the content already, does not report again. *)
Example first_publish_is_not_reported :
  let d1 := (record_applied Distribution_new (at_time 0) "node-1" edge 7).1 in
  let d2 := (set_compiled_slice d1 (at_time 1) edge 7).1 in
  let d3 := with_fingerprint d2 1 9 in
  is_programmed_for d2 2 edge = false /\ is_programmed_for d3 2 edge = true /\ ds_events d3 = [].
Proof. vm_compute. auto. Qed.

(** A data plane is forgotten by its name: when it has reconnected before the
    end of its old stream is noticed, that end removes the record of the new
    one, and the Gateway is no longer Programmed although the data plane is
    connected and runs its slice. *)
Example old_stream_forgets_reconnected_node :
  let d1 := with_fingerprint (set_compiled_slice Distribution_new (at_time 0) edge 7).1 1 9 in
  let d2 := (record_applied d1 (at_time 1) "node-1" edge 7).1 in
  let reconnected := (record_applied d2 (at_time 2) "node-1" edge 7).1 in
  is_programmed_for reconnected 3 edge = true /\ is_programmed_for (forget_data_plane reconnected (at_time 3) "node-1") 3 edge = false.
Proof. vm_compute. auto. Qed.
