(* ===== verification/CompileLoop.v ===== *)
(** * From the store to the data planes

    The compile loop of [portus-controller/src/compiler.rs]
    ([compilation_loop]) and the configuration service of
    [portus-controller/src/grpc_server.rs].  The loop sleeps on a notification;
    writers change the store, mark it dirty and notify, in three separate
    steps that interleave with the loop.  Every compile records the slices'
    fingerprints and, when the content changed, replaces the value the streams
    watch.  [compile_config] is a total function here, so the loop's handling
    of a panic in it is not modelled. *)
From S2P Require Import Prelude Text Net Types Router Proto ConfigRoutes Resources Hostnames.
From S2P Require Import Policies PolicyKinds RouteCompiler PolicyCompiler Compiler Scope Programmed.
From Stdlib Require Import String.
Open Scope Z_scope.

(** ** The configuration service *)

Record ConfigRequest := {
  crq_node_id : string;
  crq_last_known_version : Z;
  crq_schema_version : string;
  crq_last_applied_version : Z;
  crq_last_applied_fingerprint : Z;
  crq_gateway_namespace : string;
  crq_gateway_name : string;
}.

Record AppliedReport := {
  arp_node_id : string;
  arp_fingerprint : Z;
  arp_version : Z;
  arp_gateway_namespace : string;
  arp_gateway_name : string;
}.

(** The statuses the service answers with. *)
Inductive Status := InvalidArgument | FailedPrecondition | ResourceExhausted.

(** [gateway_ref] *)
Definition gateway_ref (namespace name : string) : option NamespacedName :=
  if is_empty namespace || is_empty name then None else Some {| nn_namespace := namespace; nn_name := name |}.

(** The schema check: the major version must be ours, or the request has none. *)
Definition schema_accepted (schema_version : string) : bool :=
  is_empty schema_version || String.eqb (default "0" (head (split_char "." schema_version))) "1".

(** [stream_config]: the Gateway whose slices the stream carries. *)
Definition stream_config (d : Distribution) (rd : Readings) (req : ConfigRequest) : Distribution * (Status + NamespacedName) :=
  match gateway_ref (crq_gateway_namespace req) (crq_gateway_name req) with
  | None => (d, inl InvalidArgument)
  | Some gateway =>
      if negb (schema_accepted (crq_schema_version req)) then (d, inl FailedPrecondition)
      else if accepts_data_plane d (crq_node_id req)
           then ((record_applied d rd (crq_node_id req) gateway (crq_last_applied_fingerprint req)).1, inr gateway)
           else (d, inr gateway)
  end.

(** [report_applied] *)
Definition report_applied (d : Distribution) (rd : Readings) (report : AppliedReport) : Distribution * option Status :=
  if arp_fingerprint report =? 0 then (d, Some InvalidArgument)
  else
    match gateway_ref (arp_gateway_namespace report) (arp_gateway_name report) with
    | None => (d, Some InvalidArgument)
    | Some gateway =>
        let '(d', ok) := record_applied d rd (arp_node_id report) gateway (arp_fingerprint report) in
        (d', if ok then None else Some ResourceExhausted)
    end.

Section Loop.
Context `{WH : WireHash}.

Definition gateway_of (gateway : NamespacedName) : string * string := (nn_namespace gateway, nn_name gateway).

(** One item of a stream: a value of the watch channel, cut to the Gateway. *)
Definition stream_item (o : IterOrder) (gateway : NamespacedName) (cfg : CompiledConfig) : CompiledConfig :=
  if cc_version cfg =? 0 then cfg else scope_config o cfg (gateway_of gateway).

(** ** One iteration of the loop *)

Record LoopState := {
  lo_version : Z;
  lo_last_fingerprint : Z;
}.

(** Gateways with a slice and no longer in the store. *)
Definition departed (o : IterOrder) (store : ConfigStore) (d : Distribution) : list NamespacedName :=
  List.filter (fun k => negb (bool_decide (is_Some (st_gateways store !! k)))) (map fst (@entries o _ _ _ _ (ds_gateway_fingerprints d))).

(** Forgets the departed Gateways and records the slices of the live ones;
    returns the Gateways whose expiry check is scheduled.  [rd] are the clock
    readings at each Gateway. *)
Definition record_slices (o : IterOrder) (store : ConfigStore) (config : CompiledConfig) (rd : NamespacedName -> Readings) (d : Distribution)
    : Distribution * list NamespacedName :=
  fold_left (fun '(d, scheduled) k =>
               let '(d', changed) := set_compiled_slice d (rd k) k (cc_fingerprint (scope_config o config (gateway_of k))) in
               (d', if changed : bool then scheduled ++ [k] else scheduled))
            (map fst (@entries o _ _ _ _ (st_gateways store)))
            (fold_left (fun d k => remove_compiled_slice d (rd k) k) (departed o store d) d, []).

(** The body of [compilation_loop] after [take_dirty]. *)
Definition iteration (o : IterOrder) (store : ConfigStore) (rd : NamespacedName -> Readings) (d : Distribution) (lo : LoopState)
    : Distribution * LoopState * list NamespacedName * option CompiledConfig :=
  let config := @compile_config o store in
  let fp := config_fingerprint o config in
  let '(d', scheduled) := record_slices o store config rd d in
  if (fp =? lo_last_fingerprint lo) && (0 <? lo_version lo) then (d', lo, scheduled, None)
  else
    let version := lo_version lo + 1 in
    (with_fingerprint d' version fp, {| lo_version := version; lo_last_fingerprint := fp |}, scheduled, Some (with_stamp config version fp)).

(** ** The slices follow the store *)

Lemma set_slice_fps d rd k fp : ds_gateway_fingerprints (set_compiled_slice d rd k fp).1 = <[k := fp]> (ds_gateway_fingerprints d).
Proof.
  unfold set_compiled_slice. rewrite programmed_change_eq. simpl. rewrite (proj1 (notify_moved_fields _ _ _ _)).
  unfold set_slice. by repeat case_match.
Qed.

Lemma remove_slice_fps d rd k : ds_gateway_fingerprints (remove_compiled_slice d rd k) = delete k (ds_gateway_fingerprints d).
Proof. unfold remove_compiled_slice. rewrite programmed_change_eq. simpl. by rewrite (proj1 (notify_moved_fields _ _ _ _)). Qed.

Lemma remove_all_fps rd l d k :
  ds_gateway_fingerprints (fold_left (fun d k => remove_compiled_slice d (rd k) k) l d) !! k =
  if bool_decide (k ∈ l) then None else ds_gateway_fingerprints d !! k.
Proof.
  revert d. induction l as [|x l IH]; intros d; simpl; [done|]. rewrite IH, remove_slice_fps.
  destruct (decide (k = x)) as [->|Hne]; [rewrite lookup_delete_eq|rewrite lookup_delete_ne by done]; repeat case_bool_decide; set_solver.
Qed.

Lemma set_all_fps o config rd l d scheduled k :
  ds_gateway_fingerprints (fold_left (fun '(d, scheduled) k =>
     let '(d', changed) := set_compiled_slice d (rd k) k (cc_fingerprint (scope_config o config (gateway_of k))) in
     (d', if changed : bool then scheduled ++ [k] else scheduled)) l (d, scheduled)).1 !! k =
  if bool_decide (k ∈ l) then Some (cc_fingerprint (scope_config o config (gateway_of k))) else ds_gateway_fingerprints d !! k.
Proof.
  revert d scheduled. induction l as [|x l IH]; intros d scheduled; [done|]. cbn [fold_left].
  pose proof (set_slice_fps d (rd x) x (cc_fingerprint (scope_config o config (gateway_of x)))) as Hx.
  destruct (set_compiled_slice _ _ _ _) as [d' changed]. simpl in Hx. rewrite IH, Hx.
  destruct (decide (k = x)) as [->|Hne]; [rewrite lookup_insert_eq|rewrite lookup_insert_ne by done]; repeat case_bool_decide; set_solver.
Qed.

Lemma record_slices_fps o store config rd d k :
  ds_gateway_fingerprints (record_slices o store config rd d).1 !! k =
  if bool_decide (is_Some (st_gateways store !! k)) then Some (cc_fingerprint (scope_config o config (gateway_of k))) else None.
Proof.
  unfold record_slices. rewrite set_all_fps, remove_all_fps. destruct (st_gateways store !! k) as [gw|] eqn:Hgw.
  - rewrite !bool_decide_true; [done|by eexists|]. apply list_elem_of_fmap. exists (k, gw). by rewrite (@entries_elem o).
  - rewrite (bool_decide_false (is_Some None)) by (by intros [? ?]). rewrite bool_decide_false; last first.
    { intros ([k' gw] & -> & Hin)%list_elem_of_fmap. rewrite (@entries_elem o) in Hin. simpl in Hgw. congruence. }
    case_bool_decide as Hd; [done|]. destruct (ds_gateway_fingerprints d !! k) as [fp|] eqn:Hfp; [|done]. destruct Hd.
    unfold departed. apply list_elem_of_In, filter_In. rewrite <- list_elem_of_In, Hgw. split; [|done].
    apply list_elem_of_fmap. exists (k, fp). by rewrite (@entries_elem o).
Qed.

(** ** Writers and the loop *)

Inductive Phase := Parked | Gathering | Compiling.

(** The loop and the store it compiles.  A writer has changed the store and not
    yet marked it ([cl_marking] of them), or marked it and not yet notified
    ([cl_notifying]); [cl_permit] is the notification a sleeping loop will find.
    [cl_seen] is the store the last compile read, [cl_written] whether a writer
    has marked the store since the start. *)
Record Loop := {
  cl_store : ConfigStore;
  cl_marking : nat;
  cl_notifying : nat;
  cl_dirty : bool;
  cl_permit : bool;
  cl_phase : Phase;
  cl_state : LoopState;
  cl_dist : Distribution;
  cl_watch : CompiledConfig;
  cl_seen : option ConfigStore;
  cl_written : bool;
}.

Definition set_writers (l : Loop) (store : ConfigStore) (marking notifying : nat) (dirty permit written : bool) : Loop :=
  {| cl_store := store; cl_marking := marking; cl_notifying := notifying; cl_dirty := dirty; cl_permit := permit; cl_phase := cl_phase l;
     cl_state := cl_state l; cl_dist := cl_dist l; cl_watch := cl_watch l; cl_seen := cl_seen l; cl_written := written |}.

Definition set_phase (l : Loop) (phase : Phase) (dirty permit : bool) : Loop :=
  {| cl_store := cl_store l; cl_marking := cl_marking l; cl_notifying := cl_notifying l; cl_dirty := dirty; cl_permit := permit;
     cl_phase := phase; cl_state := cl_state l; cl_dist := cl_dist l; cl_watch := cl_watch l; cl_seen := cl_seen l; cl_written := cl_written l |}.

Inductive loop_step : Loop -> Loop -> Prop :=
(** the map is changed *)
| loop_write l store : loop_step l (set_writers l store (S (cl_marking l)) (cl_notifying l) (cl_dirty l) (cl_permit l) (cl_written l))
(** [notify_change]: the flag, then the notification *)
| loop_mark l n : cl_marking l = S n -> loop_step l (set_writers l (cl_store l) n (S (cl_notifying l)) true (cl_permit l) true)
| loop_notify l n : cl_notifying l = S n -> loop_step l (set_writers l (cl_store l) (cl_marking l) n (cl_dirty l) true (cl_written l))
(** [notified().await], first and in the quiet period *)
| loop_wake l : cl_phase l = Parked -> cl_permit l = true -> loop_step l (set_phase l Gathering (cl_dirty l) false)
| loop_gather l : cl_phase l = Gathering -> cl_permit l = true -> loop_step l (set_phase l Gathering (cl_dirty l) false)
(** [take_dirty] *)
| loop_take l : cl_phase l = Gathering ->
    loop_step l (set_phase l (if cl_dirty l then Compiling else Parked) false (cl_permit l))
(** the compile *)
| loop_compile l o rd d lo scheduled broadcast :
    cl_phase l = Compiling -> iteration o (cl_store l) rd (cl_dist l) (cl_state l) = (d, lo, scheduled, broadcast) ->
    loop_step l {| cl_store := cl_store l; cl_marking := cl_marking l; cl_notifying := cl_notifying l; cl_dirty := cl_dirty l;
                   cl_permit := cl_permit l; cl_phase := Parked; cl_state := lo; cl_dist := d;
                   cl_watch := default (cl_watch l) broadcast; cl_seen := Some (cl_store l); cl_written := cl_written l |}
(** the service records what data planes report *)
| loop_service l d :
    ds_gateway_fingerprints d = ds_gateway_fingerprints (cl_dist l) ->
    loop_step l {| cl_store := cl_store l; cl_marking := cl_marking l; cl_notifying := cl_notifying l; cl_dirty := cl_dirty l;
                   cl_permit := cl_permit l; cl_phase := cl_phase l; cl_state := cl_state l; cl_dist := d;
                   cl_watch := cl_watch l; cl_seen := cl_seen l; cl_written := cl_written l |}.

Definition sentinel : CompiledConfig :=
  {| cc_schema_version := "1.0.0"; cc_version := 0; cc_fingerprint := 0; cc_routes := []; cc_backends := []; cc_listeners := [];
     cc_tls_passthrough_routes := []; cc_tcp_proxy_routes := []; cc_udp_proxy_routes := []; cc_tls_passthrough_listener_hostnames := [];
     cc_gateway_backend_tls := []; cc_mcp_federations := []; cc_issuer_keys := [] |}.

(** The flag starts set, without a notification. *)
Definition loop_start (store : ConfigStore) : Loop :=
  {| cl_store := store; cl_marking := 0; cl_notifying := 0; cl_dirty := true; cl_permit := false; cl_phase := Parked;
     cl_state := {| lo_version := 0; lo_last_fingerprint := 0 |}; cl_dist := Distribution_new; cl_watch := sentinel; cl_seen := None;
     cl_written := false |}.

Definition quiet (l : Loop) : Prop := cl_marking l = 0%nat /\ cl_notifying l = 0%nat /\ cl_permit l = false /\ cl_phase l = Parked.

(** What the streams watch is a compile of [store]: some walk of it has this
    fingerprint and these slices. *)
Definition reflects (l : Loop) (store : ConfigStore) : Prop :=
  exists o : IterOrder,
    cc_fingerprint (cl_watch l) = config_fingerprint o (@compile_config o store) /\
    forall k, ds_gateway_fingerprints (cl_dist l) !! k =
      if bool_decide (is_Some (st_gateways store !! k))
      then Some (cc_fingerprint (scope_config o (@compile_config o store) (gateway_of k))) else None.

Record loop_inv (l : Loop) : Prop := {
  inv_noticed : cl_seen l = Some (cl_store l) \/ (0 < cl_marking l)%nat \/ cl_dirty l = true \/ cl_phase l = Compiling;
  inv_woken : cl_dirty l = true -> cl_written l = true -> (0 < cl_notifying l)%nat \/ cl_permit l = true \/ cl_phase l = Gathering;
  inv_version : 0 <= lo_version (cl_state l) /\ cc_version (cl_watch l) = lo_version (cl_state l) /\
                (0 < lo_version (cl_state l) -> cc_fingerprint (cl_watch l) = lo_last_fingerprint (cl_state l) /\
                   exists (o : IterOrder) store, cl_watch l = with_stamp (@compile_config o store) (cc_version (cl_watch l)) (cc_fingerprint (cl_watch l)));
  inv_seen store : cl_seen l = Some store -> 0 < lo_version (cl_state l) /\ reflects l store;
}.

Lemma iteration_watch o store rd d lo d' lo' scheduled broadcast watch :
  iteration o store rd d lo = (d', lo', scheduled, broadcast) ->
  0 <= lo_version lo -> cc_version watch = lo_version lo -> (0 < lo_version lo -> cc_fingerprint watch = lo_last_fingerprint lo) ->
  0 < lo_version lo' /\ cc_version (default watch broadcast) = lo_version lo' /\
  cc_fingerprint (default watch broadcast) = lo_last_fingerprint lo' /\ lo_last_fingerprint lo' = config_fingerprint o (@compile_config o store) /\
  ds_gateway_fingerprints d' = ds_gateway_fingerprints (record_slices o store (@compile_config o store) rd d).1 /\
  (broadcast = None /\ lo' = lo /\ 0 < lo_version lo \/
   broadcast = Some (with_stamp (@compile_config o store) (lo_version lo') (lo_last_fingerprint lo'))).
Proof.
  unfold iteration. destruct (record_slices _ _ _ _ _) as [d1 sch]. intros Hi H0 Hv Hf. simpl.
  destruct (_ && _) eqn:Hc; simplify_eq; simpl.
  - apply andb_true_iff in Hc as [Hc%Z.eqb_eq Hp%Z.ltb_lt]. split_and!; try done; [by apply Hf|by left].
  - split_and!; try done; [lia|by right].
Qed.

Lemma loop_inv_step l l' : loop_inv l -> loop_step l l' -> loop_inv l'.
Proof.
  intros [J K (V0 & V1 & V2) S] H. destruct H as [l s|l n Hn|l n Hn|l Hp Hpm|l Hp Hpm|l Hp|l o rd d lo scheduled broadcast Hp Hi|l d Hd].
  - split; simpl; [right; left; lia|done|done|by apply S].
  - split; simpl; [by auto|left; lia|done|by apply S].
  - split; simpl; [done|by auto|done|by apply S].
  - split; simpl; [destruct J as [J|[J|[J|J]]]; [by auto|by auto|by auto|congruence]|by auto|done|by apply S].
  - split; simpl; [destruct J as [J|[J|[J|J]]]; [by auto|by auto|by auto|congruence]|by auto|done|by apply S].
  - split; simpl; [|done|done|by apply S]. destruct (cl_dirty l) eqn:Hd; [by auto|].
    destruct J as [J|[J|[J|J]]]; [by auto|by auto|done|congruence].
  - destruct (iteration_watch _ _ _ _ _ _ _ _ _ (cl_watch l) Hi V0 V1 ltac:(intros; by apply V2)) as (W0 & W1 & W2 & W3 & W4 & W5).
    split; simpl; [by left|by intros Hd Hw; destruct (K Hd Hw) as [Hk|[Hk|Hk]]; [auto|auto|congruence]| |].
    + split_and!; [lia|done|]. intros _. split; [done|]. destruct W5 as [(-> & -> & Hpos)| ->]; [by apply V2|]. by exists o, (cl_store l).
    + intros s [= <-]. split; [done|]. exists o. simpl. split; [congruence|]. intros k. by rewrite W4, record_slices_fps.
  - split; simpl; [done|done|done|]. intros s Hs. destruct (S s Hs) as (P & o & R1 & R2). split; [done|]. exists o. simpl. by rewrite Hd.
Qed.

Lemma loop_inv_start store : loop_inv (loop_start store).
Proof. split; simpl; [auto|done|split_and!; [done|done|lia]|done]. Qed.

Lemma loop_inv_runs l l' : rtc loop_step l l' -> loop_inv l -> loop_inv l'.
Proof. induction 1; eauto using loop_inv_step. Qed.

Lemma quiet_compiled l : loop_inv l -> quiet l -> cl_written l = true -> 0 < cc_version (cl_watch l) /\ reflects l (cl_store l).
Proof.
  intros [J K (V0 & V1 & V2) S] (Q1 & Q2 & Q3 & Q4) Hw. rewrite Q1, Q2, Q3, Q4 in *. assert (Hd : cl_dirty l = false).
  { destruct (cl_dirty l); [|done]. destruct (K eq_refl Hw) as [Hk|[Hk|Hk]]; [lia|done|done]. }
  rewrite Hd in J. destruct J as [J|[J|[J|J]]]; [|lia|done|done]. rewrite V1. by apply S.
Qed.

(** C12: No write is lost.  However writers and the loop interleave, once no writer
    is under way and the loop sleeps without a notification, the value the
    streams watch has the fingerprint of a compile of the store as it is, and
    every Gateway of the store, and no other, has the fingerprint of its slice
    recorded. *)
Theorem quiet_store_is_compiled (store : ConfigStore) (l : Loop) :
  rtc loop_step (loop_start store) l -> quiet l -> cl_written l = true -> 0 < cc_version (cl_watch l) /\ reflects l (cl_store l).
Proof. intros Hr. by apply quiet_compiled, (loop_inv_runs _ _ Hr), loop_inv_start. Qed.
End Loop.

(** ** A run of the loop *)

Definition no_store : ConfigStore := route_store ∅ ∅ ∅ ∅.
Definition edge_store : ConfigStore := route_store {[ demo_gw_key := demo_gateway [demo_listener "web" 80 None] ]} ∅ ∅ ∅.

Section Run.
#[local] Existing Instance demo_hash.

Definition compiled_edge : Distribution * LoopState * list NamespacedName * option CompiledConfig :=
  iteration listed_order edge_store (fun _ => at_time 0) Distribution_new {| lo_version := 0; lo_last_fingerprint := 0 |}.

Definition edge_loop : Loop :=
  {| cl_store := edge_store; cl_marking := 0; cl_notifying := 0; cl_dirty := false; cl_permit := false; cl_phase := Parked;
     cl_state := compiled_edge.1.1.2; cl_dist := compiled_edge.1.1.1; cl_watch := default sentinel compiled_edge.2;
     cl_seen := Some edge_store; cl_written := true |}.

Lemma edge_run : rtc loop_step (loop_start no_store) edge_loop.
Proof.
  eapply rtc_l; [apply (loop_write _ edge_store)|]. eapply rtc_l; [by apply (loop_mark _ 0)|]. eapply rtc_l; [by apply (loop_notify _ 0)|].
  eapply rtc_l; [by apply loop_wake|]. eapply rtc_l; [by apply loop_take|].
  eapply rtc_l; [|apply rtc_refl].
  refine (loop_compile _ listed_order (fun _ => at_time 0) compiled_edge.1.1.1 compiled_edge.1.1.2 compiled_edge.1.2 compiled_edge.2 _ _); [done|].
  reflexivity.
Qed.

Lemma quiet_store_is_compiled_witness : 0 < cc_version (cl_watch edge_loop) /\ reflects edge_loop edge_store.
Proof.
  apply (@quiet_store_is_compiled demo_hash no_store edge_loop edge_run); [|reflexivity].
  split; [reflexivity|]. split; [reflexivity|]. split; reflexivity.
Defined.
End Run.

(** A Gateway without a usable listener has an empty slice, whose fingerprint
    is zero; a report of zero is refused, so no data plane can make such a
    Gateway Programmed, although its slice is recorded. *)
Example empty_slice_is_never_reported :
  let store := route_store {[ demo_gw_key := demo_gateway [] ]} ∅ ∅ ∅ in
  let d := (@iteration demo_hash listed_order store (fun _ => at_time 0) Distribution_new {| lo_version := 0; lo_last_fingerprint := 0 |}).1.1.1 in
  ds_gateway_fingerprints d !! demo_gw_key = Some 0 /\
  report_applied d (at_time 1) {| arp_node_id := "node-1"; arp_fingerprint := 0; arp_version := 1; arp_gateway_namespace := "infra";
                                  arp_gateway_name := "gw" |} = (d, Some InvalidArgument).
Proof. split; vm_compute; reflexivity. Qed.
