(* ===== verification/EndToEnd.v ===== *)
(** * From a Kubernetes object to the data plane that runs it

    The controller and the data plane composed: the store the reconcilers
    write ([Resources]), the loop that compiles it ([CompileLoop]), the slice a
    stream carries ([Scope]) and the receiver that applies it
    ([ConfigReceiver]). *)
From S2P Require Import Prelude Text Net Types Router Auth Keys Http Pool Plan Proto ConfigRoutes Tls ConfigReceiver Resources Hostnames.
From S2P Require Import Policies RouteCompiler PolicyCompiler Compiler Scope Programmed CompileLoop.
From Stdlib Require Import String.
Open Scope Z_scope.

Section EndToEnd.
Context `{WH : WireHash} `{HttpCrate} `{ConfigCrates} `{TlsCrates} {Key : Type}.
Context (hash : list (string * Z) * option HealthCheckConfig -> Z).
Context (parse_set : string -> option (list (Jwk Key))) (gateway : NamespacedName).

Lemma same_adds_foreign gw c d : same_content d c -> adds_foreign gw c d.
Proof. intros []. split; exists []; rewrite app_nil_r; (split; [done|constructor]). Qed.

(** C1: What the controller holds is what the data plane runs.  Once the writers of
    the store are done and the compile loop sleeps, the last item of a
    Gateway's stream is the Gateway's slice of the store as it is, up to the
    order of its lists, and after receiving it a data plane runs that slice,
    whatever it received before; provided that equal fingerprints mean equal
    contents. *)
Theorem store_reaches_data_plane (start : ConfigStore) (l : Loop) (o : IterOrder) (item : CompiledConfig) (messages : list (Z * CompiledConfig))
    (now : Z) (state : ProxyState Key) (s : store) :
  rtc loop_step (loop_start start) l -> quiet l -> cl_written l = true ->
  (forall o' : IterOrder, config_fingerprint o' (@compile_config o' (cl_store l)) = cc_fingerprint (cl_watch l) ->
     same_content (cl_watch l) (@compile_config o' (cl_store l))) ->
  item = stream_item o gateway (cl_watch l) -> cc_fingerprint item <> 0 ->
  (forall n c, (n, c) ∈ messages -> cc_fingerprint c = cc_fingerprint item -> unversioned c = unversioned item) ->
  let '(applied, state', _) :=
    handle_messages hash parse_set (gateway_of gateway) (messages ++ [(now, item)]) (AppliedConfig_default, state) s in
  running hash parse_set (gateway_of gateway) item state' /\ ac_fingerprint applied = cc_fingerprint item /\
  exists o' : IterOrder, same_content item (scope_config o (@compile_config o' (cl_store l)) (gateway_of gateway)).
Proof.
  intros Hr Hq Hw Hid Hitem Hfp Hm. pose proof (loop_inv_runs _ _ Hr (loop_inv_start start)) as I.
  destruct (quiet_compiled _ I Hq Hw) as (Hv & o' & Hf & _).
  destruct (inv_version _ I) as (_ & Hver & Hst). destruct (Hst ltac:(lia)) as (_ & o1 & s1 & Hwatch).
  assert (Hi : item = scope_config o (cl_watch l) (gateway_of gateway)).
  { rewrite Hitem. unfold stream_item. by rewrite (proj2 (Z.eqb_neq _ 0)) by lia. }
  assert (Hver' : cc_version item = cc_version (cl_watch l)) by (by rewrite Hi).
  assert (Hsch : is_schema_compatible (cc_schema_version item) = true) by (rewrite Hi, Hwatch; reflexivity).
  pose proof (last_message_runs hash parse_set (gateway_of gateway) messages now item state s ltac:(lia) Hsch Hfp Hm) as Hrun.
  destruct (handle_messages _ _ _ _ _ s) as [[applied state'] s']. destruct Hrun as [Ha Hrun]. split; [done|]. split; [done|].
  exists o'. rewrite Hi. specialize (Hid o' (eq_sym Hf)).
  pose proof (slice_adds_foreign (gateway_of gateway) _ _ (same_adds_foreign (gateway_of gateway) _ _ Hid)) as []. by split.
Qed.
End EndToEnd.

(** ** A Gateway reaches its data plane *)

(** With one Gateway and no routes the order of a walk does not matter. *)
Lemma edge_routes (o : IterOrder) : @all_http_routes o edge_store = [] /\ @compile_http_routes o edge_store = [] /\ @compile_grpc_routes o edge_store = [].
Proof.
  assert (Ha : @all_http_routes o edge_store = []).
  { unfold all_http_routes, ai_routes_as_http_routes. by rewrite !(@entries_empty o) by done. }
  split; [done|]. unfold compile_http_routes, compile_grpc_routes. rewrite Ha. by rewrite (@entries_empty o) by done.
Qed.

Lemma edge_gateways (o : IterOrder) :
  @entries o _ _ _ _ (st_gateways edge_store) = [(demo_gw_key, demo_gateway [demo_listener "web" 80 None])].
Proof. by apply entries_single. Qed.

Lemma edge_keys (o : IterOrder) : @backend_keys o edge_store = ∅.
Proof.
  destruct (edge_routes o) as (H1 & H2 & H3). unfold backend_keys, http_keys, grpc_keys, policed_routes, tls_keys, l4_keys, federation_keys,
    federation_providers. by rewrite H1, H2, H3, !(@entries_empty o) by done.
Qed.

Lemma edge_any_order (o : IterOrder) : @compile_config o edge_store = @compile_config listed_order edge_store.
Proof.
  assert (Hr : @compile_routes o edge_store = @compile_routes listed_order edge_store).
  { unfold compile_routes, policed_routes. destruct (edge_routes o) as (_ & -> & ->). by destruct (edge_routes listed_order) as (_ & -> & ->). }
  unfold compile_config. rewrite Hr. f_equal.
  - unfold compile_backends. rewrite !edge_keys, elements_empty. by rewrite !iter_small by (simpl; lia).
  - unfold compile_listeners, owned_listeners. by rewrite !edge_gateways, !(@entries_empty o), (@entries_empty listed_order) by done.
  - unfold compile_tls_routes. by rewrite !entries_empty by done.
  - unfold compile_l4_routes, l4_candidates. by rewrite !entries_empty by done.
  - unfold compile_l4_routes, l4_candidates. by rewrite !entries_empty by done.
  - unfold passthrough_hostnames. by rewrite !edge_gateways.
  - unfold compile_gateway_backend_tls. by rewrite !entries_empty by done.
  - unfold compile_mcp_federations, federation_providers. by rewrite !entries_empty by done.
Qed.

Module Sample.
#[local] Existing Instance demo_hash.
#[local] Instance http : HttpCrate := sample_http.
#[local] Instance config_crates : ConfigCrates := ConfigRoutes.Sample.crates.
#[local] Instance tls_crates : TlsCrates := L4.Sample.crates.

Lemma edge_watch : exists v fp, cl_watch edge_loop = with_stamp (@compile_config listed_order edge_store) v fp.
Proof.
  exists (cc_version (cl_watch edge_loop)), (cc_fingerprint (cl_watch edge_loop)). vm_compute. reflexivity.
Qed.

Lemma edge_quiet : quiet edge_loop.
Proof. repeat split. Qed.

Lemma edge_identified (o' : IterOrder) :
  config_fingerprint o' (@compile_config o' (cl_store edge_loop)) = cc_fingerprint (cl_watch edge_loop) ->
  same_content (cl_watch edge_loop) (@compile_config o' (cl_store edge_loop)).
Proof.
  intros _. change (cl_store edge_loop) with edge_store. rewrite (edge_any_order o'). destruct edge_watch as (v & fp & ->). split; reflexivity.
Qed.

Lemma edge_item_nonzero : cc_fingerprint (stream_item listed_order demo_gw_key (cl_watch edge_loop)) <> 0.
Proof. vm_compute. discriminate. Qed.

Lemma store_reaches_data_plane_witness :
  let '(applied, state', _) :=
    handle_messages (fun _ => 0) ConfigReceiver.Sample.parse_none (gateway_of demo_gw_key) ([] ++ [(5, stream_item listed_order demo_gw_key (cl_watch edge_loop))])
      (AppliedConfig_default, ConfigReceiver.Sample.empty_state) ConfigRoutes.Sample.empty_store in
  running (fun _ => 0) ConfigReceiver.Sample.parse_none (gateway_of demo_gw_key) (stream_item listed_order demo_gw_key (cl_watch edge_loop)) state' /\
  ac_fingerprint applied = cc_fingerprint (stream_item listed_order demo_gw_key (cl_watch edge_loop)) /\
  exists o' : IterOrder, same_content (stream_item listed_order demo_gw_key (cl_watch edge_loop)) (scope_config listed_order (@compile_config o' (cl_store edge_loop)) (gateway_of demo_gw_key)).
Proof.
  apply (@store_reaches_data_plane demo_hash http config_crates tls_crates unit (fun _ => 0) ConfigReceiver.Sample.parse_none demo_gw_key
           no_store edge_loop listed_order (stream_item listed_order demo_gw_key (cl_watch edge_loop)) [] 5 ConfigReceiver.Sample.empty_state ConfigRoutes.Sample.empty_store edge_run).
  - exact edge_quiet.
  - reflexivity.
  - exact edge_identified.
  - reflexivity.
  - exact edge_item_nonzero.
  - intros n c Hin. inversion Hin.
Defined.
End Sample.
